(* ===== verification/_CoqProject ===== *)
-Q . S2P
Prelude.v
Utf8.v
LogFiles.v
Logging.v
Delivery.v
Persistence.v
ModuleState.v
Runtime.v
Concurrency.v
Actions.v
Lifecycle.v
Inbound.v
Transport.v
Api.v
Threads.v
Signals.v
SqliteMem.v
Samples.v
Interleaving.v
Termination.v
DisplayInvariant.v
ActionsFacts.v
History.v
Outcomes.v
Restart.v
DeliveryMachine.v
StatusEvents.v
Replay.v
Failures.v
BringUp.v
Shutdown.v
InboundFacts.v
LogSpec.v
LogFaults.v
TextSpec.v
Guarantee.v
Sessions.v
Contract.v
Crash.v
Race.v
SourceTests.v
