(* ===== verification/Prelude.v ===== *)
(** * chat_module: a verification library for [rust-lib/src]

    chat_module is a Logos module: end-to-end encrypted conversations (libchat)
    carried by another module, delivery_module, and kept in [chat.db]. A host calls
    the methods of [chat_module.lidl] from one dispatch thread; delivery_module's
    answers arrive on its own threads; two workers of the module consume
    delivery_module's events ([rust-chat-bridge]) and the chat client's
    ([rust-chat-events]). The state is one [ModuleState] behind the module lock, one
    [Display] behind the display lock, the last preset a node was created with, and
    the statics of the log.

    ** Files and the code they model

    - this file: Rust's [Result], machine integers as [Z] with their wrap-around
      ([as_u64], [as_i64], [usize_add], [usize_sub]), lists, the shared tactics;
    - [Utf8.v]: the parts of Rust's [str] the module uses, lossy decoding included;
    - [LogFiles.v], [Logging.v]: [logging.rs] and [panic_hook.rs]. [LogFiles.v] has
      the names of the run files, pruning and rotation over a file system of names and
      inodes; [Logging.v] the levels, the lines, the subscriber's installation, what an
      event puts on stderr and in the file, and the panic hook;
    - [Delivery.v]: [delivery.rs], topics and the reading of answers;
    - [Persistence.v]: [persistence.rs] and [migrations/001_app_state.sql], with
      SQLite and the message store behind the class [Sqlite] and their documented
      behaviour in [SqliteLaws]; it proves each write atomic;
    - [ModuleState.v], [Runtime.v]: [module.rs]. [ModuleState.v] is the data;
      [Runtime.v] the module handle, the two locks, and [prog], the language of
      accesses, lock operations and outputs the operations are written in, with [run];
    - [Concurrency.v]: several [prog]s as threads, one step at a time ([tstep]);
    - [Actions.v], [Lifecycle.v]: [actions.rs]; each function under its own name, each
      callback given to delivery_module as a definition of its own ([..._answered]);
    - [Inbound.v]: [inbound.rs], both workers;
    - [Transport.v]: [SdkDelivery] of [delivery.rs];
    - [Api.v]: [lib.rs], the methods ([init], [api_...]);
    - [Threads.v]: what runs as a thread, and that all of it keeps the lock discipline;
    - [Signals.v]: what the workers of a session are told, and that a thread joins a
      worker only after telling it to end ([tells]);
    - [SqliteMem.v], [Samples.v]: a database in memory that meets [SqliteLaws], a chat
      client, JSON values and an environment, on which the theorems' instances are
      evaluated.

    ** Specifications and theorems

    - [Sessions.v] (C1): over any number of sessions the module refines the sequence of
      all the events it has raised ([history]): it shows the tail of what they add up to.
    - [Crash.v] (C2): the process lost at any point of any interleaving without a
      [shutdown], with any write failed; the next session only lacks what was not written.
    - [Guarantee.v] (C3): a conversation shared by all that runs, by rely and
      guarantee ([rely], [grants]): it only grows, and events announce what is in it.
      [Race.v] (C37): in every module that is up, a conversation being created can hide a
      message of it.
    - [ActionsFacts.v] (lemmas) and [Outcomes.v] (C6-C11, C13, C14, C40): the outcome of
      each operation on every branch, in terms of the result, the events, what
      [get_messages] shows and what the tables hold; what is deleted stays deleted.
      [synced] is the agreement of the display with [chat.db]: each chat has its row,
      and the messages on display are the newest of those stored.
    - [History.v] (lemmas) and [Restart.v] (C4): [synced] along every sequence of
      requests that reported no failed write ([step]), hence what a restart shows.
    - [Failures.v] (C36): one request after the other when any write may fail ([attempt]). The disk
      then [lags] the display, and a restart only loses what is not written.
    - [Replay.v] (C5): a consumer's copy of the conversations, kept up by the events
      alone ([follow_event]), is what the getters answer ([answers]); and a schedule
      in which two threads' events come in the other order than the history.
    - [Interleaving.v] (C12) and [DisplayInvariant.v] (C18): under every interleaving of
      any number of methods, callbacks and workers there is no deadlock (joins included),
      each access keeps the display well formed, and every event is of the contract's
      types and conventions.
    - [Contract.v] (C17, C19): on disks past sessions left, the display is well formed and
      what the comments of [chat_module.lidl] promise of its records is kept by every
      getter's answer, under every interleaving.
    - [Termination.v] (C15): a bridge told to stop begins at most one more turn; a turn's
      drain ends exactly if its channel is once found empty.
    - [Shutdown.v] (C16): a [shutdown] that returned has outlived its session's workers;
      and what an [init] meets that does not wait for it.
    - [DeliveryMachine.v] (C20, C21): the delivery state as an abstract machine
      ([dmove]) that the code refines. [StatusEvents.v] (C22): its events add up to what
      [status] answers, under every interleaving.
    - [BringUp.v] (C23-C26): [init], first and repeated, refused, and [shutdown].
    - [InboundFacts.v] (C27, C28): what the bridge hands to the client and to
      delivery_module.
    - [TextSpec.v] (C29, C30, C39): answers, log lines, stored and shortened text.
    - [LogFaults.v] (C31, C38): rotation of the log, whatever the system refuses.
    - [LogSpec.v] (C32-C35): rotation and retention of the log, what events
      and panics put in it, the names of its files.
    - [SourceTests.v]: the crate's unit tests, evaluated on the model.

    C36-C38, the second half of C15, and the theorems [rotation_replaces_earlier_runs],
    [rotation_past_999_never_pruned], [opened_run_can_be_pruned],
    [created_node_stays_adopted], [late_answer_after_shutdown], [shutdown_can_undo_init]
    and [event_order_can_differ], state behaviour a reader of the comments would not
    expect.

    "Requests made one after another" (C1, C4, C5, C17, C19) are those of [step]: each
    whole before the next, none reporting a failed write, libchat naming each new
    conversation apart from those on display. Where calls may overlap the statement says
    so (every interleaving), and where writes may fail too (C2, C6-C11, C13, C14, C36, C40).

    ** Choices

    - A call out of the repository (SQLite, libchat, delivery_module, the host, the
      file system, the clock, JSON values, [EnvFilter]) is an argument: an operation
      of a class, or the answer it gave. Worker loops run over the list of what their
      channels hand them, so they need no fuel, and [Termination.v] runs the bridge's
      turns, and a drain, on endless streams; no other recursion is unbounded.
      [LOADED_PER_CHAT], [SEEN_CAPACITY], [ROTATE_AFTER_LINES] and [KEEP_RUNS] are the
      code's own bounds.
    - [SqliteLaws] says of a failed statement that it changed nothing. SQLite may also roll
      back the transaction it is in (a full disk, an I/O error); the code then drops the
      transaction anyway, and what the theorems use, that a write is whole or absent, is
      the same.
    - [HashMap] is [gmap]; what comes out of one in no particular order is stated up to
      permutation. [u64], [i64], [u32] and [usize] (64 bits) wrap as they do in a
      release build.
    - [run] executes a program alone; [tstep] interleaves at each access and each lock
      operation. An access to a locked record is one step, as the lock makes it.
    - The calls [initialize] makes before it touches the display are functions of the
      environment ([InitEnv]). Each [initialize] starts a session of its own, with its
      stop flag and its client's event channel ([w_signals]); [ms_inbound_stop] is the
      session's number. A worker's input is the finite list of what it is handed in the
      execution looked at; at its end the worker waits, and [Join] goes on only when it
      was told to end as well ([joinable]). A [drain] takes what [try_recv] hands out up to
      the first answer that is no event, a finite list; a channel that is never found
      empty, which would keep the bridge in its drain, is [drain_step] of [Termination.v].
      [initialize] keeps the handles of the workers it spawns; the workers are threads of
      the pool ([EBridge], [EEvents]).
    - A lock poisoned by a panic is modelled where the code answers it
      ([ERR_LOCK_POISONED], [Internal]); panics themselves abort the process
      ([panic = "abort"]) and are not executions.

    ** Not modelled

    The scaffold generated from [chat_module.lidl] (dispatch, event marshalling, the
    delivery_module client and its decoders), the account services
    [register_installation] calls ([account_services]) and the client builder, the
    spawning and naming of threads and their 50 ms poll, which events [EnvFilter] lets
    through and how [tracing] writes an event's fields, the backtrace of a panic, the
    build files, the documentation generator and the end-to-end tests. Of the unit
    tests, those of the migrations, of the encryption of [chat.db] and of
    [EnvFilter]'s parser are other crates' work. *)
From stdpp Require Export prelude strings pretty list gmap.

(** ** Notations *)
Declare Scope chat_scope.
Delimit Scope chat_scope with chat.
Open Scope chat_scope.

(** ** Rust's [Result] *)
Inductive result (A E : Type) : Type :=
| Ok (a : A)
| Err (e : E).
Arguments Ok {A E} a.
Arguments Err {A E} e.

#[export] Instance result_eq_dec {A E} `{!EqDecision A, !EqDecision E} :
  EqDecision (result A E).
Proof. solve_decision. Defined.

Definition map_err {A E F} (f : E → F) (r : result A E) : result A F :=
  match r with Ok a => Ok a | Err e => Err (f e) end.

Definition map_ok {A B E} (f : A → B) (r : result A E) : result B E :=
  match r with Ok a => Ok (f a) | Err e => Err e end.

(** Rust's [Option::ok_or]. *)
Definition ok_or {A E} (o : option A) (e : E) : result A E :=
  match o with Some a => Ok a | None => Err e end.

(** Rust's [?] on a pure result. *)
Definition and_then {A B E} (r : result A E) (k : A → result B E) : result B E :=
  match r with Ok a => k a | Err e => Err e end.
Notation "x ←? r ; k" := (and_then r (λ x, k))
  (at level 20, r at level 100, k at level 200, only parsing) : chat_scope.
Notation "' x ←? r ; k" := (and_then r (λ x : _, k))
  (at level 20, x pattern, r at level 100, k at level 200, only parsing)
  : chat_scope.

Definition is_ok {A E} (r : result A E) : bool :=
  match r with Ok _ => true | Err _ => false end.

(** Collecting an iterator of results ([collect::<Result<Vec<_>, _>>()]): the
    first error wins. *)
Fixpoint collect_results {A E} (l : list (result A E)) : result (list A) E :=
  match l with
  | [] => Ok []
  | Err e :: _ => Err e
  | Ok a :: l' => r ←? collect_results l'; Ok (a :: r)
  end.

(** ** Machine integers: a [w]-bit integer is a [Z] with its wrap-around *)
Section integers.
Local Open Scope Z_scope.
Definition u64_max_plus_1 : Z := 18446744073709551616.
Definition i64_max_plus_1 : Z := 9223372036854775808.

(** [x as u64] and [x as usize] (64-bit targets). *)
Definition as_u64 (z : Z) : Z := z mod u64_max_plus_1.
(** [x as i64]: two's complement. *)
Definition as_i64 (z : Z) : Z :=
  let m := z mod u64_max_plus_1 in
  if m <? i64_max_plus_1 then m else m - u64_max_plus_1.
Definition usize_add (a b : Z) : Z := as_u64 (a + b).
Definition usize_sub (a b : Z) : Z := as_u64 (a - b).

Definition in_u64 (z : Z) : Prop := 0 <= z < u64_max_plus_1.
Definition in_i64 (z : Z) : Prop := - i64_max_plus_1 <= z < i64_max_plus_1.

Lemma as_u64_range z : in_u64 (as_u64 z).
Proof. unfold in_u64, as_u64, u64_max_plus_1. apply Z.mod_pos_bound. lia. Qed.

Lemma as_i64_range z : in_i64 (as_i64 z).
Proof.
  unfold in_i64, as_i64. pose proof (as_u64_range z) as H.
  unfold in_u64, as_u64 in H. unfold i64_max_plus_1, u64_max_plus_1 in *.
  destruct (Z.ltb_spec (z mod 18446744073709551616) 9223372036854775808); lia.
Qed.

Lemma as_u64_id z : in_u64 z → as_u64 z = z.
Proof. intros H. by apply Z.mod_small. Qed.

(** Casting to [i64] and back is the identity on every [u64]. *)
Lemma as_u64_as_i64 z : in_u64 z → as_u64 (as_i64 z) = z.
Proof.
  intros H. unfold as_i64. fold (as_u64 z). rewrite (as_u64_id z H).
  unfold in_u64, as_u64, i64_max_plus_1, u64_max_plus_1 in *.
  destruct (Z.ltb_spec z 9223372036854775808).
  - apply Z.mod_small. lia.
  - symmetry. apply (Z.mod_unique _ _ (-1)); lia.
Qed.

Lemma as_i64_as_u64 z : as_i64 (as_u64 z) = as_i64 z.
Proof. unfold as_i64, as_u64. by rewrite Z.mod_mod. Qed.

Lemma as_i64_id z : 0 <= z < i64_max_plus_1 → as_i64 z = z.
Proof.
  intros H. unfold as_i64, i64_max_plus_1, u64_max_plus_1 in *.
  rewrite Z.mod_small by lia. destruct (Z.ltb_spec z 9223372036854775808); lia.
Qed.
End integers.

(** ** Automation *)
Create HintDb chat discriminated.
Create Rewrite HintDb chat.
#[export] Hint Resolve as_u64_range as_i64_range : chat.

(** Case analysis on the scrutinee of the code's [match]es and [if]s, with the
    impossible branches discharged. *)
Ltac split_matches :=
  repeat (simplify_eq/=; try done; case_match); simplify_eq/=; try done.

(** ** Lists *)
Section lists.
Context {A : Type}.
Implicit Types (l : list A).

(** The newest [n] elements of a list kept oldest first. *)
Definition last_n (n : nat) l : list A := drop (length l - n) l.

Lemma last_n_length n l : length (last_n n l) = n `min` length l.
Proof. unfold last_n. rewrite length_drop. lia. Qed.

Lemma last_n_all n l : length l ≤ n → last_n n l = l.
Proof. intros H. unfold last_n. by replace (length l - n) with 0 by lia. Qed.

Lemma last_n_app_full n l k : length k = n → last_n n (l ++ k) = k.
Proof.
  intros <-. unfold last_n. rewrite length_app.
  replace (length l + length k - length k) with (length l) by lia.
  apply drop_app_length.
Qed.

Lemma last_n_suffix n l : last_n n l `suffix_of` l.
Proof. exists (take (length l - n) l). symmetry. apply take_drop. Qed.

Lemma last_n_idemp n l k : last_n n (last_n n l ++ k) = last_n n (l ++ k).
Proof.
  unfold last_n. rewrite !length_app, length_drop.
  destruct (decide (n ≤ length l)).
  - replace (length l - (length l - n) + length k - n) with (length k) by lia.
    replace (length l + length k - n) with ((length l - n) + length k) by lia.
    rewrite <-drop_drop. f_equal.
    destruct (decide (length k ≤ n)).
    + rewrite drop_app_le by lia. done.
    + rewrite drop_app_le by lia. done.
  - replace (length l - n) with 0 by lia. rewrite drop_0.
    by replace (length l - 0 + length k - n) with (length l + length k - n) by lia.
Qed.

Lemma list_filter_all (P : A → Prop) `{!∀ x, Decision (P x)} l :
  Forall P l → filter P l = l.
Proof.
  induction 1 as [|x l Hx _ IH]; [done|]. by rewrite filter_cons_True, IH.
Qed.

Lemma list_filter_none (P : A → Prop) `{!∀ x, Decision (P x)} l :
  Forall (λ x, ¬ P x) l → filter P l = [].
Proof.
  induction 1 as [|x l Hx _ IH]; [done|]. by rewrite filter_cons_False.
Qed.
End lists.
