(* ===== verification/Utf8.v ===== *)
(** * UTF-8 text as Rust's standard library reads it

    A Rust [String] is a [string] whose bytes are valid UTF-8, a [&[u8]] is a
    [list ascii]. This file models the parts of the standard library the module
    leans on: [String::from_utf8_lossy] (every decrypted payload passes through
    it), [str::chars] and [str::char_indices] (previews and short labels).
    [pieces] follows the decoder behind [Utf8Chunks]: it cuts a byte string into
    valid characters and maximal invalid sequences. *)
From S2P Require Import Prelude.
From Stdlib Require Import Ascii.

Local Open Scope N_scope.

Definition byte_val (a : ascii) : N := N_of_ascii a.

(** A continuation byte, [10xxxxxx]. *)
Definition is_cont (a : ascii) : bool := (128 <=? byte_val a) && (byte_val a <? 192).

Definition in_range (lo hi : N) (a : ascii) : bool :=
  (lo <=? byte_val a) && (byte_val a <=? hi).

(** The width of a character by its first byte; 0 for a byte that starts none. *)
Definition utf8_char_width (a : ascii) : nat :=
  let b := byte_val a in
  if b <? 128 then 1%nat
  else if b <? 194 then 0%nat
  else if b <? 224 then 2%nat
  else if b <? 240 then 3%nat
  else if b <? 245 then 4%nat
  else 0%nat.

(** The second byte of a three-byte character: no overlong form, no surrogate. *)
Definition second_of_3 (a b : ascii) : bool :=
  if byte_val a =? 224 then in_range 160 191 b
  else if byte_val a =? 237 then in_range 128 159 b
  else in_range 128 191 b.

(** The second byte of a four-byte character: no overlong form, nothing past
    U+10FFFF. *)
Definition second_of_4 (a b : ascii) : bool :=
  if byte_val a =? 240 then in_range 144 191 b
  else if byte_val a =? 244 then in_range 128 143 b
  else in_range 128 191 b.

Local Open Scope nat_scope.

(** The characters and the maximal invalid sequences of a byte string, in
    order; the flag tells them apart. *)
Fixpoint pieces (s : list ascii) : list (bool * list ascii) :=
  match s with
  | [] => []
  | a :: s1 =>
      match utf8_char_width a with
      | 1 => (true, [a]) :: pieces s1
      | 2 =>
          match s1 with
          | b :: s2 =>
              if is_cont b then (true, [a; b]) :: pieces s2
              else (false, [a]) :: pieces s1
          | [] => [(false, [a])]
          end
      | 3 =>
          match s1 with
          | b :: s2 =>
              if second_of_3 a b then
                match s2 with
                | c :: s3 =>
                    if is_cont c then (true, [a; b; c]) :: pieces s3
                    else (false, [a; b]) :: pieces s2
                | [] => [(false, [a; b])]
                end
              else (false, [a]) :: pieces s1
          | [] => [(false, [a])]
          end
      | 4 =>
          match s1 with
          | b :: s2 =>
              if second_of_4 a b then
                match s2 with
                | c :: s3 =>
                    if is_cont c then
                      match s3 with
                      | d :: s4 =>
                          if is_cont d then (true, [a; b; c; d]) :: pieces s4
                          else (false, [a; b; c]) :: pieces s3
                      | [] => [(false, [a; b; c])]
                      end
                    else (false, [a; b]) :: pieces s2
                | [] => [(false, [a; b])]
                end
              else (false, [a]) :: pieces s1
          | [] => [(false, [a])]
          end
      | _ => (false, [a]) :: pieces s1
      end
  end.

(** [str::from_utf8(s).is_ok()]. *)
Definition utf8_valid (s : list ascii) : bool := forallb fst (pieces s).

(** U+FFFD in UTF-8. *)
Definition REPLACEMENT : list ascii :=
  [ascii_of_N 239; ascii_of_N 191; ascii_of_N 189].

Definition lossy_piece (p : bool * list ascii) : list ascii :=
  if fst p then snd p else REPLACEMENT.

Definition lossy_bytes (s : list ascii) : list ascii :=
  concat (map lossy_piece (pieces s)).

(** [String::from_utf8_lossy(s).into_owned()]. *)
Definition from_utf8_lossy (s : list ascii) : string :=
  String.string_of_list_ascii (lossy_bytes s).

(** [s.as_bytes()]. *)
Definition as_bytes (s : string) : list ascii := String.list_ascii_of_string s.

(** [str::len], which counts bytes. *)
Definition str_len (s : string) : nat := length (as_bytes s).

(** What every [String] and [&str] of the source satisfies. *)
Definition is_str (s : string) : bool := utf8_valid (as_bytes s).

(** [s.chars()], each character as its bytes. *)
Definition chars (s : string) : list (list ascii) := map snd (pieces (as_bytes s)).

(** The offsets [s.char_indices()] pairs its characters with. *)
Fixpoint char_offsets (i : nat) (cs : list (list ascii)) : list nat :=
  match cs with
  | [] => []
  | c :: cs' => i :: char_offsets (i + length c) cs'
  end.
Definition char_indices (s : string) : list nat := char_offsets 0 (chars s).

(** [&s[..end]]; [end] past the last byte or inside a character panics in Rust,
    so the users below show it is one of [char_indices s] or the length. *)
Definition str_prefix (s : string) (e : nat) : string :=
  String.string_of_list_ascii (take e (as_bytes s)).

(** [s.chars().take(n).collect::<String>()]. *)
Definition take_chars (n : nat) (s : string) : string :=
  String.string_of_list_ascii (concat (take n (chars s))).

(** ** Lemmas *)

Lemma as_bytes_of_list l : as_bytes (String.string_of_list_ascii l) = l.
Proof. apply String.list_ascii_of_string_of_list_ascii. Qed.

Lemma of_list_as_bytes s : String.string_of_list_ascii (as_bytes s) = s.
Proof. apply String.string_of_list_ascii_of_string. Qed.
#[export] Hint Rewrite as_bytes_of_list of_list_as_bytes : chat.

(** Induction on the length, which is what the decoder's jumps take. *)
Lemma bytes_ind (P : list ascii → Prop) :
  (∀ s, (∀ s', length s' < length s → P s') → P s) → ∀ s, P s.
Proof.
  intros IH s. remember (length s) as n eqn:Hn. revert s Hn.
  induction n as [n IHn] using lt_wf_ind. intros s ->.
  apply IH. intros s' Hlt. by eapply IHn.
Qed.

(** One decoding step: the first piece and what is left. *)
Definition next_piece (a : ascii) (s1 : list ascii)
    : (bool * list ascii) * list ascii :=
  match utf8_char_width a, s1 with
  | 1, _ => ((true, [a]), s1)
  | 2, b :: s2 =>
      if is_cont b then ((true, [a; b]), s2) else ((false, [a]), s1)
  | 3, b :: s2 =>
      if second_of_3 a b then
        match s2 with
        | c :: s3 =>
            if is_cont c then ((true, [a; b; c]), s3) else ((false, [a; b]), s2)
        | [] => ((false, [a; b]), [])
        end
      else ((false, [a]), s1)
  | 4, b :: s2 =>
      if second_of_4 a b then
        match s2 with
        | c :: s3 =>
            if is_cont c then
              match s3 with
              | d :: s4 =>
                  if is_cont d then ((true, [a; b; c; d]), s4)
                  else ((false, [a; b; c]), s3)
              | [] => ((false, [a; b; c]), [])
              end
            else ((false, [a; b]), s2)
        | [] => ((false, [a; b]), [])
        end
      else ((false, [a]), s1)
  | _, _ => ((false, [a]), s1)
  end.

Ltac next_piece_cases a s1 :=
  unfold next_piece;
  destruct (utf8_char_width a) as [|[|[|[|[|]]]]] eqn:?;
  destruct s1 as [|b [|c [|d s1]]];
  repeat match goal with
         | |- context [is_cont ?x] => destruct (is_cont x) eqn:?
         | |- context [second_of_3 ?x ?y] => destruct (second_of_3 x y) eqn:?
         | |- context [second_of_4 ?x ?y] => destruct (second_of_4 x y) eqn:?
         end.

Lemma pieces_cons a s1 :
  pieces (a :: s1) = (next_piece a s1).1 :: pieces (next_piece a s1).2.
Proof.
  change (pieces (a :: s1)) with
    ltac:(let t := eval cbv beta iota fix delta [pieces] in (pieces (a :: s1)) in
          exact t).
  fold pieces. next_piece_cases a s1; reflexivity.
Qed.

Lemma next_piece_split a s1 :
  (next_piece a s1).1.2 ++ (next_piece a s1).2 = a :: s1.
Proof. next_piece_cases a s1; reflexivity. Qed.

Lemma next_piece_nonempty a s1 : (next_piece a s1).1.2 ≠ [].
Proof. next_piece_cases a s1; done. Qed.

Lemma next_piece_shorter a s1 : length (next_piece a s1).2 < length (a :: s1).
Proof.
  rewrite <-(next_piece_split a s1), length_app.
  pose proof (next_piece_nonempty a s1).
  destruct (next_piece a s1).1.2; cbn; [done|lia].
Qed.

(** Induction along the decoder. *)
Lemma pieces_ind (P : list ascii → Prop) :
  P [] → (∀ a s, P (next_piece a s).2 → P (a :: s)) → ∀ s, P s.
Proof.
  intros Hnil Hcons s. induction s as [s IH] using bytes_ind.
  destruct s as [|a s]; [done|]. apply Hcons, IH, next_piece_shorter.
Qed.

Lemma pieces_concat s : concat (map snd (pieces s)) = s.
Proof.
  induction s as [|a s IH] using pieces_ind; [done|].
  rewrite pieces_cons. cbn. by rewrite IH, next_piece_split.
Qed.

Lemma pieces_nonempty s x : x ∈ pieces s → x.2 ≠ [].
Proof.
  induction s as [|a s IH] using pieces_ind; [by intros ?%elem_of_nil|].
  rewrite pieces_cons, elem_of_cons. intros [->|Hin]; [|by apply IH].
  apply next_piece_nonempty.
Qed.

(** One valid character. *)
Definition is_char (p : list ascii) : Prop := pieces p = [(true, p)].

(** Decoding a valid piece does not look past it. *)
Lemma next_piece_local a s1 :
  (next_piece a s1).1.1 = true →
  ∃ r, (next_piece a s1).1.2 = a :: r ∧
       ∀ s, next_piece a (r ++ s) = ((true, a :: r), s).
Proof.
  next_piece_cases a s1; try done; intros _; eexists; (split; [reflexivity|]);
    intros s; cbn [app]; unfold next_piece;
    repeat match goal with H : _ = _ |- _ => rewrite H end; done.
Qed.

Lemma is_char_next p : is_char p ↔ ∃ a r, p = a :: r ∧ next_piece a r = ((true, p), []).
Proof.
  unfold is_char. split.
  - destruct p as [|a r]; [done|]. rewrite pieces_cons. intros [= Hp Hr].
    exists a, r. split; [done|].
    destruct (next_piece a r) as [x rest] eqn:Hn. cbn in *. subst x. f_equal.
    pose proof (next_piece_split a r) as Hs. rewrite Hn in Hs. cbn in Hs.
    destruct rest as [|b rest]; [done|]. exfalso.
    apply (f_equal length) in Hs. cbn in Hs. rewrite length_app in Hs. cbn in Hs. lia.
  - intros (a & r & -> & Hn). rewrite pieces_cons, Hn. done.
Qed.

Lemma pieces_char_app p s : is_char p → pieces (p ++ s) = (true, p) :: pieces s.
Proof.
  intros (a & r & -> & Hn)%is_char_next. cbn [app]. rewrite pieces_cons.
  destruct (next_piece_local a r) as (r' & Hr' & Hloc); [by rewrite Hn|].
  rewrite Hn in Hr'. cbn in Hr'. injection Hr' as ->. by rewrite Hloc.
Qed.

Lemma pieces_are_chars s x : x ∈ pieces s → x.1 = true → is_char x.2.
Proof.
  induction s as [|a s IH] using pieces_ind; [by intros ?%elem_of_nil|].
  rewrite pieces_cons, elem_of_cons. intros [->|Hin] Hx; [|by apply IH].
  apply is_char_next.
  destruct (next_piece_local a s Hx) as (r & Hr & Hloc). rewrite Hr.
  exists a, r. split; [done|]. rewrite <-(app_nil_r r) at 1. apply Hloc.
Qed.

Lemma replacement_is_char : is_char REPLACEMENT.
Proof. reflexivity. Qed.

(** Decoding a sequence of valid characters gives those characters. *)
Lemma pieces_chars cs :
  Forall is_char cs → pieces (concat cs) = map (pair true) cs.
Proof.
  induction 1 as [|c cs Hc _ IH]; [done|]. cbn. by rewrite pieces_char_app, IH.
Qed.

Lemma utf8_valid_chars cs : Forall is_char cs → utf8_valid (concat cs) = true.
Proof.
  intros H. unfold utf8_valid. rewrite pieces_chars by done.
  induction cs; [done|]. cbn. apply IHcs. by inversion H.
Qed.

Lemma valid_pieces s :
  utf8_valid s = true → pieces s = map (pair true) (map snd (pieces s)).
Proof.
  unfold utf8_valid. induction (pieces s) as [|[f p] l IH]; [done|].
  cbn. intros [-> Hl]%andb_true_iff. by rewrite <-IH.
Qed.

Lemma valid_chars s : utf8_valid s = true → Forall is_char (map snd (pieces s)).
Proof.
  intros Hv. apply Forall_forall. intros c Hc.
  apply (pieces_are_chars s (true, c)); [|done].
  rewrite (valid_pieces s Hv). by apply list_elem_of_fmap_2.
Qed.

(** *** [from_utf8_lossy] *)
Lemma lossy_pieces_chars s : Forall is_char (map lossy_piece (pieces s)).
Proof.
  apply Forall_forall. intros c (x & -> & Hx)%list_elem_of_fmap.
  unfold lossy_piece. destruct x.1 eqn:E; [|apply replacement_is_char].
  by apply (pieces_are_chars s x).
Qed.

Lemma from_utf8_lossy_is_str s : is_str (from_utf8_lossy s) = true.
Proof.
  unfold is_str, from_utf8_lossy, lossy_bytes. rewrite as_bytes_of_list.
  apply utf8_valid_chars, lossy_pieces_chars.
Qed.

Lemma lossy_bytes_valid s : utf8_valid s = true → lossy_bytes s = s.
Proof.
  intros Hv. unfold lossy_bytes. rewrite (valid_pieces s Hv), map_map. cbn.
  rewrite map_id. apply pieces_concat.
Qed.

Lemma from_utf8_lossy_as_bytes s :
  is_str s = true → from_utf8_lossy (as_bytes s) = s.
Proof.
  intros Hv. unfold from_utf8_lossy. rewrite lossy_bytes_valid by done.
  apply of_list_as_bytes.
Qed.

(** *** Character-bounded prefixes *)
Lemma chars_concat s : concat (chars s) = as_bytes s.
Proof. apply pieces_concat. Qed.

Lemma chars_of_concat cs :
  Forall is_char cs → chars (String.string_of_list_ascii (concat cs)) = cs.
Proof.
  intros H. unfold chars. rewrite as_bytes_of_list, pieces_chars by done.
  rewrite map_map. apply map_id.
Qed.

Lemma chars_take_chars n s :
  is_str s = true → chars (take_chars n s) = take n (chars s).
Proof.
  intros H. unfold take_chars. apply chars_of_concat, Forall_take, valid_chars, H.
Qed.

Lemma take_chars_is_str n s : is_str s = true → is_str (take_chars n s) = true.
Proof.
  intros H. unfold is_str, take_chars. rewrite as_bytes_of_list.
  apply utf8_valid_chars, Forall_take, valid_chars, H.
Qed.

Lemma take_chars_all n s : length (chars s) ≤ n → take_chars n s = s.
Proof.
  intros H. unfold take_chars. rewrite take_ge by done.
  by rewrite chars_concat, of_list_as_bytes.
Qed.

Lemma take_chars_prefix n s : as_bytes (take_chars n s) `prefix_of` as_bytes s.
Proof.
  unfold take_chars. rewrite as_bytes_of_list. exists (concat (drop n (chars s))).
  by rewrite <-concat_app, take_drop, chars_concat.
Qed.

Lemma char_offsets_nth i cs n :
  char_offsets i cs !! n =
    if decide (n < length cs) then Some (i + length (concat (take n cs))) else None.
Proof.
  revert i n. induction cs as [|c cs IH]; intros i [|n]; cbn; try done.
  - by rewrite Nat.add_0_r.
  - rewrite IH. repeat case_decide; try lia; [|done].
    f_equal. rewrite length_app. lia.
Qed.

(** The byte offset of the [n]-th character cuts after [n] characters. *)
Lemma str_prefix_char_indices n s :
  str_prefix s (default (str_len s) (char_indices s !! n)) = take_chars n s.
Proof.
  unfold str_prefix, take_chars, char_indices, str_len. f_equal.
  rewrite char_offsets_nth. rewrite <-chars_concat.
  case_decide as Hn; cbn [default from_option].
  - rewrite <-(take_drop n (chars s)) at 2. rewrite concat_app. apply take_app_length.
  - rewrite take_ge by done. by rewrite take_ge by lia.
Qed.

(** ** Slicing and searching text *)

(** [s.strip_prefix(p)]. *)
Definition str_strip_prefix (s p : string) : option string :=
  if decide (take (str_len p) (as_bytes s) = as_bytes p)
  then Some (String.string_of_list_ascii (drop (str_len p) (as_bytes s)))
  else None.

(** [s.starts_with(p)]. *)
Definition starts_with (s p : string) : bool :=
  bool_decide (take (str_len p) (as_bytes s) = as_bytes p).

(** [s.ends_with(p)]. *)
Definition ends_with (s p : string) : bool :=
  bool_decide (drop (str_len s - str_len p) (as_bytes s) = as_bytes p).

(** [s.is_char_boundary(i)]. *)
Definition is_char_boundary (s : string) (i : nat) : bool :=
  (i =? 0) || (i =? str_len s) ||
  match as_bytes s !! i with Some b => negb (is_cont b) | None => false end.

(** [s.get(..n)], which is [None] out of range or inside a character. *)
Definition str_get_to (s : string) (n : nat) : option string :=
  if is_char_boundary s n then Some (str_prefix s n) else None.

(** [&s[n..]]; only taken at an offset [str_get_to] accepted. *)
Definition str_suffix (s : string) (n : nat) : string :=
  String.string_of_list_ascii (drop n (as_bytes s)).

(** [s.split_once(c)] for an ASCII [c]. *)
Fixpoint split_once_b (c : ascii) (l : list ascii)
    : option (list ascii * list ascii) :=
  match l with
  | [] => None
  | a :: l' =>
      if decide (a = c) then Some ([], l')
      else match split_once_b c l' with
           | Some (x, y) => Some (a :: x, y)
           | None => None
           end
  end.
Definition split_once (c : ascii) (s : string) : option (string * string) :=
  match split_once_b c (as_bytes s) with
  | Some (x, y) =>
      Some (String.string_of_list_ascii x, String.string_of_list_ascii y)
  | None => None
  end.

(** [u8::is_ascii_digit]. *)
Definition is_ascii_digit (a : ascii) : bool := in_range 48 57 a.

(** String equality as a test. *)
Definition str_eqb (s t : string) : bool := bool_decide (s = t).

Lemma as_bytes_app s t : as_bytes (s +:+ t) = as_bytes s ++ as_bytes t.
Proof.
  unfold as_bytes. induction s as [|a s IH]; [done|].
  change (a :: as_bytes (s +:+ t) = a :: (as_bytes s ++ as_bytes t)). f_equal. exact IH.
Qed.

Lemma str_len_app s t : str_len (s +:+ t) = str_len s + str_len t.
Proof. unfold str_len. by rewrite as_bytes_app, length_app. Qed.

#[export] Instance as_bytes_inj : Inj (=) (=) as_bytes.
Proof. intros s t H. rewrite <-(of_list_as_bytes s), <-(of_list_as_bytes t). by rewrite H. Qed.

#[export] Instance of_list_inj : Inj (=) (=) String.string_of_list_ascii.
Proof. intros s t H. rewrite <-(as_bytes_of_list s), <-(as_bytes_of_list t). by rewrite H. Qed.

Lemma of_list_app x y :
  String.string_of_list_ascii (x ++ y) =
  String.string_of_list_ascii x +:+ String.string_of_list_ascii y.
Proof.
  apply (inj as_bytes). by rewrite as_bytes_app, !as_bytes_of_list.
Qed.

Lemma str_strip_prefix_Some s p r : str_strip_prefix s p = Some r ↔ s = p +:+ r.
Proof.
  unfold str_strip_prefix, str_len. split.
  - case_decide as H; [|done]. intros [= <-]. apply (inj as_bytes).
    rewrite as_bytes_app, as_bytes_of_list.
    rewrite <-(take_drop (length (as_bytes p)) (as_bytes s)) at 1. by rewrite H.
  - intros ->. rewrite as_bytes_app, take_app_length, decide_True by done.
    by rewrite drop_app_length, of_list_as_bytes.
Qed.

Lemma split_once_b_Some c l x y :
  split_once_b c l = Some (x, y) ↔ l = x ++ c :: y ∧ c ∉ x.
Proof.
  revert x. induction l as [|a l IH]; intros x; cbn.
  { split; [done|]. intros [H _]. by destruct x. }
  case_decide as Ha; subst.
  - split.
    + intros [= <- <-]. split; [done|]. apply not_elem_of_nil.
    + intros [H Hc]. destruct x as [|b x]; [by injection H as ->|]. injection H as -> ->.
      destruct Hc. by left.
  - destruct (split_once_b c l) as [[x' y']|] eqn:E.
    + split.
      * intros [= <- <-]. destruct (proj1 (IH x') eq_refl) as [-> Hc].
        split; [done|]. rewrite elem_of_cons. by intros [->|?].
      * intros [H Hc]. destruct x as [|b x]; [cbn in H; congruence|]. injection H as -> ->.
        rewrite not_elem_of_cons in Hc. destruct Hc as [_ Hc].
        assert (Some (x', y') = Some (x, y)) as [= -> ->]; [|done].
        by apply IH.
    + split; [done|]. intros [H Hc]. destruct x as [|b x]; [cbn in H; congruence|]. injection H as -> ->.
      rewrite not_elem_of_cons in Hc. destruct Hc as [_ Hc].
      assert (None = Some (x, y)); [|done]. by apply IH.
Qed.

Lemma split_once_Some c s x y :
  split_once c s = Some (x, y) ↔
  s = x +:+ String.String c y ∧ c ∉ as_bytes x.
Proof.
  unfold split_once. split.
  - destruct (split_once_b c (as_bytes s)) as [[x' y']|] eqn:E; [|done].
    intros [= <- <-]. apply split_once_b_Some in E as [E Hc].
    split; [|by rewrite as_bytes_of_list]. apply (inj as_bytes).
    rewrite E, as_bytes_app, as_bytes_of_list. f_equal.
    change (c :: y' = c :: as_bytes (String.string_of_list_ascii y')).
    by rewrite as_bytes_of_list.
  - intros [-> Hc].
    assert (split_once_b c (as_bytes (x +:+ String.String c y))
            = Some (as_bytes x, as_bytes y)) as ->.
    { apply split_once_b_Some. split; [|done]. by rewrite as_bytes_app. }
    by rewrite !of_list_as_bytes.
Qed.

Lemma str_prefix_suffix n s : str_prefix s n +:+ str_suffix s n = s.
Proof.
  apply (inj as_bytes). unfold str_prefix, str_suffix.
  rewrite as_bytes_app, !as_bytes_of_list. apply take_drop.
Qed.

Lemma str_prefix_app s t : str_prefix (s +:+ t) (str_len s) = s.
Proof.
  apply (inj as_bytes). unfold str_prefix, str_len.
  by rewrite as_bytes_of_list, as_bytes_app, take_app_length.
Qed.

Lemma str_suffix_app s t : str_suffix (s +:+ t) (str_len s) = t.
Proof.
  apply (inj as_bytes). unfold str_suffix, str_len.
  by rewrite as_bytes_of_list, as_bytes_app, drop_app_length.
Qed.

(** [get(..n)] at an offset followed by an ASCII byte. *)
Lemma str_get_to_app s t a :
  as_bytes t !! 0 = Some a → is_cont a = false →
  str_get_to (s +:+ t) (str_len s) = Some s.
Proof.
  intros Ht Ha. unfold str_get_to, is_char_boundary.
  rewrite as_bytes_app, lookup_app_r by (unfold str_len; lia).
  unfold str_len at 3. rewrite Nat.sub_diag, Ht, Ha. cbn.
  rewrite !orb_true_r. by rewrite str_prefix_app.
Qed.

Lemma str_app_assoc (s t u : string) : (s +:+ t) +:+ u = s +:+ (t +:+ u).
Proof. apply (inj as_bytes). by rewrite !as_bytes_app, app_assoc. Qed.

Lemma starts_with_app s p : starts_with (p +:+ s) p = true.
Proof.
  unfold starts_with, str_len. rewrite as_bytes_app, take_app_length.
  by apply bool_decide_eq_true.
Qed.
