(* ===== verification/LogFiles.v ===== *)
(** * The run's log files ([logging.rs], the run-log half)

    Which names belong to this module ([stamp_of], [is_run_suffix]), which runs
    are deleted at start-up ([prune_runs]) and how the file being written is
    rotated ([OpenLog::append], [OpenLog::rotate]). The file system is a
    directory of names over inodes, so that a rename and an open handle on the
    renamed file are told apart; which system calls succeed is an argument. *)
From S2P Require Import Prelude Utf8.
From stdpp Require Import sorting.
From Stdlib Require Import Ascii.

Local Open Scope string_scope.
Local Open Scope nat_scope.
Local Open Scope list_scope.

Definition STEM : string := "chat_module".
(** Eight date digits, a separator, six time digits. *)
Definition STAMP_LEN : nat := 15.
Definition ROTATE_AFTER_LINES : Z := 10000.
Definition KEEP_RUNS : nat := 10.

(** ** Names *)

Definition all_digits (part : string) : bool := forallb is_ascii_digit (as_bytes part).

(** Whether what follows a stamp names the file being written ([.log]) or one
    of its rotations ([.NNN.log]). *)
Definition is_run_suffix (suffix : string) : bool :=
  if str_eqb suffix ".log" then true
  else
    let bytes := as_bytes suffix in
    (length bytes =? str_len ".000.log")
    && bool_decide (bytes !! 0 = Some ("."%char))
    && ends_with suffix ".log"
    && forallb is_ascii_digit (take 3 (drop 1 bytes)).

(** The stamp a run file's name carries, or [None] when the name is not one of
    this module's. *)
Definition stamp_of (file_name : string) : option string :=
  rest ← str_strip_prefix file_name STEM;
  rest ← str_strip_prefix rest "_";
  stamp ← str_get_to rest STAMP_LEN;
  '(date, time) ← split_once "_"%char stamp;
  if negb (str_len date =? 8) || negb (str_len time =? 6)
     || negb (all_digits date) || negb (all_digits time)
  then None
  else if is_run_suffix (str_suffix rest STAMP_LEN) then Some stamp else None.

(** [format!("{STEM}_{stamp}.log")]. *)
Definition log_name (stamp : string) : string := STEM +:+ "_" +:+ stamp +:+ ".log".

(** Rust's [{:03}]. *)
Definition pad3 (n : Z) : string :=
  let digits := pretty n in
  String.string_of_list_ascii (replicate (3 - str_len digits) "0"%char) +:+ digits.

(** [format!("{STEM}_{}.{:03}.log", stamp, rotations)]. *)
Definition aside_name (stamp : string) (rotations : Z) : string :=
  STEM +:+ "_" +:+ stamp +:+ "." +:+ pad3 rotations +:+ ".log".

(** A [STAMP_FORMAT] stamp. *)
Definition is_stamp (stamp : string) : Prop :=
  ∃ date time, stamp = date +:+ "_" +:+ time ∧
    str_len date = 8 ∧ str_len time = 6 ∧
    all_digits date = true ∧ all_digits time = true.

(** The suffixes of a run: its current file and its rotations. *)
Definition run_suffix (suffix : string) : Prop :=
  suffix = ".log" ∨
  ∃ ordinal, suffix = "." +:+ ordinal +:+ ".log" ∧
    str_len ordinal = 3 ∧ all_digits ordinal = true.

(** ** Pruning *)

Section prune.
Context {inode : Type}.

(** [entry.file_name().to_str().and_then(stamp_of)]: a name that is not UTF-8
    belongs to no run. *)
Definition run_stamp (name : string) : option string :=
  if is_str name then stamp_of name else None.

(** [runs.entry(stamp).or_default().push(path)] over the directory's entries. *)
Definition push_run (runs : gmap string (list string)) (name : string)
    : gmap string (list string) :=
  match run_stamp name with
  | None => runs
  | Some stamp => <[stamp := default [] (runs !! stamp) ++ [name]]> runs
  end.

Definition collect_runs (entries : list string) : gmap string (list string) :=
  foldl push_run ∅ entries.

Definition key_le (x y : string * list string) : Prop := String.le x.1 y.1.
#[export] Instance key_le_dec : RelDecision key_le.
Proof. intros x y. unfold key_le. apply _. Defined.

(** A [BTreeMap]'s [into_iter]: ascending keys. *)
Definition btree_into_iter (m : gmap string (list string))
    : list (string * list string) := merge_sort key_le (map_to_list m).

(** [let _ = fs::remove_file(file)] for each file. *)
Definition remove_files (can_remove : string → bool) (files : list string)
    (dir : gmap string inode) : gmap string inode :=
  foldl (λ dir f, if can_remove f then delete f dir else dir) dir files.

(** Deletes every run but the newest [KEEP_RUNS], rotations included. [entries]
    is what [fs::read_dir] yields, [None] when it fails. *)
Definition prune_runs (entries : option (list string))
    (can_remove : string → bool) (dir : gmap string inode) : gmap string inode :=
  match entries with
  | None => dir
  | Some entries =>
      let runs := collect_runs entries in
      let excess := size runs - KEEP_RUNS in
      foldl (λ dir run, remove_files can_remove run.2 dir) dir
        (take excess (btree_into_iter runs))
  end.
End prune.

(** ** Names: what [stamp_of] accepts *)

Lemma is_run_suffix_spec suffix : is_run_suffix suffix = true ↔ run_suffix suffix.
Proof.
  unfold is_run_suffix, run_suffix, str_eqb. case_bool_decide as Hs; [by split; [left|]|].
  rewrite !andb_true_iff, bool_decide_eq_true, Nat.eqb_eq.
  change (str_len ".000.log") with 8.
  unfold ends_with. rewrite bool_decide_eq_true. split.
  - intros [[[Hlen H0] Hlog] Hd]. right.
    exists (String.string_of_list_ascii (take 3 (drop 1 (as_bytes suffix)))).
    unfold str_len, all_digits. rewrite as_bytes_of_list. split; [|split; [|done]].
    + apply (inj as_bytes). rewrite !as_bytes_app, as_bytes_of_list.
      change (str_len suffix) with (length (as_bytes suffix)) in Hlog.
      rewrite Hlen in Hlog. change (8 - str_len ".log") with 4 in Hlog.
      rewrite <-Hlog. destruct (as_bytes suffix) as [|a l]; [done|].
      injection H0 as ->.
      change ("."%char :: l = "."%char :: (take 3 l ++ drop 3 l)).
      by rewrite take_drop.
    + rewrite length_take, length_drop. lia.
  - intros [?|(o & -> & Hlen & Hd)]; [done|].
    unfold str_len in Hlen. unfold all_digits in Hd.
    rewrite str_len_app, str_len_app. unfold str_len at 2. rewrite Hlen.
    rewrite !as_bytes_app. change (as_bytes ".") with ["."%char].
    rewrite !length_app, Hlen. cbn [app]. split_and!; try done.
    + change (str_len "." + (3 + str_len ".log") - str_len ".log") with 4.
      change (drop 4 (?a :: ?l)) with (drop 3 l). by rewrite <-Hlen, drop_app_length.
    + change (drop 1 (?a :: ?l)) with l. by rewrite <-Hlen, take_app_length.
Qed.

Lemma run_suffix_head suffix : run_suffix suffix → as_bytes suffix !! 0 = Some "."%char.
Proof. intros [->|(o & -> & _)]; done. Qed.

Lemma digits_no_sep part : all_digits part = true → "_"%char ∉ as_bytes part.
Proof.
  unfold all_digits. intros H Hin.
  apply forallb_forall with (x := "_"%char) in H; [done|].
  by apply list_elem_of_In.
Qed.

Lemma stamp_len st : is_stamp st → str_len st = STAMP_LEN.
Proof.
  intros (d & t & -> & Hd & Ht & _). rewrite !str_len_app, Hd, Ht. done.
Qed.

(** [stamp_of] recognises exactly the names of this module's run files, and
    reads the stamp off them. *)
Lemma stamp_of_Some name st :
  stamp_of name = Some st ↔
  is_stamp st ∧ ∃ suffix, name = STEM +:+ "_" +:+ st +:+ suffix ∧ run_suffix suffix.
Proof.
  unfold stamp_of. split.
  - destruct (str_strip_prefix name STEM) as [r0|] eqn:E0; [|done]. cbn.
    destruct (str_strip_prefix r0 "_") as [r|] eqn:E1; [|done]. cbn.
    destruct (str_get_to r STAMP_LEN) as [s|] eqn:E2; [|done]. cbn.
    destruct (split_once _ s) as [[date time]|] eqn:E3; [|done]. cbn.
    apply str_strip_prefix_Some in E0 as ->. apply str_strip_prefix_Some in E1 as ->.
    unfold str_get_to in E2. case_match; simplify_eq.
    destruct (_ || _) eqn:Ec; [done|]. case_match eqn:Es; [|done]. intros [= <-].
    apply split_once_Some in E3 as [E3 _].
    repeat (apply orb_false_iff in Ec as [Ec ?]).
    repeat match goal with H : negb _ = false |- _ => apply negb_false_iff in H end.
    rewrite Nat.eqb_eq in *.
    split; [by exists date, time|].
    exists (str_suffix r STAMP_LEN). split; [|by apply is_run_suffix_spec].
    by rewrite str_prefix_suffix.
  - intros [Hst (suffix & -> & Hsuf)].
    rewrite (proj2 (str_strip_prefix_Some _ STEM _)) by done. cbn [mbind option_bind].
    rewrite (proj2 (str_strip_prefix_Some _ "_" _)) by done. cbn [mbind option_bind].
    rewrite <-(stamp_len st Hst).
    erewrite str_get_to_app by (by apply run_suffix_head || done). cbn [mbind option_bind].
    rewrite str_suffix_app, (proj2 (is_run_suffix_spec suffix)) by done.
    destruct Hst as (d & t & Heq & Hd & Ht & Hdd & Htd).
    rewrite (proj2 (split_once_Some _ st d t)) by (split; [done|by apply digits_no_sep]).
    cbn [mbind option_bind]. by rewrite Hd, Ht, Hdd, Htd.
Qed.

(** *** The names this module gives its files *)

Lemma log_name_run st : is_stamp st → stamp_of (log_name st) = Some st.
Proof.
  intros H. apply stamp_of_Some. split; [done|]. exists ".log". split; [done|by left].
Qed.

Lemma aside_name_run st n :
  is_stamp st → str_len (pad3 n) = 3 → all_digits (pad3 n) = true →
  stamp_of (aside_name st n) = Some st.
Proof.
  intros H Hl Hd. apply stamp_of_Some. split; [done|].
  exists ("." +:+ pad3 n +:+ ".log"). split; [done|]. right. by exists (pad3 n).
Qed.

(** [{:03}] over its three-digit range, checked exhaustively: three digits that
    read back as the number. *)
Definition digits_value (s : string) : Z :=
  foldl (λ acc a, 10 * acc + (Z.of_N (byte_val a) - 48))%Z 0%Z (as_bytes s).

Definition pad3_check (n : Z) : bool :=
  (str_len (pad3 n) =? 3) && all_digits (pad3 n)
  && (digits_value (pad3 n) =? n)%Z.

Lemma pad3_checked : forallb pad3_check (seqZ 0 1000) = true.
Proof. vm_compute. reflexivity. Qed.

Lemma pad3_small n :
  (0 ≤ n < 1000)%Z →
  str_len (pad3 n) = 3 ∧ all_digits (pad3 n) = true ∧ digits_value (pad3 n) = n.
Proof.
  intros Hn. pose proof pad3_checked as H. rewrite forallb_forall in H.
  specialize (H n). rewrite <-list_elem_of_In, elem_of_seqZ in H.
  specialize (H ltac:(lia)). unfold pad3_check in H.
  rewrite !andb_true_iff, Nat.eqb_eq, Z.eqb_eq in H. tauto.
Qed.

Lemma pretty_N_go_len (k : nat) x s :
  (10 ^ N.of_nat k ≤ x)%N → k + str_len s < str_len (pretty_N_go x s).
Proof.
  revert x s. induction k as [|k IH]; intros x s Hx.
  - revert s Hx. induction x as [x IH] using (well_founded_induction N.lt_wf_0).
    intros s Hx. change (10 ^ N.of_nat 0)%N with 1%N in *.
    rewrite pretty_N_go_step by lia.
    destruct (decide (x `div` 10 = 0)%N) as [->|].
    + rewrite pretty_N_go_0. unfold str_len, as_bytes. cbn. lia.
    + eapply Nat.lt_trans; [|apply IH; [apply N.div_lt; lia|by apply (N.le_succ_l 0), N.neq_0_lt_0]].
      unfold str_len, as_bytes. cbn. lia.
  - rewrite Nat2N.inj_succ, N.pow_succ_r' in Hx.
    assert (0 < 10 ^ N.of_nat k)%N by (apply N.neq_0_lt_0, N.pow_nonzero; lia).
    rewrite pretty_N_go_step by lia.
    eapply Nat.le_lt_trans; [|apply IH, N.div_le_lower_bound; lia].
    unfold str_len, as_bytes. cbn. lia.
Qed.

Lemma pretty_big n : (1000 ≤ n)%Z → 4 ≤ str_len (pretty n).
Proof.
  intros Hn. destruct n as [|p|p]; try lia.
  change (pretty (Z.pos p)) with (pretty (N.pos p)).
  unfold pretty, pretty_N. rewrite decide_False by done.
  apply (pretty_N_go_len 3 (N.pos p) ""). cbn. lia.
Qed.

Lemma pad3_big n : (1000 ≤ n)%Z → pad3 n = pretty n.
Proof.
  intros Hn. unfold pad3. pose proof (pretty_big n Hn).
  by replace (3 - str_len (pretty n)) with 0 by lia.
Qed.

Lemma pad3_inj m n : (0 ≤ m)%Z → (0 ≤ n)%Z → pad3 m = pad3 n → m = n.
Proof.
  intros Hm Hn H. destruct (decide (m < 1000)%Z), (decide (n < 1000)%Z).
  - destruct (pad3_small m) as (_ & _ & <-); [lia|].
    destruct (pad3_small n) as (_ & _ & <-); [lia|]. by rewrite H.
  - destruct (pad3_small m) as (Hl & _); [lia|]. rewrite H, pad3_big in Hl by lia.
    pose proof (pretty_big n). lia.
  - destruct (pad3_small n) as (Hl & _); [lia|]. rewrite <-H, pad3_big in Hl by lia.
    pose proof (pretty_big m). lia.
  - rewrite !pad3_big in H by lia. by apply (inj pretty).
Qed.

Lemma str_app_inj_r (s t u : string) : s +:+ u = t +:+ u → s = t.
Proof.
  intros H. apply (inj as_bytes). apply (f_equal as_bytes) in H.
  rewrite !as_bytes_app in H. by apply app_inv_tail in H.
Qed.

Lemma aside_name_inj st m n :
  (0 ≤ m)%Z → (0 ≤ n)%Z → aside_name st m = aside_name st n → m = n.
Proof.
  unfold aside_name. intros Hm Hn H. apply pad3_inj; [done..|].
  do 4 apply (inj (String.append _)) in H. by apply str_app_inj_r in H.
Qed.

Lemma aside_name_not_log st n : aside_name st n ≠ log_name st.
Proof.
  unfold aside_name, log_name. intros H.
  do 3 apply (inj (String.append _)) in H. apply (f_equal str_len) in H.
  rewrite !str_len_app in H. change (str_len ".") with 1 in H.
  change (str_len ".log") with 4 in H. unfold pad3 in H. lia.
Qed.

(** A rotation ordinal past 999 no longer has the [.NNN.log] shape. *)
Lemma aside_name_big st n : is_stamp st → (1000 ≤ n)%Z → stamp_of (aside_name st n) = None.
Proof.
  intros Hst Hn. destruct (stamp_of (aside_name st n)) as [st'|] eqn:E; [|done].
  exfalso. apply stamp_of_Some in E as [Hst' (suffix & H & Hsuf)].
  unfold aside_name in H. do 2 apply (inj (String.append _)) in H.
  assert (str_prefix (st +:+ "." +:+ pad3 n +:+ ".log") STAMP_LEN = st') as Hp.
  { rewrite H, <-(stamp_len st' Hst'). apply str_prefix_app. }
  rewrite <-(stamp_len st Hst), str_prefix_app in Hp. subst st'.
  apply (inj (String.append _)) in H. subst suffix.
  pose proof (pretty_big n Hn) as Hl. rewrite <-pad3_big in Hl by done.
  destruct Hsuf as [H|(o & H & Ho & _)]; apply (f_equal str_len) in H;
    rewrite !str_len_app in H; change (str_len ".") with 1 in H;
    change (str_len ".log") with 4 in H; lia.
Qed.

(** ** Pruning keeps exactly the newest runs *)

(** The stamps of the runs in a directory listing. *)
Definition run_stamps (entries : list string) : gset string :=
  list_to_set (omap run_stamp entries).

(** The runs in the listing that are newer than [st]: a stamp sorts
    lexicographically the way it sorts chronologically. *)
Definition newer_runs (entries : list string) (st : string) : gset string :=
  filter (λ t, String.le st t ∧ st ≠ t) (run_stamps entries).

Section prune_facts.
Context {inode : Type}.
Implicit Types (dir : gmap string inode) (entries : list string).

Lemma collect_runs_lookup entries runs st f :
  (∃ fs, foldl push_run runs entries !! st = Some fs ∧ f ∈ fs) ↔
  (∃ fs, runs !! st = Some fs ∧ f ∈ fs) ∨ (f ∈ entries ∧ run_stamp f = Some st).
Proof.
  revert runs. induction entries as [|e entries IH]; intros runs; cbn.
  { rewrite elem_of_nil. tauto. }
  rewrite IH, elem_of_cons. unfold push_run.
  destruct (run_stamp e) as [st'|] eqn:E; [|naive_solver].
  destruct (decide (st' = st)) as [->|Hne].
  - rewrite lookup_insert_eq. destruct (runs !! st) as [fs|] eqn:Er; cbn.
    + split.
      * intros [(? & [= <-] & [Hf| ->%list_elem_of_singleton]%elem_of_app)|[]]; eauto 6.
      * intros [(? & [= ->] & Hf)|[[->|?] ?]]; [left|left|right]; try done;
          eexists; (split; [done|]); rewrite elem_of_app, ?list_elem_of_singleton; tauto.
    + split.
      * intros [(? & [= <-] & ->%list_elem_of_singleton)|[]]; eauto 6.
      * intros [(? & ? & ?)|[[->|?] ?]]; [done|left|right]; try done.
        eexists; split; [done|]. by apply list_elem_of_singleton.
  - rewrite lookup_insert_ne by done. naive_solver.
Qed.

Lemma collect_runs_dom entries : dom (collect_runs entries) = run_stamps entries.
Proof.
  unfold collect_runs, run_stamps.
  assert (∀ runs, dom (foldl push_run runs entries) =
                  dom runs ∪ list_to_set (omap run_stamp entries)) as H.
  { induction entries as [|e entries IH]; intros runs; cbn; [set_solver|].
    rewrite IH. unfold push_run. destruct (run_stamp e); cbn; [|done].
    rewrite dom_insert_L. set_solver. }
  rewrite H, dom_empty_L. set_solver.
Qed.

#[local] Instance key_le_total : Total key_le.
Proof. intros x y. apply (total String.le). Qed.
#[local] Instance key_le_trans : Transitive key_le.
Proof. intros x y z. apply (transitivity (R := String.le)). Qed.

Lemma btree_into_iter_perm m : btree_into_iter m ≡ₚ map_to_list m.
Proof. apply merge_sort_Permutation. Qed.

Lemma btree_into_iter_sorted m : StronglySorted String.le (btree_into_iter m).*1.
Proof.
  apply (StronglySorted_fmap fst key_le); [by intros|].
  unfold btree_into_iter. apply (StronglySorted_merge_sort key_le); apply _.
Qed.

Lemma btree_into_iter_NoDup m : NoDup (btree_into_iter m).*1.
Proof. rewrite btree_into_iter_perm. apply NoDup_fst_map_to_list. Qed.

(** Among the first [n] of a sorted list: at least [length - n] come after. *)
Lemma sorted_take_count (ks : list string) n k :
  StronglySorted String.le ks → NoDup ks → k ∈ ks → n ≤ length ks →
  k ∈ take n ks ↔ length ks - n ≤ length (filter (λ t, String.le k t ∧ k ≠ t) ks).
Proof.
  intros Hs Hnd Hk Hn. rewrite <-(take_drop n ks) in Hs, Hnd, Hk.
  rewrite <-(take_drop n ks) at 3. rewrite filter_app, length_app.
  apply NoDup_app in Hnd as (Hnd1 & Hdis & Hnd2). split.
  - intros Hin. assert (Forall (λ t, String.le k t ∧ k ≠ t) (drop n ks)) as HF.
    { apply Forall_forall. intros t Ht. split.
      - by eapply (StronglySorted_app_1_elem_of String.le); [exact Hs|..].
      - intros ->. by eapply Hdis. }
    rewrite (list_filter_all _ (drop n ks) HF). rewrite length_drop. lia.
  - intros Hc. apply elem_of_app in Hk as [|Hk]; [done|]. exfalso.
    assert (filter (λ t, String.le k t ∧ k ≠ t) (take n ks) = []) as Hnil.
    { apply list_filter_none, Forall_forall. intros t Ht [Hle Hne]. apply Hne.
      apply (anti_symm String.le); [done|].
      by eapply (StronglySorted_app_1_elem_of String.le); [exact Hs|..]. }
    rewrite Hnil in Hc. cbn in Hc. apply list_elem_of_split in Hk as (l1 & l2 & Hd).
    assert (length (drop n ks) = length ks - n) as Hld by apply length_drop.
    rewrite <-Hld, Hd, filter_app, filter_cons_False in Hc by naive_solver.
    pose proof (length_filter (λ t, String.le k t ∧ k ≠ t) l1).
    pose proof (length_filter (λ t, String.le k t ∧ k ≠ t) l2).
    rewrite !length_app in Hc. cbn in Hc. lia.
Qed.

Lemma remove_files_lookup ok files dir f :
  remove_files ok files dir !! f =
  if decide (f ∈ files ∧ ok f = true) then None else dir !! f.
Proof.
  unfold remove_files. revert dir. induction files as [|g files IH]; intros dir; cbn.
  { rewrite decide_False; [done|]. rewrite elem_of_nil. tauto. }
  rewrite IH. destruct (decide (f = g)) as [->|Hne].
  - destruct (ok g) eqn:E.
    + rewrite lookup_delete_eq. rewrite (decide_True (P := g ∈ g :: files ∧ _)).
      * by destruct (decide _).
      * split; [by left|done].
    + rewrite !decide_False by (intros [_ ?]; congruence). done.
  - assert ((if ok g then delete g dir else dir) !! f = dir !! f) as ->.
    { destruct (ok g); [by rewrite lookup_delete_ne|done]. }
    apply decide_ext. rewrite elem_of_cons. tauto.
Qed.

Lemma remove_runs_concat ok (runs : list (string * list string)) dir :
  foldl (λ dir run, remove_files ok run.2 dir) dir runs =
  remove_files ok (concat runs.*2) dir.
Proof.
  revert dir. induction runs as [|r runs IH]; intros dir; cbn; [done|].
  rewrite IH. unfold remove_files. by rewrite foldl_app.
Qed.

(** A run among the deleted ones is one with [KEEP_RUNS] newer. *)
Lemma pruned_stamp entries st :
  st ∈ run_stamps entries →
  let runs := collect_runs entries in
  st ∈ (take (size runs - KEEP_RUNS) (btree_into_iter runs)).*1 ↔
  KEEP_RUNS ≤ size (newer_runs entries st).
Proof.
  intros Hst runs. pose proof (btree_into_iter_NoDup runs) as Hnd.
  set (ks := (btree_into_iter runs).*1) in *.
  assert (∀ t, t ∈ ks ↔ t ∈ run_stamps entries) as Hks.
  { intros t. rewrite <-collect_runs_dom. unfold ks. rewrite btree_into_iter_perm.
    rewrite elem_of_dom. fold runs. split.
    - intros ((t' & fs) & -> & H)%list_elem_of_fmap.
      apply elem_of_map_to_list in H. by eexists.
    - intros [fs H%elem_of_map_to_list]. by apply (list_elem_of_fmap_2 fst) in H. }
  assert (length ks = size runs) as Hlen.
  { unfold ks. rewrite length_fmap, btree_into_iter_perm. apply length_map_to_list. }
  assert (newer_runs entries st =
          list_to_set (filter (λ t, String.le st t ∧ st ≠ t) ks)) as ->.
  { apply set_eq. intros t. unfold newer_runs.
    rewrite elem_of_filter, elem_of_list_to_set, list_elem_of_filter, Hks. done. }
  rewrite size_list_to_set by by apply NoDup_filter.
  rewrite fmap_take. fold ks.
  rewrite sorted_take_count; [|apply btree_into_iter_sorted|done|by apply Hks|lia].
  assert (length (filter (λ t, String.le st t ∧ st ≠ t) ks) < length ks).
  { apply (length_filter_lt _ _ st); [by apply Hks|naive_solver]. }
  rewrite Hlen in *. unfold KEEP_RUNS in *. lia.
Qed.

(** What [prune_runs] leaves under each name: a file goes exactly when it is a
    run file whose run has [KEEP_RUNS] newer ones, and its removal is allowed. *)
Lemma prune_runs_lookup entries ok dir f :
  prune_runs (Some entries) ok dir !! f =
  match run_stamp f with
  | Some st =>
      if decide (f ∈ entries ∧ ok f = true ∧ KEEP_RUNS ≤ size (newer_runs entries st))
      then None else dir !! f
  | None => dir !! f
  end.
Proof.
  unfold prune_runs. rewrite remove_runs_concat, remove_files_lookup.
  set (runs := collect_runs entries). set (old := take _ _).
  assert (f ∈ concat old.*2 ↔
          ∃ st, run_stamp f = Some st ∧ f ∈ entries ∧
                KEEP_RUNS ≤ size (newer_runs entries st)) as Hold.
  { rewrite list_elem_of_In, in_concat. setoid_rewrite <-list_elem_of_In. split.
    - intros (fs & ((st & fs') & -> & Hin)%list_elem_of_fmap & Hf). cbn in Hf.
      assert ((st, fs') ∈ btree_into_iter runs) as Hm.
      { by eapply subseteq_take. }
      rewrite btree_into_iter_perm, elem_of_map_to_list in Hm.
      destruct (proj1 (collect_runs_lookup entries ∅ st f)) as [(? & ? & _)|[Hfe Hrs]].
      { by exists fs'. } { done. }
      exists st. split_and!; [done..|]. apply pruned_stamp.
      + apply elem_of_list_to_set, list_elem_of_omap. by exists f.
      + by apply (list_elem_of_fmap_2 fst) in Hin.
    - intros (st & Hrs & Hfe & Hc).
      apply pruned_stamp in Hc; [|apply elem_of_list_to_set, list_elem_of_omap; by exists f].
      apply list_elem_of_fmap in Hc as ((st' & fs) & -> & Hin). cbn in *.
      exists fs. split; [by apply (list_elem_of_fmap_2 snd) in Hin|].
      assert ((st', fs) ∈ btree_into_iter runs) as Hm by by eapply subseteq_take.
      rewrite btree_into_iter_perm, elem_of_map_to_list in Hm.
      destruct (proj2 (collect_runs_lookup entries ∅ st' f)) as (fs' & Hl & Hf); [by right|].
      change (runs !! st' = Some fs') in Hl. by simplify_eq. }
  destruct (run_stamp f) as [st|].
  - apply decide_ext. rewrite Hold. naive_solver.
  - rewrite decide_False; [done|]. rewrite Hold. naive_solver.
Qed.
End prune_facts.

(** ** The file being written *)

(** A directory: names over inodes, and each inode's bytes. An open handle is an
    inode, so it survives a rename of the name it was opened under. *)
Record fs := mk_fs {
  fs_dir : gmap string N;
  fs_data : gmap N (list ascii);
}.

Inductive io_error := NotFound | Os (reason : string).
#[export] Instance io_error_eq_dec : EqDecision io_error.
Proof. solve_decision. Defined.

(** What the operating system answers to the calls of one [append]: [write_all]
    may fail after writing a prefix, [rename] and [create] may be refused. *)
Record io_answers := mk_io {
  io_write : option (nat * io_error);
  io_rename : option io_error;
  io_create : option io_error;
}.
Definition io_all_ok : io_answers := mk_io None None None.

Record open_log := mk_open_log {
  ol_file : N;
  ol_path : string;
  ol_stamp : string;
  ol_lines : Z;
  ol_rotations : Z;
}.

Definition inode_bytes (d : gmap N (list ascii)) (i : N) : list ascii :=
  default [] (d !! i).

(** [self.file.write_all(buf)]. *)
Definition write_all (io : io_answers) (s : fs) (file : N) (buf : list ascii)
    : result unit io_error * fs :=
  let put bytes :=
    mk_fs (fs_dir s) (<[file := inode_bytes (fs_data s) file ++ bytes]> (fs_data s)) in
  match io_write io with
  | None => (Ok tt, put buf)
  | Some (n, e) => (Err e, put (take n buf))
  end.

(** [fs::rename(from, to)], replacing what [to] named. *)
Definition rename (io : io_answers) (s : fs) (from to : string)
    : result unit io_error * fs :=
  match io_rename io, fs_dir s !! from with
  | Some e, _ => (Err e, s)
  | None, None => (Err NotFound, s)
  | None, Some i => (Ok tt, mk_fs (<[to := i]> (delete from (fs_dir s))) (fs_data s))
  end.

(** An inode no name and no handle of the directory has used. *)
Definition new_inode (s : fs) : N := fresh (dom (fs_data s)).

(** [File::create(path)]: truncate what is there, else a new file. *)
Definition create (io : io_answers) (s : fs) (path : string)
    : result N io_error * fs :=
  match io_create io with
  | Some e => (Err e, s)
  | None =>
      match fs_dir s !! path with
      | Some i => (Ok i, mk_fs (fs_dir s) (<[i := []]> (fs_data s)))
      | None =>
          let i := new_inode s in
          (Ok i, mk_fs (<[path := i]> (fs_dir s)) (<[i := []]> (fs_data s)))
      end
  end.

Definition u32_max_plus_1 : Z := 4294967296.

(** [OpenLog::rotate]. The budget is spent before trying. *)
Definition rotate (io : io_answers) (s : fs) (ol : open_log)
    : result unit io_error * open_log * fs :=
  let ol := mk_open_log (ol_file ol) (ol_path ol) (ol_stamp ol)
              0 ((ol_rotations ol + 1) mod u32_max_plus_1) in
  let aside := aside_name (ol_stamp ol) (ol_rotations ol) in
  match rename io s (ol_path ol) aside with
  | (Err e, s) => (Err e, ol, s)
  | (Ok _, s) =>
      match create io s (ol_path ol) with
      | (Err e, s) => (Err e, ol, s)
      | (Ok file, s) =>
          (Ok tt, mk_open_log file (ol_path ol) (ol_stamp ol)
                    (ol_lines ol) (ol_rotations ol), s)
      end
  end.

Definition newline : ascii := "010"%char.
Definition count_newlines (buf : list ascii) : Z :=
  Z.of_nat (length (filter (λ b, b = newline) buf)).

(** [OpenLog::append]. *)
Definition append (io : io_answers) (s : fs) (ol : open_log) (buf : list ascii)
    : result unit io_error * open_log * fs :=
  match write_all io s (ol_file ol) buf with
  | (Err e, s) => (Err e, ol, s)
  | (Ok _, s) =>
      let ol := mk_open_log (ol_file ol) (ol_path ol) (ol_stamp ol)
                  (as_u64 (ol_lines ol + count_newlines buf)) (ol_rotations ol) in
      if (ROTATE_AFTER_LINES <=? ol_lines ol)%Z then rotate io s ol
      else (Ok tt, ol, s)
  end.

(** The writes of a run, each with the answers the system gave it. *)
Fixpoint append_all (s : fs) (ol : open_log) (writes : list (io_answers * list ascii))
    : open_log * fs :=
  match writes with
  | [] => (ol, s)
  | (io, buf) :: writes =>
      let '(_, ol, s) := append io s ol buf in append_all s ol writes
  end.

(** ** [RunLog]: the open file, or nowhere to write *)

Definition run_log : Type := option open_log.

(** [RunLog::inert]: every line reaches stderr and stops there. *)
Definition inert : run_log := None.

(** [directory.join(name)] for a plain file name. *)
Definition path_join (directory name : string) : string :=
  if ends_with directory "/" then directory +:+ name else directory +:+ "/" +:+ name.

(** [RunLog::path], which names the announced file. *)
Definition run_log_path (directory : string) (log : run_log) : string :=
  match log with Some ol => path_join directory (ol_path ol) | None => "" end.

(** [impl io::Write for RunLog], [write]: everything is taken, or the error. *)
Definition run_log_write (io : io_answers) (s : fs) (log : run_log) (buf : list ascii)
    : result nat io_error * run_log * fs :=
  match log with
  | Some ol =>
      let '(r, ol, s) := append io s ol buf in
      (map_ok (λ _, length buf) r, Some ol, s)
  | None => (Ok (length buf), None, s)
  end.

(** [RunLog::write_stamped]: [busy] is a [try_lock] that failed; [now] the time
    already formatted. *)
Definition write_stamped (io : io_answers) (busy : bool) (now : string)
    (s : fs) (log : run_log) (line : string) : run_log * fs :=
  if busy then (log, s)
  else match log with
       | None => (None, s)
       | Some ol =>
           let stamped := now +:+ " " +:+ line +:+ String.String newline "" in
           let '(_, ol, s) := append io s ol (as_bytes stamped) in (Some ol, s)
       end.

(** What the operating system answers while a run's file is opened. *)
Record open_answers := mk_open_answers {
  oa_create_dir : option string;
  oa_open : option string;
  oa_read_dir : option (list string);
  oa_can_remove : string → bool;
}.

(** [RunLog::open]. [context] is the host's instance directory, [stamp] the
    local time in [STAMP_FORMAT]. *)
Definition run_log_open (context : option string) (os : open_answers)
    (stamp : string) (s : fs) : result open_log string * fs :=
  match context with
  | None | Some "" => (Err "the host assigned no instance directory", s)
  | Some directory =>
      match oa_create_dir os with
      | Some e => (Err ("cannot create " +:+ directory +:+ ": " +:+ e), s)
      | None =>
          let path := log_name stamp in
          match oa_open os with
          | Some e =>
              (Err ("cannot write " +:+ path_join directory path +:+ ": " +:+ e), s)
          | None =>
              let '(file, s) :=
                match fs_dir s !! path with
                | Some i => (i, s)
                | None =>
                    let i := new_inode s in
                    (i, mk_fs (<[path := i]> (fs_dir s)) (<[i := []]> (fs_data s)))
                end in
              let s := mk_fs (prune_runs (oa_read_dir os) (oa_can_remove os) (fs_dir s))
                         (fs_data s) in
              (Ok (mk_open_log file path stamp 0 0), s)
          end
      end
  end.

(** *** Rotation loses nothing *)

Definition name_bytes (s : fs) (name : string) : list ascii :=
  match fs_dir s !! name with Some i => inode_bytes (fs_data s) i | None => [] end.

(** The rotations of a run, oldest first. *)
Definition aside_names (ol : open_log) : list string :=
  map (aside_name (ol_stamp ol)) (seqZ 1 (ol_rotations ol)).

(** Everything a run has written, in order: its rotations, then its file. *)
Definition run_bytes (s : fs) (ol : open_log) : list ascii :=
  concat (map (name_bytes s) (aside_names ol)) ++ name_bytes s (ol_path ol).

(** The directory as this module leaves it: the announced path names the open
    file and nothing else does, inodes in use hold data, and no file sits under
    the ordinals the run has yet to take. *)
Record log_ok (s : fs) (ol : open_log) : Prop := {
  lok_path : ol_path ol = log_name (ol_stamp ol);
  lok_file : fs_dir s !! ol_path ol = Some (ol_file ol);
  lok_own : ∀ name, fs_dir s !! name = Some (ol_file ol) → name = ol_path ol;
  lok_data : ∀ name i, fs_dir s !! name = Some i → is_Some (fs_data s !! i);
  lok_rotations : (0 ≤ ol_rotations ol < u32_max_plus_1)%Z;
  lok_free : ∀ n, (ol_rotations ol < n)%Z →
    fs_dir s !! aside_name (ol_stamp ol) n = None;
}.

Lemma name_bytes_write s file buf name :
  name_bytes (mk_fs (fs_dir s)
    (<[file := inode_bytes (fs_data s) file ++ buf]> (fs_data s))) name =
  if decide (fs_dir s !! name = Some file) then name_bytes s name ++ buf
  else name_bytes s name.
Proof.
  unfold name_bytes, inode_bytes. cbn. case_decide as H.
  - rewrite H. by rewrite lookup_insert_eq.
  - destruct (fs_dir s !! name) as [i|]; [|done].
    rewrite lookup_insert_ne by congruence. done.
Qed.

(** A successful [append] short of the budget extends the announced file. *)
Lemma write_all_log_ok s ol buf :
  log_ok s ol →
  let s' := (write_all io_all_ok s (ol_file ol) buf).2 in
  log_ok s' ol ∧ run_bytes s' ol = run_bytes s ol ++ buf.
Proof.
  intros H. cbn. split.
  - destruct H. split; cbn; try done.
    intros name i Hi. destruct (decide (i = ol_file ol)) as [->|].
    + rewrite lookup_insert_eq. by eexists.
    + rewrite lookup_insert_ne by done. eauto.
  - unfold run_bytes. rewrite name_bytes_write, decide_True by apply H.
    rewrite app_assoc. do 3 f_equal. apply map_ext_in.
    intros name Hin. rewrite name_bytes_write, decide_False; [done|].
    intros Hd. apply H in Hd. unfold aside_names in Hin. apply in_map_iff in Hin.
    destruct Hin as (n & <- & _). rewrite (lok_path _ _ H) in Hd.
    by apply aside_name_not_log in Hd.
Qed.

Lemma new_inode_fresh s : fs_data s !! new_inode s = None.
Proof. apply not_elem_of_dom. unfold new_inode. apply is_fresh. Qed.

Lemma new_inode_unused s ol name :
  log_ok s ol → fs_dir s !! name ≠ Some (new_inode s).
Proof.
  intros H Hn. apply (lok_data _ _ H) in Hn as [d Hd].
  by rewrite new_inode_fresh in Hd.
Qed.

(** The state a rotation that the system allows leaves. *)
Definition rotated_log (s : fs) (ol : open_log) : open_log :=
  mk_open_log (new_inode s) (ol_path ol) (ol_stamp ol) 0 (ol_rotations ol + 1).
Definition rotated_fs (s : fs) (ol : open_log) : fs :=
  mk_fs (<[ol_path ol := new_inode s]>
          (<[aside_name (ol_stamp ol) (ol_rotations ol + 1) := ol_file ol]>
            (delete (ol_path ol) (fs_dir s))))
        (<[new_inode s := []]> (fs_data s)).

Section rotation.
Context (s : fs) (ol : open_log).
Hypothesis Hok : log_ok s ol.
Hypothesis Hroom : (ol_rotations ol + 1 < u32_max_plus_1)%Z.

Lemma aside_not_path n : aside_name (ol_stamp ol) n ≠ ol_path ol.
Proof. rewrite (lok_path _ _ Hok). apply aside_name_not_log. Qed.

Lemma rotate_all_ok : rotate io_all_ok s ol = (Ok tt, rotated_log s ol, rotated_fs s ol).
Proof.
  pose proof (lok_rotations _ _ Hok). unfold rotate, rename, create. cbn.
  rewrite Z.mod_small by lia. rewrite (lok_file _ _ Hok). cbn.
  rewrite lookup_insert_ne by apply aside_not_path.
  by rewrite lookup_delete_eq.
Qed.

Lemma rotated_lookup name :
  fs_dir (rotated_fs s ol) !! name =
  if decide (name = ol_path ol) then Some (new_inode s)
  else if decide (name = aside_name (ol_stamp ol) (ol_rotations ol + 1))
    then Some (ol_file ol) else fs_dir s !! name.
Proof.
  cbn. rewrite !lookup_insert, lookup_delete.
  repeat case_decide; congruence.
Qed.

Lemma rotated_log_ok : log_ok (rotated_fs s ol) (rotated_log s ol).
Proof.
  pose proof (lok_rotations _ _ Hok). split; try (cbn; lia).
  - apply Hok.
  - rewrite rotated_lookup. by rewrite decide_True.
  - intros name. rewrite rotated_lookup. case_decide; [done|].
    case_decide; intros Hn.
    + destruct (new_inode_unused s ol (ol_path ol) Hok).
      rewrite (lok_file _ _ Hok). exact Hn.
    + by apply (new_inode_unused s ol name Hok) in Hn.
  - intros name i. rewrite rotated_lookup. cbn. intros Hn.
    rewrite lookup_insert. destruct (decide (new_inode s = i)) as [|Hi]; [by eexists|].
    case_decide; [congruence|]. case_decide; simplify_eq.
    + apply (lok_data _ _ Hok (ol_path ol)), Hok.
    + by apply (lok_data _ _ Hok name).
  - intros n Hn. cbn in Hn. rewrite rotated_lookup.
    rewrite decide_False by apply aside_not_path.
    rewrite decide_False; [apply Hok; lia|].
    intros E. apply aside_name_inj in E; lia.
Qed.

Lemma rotated_name_bytes name :
  name_bytes (rotated_fs s ol) name =
  if decide (name = ol_path ol) then []
  else if decide (name = aside_name (ol_stamp ol) (ol_rotations ol + 1))
    then name_bytes s (ol_path ol) else name_bytes s name.
Proof.
  unfold name_bytes at 1. rewrite rotated_lookup. unfold inode_bytes. cbn.
  repeat case_decide.
  - by rewrite lookup_insert_eq.
  - rewrite lookup_insert_ne.
    + unfold name_bytes. by rewrite (lok_file _ _ Hok).
    + intros E. apply (new_inode_unused s ol (ol_path ol) Hok).
      by rewrite E, (lok_file _ _ Hok).
  - unfold name_bytes. destruct (fs_dir s !! name) as [i|] eqn:Hi; [|done].
    rewrite lookup_insert_ne; [done|]. intros <-.
    by apply (new_inode_unused s ol name Hok).
Qed.

(** The full file is moved aside whole, the announced name reopened empty. *)
Lemma rotated_run_bytes :
  run_bytes (rotated_fs s ol) (rotated_log s ol) = run_bytes s ol.
Proof.
  pose proof (lok_rotations _ _ Hok). unfold run_bytes, aside_names. cbn [ol_path ol_stamp ol_rotations rotated_log].
  rewrite (rotated_name_bytes (ol_path ol)), decide_True, app_nil_r by done.
  rewrite seqZ_app by lia. change (seqZ ?n 1) with [(0 + n)%Z]. rewrite !map_app, concat_app. f_equal.
  - f_equal. apply map_ext_in. intros name (n & <- & Hn)%in_map_iff.
    apply list_elem_of_In, elem_of_seqZ in Hn.
    rewrite rotated_name_bytes, decide_False by apply aside_not_path.
    rewrite decide_False; [done|]. intros E. apply aside_name_inj in E; lia.
  - cbn [map concat]. rewrite app_nil_r, rotated_name_bytes.
    rewrite decide_False by apply aside_not_path.
    rewrite decide_True; [done|]. f_equal. lia.
Qed.
End rotation.

(** One write the system allows keeps every byte of the run. *)
Lemma append_all_ok s ol buf :
  log_ok s ol → (ol_rotations ol + 1 < u32_max_plus_1)%Z →
  let '(r, ol', s') := append io_all_ok s ol buf in
  r = Ok tt ∧ log_ok s' ol' ∧ run_bytes s' ol' = run_bytes s ol ++ buf ∧
  ol_path ol' = ol_path ol ∧ (ol_rotations ol' ≤ ol_rotations ol + 1)%Z.
Proof.
  intros H Hroom. destruct (write_all_log_ok s ol buf H) as [Hw Hb].
  unfold append. destruct (write_all io_all_ok s (ol_file ol) buf) as [w s1] eqn:E.
  injection E as <- Es. cbn [snd] in *.
  set (ol1 := mk_open_log _ _ _ _ _).
  assert (log_ok s1 ol1) as Hok1 by by destruct Hw; split.
  change (run_bytes s1 ol) with (run_bytes s1 ol1) in Hb.
  destruct (ROTATE_AFTER_LINES <=? ol_lines ol1)%Z.
  - rewrite rotate_all_ok by done. split_and!; try done.
    + by apply rotated_log_ok.
    + by rewrite rotated_run_bytes.
  - split_and!; try done. cbn. lia.
Qed.

(** However the system answers, a write leaves the budget unspent. *)
Lemma append_lines io s ol buf :
  (ol_lines ol < ROTATE_AFTER_LINES)%Z →
  (ol_lines (append io s ol buf).1.2 < ROTATE_AFTER_LINES)%Z.
Proof.
  intros H. unfold append. destruct (write_all io s (ol_file ol) buf) as [[[]|e] s1]; [|done].
  case_match eqn:E.
  - unfold rotate. by repeat case_match.
  - apply Z.leb_gt in E. done.
Qed.
