(* ===== verification/Logging.v ===== *)
(** * Levels, lines and the subscriber's installation ([logging.rs],
    [panic_hook.rs])

    The run's files are in [LogFiles.v]. [EnvFilter] comes from
    [tracing_subscriber], which is not part of the repository. *)
From S2P Require Import Prelude Utf8 LogFiles.
From Stdlib Require Import Ascii.

Class EnvFilterLib := {
  EnvFilter : Type;
  filter_try_new : string → option EnvFilter;
  filter_new : string → EnvFilter;
  filter_display : EnvFilter → string;
}.

Definition DEFAULT_LEVEL : string := "info".

Definition filter_for (level : string) : string :=
  "warn,chat_module=" +:+ level +:+ ",libchat=" +:+ level +:+ ",logos_generic_chat=" +:+ level.

Definition level_or_default (requested : string) : string :=
  if bool_decide (requested ∈ ["error"; "warn"; "info"; "debug"; "trace"])
  then requested else DEFAULT_LEVEL.

(** [char::is_whitespace] on a character's bytes. *)
Definition is_whitespace (c : list ascii) : bool :=
  match map byte_val c with
  | [b] => ((9 <=? b) && (b <=? 13) || (b =? 32))%N
  | [194; b]%N => ((b =? 133) || (b =? 160))%N
  | [225; 154; 128]%N => true
  | [226; 128; b]%N =>
      ((128 <=? b) && (b <=? 138) || (b =? 168) || (b =? 169) || (b =? 175))%N
  | [226; 129; 159]%N => true
  | [227; 128; 128]%N => true
  | _ => false
  end.

(** [value.trim().is_empty()]. *)
Definition is_blank (s : string) : bool := forallb is_whitespace (chars s).

Definition filter_from `{EnvFilterLib} (env : option string) (level : string) : EnvFilter :=
  default (filter_new (filter_for level))
    (value ← env;
     if is_blank value then None else filter_try_new value).

(** ** Lines *)

(** [tracing]'s levels. *)
Inductive Level := ERROR | WARN | INFO | DEBUG | TRACE.
Definition level_as_str (l : Level) : string :=
  match l with
  | ERROR => "ERROR" | WARN => "WARN" | INFO => "INFO" | DEBUG => "DEBUG" | TRACE => "TRACE"
  end.

Definition severity (l : Level) : string :=
  match l with WARN => "WARNING" | _ => level_as_str l end.

Definition newline_str : string := String.String newline "".

(** [HostLine::format_event]; [fields] is what the field formatter wrote. *)
Definition host_line (l : Level) (target fields : string) : string :=
  severity l +:+ ": " +:+ target +:+ ": " +:+ fields +:+ newline_str.

(** [StampedLine::format_event]; [now] is the local time in [LINE_TIME_FORMAT]. *)
Definition stamped_line (now : string) (l : Level) (target fields : string) : string :=
  now +:+ " " +:+ host_line l target fields.

(** ** Panics ([panic_hook.rs]) *)

Inductive panic_payload := PanicStr (s : string) | PanicString (s : string) | PanicOther.

Definition panic_msg (p : panic_payload) : string :=
  match p with
  | PanicStr s | PanicString s => s
  | PanicOther => "<non-string panic payload>"
  end.

Definition panic_origin (location : option (string * Z * Z)) : string :=
  match location with
  | Some (file, line, column) => file +:+ ":" +:+ pretty line +:+ ":" +:+ pretty column
  | None => "<unknown location>"
  end.

(** The hook: what goes to stderr, and what [write_line] is given. *)
Definition panic_hook (p : panic_payload) (location : option (string * Z * Z))
    (backtrace : string) : string * string :=
  let origin := panic_origin location in
  ("chat_module: panic at " +:+ origin +:+ ": " +:+ panic_msg p,
   "CRITICAL: chat_module: panic at " +:+ origin +:+ ": " +:+ panic_msg p
     +:+ newline_str +:+ backtrace).

(** ** Installation *)

(** The statics of the module: [INSTALL], [LOG_PATH], [RUN_LOG], the filter of the
    subscriber this module installed, and the instance directory. *)
Record LogStatics := mk_log_statics {
  ls_installed : bool;
  ls_log_path : string;
  ls_run_log : option run_log;
  ls_subscriber : option string;
  ls_fs : fs;
}.

(** What the process finds when it installs: [RUST_LOG], the host's directory, the
    system's answers, the local time, and whether another subscriber is there. *)
Record log_env := mk_log_env {
  le_rust_log : option string;
  le_context : option string;
  le_os : open_answers;
  le_stamp : string;
  le_try_init : result unit string;
}.

(** [install_once]: the statics after it, and the lines on stderr. *)
Definition install_once `{EnvFilterLib} (env : log_env) (level : string) (st : LogStatics)
    : LogStatics * list string :=
  if ls_installed st then (st, [])
  else
    let selected := filter_display (filter_from (le_rust_log env) (level_or_default level)) in
    let '(run_log, opened, warning, s) :=
      match run_log_open (le_context env) (le_os env) (le_stamp env) (ls_fs st) with
      | (Ok log, s) =>
          (Some log, run_log_path (default "" (le_context env)) (Some log), [], s)
      | (Err reason, s) =>
          (inert, "",
           ["Warning: chat_module: no log file (" +:+ reason
              +:+ "); the chat core's events reach stderr only"], s)
      end in
    let destination :=
      if str_eqb opened "" then "stderr" else "stderr and " +:+ opened in
    (mk_log_statics true opened
       (Some (default run_log (ls_run_log st)))
       (match le_try_init env with Ok _ => Some selected | Err _ => ls_subscriber st end) s,
     warning ++
     [match le_try_init env with
      | Ok _ => "chat_module: logging " +:+ selected +:+ " to " +:+ destination
      | Err error =>
          "Warning: chat_module: another subscriber is already installed, the chat core's events will not be logged: "
            +:+ error
      end]).

(** [log_path]. *)
Definition log_path (st : LogStatics) : string := ls_log_path st.

(** [write_line]. *)
Definition write_line (io : io_answers) (busy : bool) (now : string) (st : LogStatics)
    (line : string) : LogStatics :=
  match ls_run_log st with
  | None => st
  | Some log =>
      let '(log, s) := write_stamped io busy now (ls_fs st) log line in
      mk_log_statics (ls_installed st) (ls_log_path st) (Some log) (ls_subscriber st) s
  end.

(** ** Events

    An event the filter lets through reaches the two layers: [HostLine] on stderr,
    [StampedLine] in the run's file. A process whose subscriber is another's drops
    the module's events. *)
Definition on_event (enabled : bool) (io : io_answers) (now : string) (st : LogStatics)
    (l : Level) (target fields : string) : LogStatics * list string :=
  match ls_subscriber st with
  | Some _ =>
      if enabled then
        let '(_, log, s) := run_log_write io (ls_fs st) (default None (ls_run_log st))
                              (as_bytes (stamped_line now l target fields)) in
        (mk_log_statics (ls_installed st) (ls_log_path st)
           (const log <$> ls_run_log st) (ls_subscriber st) s,
         [host_line l target fields])
      else (st, [])
  | None => (st, [])
  end.

(** ** The panic hook *)

(** What the runtime tells a hook. *)
Record panic_info := mk_panic_info {
  pi_payload : panic_payload;
  pi_location : option (string * Z * Z);
  pi_backtrace : string;
}.
(** A hook: the log after it, given the system's answers, whether the file is held and
    the time, and the lines on stderr. *)
Definition hook : Type :=
  panic_info → io_answers → bool → string → LogStatics → LogStatics * list string.

(** [INSTALL] of [panic_hook.rs], and the process's hook. *)
Record panic_statics := mk_panic_statics {
  ps_installed : bool;
  ps_hook : hook;
}.

(** [panic_hook::install_once]: the report, then the hook that was there. *)
Definition hook_install_once (ps : panic_statics) : panic_statics :=
  if ps_installed ps then ps
  else
    let previous := ps_hook ps in
    mk_panic_statics true (λ info io busy now st,
      let '(report, line) := panic_hook (pi_payload info) (pi_location info) (pi_backtrace info) in
      let '(st, lines) := previous info io busy now (write_line io busy now st line) in
      (st, report :: lines)).
