(* ===== verification/Delivery.v ===== *)
(** * The delivery boundary ([delivery.rs])

    The content-topic scheme, and the reading of delivery_module's answers. JSON
    values and the SDK's errors come from crates that are not part of the
    repository: [Json] lists what the source asks of them. *)
From S2P Require Import Prelude Utf8.
From Stdlib Require Import Ascii.

(** [serde_json::Value] and [LogosError], as far as the source looks into them:
    [Value::get] with a string key, [as_bool], [as_str], [Display]. *)
Class Json := {
  Value : Type;
  Null : Value;
  json_get : Value → string → option Value;
  as_bool : Value → option bool;
  as_str : Value → option string;
  value_display : Value → string;
  LogosError : Type;
  logos_error_display : LogosError → string;
}.

(** ** Topics *)

Definition TOPIC_PREFIX : string := "/logos-chat/1/".

Definition content_topic_for (delivery_address : string) : string :=
  TOPIC_PREFIX +:+ delivery_address +:+ "/proto".

(** ** Answers *)

Section outcome.
Context `{Json}.

Definition delivery_outcome (res : result Value LogosError) : result Value string :=
  envelope ←? map_err logos_error_display res;
  match json_get envelope "success" ≫= as_bool with
  | Some true => Ok (default Null (json_get envelope "value"))
  | Some false =>
      Err (default "no reason given"
             (reason ← json_get envelope "error" ≫= as_str;
              if str_eqb reason "" then None else Some reason))
  | None => Err ("not a result envelope: " +:+ value_display envelope)
  end.
End outcome.

Lemma content_topic_prefix a : starts_with (content_topic_for a) TOPIC_PREFIX = true.
Proof. apply starts_with_app. Qed.

Lemma content_topic_inj a b : content_topic_for a = content_topic_for b → a = b.
Proof.
  unfold content_topic_for. intros E%(inj (String.append _)).
  apply (inj as_bytes). apply (f_equal as_bytes) in E.
  rewrite !as_bytes_app in E. by apply app_inv_tail in E.
Qed.
