(* ===== verification/Persistence.v ===== *)
(** * [chat.db] ([persistence.rs] and [migrations/001_app_state.sql])

    What the module keeps on disk, and the operations that read and write it.
    SQLite and the [message_store] crate are not part of the repository: they are
    the interface [Sqlite], one operation per call the source makes, and
    [SqliteLaws] states what the source relies on them for (the meaning of each
    SQL statement of the source, statement atomicity, transactions, and the
    message store as an append-only log per chat). [SqliteMem.v] shows that the
    laws can be met. *)
From S2P Require Import Prelude Utf8.
From Stdlib Require Import Ascii.

(** ** Data *)

(** How many of a chat's newest messages [load_state] reads back. *)
Definition LOADED_PER_CHAT : nat := 500.

Record DisplayMessage := mk_display_message {
  from_self : bool;
  content : string;
  timestamp_ms : Z;             (* u64 *)
  sender : option string;
}.
#[export] Instance DisplayMessage_eq_dec : EqDecision DisplayMessage.
Proof. solve_decision. Defined.

Inductive ConversationKind := Direct | Group.
#[export] Instance ConversationKind_eq_dec : EqDecision ConversationKind.
Proof. solve_decision. Defined.

(** [ConversationKind::default()]. *)
Definition default_kind : ConversationKind := Direct.

(** [ConversationKind::as_str], also its [to_sql]. *)
Definition kind_as_str (k : ConversationKind) : string :=
  match k with Direct => "direct" | Group => "group" end.

(** A column's value, as [FromSql] is given it: text, or anything [ValueRef::as_str]
    refuses. *)
Inductive value_ref := Text (s : string) | NotText.
#[export] Instance value_ref_eq_dec : EqDecision value_ref.
Proof. solve_decision. Defined.

(** The errors of [FromSql for ConversationKind]: the one [as_str] gives ([value_as_str]), and the
    column's text named in one. *)
Inductive from_sql_error := InvalidType | UnknownKind (other : string).

(** [ValueRef::as_str]. *)
Definition value_as_str (value : value_ref) : result string from_sql_error :=
  match value with Text s => Ok s | NotText => Err InvalidType end.

(** [ConversationKind::column_result]. *)
Definition kind_column_result (value : value_ref) : result ConversationKind from_sql_error :=
  value ←? value_as_str value;
  if str_eqb value "direct" then Ok Direct
  else if str_eqb value "group" then Ok Group
  else Err (UnknownKind value).

Record ChatSession := mk_chat_session {
  chat_id : string;
  nickname : option string;
  kind : ConversationKind;
  name : option string;
  description : option string;
  peer : option string;
  messages : list DisplayMessage;
  older_messages : Z;           (* usize *)
  history_only : bool;
}.

(** Field updates of a session. *)
Definition set_nickname (n : option string) (s : ChatSession) : ChatSession :=
  mk_chat_session (chat_id s) n (kind s) (name s) (description s) (peer s)
    (messages s) (older_messages s) (history_only s).
Definition set_peer (p : option string) (s : ChatSession) : ChatSession :=
  mk_chat_session (chat_id s) (nickname s) (kind s) (name s) (description s) p
    (messages s) (older_messages s) (history_only s).
Definition push_message (m : DisplayMessage) (s : ChatSession) : ChatSession :=
  mk_chat_session (chat_id s) (nickname s) (kind s) (name s) (description s) (peer s)
    (messages s ++ [m]) (older_messages s) (history_only s).
Definition set_history_only (b : bool) (s : ChatSession) : ChatSession :=
  mk_chat_session (chat_id s) (nickname s) (kind s) (name s) (description s) (peer s)
    (messages s) (older_messages s) b.

Record AppState := mk_app_state {
  chats : gmap string ChatSession;
  installation_name : option string;
  deleted : gset string;
}.
Definition app_state_default : AppState := mk_app_state ∅ None ∅.

(** [message_store::Direction] and [message_store::Message], the fields the
    source fills and reads ([message_id] is always [None] here). *)
Inductive Direction := Sent | Received.
#[export] Instance Direction_eq_dec : EqDecision Direction.
Proof. solve_decision. Defined.

Record Message := mk_message {
  msg_chat_id : string;
  msg_convo_id : string;
  msg_direction : Direction;
  msg_sender_account : option string;
  msg_sender_installation : option string;
  msg_timestamp_ms : Z;         (* i64 *)
  msg_content : list ascii;
}.

(** [display_message]. *)
Definition display_message (m : Message) : DisplayMessage :=
  mk_display_message
    (bool_decide (msg_direction m = Sent))
    (from_utf8_lossy (msg_content m))
    (as_u64 (msg_timestamp_ms m))
    (msg_sender_account m).

(** ** The tables, and what the source's statements mean *)

(** A row of [chats]; [kind] is read through [FromSql], the others by rusqlite. *)
Record chat_row := mk_chat_row {
  row_chat_id : string;
  row_kind : value_ref;
  row_nickname : option string;
  row_name : option string;
  row_description : option string;
  row_peer : option string;
}.

(** The module's tables, each keyed by its PRIMARY KEY, and the message store's
    log of each chat, oldest first. *)
Record tables := mk_tables {
  t_chats : gmap string chat_row;
  t_deleted : gset string;
  t_settings : gmap string string;
  t_messages : gmap string (list Message);
}.
Definition tables_empty : tables := mk_tables ∅ ∅ ∅ ∅.

Definition messages_of (t : tables) (id : string) : list Message :=
  default [] (t_messages t !! id).

Inductive stmt :=
| UpsertChat (row : chat_row)
| DeleteChatRow (id : string)
| InsertDeleted (id : string)
| UpsertSetting (key value : string)
| DeleteSetting (key : string).

Definition stmt_apply (s : stmt) (t : tables) : tables :=
  match s with
  | UpsertChat r =>
      mk_tables (<[row_chat_id r := r]> (t_chats t)) (t_deleted t) (t_settings t) (t_messages t)
  | DeleteChatRow id =>
      mk_tables (delete id (t_chats t)) (t_deleted t) (t_settings t) (t_messages t)
  | InsertDeleted id =>
      mk_tables (t_chats t) ({[id]} ∪ t_deleted t) (t_settings t) (t_messages t)
  | UpsertSetting k v =>
      mk_tables (t_chats t) (t_deleted t) (<[k := v]> (t_settings t)) (t_messages t)
  | DeleteSetting k =>
      mk_tables (t_chats t) (t_deleted t) (delete k (t_settings t)) (t_messages t)
  end.

(** What the message store's [record] and [delete_chat] do to its log. *)
Definition add_message (m : Message) (t : tables) : tables :=
  mk_tables (t_chats t) (t_deleted t) (t_settings t)
    (<[msg_chat_id m := messages_of t (msg_chat_id m) ++ [m]]> (t_messages t)).
Definition drop_messages (id : string) (t : tables) : tables :=
  mk_tables (t_chats t) (t_deleted t) (t_settings t) (delete id (t_messages t)).

(** ** The interface *)

Class Sqlite := {
  Connection : Set;
  SqlError : Set;
  sql_error_display : SqlError → string;
  from_sql_failure : from_sql_error → SqlError;
  (* rusqlite *)
  conn_open : string → result Connection SqlError;
  pragma_update : Connection → string → string → result unit SqlError * Connection;
  migrations_to_latest : Connection → result unit SqlError * Connection;
  sql_execute : Connection → stmt → result unit SqlError * Connection;
  sql_begin : Connection → result unit SqlError * Connection;
  sql_commit : Connection → result unit SqlError * Connection;
  sql_rollback : Connection → Connection;
  sql_select_chats : Connection → result (list (result chat_row SqlError)) SqlError;
  sql_select_deleted : Connection → result (list string) SqlError;
  sql_select_setting : Connection → string → result (option string) SqlError;
  (* message_store *)
  store_migrate : Connection → result unit SqlError * Connection;
  store_record : Connection → Message → result unit SqlError * Connection;
  store_messages : Connection → string → nat → result (list Message) SqlError;
  store_count : Connection → string → result Z SqlError;
  store_delete_chat : Connection → string → result unit SqlError * Connection;
}.

(** [view] is what a statement on the connection sees; [base] the tables a
    rollback returns to while a transaction is open. *)
Class SqliteLaws {DB : Sqlite} := {
  view : Connection → tables;
  base : Connection → option tables;
  execute_law c s r c' : sql_execute c s = (r, c') →
    base c' = base c ∧ view c' = if is_ok r then stmt_apply s (view c) else view c;
  begin_law c r c' : sql_begin c = (r, c') →
    view c' = view c ∧ base c' = if is_ok r then Some (view c) else base c;
  commit_law c r c' : sql_commit c = (r, c') →
    view c' = view c ∧ base c' = if is_ok r then None else base c;
  rollback_law c :
    base (sql_rollback c) = None ∧ view (sql_rollback c) = default (view c) (base c);
  select_chats_law c rows : sql_select_chats c = Ok (map Ok rows) →
    rows ≡ₚ (map_to_list (t_chats (view c))).*2;
  select_deleted_law c ids : sql_select_deleted c = Ok ids →
    ids ≡ₚ elements (t_deleted (view c));
  select_setting_law c k v : sql_select_setting c k = Ok v → v = t_settings (view c) !! k;
  record_law c m r c' : store_record c m = (r, c') →
    base c' = base c ∧ view c' = if is_ok r then add_message m (view c) else view c;
  messages_law c id n ms : store_messages c id n = Ok ms →
    ms = last_n n (messages_of (view c) id);
  count_law c id n : store_count c id = Ok n →
    in_u64 n ∧ n = Z.of_nat (length (messages_of (view c) id));
  delete_chat_law c id r c' : store_delete_chat c id = (r, c') →
    base c' = base c ∧ view c' = if is_ok r then drop_messages id (view c) else view c;
}.
Arguments SqliteLaws : clear implicits.

(** ** Operations *)

Section ops.
Context {DB : Sqlite}.

(** A sequence of calls on one connection; [?] stops it at the first error. *)
Definition sql (A : Type) : Type := Connection → result A SqlError * Connection.
Definition sql_ret {A} (a : A) : sql A := λ c, (Ok a, c).
Definition sql_bind {A B} (m : sql A) (k : A → sql B) : sql B := λ c,
  match m c with
  | (Ok a, c) => k a c
  | (Err e, c) => (Err e, c)
  end.
Definition sql_then {A B} (m : sql A) (k : sql B) : sql B := sql_bind m (λ _, k).

(** [let tx = conn.transaction()?; ...; tx.commit()]: a transaction dropped
    uncommitted, which is every error's way out, rolls back. *)
Definition transaction (body : sql unit) : sql unit := λ conn,
  match sql_begin conn with
  | (Err e, conn) => (Err e, conn)
  | (Ok _, tx) =>
      match sql_then body sql_commit tx with
      | (Ok _, conn) => (Ok tt, conn)
      | (Err e, tx) => (Err e, sql_rollback tx)
      end
  end.

(** [open]: the key is set before anything reads the file. *)
Definition open (path key : string) : result Connection SqlError :=
  match conn_open path with
  | Err e => Err e
  | Ok conn =>
      match
        sql_then (λ c, pragma_update c "key" key)
          (sql_then (λ c, pragma_update c "journal_mode" "WAL")
            (sql_then migrations_to_latest store_migrate)) conn
      with
      | (Ok _, conn) => Ok conn
      | (Err e, _) => Err e
      end
  end.

(** The closure [load_state] maps each row of [chats] through. *)
Definition session_of_row (row : chat_row) : result ChatSession SqlError :=
  match kind_column_result (row_kind row) with
  | Err e => Err (from_sql_failure e)
  | Ok kind =>
      Ok (mk_chat_session (row_chat_id row) (row_nickname row) kind (row_name row)
            (row_description row) (row_peer row) [] 0 false)
  end.

(** The body of [load_state]'s loop over [rows]. *)
Definition load_session (conn : Connection) (row : result chat_row SqlError)
    : result ChatSession SqlError :=
  row ←? row;
  session ←? session_of_row row;
  stored ←? store_messages conn (chat_id session) LOADED_PER_CHAT;
  let messages := map display_message stored in
  count ←? store_count conn (chat_id session);
  Ok (mk_chat_session (chat_id session) (nickname session) (kind session) (name session)
        (description session) (peer session) messages
        (usize_sub count (Z.of_nat (length messages))) (history_only session)).

Fixpoint load_chats (conn : Connection) (rows : list (result chat_row SqlError))
    (acc : gmap string ChatSession) : result (gmap string ChatSession) SqlError :=
  match rows with
  | [] => Ok acc
  | row :: rows =>
      session ←? load_session conn row;
      load_chats conn rows (<[chat_id session := session]> acc)
  end.

Definition load_state (conn : Connection) : result AppState SqlError :=
  rows ←? sql_select_chats conn;
  chats ←? load_chats conn rows ∅;
  deleted ←? sql_select_deleted conn;
  installation_name ←? sql_select_setting conn "installation_name";
  Ok (mk_app_state chats installation_name (list_to_set deleted)).

(** The parameters [save_chat] binds. *)
Definition row_of_session (s : ChatSession) : chat_row :=
  mk_chat_row (chat_id s) (Text (kind_as_str (kind s))) (nickname s) (name s)
    (description s) (peer s).

Definition save_chat (session : ChatSession) : sql unit :=
  λ conn, sql_execute conn (UpsertChat (row_of_session session)).

Definition record_message (session : option ChatSession) (message : Message) : sql unit :=
  transaction
    (sql_then
      (match session with Some session => save_chat session | None => sql_ret tt end)
      (λ tx, store_record tx message)).

Definition delete_chat (id : string) : sql unit :=
  transaction
    (sql_then (λ tx, store_delete_chat tx id)
      (sql_then (λ tx, sql_execute tx (DeleteChatRow id))
        (λ tx, sql_execute tx (InsertDeleted id)))).

Definition save_installation_name (name : option string) : sql unit := λ conn,
  match name with
  | Some name => sql_execute conn (UpsertSetting "installation_name" name)
  | None => sql_execute conn (DeleteSetting "installation_name")
  end.
End ops.

(** ** Writes are atomic *)

Section writes.
Context {DB : Sqlite} {L : SqliteLaws DB}.

(** What a program of statements does to the tables it sees, when it succeeds;
    the enclosing transaction is left as it was. *)
Definition effect (m : sql unit) (f : tables → tables) : Prop :=
  ∀ c r c', m c = (r, c') →
    base c' = base c ∧ (is_ok r = true → view c' = f (view c)).

(** A write outside a transaction: all of [f], or nothing. *)
Definition atomic (m : sql unit) (f : tables → tables) : Prop :=
  ∀ c r c', base c = None → m c = (r, c') →
    base c' = None ∧ view c' = if is_ok r then f (view c) else view c.

Lemma effect_ret : effect (sql_ret tt) id.
Proof. intros c r c' [= <- <-]. done. Qed.

Lemma effect_execute s : effect (λ c, sql_execute c s) (stmt_apply s).
Proof. intros c r c' H. destruct (execute_law _ _ _ _ H) as [? ->]. by destruct r. Qed.

Lemma effect_record m : effect (λ c, store_record c m) (add_message m).
Proof. intros c r c' H. destruct (record_law _ _ _ _ H) as [? ->]. by destruct r. Qed.

Lemma effect_drop i : effect (λ c, store_delete_chat c i) (drop_messages i).
Proof. intros c r c' H. destruct (delete_chat_law _ _ _ _ H) as [? ->]. by destruct r. Qed.

Lemma effect_then m k f g : effect m f → effect k g → effect (sql_then m k) (g ∘ f).
Proof.
  intros Hm Hk c r c'. unfold sql_then, sql_bind.
  destruct (m c) as [[[]|e] c1] eqn:E; apply Hm in E as [Hb Hv].
  - intros H. apply Hk in H as [Hb' Hv']. cbn. split; [congruence|].
    intros Hr. by rewrite Hv', Hv.
  - intros [= <- <-]. done.
Qed.

(** A rolled back or refused transaction leaves the tables as they were. *)
Lemma transaction_atomic body f : effect body f → atomic (transaction body) f.
Proof.
  intros Hbody c r c' Hc. unfold transaction.
  destruct (sql_begin c) as [[[]|e] c1] eqn:Eb; apply begin_law in Eb as [Hv1 Hb1];
    cbn in Hb1; [|intros [= <- <-]; by rewrite Hb1, Hv1].
  unfold sql_then, sql_bind.
  destruct (body c1) as [[[]|e] c2] eqn:E2; apply Hbody in E2 as [Hb2 Hv2].
  - destruct (sql_commit c2) as [[[]|e] c3] eqn:E3; apply commit_law in E3 as [Hv3 Hb3];
      intros [= <- <-]; cbn in *.
    + split; [done|]. by rewrite Hv3, Hv2, Hv1.
    + destruct (rollback_law c3) as [-> ->]. by rewrite Hb3, Hb2, Hb1.
  - intros [= <- <-]. destruct (rollback_law c2) as [-> ->].
    split; [done|]. by rewrite Hb2, Hb1.
Qed.

Lemma execute_atomic s : atomic (λ c, sql_execute c s) (stmt_apply s).
Proof. intros c r c' Hc H. destruct (execute_law _ _ _ _ H) as [-> ->]. done. Qed.

Lemma save_chat_atomic s :
  atomic (save_chat s) (stmt_apply (UpsertChat (row_of_session s))).
Proof. apply execute_atomic. Qed.

Definition installation_name_write (n : option string) : stmt :=
  match n with
  | Some n => UpsertSetting "installation_name" n
  | None => DeleteSetting "installation_name"
  end.

Lemma save_installation_name_atomic n :
  atomic (save_installation_name n) (stmt_apply (installation_name_write n)).
Proof. destruct n; apply execute_atomic. Qed.

(** The tables after a recorded message. *)
Definition record_tables (s : option ChatSession) (m : Message) (t : tables) : tables :=
  add_message m
    (match s with
     | Some s => stmt_apply (UpsertChat (row_of_session s)) t
     | None => t
     end).

Lemma record_message_atomic s m : atomic (record_message s m) (record_tables s m).
Proof.
  apply transaction_atomic.
  refine (effect_then _ _ (λ t, match s with
    | Some s => stmt_apply (UpsertChat (row_of_session s)) t | None => t end)
    (add_message m) _ _).
  - destruct s; [apply effect_execute|apply effect_ret].
  - apply effect_record.
Qed.

(** The tables after a deleted chat. *)
Definition deleted_tables (i : string) (t : tables) : tables :=
  stmt_apply (InsertDeleted i) (stmt_apply (DeleteChatRow i) (drop_messages i t)).

Lemma delete_chat_atomic i : atomic (delete_chat i) (deleted_tables i).
Proof.
  apply transaction_atomic.
  refine (effect_then _ _ (drop_messages i)
    (stmt_apply (InsertDeleted i) ∘ stmt_apply (DeleteChatRow i)) (effect_drop i) _).
  apply effect_then; apply effect_execute.
Qed.
End writes.

(** ** What is on disk is what is in memory *)

(** [stored t st]: the tables [t] hold the state [st], each chat's list being the
    newest part of its log, at least [LOADED_PER_CHAT] long unless it is all. *)
Record stored (t : tables) (st : AppState) : Prop := {
  stored_chats : t_chats t = row_of_session <$> chats st;
  stored_deleted : t_deleted t = deleted st;
  stored_name : t_settings t !! "installation_name" = installation_name st;
  stored_keys : ∀ i s, chats st !! i = Some s → chat_id s = i;
  stored_messages : ∀ i s, chats st !! i = Some s →
    ∃ older, map display_message (messages_of t i) = older ++ messages s ∧
      older_messages s = Z.of_nat (length older) ∧
      (older = [] ∨ LOADED_PER_CHAT ≤ length (messages s));
  stored_orphans : ∀ i, chats st !! i = None → messages_of t i = [];
}.

(** What a restart makes of a chat: its newest page, the rest counted. *)
Definition reload_session (s : ChatSession) : ChatSession :=
  mk_chat_session (chat_id s) (nickname s) (kind s) (name s) (description s) (peer s)
    (last_n LOADED_PER_CHAT (messages s))
    (older_messages s + Z.of_nat (length (messages s) - LOADED_PER_CHAT)) false.

Lemma kind_roundtrip k : kind_column_result (Text (kind_as_str k)) = Ok k.
Proof. by destruct k. Qed.

Section loading.
Context {DB : Sqlite} {L : SqliteLaws DB}.

Lemma usize_sub_small a b : in_u64 a → (0 ≤ b ≤ a)%Z → usize_sub a b = (a - b)%Z.
Proof. unfold in_u64. intros Ha Hb. apply as_u64_id. unfold in_u64. lia. Qed.

Lemma load_session_stored c st i s r :
  stored (view c) st → chats st !! i = Some s →
  load_session c (Ok (row_of_session s)) = Ok r → r = reload_session s.
Proof.
  intros Hst Hi. unfold load_session. cbn [and_then].
  unfold session_of_row. cbn [row_of_session row_kind]. rewrite kind_roundtrip. cbn.
  rewrite (stored_keys _ _ Hst i s Hi).
  destruct (store_messages c i LOADED_PER_CHAT) as [ms|] eqn:Em; [|done]. cbn.
  destruct (store_count c i) as [n|] eqn:En; [|done]. cbn. intros [= <-].
  apply messages_law in Em as ->. apply count_law in En as [Hn ->].
  destruct (stored_messages _ _ Hst i s Hi) as (older & Hlog & Ho & Hfull).
  unfold reload_session. rewrite (stored_keys _ _ Hst i s Hi).
  apply (f_equal length) in Hlog as Hlen. rewrite length_map, length_app in Hlen.
  assert (map display_message (last_n LOADED_PER_CHAT (messages_of (view c) i))
          = last_n LOADED_PER_CHAT (messages s)) as ->.
  { unfold last_n. rewrite <-skipn_map, Hlog.
    rewrite Hlen.
    destruct Hfull as [->|Hfull]; [done|].
    replace (length older + length (messages s) - LOADED_PER_CHAT)
      with (length older + (length (messages s) - LOADED_PER_CHAT)) by lia.
    by rewrite <-drop_drop, drop_app_length. }
  f_equal. rewrite last_n_length, usize_sub_small by (done || lia).
  rewrite Ho, Hlen. destruct Hfull as [->|]; cbn [length]; lia.
Qed.

(** A row that could not be read ends the load. *)
Lemma load_chats_rows c rows acc m :
  load_chats c rows acc = Ok m → ∃ rs, rows = map Ok rs.
Proof.
  revert acc. induction rows as [|[row|e] rows IH]; intros acc;
    cbn [load_chats].
  - intros _. by exists [].
  - destruct (load_session c (Ok row)) as [s|]; [|done]. cbn.
    intros [rs ->]%IH. by exists (row :: rs).
  - done.
Qed.

Lemma load_chats_lookup c st rs acc m :
  stored (view c) st →
  (∀ r, r ∈ rs → ∃ i s, chats st !! i = Some s ∧ r = row_of_session s) →
  load_chats c (map Ok rs) acc = Ok m →
  ∀ i, m !! i =
    match chats st !! i with
    | Some s =>
        if decide (i ∈ map row_chat_id rs) then Some (reload_session s) else acc !! i
    | None => acc !! i
    end.
Proof.
  intros Hst. revert acc. induction rs as [|r rs IH]; intros acc Hrs;
    cbn [load_chats map].
  { intros [= <-] i. destruct (chats st !! i); [|done].
    rewrite decide_False; [done|].
    apply not_elem_of_nil. }
  destruct (Hrs r) as (i0 & s0 & Hi0 & ->); [by left|].
  destruct (load_session c (Ok (row_of_session s0))) as [s|] eqn:Es; [|done]. cbn.
  apply (load_session_stored c st i0) in Es as ->; [|done..].
  intros Hm i. rewrite (IH _ (λ r Hr, Hrs r (list_elem_of_further _ _ _ Hr)) Hm).
  assert (chat_id s0 = i0) as E by by eapply stored_keys.
  cbn. rewrite E. cbn in Hm. destruct (decide (i = i0)) as [->|Hne].
  - rewrite Hi0, lookup_insert_eq.
    rewrite (decide_True (P := i0 ∈ i0 :: _)) by by left. by destruct (decide _).
  - rewrite lookup_insert_ne by done. destruct (chats st !! i); [|done].
    apply decide_ext. rewrite elem_of_cons. naive_solver.
Qed.

Lemma load_state_stored c st st' :
  stored (view c) st → load_state c = Ok st' →
  st' = mk_app_state (reload_session <$> chats st) (installation_name st) (deleted st).
Proof.
  intros Hst. unfold load_state.
  destruct (sql_select_chats c) as [rows|] eqn:Er; [|done]. cbn.
  destruct (load_chats c rows ∅) as [m|] eqn:Em; [|done]. cbn.
  destruct (sql_select_deleted c) as [ids|] eqn:Ed; [|done]. cbn.
  destruct (sql_select_setting c "installation_name") as [n|] eqn:En; [|done]. cbn.
  intros [= <-].
  apply select_deleted_law in Ed. apply select_setting_law in En as ->.
  destruct (load_chats_rows _ _ _ _ Em) as [rs ->]. apply select_chats_law in Er.
  assert (∀ r, r ∈ rs ↔ ∃ i s, chats st !! i = Some s ∧ r = row_of_session s) as Hrs.
  { intros r. rewrite Er, (stored_chats _ _ Hst), list_elem_of_fmap. split.
    - intros ([i r'] & -> & H%elem_of_map_to_list).
      rewrite lookup_fmap, fmap_Some in H. destruct H as (s & ? & ->). eauto.
    - intros (i & s & Hi & ->). exists (i, row_of_session s). split; [done|].
      apply elem_of_map_to_list. by rewrite lookup_fmap, Hi. }
  f_equal; [|by rewrite (stored_name _ _ Hst)|].
  - apply map_eq. intros i. rewrite lookup_fmap.
    rewrite (load_chats_lookup c st rs ∅ m Hst (λ r, proj1 (Hrs r)) Em i).
    destruct (chats st !! i) as [s|] eqn:Hi; cbn; [|apply lookup_empty].
    rewrite decide_True; [done|].
    apply list_elem_of_In, in_map_iff. exists (row_of_session s).
    split; [by eapply stored_keys|]. apply list_elem_of_In, Hrs. eauto.
  - apply set_eq. intros i.
    rewrite elem_of_list_to_set, Ed, elem_of_elements, (stored_deleted _ _ Hst). done.
Qed.

Lemma reload_stored t st :
  stored t st →
  stored t (mk_app_state (reload_session <$> chats st) (installation_name st) (deleted st)).
Proof.
  intros Hst. split; cbn; try apply Hst.
  - rewrite (stored_chats _ _ Hst), <-map_fmap_compose.
    apply map_fmap_ext. by intros i s Hi.
  - intros i s. rewrite lookup_fmap, fmap_Some. intros (s0 & Hi & ->). cbn.
    by eapply stored_keys.
  - intros i s. rewrite lookup_fmap, fmap_Some. intros (s0 & Hi & ->).
    destruct (stored_messages _ _ Hst i s0 Hi) as (older & Hlog & Ho & Hfull). cbn.
    exists (older ++ take (length (messages s0) - LOADED_PER_CHAT) (messages s0)).
    split_and!.
    + rewrite <-app_assoc. unfold last_n. by rewrite take_drop.
    + rewrite length_app, length_take, Ho. lia.
    + rewrite last_n_length.
      destruct (decide (LOADED_PER_CHAT ≤ length (messages s0))); [right; lia|].
      left. destruct Hfull as [->|]; [|lia].
      by replace (length (messages s0) - LOADED_PER_CHAT) with 0 by lia.
  - intros i. rewrite lookup_fmap, fmap_None. apply Hst.
Qed.
End loading.

(** ** Agreement is kept by the writes *)

(** [s] may take the place of what [st] holds under [i]: the same list, or a new
    empty chat. *)
Definition same_log (st : AppState) (i : string) (s : ChatSession) : Prop :=
  chat_id s = i ∧
  match chats st !! i with
  | Some s0 => messages s = messages s0 ∧ older_messages s = older_messages s0
  | None => messages s = [] ∧ older_messages s = 0%Z
  end.

Definition put_chat (i : string) (s : ChatSession) (st : AppState) : AppState :=
  mk_app_state (<[i := s]> (chats st)) (installation_name st) (deleted st).

Lemma stored_put t st i s :
  stored t st → same_log st i s →
  stored (stmt_apply (UpsertChat (row_of_session s)) t) (put_chat i s st).
Proof.
  intros Hst [Hid Hlog]. split; cbn; try apply Hst.
  - rewrite (stored_chats _ _ Hst), fmap_insert. by rewrite Hid.
  - intros j s' [[<- <-]|[Hne Hj]]%lookup_insert_Some; [done|]. by apply (stored_keys _ _ Hst).
  - intros j s' [[<- <-]|[Hne Hj]]%lookup_insert_Some; [|by apply (stored_messages _ _ Hst)].
    change (messages_of (mk_tables _ _ _ _) i) with (messages_of t i).
    destruct (chats st !! i) as [s0|] eqn:Hi; destruct Hlog as [-> ->].
    + by apply (stored_messages _ _ Hst).
    + exists []. rewrite (stored_orphans _ _ Hst i Hi). by split_and!; [| |left].
  - intros j [Hj _]%lookup_insert_None. exact (stored_orphans _ _ Hst j Hj).
Qed.

(** A change that is not persisted ([history_only]) needs no write. *)
Lemma stored_same_row t st i s s' :
  stored t st → chats st !! i = Some s → row_of_session s' = row_of_session s →
  messages s' = messages s → older_messages s' = older_messages s →
  stored t (put_chat i s' st).
Proof.
  intros Hst Hi Hrow Hm Ho. pose proof (stored_keys _ _ Hst i s Hi) as Hid.
  assert (stmt_apply (UpsertChat (row_of_session s')) t = t) as <-.
  { rewrite Hrow. destruct t as [tc td ts tm]. unfold stmt_apply. cbn. f_equal.
    apply insert_id. pose proof (stored_chats _ _ Hst) as E. cbn in E.
    by rewrite E, Hid, lookup_fmap, Hi. }
  apply stored_put; [done|]. split; [|by rewrite Hi]. apply (f_equal row_chat_id) in Hrow.
  by rewrite <-Hid.
Qed.

Lemma messages_of_add m t j :
  messages_of (add_message m t) j =
  if decide (j = msg_chat_id m) then messages_of t j ++ [m] else messages_of t j.
Proof.
  unfold messages_of at 1, add_message. cbn. case_decide as E.
  - subst. by rewrite lookup_insert_eq.
  - by rewrite lookup_insert_ne.
Qed.

Lemma stored_add_message t st i s m :
  stored t st → chats st !! i = Some s → msg_chat_id m = i →
  stored (add_message m t) (put_chat i (push_message (display_message m) s) st).
Proof.
  intros Hst Hi Hm. split; cbn; try apply Hst.
  - rewrite (stored_chats _ _ Hst), fmap_insert. symmetry. apply insert_id.
    by rewrite lookup_fmap, Hi.
  - intros j s' [[<- <-]|[Hne Hj]]%lookup_insert_Some; [|by apply (stored_keys _ _ Hst)].
    exact (stored_keys _ _ Hst i s Hi).
  - intros j s' [[<- <-]|[Hne Hj]]%lookup_insert_Some; rewrite messages_of_add.
    + rewrite decide_True by done.
      destruct (stored_messages _ _ Hst i s Hi) as (older & Hlog & Ho & Hfull).
      exists older. rewrite map_app, Hlog. cbn. rewrite app_assoc, length_app.
      split_and!; [done..|]. destruct Hfull; [by left|right; lia].
    + rewrite decide_False by congruence. by apply (stored_messages _ _ Hst).
  - intros j [Hj Hne]%lookup_insert_None. rewrite messages_of_add, decide_False by congruence.
    by apply Hst.
Qed.

Lemma stored_delete t st i :
  stored t st →
  stored (deleted_tables i t)
    (mk_app_state (delete i (chats st)) (installation_name st) ({[i]} ∪ deleted st)).
Proof.
  intros Hst. split; cbn; try apply Hst.
  - by rewrite (stored_chats _ _ Hst), fmap_delete.
  - by rewrite (stored_deleted _ _ Hst).
  - intros j s [Hne Hj]%lookup_delete_Some. by apply (stored_keys _ _ Hst).
  - intros j s [Hne Hj]%lookup_delete_Some. unfold messages_of. cbn.
    rewrite lookup_delete_ne by done. by apply (stored_messages _ _ Hst).
  - intros j. unfold messages_of. cbn. rewrite !lookup_delete. case_decide; [done|].
    apply (stored_orphans _ _ Hst).
Qed.

Lemma stored_set_name t st n :
  stored t st →
  stored (stmt_apply (installation_name_write n) t) (mk_app_state (chats st) n (deleted st)).
Proof.
  intros Hst. split; destruct n; cbn; try apply Hst.
  - apply lookup_insert_eq.
  - apply lookup_delete_eq.
Qed.

Lemma stored_empty : stored tables_empty app_state_default.
Proof. split; cbn; done. Qed.
