(* ===== verification/ModuleState.v ===== *)
(** * The module's state ([module.rs])

    The delivery state, the display record behind the display lock, and the pure
    helpers over them. The module singleton and the two locks are in
    [Runtime.v]. *)
From S2P Require Import Prelude Utf8 Persistence.

(** ** Delivery state *)

Inductive DeliveryStateKind := Initialising | Online | Error | Stopped.
#[export] Instance DeliveryStateKind_eq_dec : EqDecision DeliveryStateKind.
Proof. solve_decision. Defined.

(** [DeliveryStateKind::as_str]. *)
Definition state_as_str (k : DeliveryStateKind) : string :=
  match k with
  | Initialising => "initialising"
  | Online => "online"
  | Error => "error"
  | Stopped => "stopped"
  end.

Record DeliveryState := mk_delivery_state {
  ds_state : DeliveryStateKind;
  ds_detail : string;
  ds_starting : bool;
  ds_started : bool;
  ds_adopted : bool;
}.

(** [DeliveryState::initialising] and [DeliveryState::stopped]. *)
Definition initialising : DeliveryState := mk_delivery_state Initialising "" false false false.
Definition stopped : DeliveryState := mk_delivery_state Stopped "" false false false.

Definition set_state (k : DeliveryStateKind) (detail : string) (s : DeliveryState)
    : DeliveryState :=
  mk_delivery_state k detail (ds_starting s) (ds_started s) (ds_adopted s).
Definition set_starting (b : bool) (s : DeliveryState) : DeliveryState :=
  mk_delivery_state (ds_state s) (ds_detail s) b (ds_started s) (ds_adopted s).
Definition set_started (b : bool) (s : DeliveryState) : DeliveryState :=
  mk_delivery_state (ds_state s) (ds_detail s) (ds_starting s) b (ds_adopted s).
Definition set_adopted (b : bool) (s : DeliveryState) : DeliveryState :=
  mk_delivery_state (ds_state s) (ds_detail s) (ds_starting s) (ds_started s) b.

Inductive InstallOutcome := Installed | AlreadyInstalled.

(** ** Display *)

Section display.
Context {DB : Sqlite}.

Record Display := mk_display {
  d_state : AppState;
  d_chat_db : option Connection;
  d_delivery_state : DeliveryState;
  d_intrinsic_name : string;
  d_address : string;
}.

(** [Display::default]. *)
Definition display_default : Display :=
  mk_display app_state_default None stopped "" "".

Definition set_delivery (s : DeliveryState) (d : Display) : Display :=
  mk_display (d_state d) (d_chat_db d) s (d_intrinsic_name d) (d_address d).
Definition set_db (c : Connection) (d : Display) : Display :=
  mk_display (d_state d) (Some c) (d_delivery_state d) (d_intrinsic_name d) (d_address d).
Definition set_app (st : AppState) (d : Display) : Display :=
  mk_display st (d_chat_db d) (d_delivery_state d) (d_intrinsic_name d) (d_address d).
Definition set_chats (m : gmap string ChatSession) (d : Display) : Display :=
  set_app (mk_app_state m (installation_name (d_state d)) (deleted (d_state d))) d.

(** [effective_installation_name]. *)
Definition effective_installation_name (d : Display) : string :=
  default (d_intrinsic_name d) (installation_name (d_state d)).
End display.

(** ** Pure helpers *)

(** [now_ms]. [clock] is [SystemTime::now().duration_since(UNIX_EPOCH)] in
    milliseconds, [None] for a clock before the epoch. *)
Definition now_ms (clock : option Z) : Z :=
  match clock with Some millis => as_u64 millis | None => 0%Z end.

(** [short_label]: the text up to the offset of its ninth character. *)
Definition short_label (chat_id : string) : string :=
  let e := default (str_len chat_id) (char_indices chat_id !! 8) in
  str_prefix chat_id e.

Lemma short_label_take_chars id : short_label id = take_chars 8 id.
Proof. apply str_prefix_char_indices. Qed.

Lemma now_ms_range clock : in_u64 (now_ms clock).
Proof. destruct clock; [apply as_u64_range|]. unfold in_u64, u64_max_plus_1. cbn. lia. Qed.
