(* ===== verification/Runtime.v ===== *)
(** * Locks, effects and programs

    The module singleton ([module.rs], [ModuleHandle]) and the language the
    operations are written in. An operation is a [prog]: a sequence of accesses to
    the display, the module handle, the node preset and what the workers are told,
    of lock operations, and of outputs (events for consumers, log lines, calls dispatched to
    delivery_module). An access names what it touches, so that the lock
    discipline of the source is a predicate on programs ([disciplined]); [run]
    executes a program alone, and [Concurrency.v] interleaves several. *)
From S2P Require Import Prelude Utf8 LogFiles Logging Delivery Persistence ModuleState.
From Stdlib Require Import Ascii.

(** ** The chat client

    libchat is not part of the repository: [Libchat] has one operation per call
    the source makes on [ChatClient]. *)
Record GroupMetadata := mk_group_metadata { meta_name : string; meta_desc : string }.

Class Libchat := {
  Client : Set;
  ClientError : Set;
  client_error_display : ClientError → string;
  Member : Set;
  member_account : Member → string;
  create_direct : Client → string → result string ClientError * Client;
  create_group : Client → list string → GroupMetadata → result string ClientError * Client;
  add_participants : Client → string → list string → result unit ClientError * Client;
  members : Client → string → result (list Member) ClientError * Client;
  pending_members : Client → string → result (list Member) ClientError * Client;
  client_send : Client → string → list ascii → result unit ClientError * Client;
  group_metadata : Client → string → result GroupMetadata ClientError * Client;
  list_all_conversations : Client → result (list string) ClientError;
  client_installation_name : Client → string;
  client_addr : Client → string;
}.

(** [logos_generic_chat::Event] and [ConversationClass]. *)
Inductive ConversationClass := Dm | GroupClass.
Inductive ClientEvent :=
| ConversationStarted (convo_id : string) (class : ConversationClass)
| MessageReceived (convo_id : string) (content : list ascii) (account signer : string)
| ConversationMembersChanged (convo_id : string)
| InboundError (message : string)
| OtherEvent.

(** ** Outputs *)

(** The contract's events ([chat_module.lidl]). *)
Inductive event :=
| message_received (convo_id content : string) (timestamp_ms : Z) (sender : string)
| message_sent (convo_id content : string) (timestamp_ms : Z)
| conversation_created (convo_id : string) (is_outgoing : bool)
    (peer_label kind name desc : string)
| conversation_updated (convo_id : string)
| members_changed (convo_id : string)
| conversation_deleted (convo_id : string)
| delivery_state_changed (delivery_state detail : string) (delivery_adopted : bool).

Inductive level := LDebug | LInfo | LWarn | LError.

Inductive output :=
| Emit (e : event)
| Log (l : level) (line : string).

(** The node configuration [start_delivery_bootstrap] sends. *)
Record node_config := mk_node_config {
  cfg_mode : string;
  cfg_preset : string;
  cfg_log_level : string;
}.

(** A call dispatched to delivery_module and not answered yet, with what its
    callback captured. *)
Inductive delivery_call :=
| CreateNode (config : node_config) (preset : string)
| GetNodeInfo (preset reason : string)
| Start
| Send (topic : string) (data : list ascii)
| Subscribe (topic : string).
#[export] Instance node_config_eq_dec : EqDecision node_config.
Proof. solve_decision. Defined.
#[export] Instance delivery_call_eq_dec : EqDecision delivery_call.
Proof. solve_decision. Defined.

Inductive lock := ModuleLock | PresetLock | DisplayLock.
#[export] Instance lock_eq_dec : EqDecision lock.
Proof. solve_decision. Defined.

(** The order locks are taken in: the module's before the display's. *)
Definition lock_rank (l : lock) : nat :=
  match l with ModuleLock => 0 | PresetLock => 1 | DisplayLock => 2 end.

(** The module's own threads, by the session they belong to: each [initialize] starts
    one, and the sessions are numbered in the order they start. *)
Inductive worker := BridgeThread (n : nat) | EventThread (n : nat).
#[export] Instance worker_eq_dec : EqDecision worker.
Proof. solve_decision. Defined.

(** What the threads of a session are told: the bridge's stop flag (the [AtomicBool]),
    and that the client is dropped, which disconnects the channel of its events. *)
Record signals := mk_signals { sg_stop : bool; sg_dropped : bool }.

(** The flags of session [n] among those of all sessions. *)
Definition stop_flag (ss : list signals) (n : nat) : bool := from_option sg_stop false (ss !! n).
Definition client_dropped (ss : list signals) (n : nat) : bool :=
  from_option sg_dropped false (ss !! n).
(** A worker waits for more to do until it is told. *)
Definition told (ss : list signals) (t : worker) : bool :=
  match t with BridgeThread n => stop_flag ss n | EventThread n => client_dropped ss n end.

(** ** State *)

Section runtime.
Context {DB : Sqlite} {LC : Libchat}.

(** [ModuleState]: the thread handles are what [shutdown] takes and joins. The flag
    [inbound_stop] points to is the one of that session in [w_signals]. *)
Record ModuleState := mk_module_state {
  ms_client : Client;
  ms_inbound_stop : nat;
  ms_inbound_thread : option worker;
  ms_event_thread : option worker;
}.

(** [ModuleHandle]: the mutex's poison flag and what it guards. *)
Record ModuleHandle := mk_module_handle {
  mh_poisoned : bool;
  mh_inner : option ModuleState;
}.

(** [ModuleHandle::new]. *)
Definition module_handle_new : ModuleHandle := mk_module_handle false None.

(** The statics as their first use finds them. *)
Definition MODULE : ModuleHandle := module_handle_new.
Definition DISPLAY : Display := display_default.

Record world := mk_world {
  w_module : ModuleHandle;
  w_display : Display;
  w_own_preset : option string;
  w_pending : list delivery_call;
  w_out : list output;
  w_log : LogStatics;
  w_signals : list signals;
}.

(** A process in which no method has been called. *)
Definition process_start (st : LogStatics) : world := mk_world MODULE DISPLAY None [] [] st [].

(** ** Programs *)
Inductive prog (A : Type) : Type :=
| Ret (a : A)
| OnModule {X : Set} (f : ModuleHandle → X * ModuleHandle) (k : X → prog A)
| OnDisplay {X : Set} (f : Display → X * Display * list output) (k : X → prog A)
| OnPreset {X : Set} (f : option string → X * option string) (k : X → prog A)
| OnLog {X : Set} (f : LogStatics → X * LogStatics) (k : X → prog A)
| OnSignals {X : Set} (f : list signals → X * list signals) (k : X → prog A)
| Output (o : output) (k : prog A)
| Dispatch (c : delivery_call) (k : prog A)
| Acquire (l : lock) (k : prog A)
| Release (l : lock) (k : prog A)
| Join (t : worker) (k : prog A).
#[global] Arguments Ret {A} a.
#[global] Arguments OnModule {A X} f k.
#[global] Arguments OnDisplay {A X} f k.
#[global] Arguments OnPreset {A X} f k.
#[global] Arguments OnLog {A X} f k.
#[global] Arguments OnSignals {A X} f k.
#[global] Arguments Output {A} o k.
#[global] Arguments Dispatch {A} c k.
#[global] Arguments Acquire {A} l k.
#[global] Arguments Release {A} l k.
#[global] Arguments Join {A} t k.

Fixpoint bind {A B} (p : prog A) (f : A → prog B) : prog B :=
  match p with
  | Ret a => f a
  | OnModule g k => OnModule g (λ x, bind (k x) f)
  | OnDisplay g k => OnDisplay g (λ x, bind (k x) f)
  | OnPreset g k => OnPreset g (λ x, bind (k x) f)
  | OnLog g k => OnLog g (λ x, bind (k x) f)
  | OnSignals g k => OnSignals g (λ x, bind (k x) f)
  | Output o k => Output o (bind k f)
  | Dispatch c k => Dispatch c (bind k f)
  | Acquire l k => Acquire l (bind k f)
  | Release l k => Release l (bind k f)
  | Join t k => Join t (bind k f)
  end.

#[global] Instance prog_mret : MRet prog := @Ret.
#[global] Instance prog_mbind : MBind prog := λ A B f p, bind p f.

(** One access. *)
Definition put_module (h : ModuleHandle) (w : world) : world :=
  mk_world h (w_display w) (w_own_preset w) (w_pending w) (w_out w) (w_log w) (w_signals w).
Definition put_display (d : Display) (os : list output) (w : world) : world :=
  mk_world (w_module w) d (w_own_preset w) (w_pending w) (w_out w ++ os) (w_log w) (w_signals w).
Definition put_preset (o : option string) (w : world) : world :=
  mk_world (w_module w) (w_display w) o (w_pending w) (w_out w) (w_log w) (w_signals w).
Definition put_log (st : LogStatics) (w : world) : world :=
  mk_world (w_module w) (w_display w) (w_own_preset w) (w_pending w) (w_out w) st (w_signals w).
Definition put_signals (ss : list signals) (w : world) : world :=
  mk_world (w_module w) (w_display w) (w_own_preset w) (w_pending w) (w_out w) (w_log w) ss.
Definition put_output (o : output) (w : world) : world :=
  mk_world (w_module w) (w_display w) (w_own_preset w) (w_pending w) (w_out w ++ [o])
    (w_log w) (w_signals w).
Definition put_pending (c : delivery_call) (w : world) : world :=
  mk_world (w_module w) (w_display w) (w_own_preset w) (w_pending w ++ [c]) (w_out w)
    (w_log w) (w_signals w).

(** A program run alone: locks are free and a joined thread has ended. *)
Fixpoint run {A} (p : prog A) (w : world) : A * world :=
  match p with
  | Ret a => (a, w)
  | OnModule f k => let '(x, h) := f (w_module w) in run (k x) (put_module h w)
  | OnDisplay f k =>
      let '(x, d, os) := f (w_display w) in run (k x) (put_display d os w)
  | OnPreset f k => let '(x, o) := f (w_own_preset w) in run (k x) (put_preset o w)
  | OnLog f k => let '(x, st) := f (w_log w) in run (k x) (put_log st w)
  | OnSignals f k => let '(x, b) := f (w_signals w) in run (k x) (put_signals b w)
  | Output o k => run k (put_output o w)
  | Dispatch c k => run k (put_pending c w)
  | Acquire _ k | Release _ k | Join _ k => run k w
  end.

(** ** The lock discipline

    [held] is the stack of locks held, [rest] the one the program ends with. A
    lock is taken above those held and released last in first out, guarded data
    is touched only under its lock, and a thread is joined with none held. *)
Fixpoint disciplined_to {A} (rest held : list lock) (p : prog A) : Prop :=
  match p with
  | Ret _ => held = rest
  | OnModule _ k => ModuleLock ∈ held ∧ ∀ x, disciplined_to rest held (k x)
  | OnDisplay _ k => DisplayLock ∈ held ∧ ∀ x, disciplined_to rest held (k x)
  | OnPreset _ k => PresetLock ∈ held ∧ ∀ x, disciplined_to rest held (k x)
  | OnLog _ k => ∀ x, disciplined_to rest held (k x)
  | OnSignals _ k => ∀ x, disciplined_to rest held (k x)
  | Output _ k | Dispatch _ k => disciplined_to rest held k
  | Acquire l k =>
      Forall (λ h, lock_rank h < lock_rank l) held ∧ disciplined_to rest (l :: held) k
  | Release l k =>
      match held with
      | h :: held => h = l ∧ disciplined_to rest held k
      | [] => False
      end
  | Join _ k => held = [] ∧ disciplined_to rest [] k
  end.

(** An operation starts and ends with no lock held. *)
Definition disciplined {A} (p : prog A) : Prop := disciplined_to [] [] p.

(** ** Primitives *)

Definition with_display {R : Set} (f : Display → R) : prog R :=
  Acquire DisplayLock
    (OnDisplay (λ d, (f d, d, [])) (λ r, Release DisplayLock (Ret r))).

Definition with_display_mut {R : Set} (f : Display → R * Display * list output) : prog R :=
  Acquire DisplayLock (OnDisplay f (λ r, Release DisplayLock (Ret r))).

(** A statement on [*own_node_preset()]. *)
Definition own_node_preset {R : Set} (f : option string → R * option string) : prog R :=
  Acquire PresetLock (OnPreset f (λ r, Release PresetLock (Ret r))).

Definition emit (e : event) : prog unit := Output (Emit e) (Ret tt).
Definition log (l : level) (line : string) : prog unit := Output (Log l line) (Ret tt).
Definition dispatch (c : delivery_call) : prog unit := Dispatch c (Ret tt).
(** The logging statics, behind [Once] and mutexes of their own. *)
Definition on_log {R : Set} (f : LogStatics → R * LogStatics) : prog R := OnLog f Ret.
(** A new session: [Arc::new(AtomicBool::new(false))], and a client that is alive. *)
Definition new_session_signals : prog nat :=
  OnSignals (λ ss, (length ss, ss ++ [mk_signals false false])) Ret.
(** [inbound_stop.store(true)] and the bridge's [load]; [drop(ms.client)]. *)
Definition store_stop (n : nat) : prog unit :=
  OnSignals (λ ss, (tt, alter (λ s, mk_signals true (sg_dropped s)) n ss)) Ret.
Definition load_stop (n : nat) : prog bool := OnSignals (λ ss, (stop_flag ss n, ss)) Ret.
Definition drop_client (n : nat) : prog unit :=
  OnSignals (λ ss, (tt, alter (λ s, mk_signals (sg_stop s) true) n ss)) Ret.
Definition join (t : worker) : prog unit := Join t (Ret tt).

(** [LockPoisoned]. *)
Inductive lock_poisoned := LockPoisoned.

(** [ModuleHandle::with_state_mut]. *)
Definition with_state_mut {R : Set} (f : ModuleState → R * ModuleState)
    : prog (result (option R) lock_poisoned) :=
  Acquire ModuleLock
    (OnModule (λ h,
       if mh_poisoned h then (Err LockPoisoned, h)
       else match mh_inner h with
            | None => (Ok None, h)
            | Some ms =>
                let '(r, ms) := f ms in (Ok (Some r), mk_module_handle false (Some ms))
            end)
      (λ r, Release ModuleLock (Ret r))).

(** [ModuleHandle::install_with]: [f] runs under the lock. *)
Definition install_with {E} (f : prog (result ModuleState E))
    : prog (result (result InstallOutcome E) lock_poisoned) :=
  Acquire ModuleLock
    (OnModule (λ h, ((mh_poisoned h, mh_inner h), h))
      (λ '(poisoned, inner),
        if (poisoned : bool) then Release ModuleLock (Ret (Err LockPoisoned))
        else match inner with
             | Some _ => Release ModuleLock (Ret (Ok (Ok AlreadyInstalled)))
             | None =>
                 bind f (λ r,
                   match r with
                   | Ok state =>
                       OnModule (λ h, (tt, mk_module_handle (mh_poisoned h) (Some state)))
                         (λ _, Release ModuleLock (Ret (Ok (Ok Installed))))
                   | Err e => Release ModuleLock (Ret (Ok (Err e)))
                   end)
             end)).

(** [ModuleHandle::take]. *)
Definition take_state : prog (result (option ModuleState) lock_poisoned) :=
  Acquire ModuleLock
    (OnModule (λ h,
       if mh_poisoned h then (Err LockPoisoned, h)
       else (Ok (mh_inner h), mk_module_handle false None))
      (λ r, Release ModuleLock (Ret r))).
End runtime.

(** [?] on the result of a program. *)
Definition try_bind {DB : Sqlite} {LC : Libchat} {A B E}
    (p : prog (result A E)) (k : A → prog (result B E)) : prog (result B E) :=
  bind p (λ r, match r with Ok a => k a | Err e => Ret (Err e) end).
Notation "x ←! p ; k" := (try_bind p (λ x, k))
  (at level 20, p at level 100, k at level 200, only parsing) : chat_scope.
Notation "' x ←! p ; k" := (try_bind p (λ x : _, k))
  (at level 20, x pattern, p at level 100, k at level 200, only parsing) : chat_scope.

(** ** Laws of [bind], [run] and [disciplined] *)

Section laws.
Context {DB : Sqlite} {LC : Libchat}.

Lemma run_bind {A B} (p : prog A) (f : A → prog B) w :
  run (bind p f) w = run (f (run p w).1) (run p w).2.
Proof.
  revert w. induction p as [a|X g k IH|X g k IH|X g k IH|X g k IH|X g k IH|o k IH|c k IH|l k IH|l k IH|t k IH];
    intros w; cbn; auto.
  - destruct (g (w_module w)) as [x h]. apply IH.
  - destruct (g (w_display w)) as [[x d] os]. apply IH.
  - destruct (g (w_own_preset w)) as [x o]. apply IH.
  - destruct (g (w_log w)) as [x st]. apply IH.
  - destruct (g (w_signals w)) as [x b]. apply IH.
Qed.

Lemma run_try_bind {A B E} (p : prog (result A E)) (k : A → prog (result B E)) w :
  run (try_bind p k) w =
  match (run p w).1 with Ok a => run (k a) (run p w).2 | Err e => (Err e, (run p w).2) end.
Proof. unfold try_bind. rewrite run_bind. by destruct (run p w).1. Qed.

(** [bind] composes the discipline. *)
Lemma disciplined_bind {A B} mid rest held (p : prog A) (f : A → prog B) :
  disciplined_to mid held p → (∀ a, disciplined_to rest mid (f a)) →
  disciplined_to rest held (bind p f).
Proof.
  revert held. induction p as [a|X g k IH|X g k IH|X g k IH|X g k IH|X g k IH|o k IH|c k IH|l k IH|l k IH|t k IH];
    intros held; cbn; intros Hp Hf.
  - by subst.
  - destruct Hp as [? Hk]. split; [done|]. intros x. apply IH; [apply Hk|done].
  - destruct Hp as [? Hk]. split; [done|]. intros x. apply IH; [apply Hk|done].
  - destruct Hp as [? Hk]. split; [done|]. intros x. apply IH; [apply Hk|done].
  - intros x. apply IH; [apply Hp|done].
  - intros x. apply IH; [apply Hp|done].
  - by apply IH.
  - by apply IH.
  - destruct Hp as [? Hk]. split; [done|]. by apply IH.
  - destruct held as [|h held]; [done|]. destruct Hp as [-> Hk].
    split; [done|]. by apply IH.
  - destruct Hp as [-> Hk]. split; [done|]. by apply IH.
Qed.
End laws.
