(* ===== verification/Concurrency.v ===== *)
(** * Threads and locks

    The module's operations run on the host's dispatch thread, on the threads
    delivery_module answers on, and on the two workers. Here any number of
    programs are interleaved, one access or lock operation at a time. Threads
    that keep the lock discipline of [Runtime.v] never touch the same guarded data at
    the same time, nor deadlock when who joins a worker has told it to end; and an
    invariant that every access to the display preserves holds at every point of every
    interleaving. *)
From stdpp Require Import relations.
From S2P Require Import Prelude Utf8 LogFiles Logging Delivery Persistence ModuleState Runtime.

Section threads.
Context {DB : Sqlite} {LC : Libchat}.
Implicit Types (w : world) (p : prog unit).

(** A thread: the worker it is, if any, the locks it holds, what it has left to do. *)
Record thread := mk_thread {
  th_role : option worker;
  th_held : list lock;
  th_prog : prog unit;
}.
Implicit Types (th : thread) (ts : list thread).

Definition finished th : bool := match th_prog th with Ret _ => true | _ => false end.

(** A lock is free when no thread holds it; a worker has nothing left to do when each
    thread that runs it has finished. *)
Definition lock_free ts (l : lock) : bool := forallb (λ th, bool_decide (l ∉ th_held th)) ts.
Definition worker_over ts (t : worker) : bool :=
  forallb (λ th, negb (bool_decide (th_role th = Some t)) || finished th) ts.

(** A worker that has dealt with all it was handed still waits for more: it is over,
    and can be joined, once it was told to end as well. *)
Definition joinable ts w (t : worker) : bool := told (w_signals w) t && worker_over ts t.

(** One step of a thread among [ts]; [None] when it is blocked or has finished. *)
Definition exec ts w th : option (world * list lock * prog unit) :=
  match th_prog th with
  | Ret _ => None
  | OnModule f k => let '(x, h) := f (w_module w) in Some (put_module h w, th_held th, k x)
  | OnDisplay f k =>
      let '(x, d, os) := f (w_display w) in Some (put_display d os w, th_held th, k x)
  | OnPreset f k => let '(x, o) := f (w_own_preset w) in Some (put_preset o w, th_held th, k x)
  | OnLog f k => let '(x, st) := f (w_log w) in Some (put_log st w, th_held th, k x)
  | OnSignals f k => let '(x, b) := f (w_signals w) in Some (put_signals b w, th_held th, k x)
  | Output o k => Some (put_output o w, th_held th, k)
  | Dispatch c k => Some (put_pending c w, th_held th, k)
  | Acquire l k => if lock_free ts l then Some (w, l :: th_held th, k) else None
  | Release l k =>
      match th_held th with
      | h :: held => if decide (h = l) then Some (w, held, k) else None
      | [] => None
      end
  | Join t k => if joinable ts w t then Some (w, th_held th, k) else None
  end.

Definition config : Type := world * list thread.

Inductive tstep : config → config → Prop :=
| tstep_thread w ts i th w' held p :
    ts !! i = Some th → exec ts w th = Some (w', held, p) →
    tstep (w, ts) (w', <[i := mk_thread (th_role th) held p]> ts).

(** The threads scheduled in the given order; [None] when one of them cannot step. *)
Fixpoint schedule (turns : list nat) (c : config) : option config :=
  match turns with
  | [] => Some c
  | i :: turns =>
      th ← c.2 !! i;
      r ← exec c.2 c.1 th;
      schedule turns (r.1.1, <[i := mk_thread (th_role th) r.1.2 r.2]> c.2)
  end.

Lemma schedule_steps turns c c' : schedule turns c = Some c' → rtc tstep c c'.
Proof.
  revert c. induction turns as [|i turns IH]; intros [w ts]; cbn [schedule fst snd]; [by intros [= <-]|].
  destruct (ts !! i) as [th|] eqn:Hi; [|done]. cbn.
  destruct (exec ts w th) as [[[w1 held] p]|] eqn:He; [|done]. cbn. intros H.
  eapply rtc_l; [by econstructor|]. by apply IH.
Qed.

(** A program with no [Join] in it, as a worker's is. *)
Fixpoint no_join {A} (p : prog A) : Prop :=
  match p with
  | Ret _ => True
  | OnModule _ k => ∀ x, no_join (k x)
  | OnDisplay _ k => ∀ x, no_join (k x)
  | OnPreset _ k => ∀ x, no_join (k x)
  | OnLog _ k => ∀ x, no_join (k x)
  | OnSignals _ k => ∀ x, no_join (k x)
  | Output _ k | Dispatch _ k | Acquire _ k | Release _ k => no_join k
  | Join _ _ => False
  end.

Lemma no_join_bind {A B} (p : prog A) (f : A → prog B) :
  no_join p → (∀ a, no_join (f a)) → no_join (bind p f).
Proof. induction p; cbn; naive_solver. Qed.

(** ** Threads that keep the discipline *)

Definition thread_ok th : Prop :=
  disciplined_to [] (th_held th) (th_prog th) ∧ (th_role th ≠ None → no_join (th_prog th)).

(** No lock is held twice. *)
Definition exclusive ts : Prop :=
  ∀ i j th th' l, ts !! i = Some th → ts !! j = Some th' → i ≠ j →
    l ∈ th_held th → l ∈ th_held th' → False.

Definition pool_ok ts : Prop := Forall thread_ok ts ∧ exclusive ts.

Lemma exec_ok ts w th w' held p :
  thread_ok th → exec ts w th = Some (w', held, p) →
  thread_ok (mk_thread (th_role th) held p) ∧
  ∀ l, l ∈ held → l ∈ th_held th ∨ lock_free ts l = true.
Proof.
  intros [Hd Hj]. unfold exec, thread_ok.
  destruct (th_prog th) as [a|X g k|X g k|X g k|X g k|X g k|o k|c k|l k|l k|t k]; cbn in *.
  - done.
  - destruct (g _) as [x h]. intros [= <- <- <-]. destruct Hd. naive_solver.
  - destruct (g _) as [[x d] os]. intros [= <- <- <-]. destruct Hd. naive_solver.
  - destruct (g _) as [x o]. intros [= <- <- <-]. destruct Hd. naive_solver.
  - destruct (g _) as [x st]. intros [= <- <- <-]. naive_solver.
  - destruct (g _) as [x b]. intros [= <- <- <-]. naive_solver.
  - intros [= <- <- <-]. naive_solver.
  - intros [= <- <- <-]. naive_solver.
  - destruct (lock_free ts l) eqn:E; [|done]. intros [= <- <- <-]. destruct Hd as [_ Hd].
    split; [done|]. intros l' [->|]%elem_of_cons; auto.
  - destruct (th_held th) as [|h held0]; [done|]. destruct Hd as [-> Hd].
    rewrite decide_True by done. intros [= <- <- <-]. split; [done|].
    intros l' ?. left. by right.
  - destruct (joinable ts _ t); [|done]. intros [= <- <- <-]. destruct Hd as [Hh Hd].
    rewrite Hh. split; [|naive_solver]. split; [done|]. intros Hr. by destruct (Hj Hr).
Qed.

Lemma lock_free_held ts l i th :
  lock_free ts l = true → ts !! i = Some th → l ∉ th_held th.
Proof.
  unfold lock_free. rewrite forallb_forall. intros H Hi.
  apply (bool_decide_eq_true (l ∉ th_held th)), H, list_elem_of_In.
  by eapply list_elem_of_lookup_2.
Qed.

(** The discipline and mutual exclusion are kept by every step. *)
Lemma tstep_ok w ts w' ts' : pool_ok ts → tstep (w, ts) (w', ts') → pool_ok ts'.
Proof.
  intros [Hok Hex] Hstep. inversion Hstep as [? ? i th ? held p Hi Hexec]; subst.
  pose proof Hok as Hth. rewrite Forall_lookup in Hth. specialize (Hth i th Hi).
  destruct (exec_ok _ _ _ _ _ _ Hth Hexec) as [Hth' Hheld].
  split; [by apply Forall_insert|].
  assert (∀ j th' l, ts !! j = Some th' → i ≠ j → l ∈ held → l ∈ th_held th' → False) as Hnew.
  { intros j th' l Hj Hij Hl Hl'. destruct (Hheld l Hl) as [Hl0|Hfree].
    - by eapply (Hex i j).
    - by eapply lock_free_held. }
  intros j1 j2 th1 th2 l H1 H2 Hne Hl1 Hl2.
  apply list_lookup_insert_Some in H1 as [(<- & <- & _)|[Hne1 H1]];
    apply list_lookup_insert_Some in H2 as [(<- & <- & _)|[Hne2 H2]]; try done.
  - by eapply (Hnew j2).
  - by eapply (Hnew j1).
  - by eapply (Hex j1 j2).
Qed.

(** ** Progress *)

Definition can_step w ts : Prop := ∃ c, tstep (w, ts) c.

Lemma exec_can_step w ts i th r : ts !! i = Some th → exec ts w th = Some r → can_step w ts.
Proof. intros Hi He. destruct r as [[w' held] p]. eexists. by econstructor. Qed.

Lemma lock_taken ts l : lock_free ts l = false → ∃ j th, ts !! j = Some th ∧ l ∈ th_held th.
Proof.
  unfold lock_free. induction ts as [|th ts IH]; [done|]. cbn. intros [H|H]%andb_false_iff.
  - exists 0, th. split; [done|]. apply bool_decide_eq_false in H.
    by destruct (decide (l ∈ th_held th)).
  - destruct (IH H) as (j & th' & Hj & Hl). by exists (S j), th'.
Qed.

Lemma worker_running ts t :
  worker_over ts t = false →
  ∃ j th, ts !! j = Some th ∧ th_role th = Some t ∧ finished th = false.
Proof.
  unfold worker_over. induction ts as [|th ts IH]; [done|]. cbn. intros [H|H]%andb_false_iff.
  - exists 0, th. apply orb_false_iff in H as [H1%negb_false_iff H2].
    by apply bool_decide_eq_true in H1.
  - destruct (IH H) as (j & th' & Hj & Hl). by exists (S j), th'.
Qed.

(** What a thread that cannot step waits for. *)
Lemma exec_blocked ts w th :
  thread_ok th → exec ts w th = None → finished th = false →
  (∃ l k, th_prog th = Acquire l k ∧ lock_free ts l = false) ∨
  (∃ t k, th_prog th = Join t k ∧ joinable ts w t = false).
Proof.
  intros [Hd _]. unfold exec, finished.
  destruct (th_prog th) as [a|X g k|X g k|X g k|X g k|X g k|o k|c k|l k|l k|t k]; cbn in Hd; try done.
  - by destruct (g _).
  - by destruct (g _) as [[? ?] ?].
  - by destruct (g _).
  - by destruct (g _).
  - by destruct (g _).
  - destruct (lock_free ts l) eqn:E; [done|]. left. by exists l, k.
  - destruct (th_held th) as [|h held]; [done|]. destruct Hd as [-> _].
    by rewrite decide_True.
  - destruct (joinable ts w t) eqn:E; [done|]. right. by exists t, k.
Qed.

Lemma holder_unfinished th l : thread_ok th → l ∈ th_held th → finished th = false.
Proof.
  intros [Hd _] Hl. unfold finished. destruct (th_prog th); try done.
  cbn in Hd. rewrite Hd in Hl. by apply not_elem_of_nil in Hl.
Qed.

(** A thread waiting for a lock waits for a thread waiting for a later one, and
    there are three locks. *)
Lemma waiting_can_step w ts (n : nat) i th l k :
  Forall thread_ok ts → ts !! i = Some th → th_prog th = Acquire l k →
  2 < lock_rank l + n → can_step w ts.
Proof.
  intros Hok. revert i th l k. induction n as [|n IH]; intros i th l k Hi Hp Hn.
  { destruct l; cbn in Hn; lia. }
  destruct (lock_free ts l) eqn:Hfree.
  { eapply (exec_can_step _ _ i th); [done|]. unfold exec. by rewrite Hp, Hfree. }
  destruct (lock_taken _ _ Hfree) as (j & th' & Hj & Hl).
  pose proof Hok as Hth. rewrite Forall_lookup in Hth. specialize (Hth j th' Hj).
  destruct (exec ts w th') as [r|] eqn:He; [by eapply exec_can_step|].
  destruct (exec_blocked ts w th' Hth He) as [(l' & k' & Hp' & _)|(t & k' & Hp' & _)];
    [by eapply holder_unfinished| |]; destruct Hth as [Hd _]; rewrite Hp' in Hd; cbn in Hd.
  - destruct Hd as [Hrank _]. rewrite Forall_forall in Hrank. specialize (Hrank l Hl).
    eapply IH; [exact Hj|exact Hp'|lia].
  - destruct Hd as [Hh _]. rewrite Hh in Hl. by apply not_elem_of_nil in Hl.
Qed.

Lemma worker_can_step w ts i th :
  Forall thread_ok ts → ts !! i = Some th → finished th = false → th_role th ≠ None →
  can_step w ts.
Proof.
  intros Hok Hi Hf Hr. pose proof Hok as Hth. rewrite Forall_lookup in Hth. specialize (Hth i th Hi).
  destruct (exec ts w th) as [r|] eqn:He; [by eapply exec_can_step|].
  destruct (exec_blocked ts w th Hth He Hf) as [(l & k & Hp & _)|(t & k & Hp & _)].
  - eapply (waiting_can_step w ts 3); [done..|lia].
  - destruct Hth as [_ Hj]. specialize (Hj Hr). by rewrite Hp in Hj.
Qed.

(** No deadlock: as long as a thread has not finished, some thread can step, if who
    joins a worker has told it to end. *)
Lemma pool_can_step w ts :
  Forall thread_ok ts →
  (∀ i th t k, ts !! i = Some th → th_prog th = Join t k → told (w_signals w) t = true) →
  forallb finished ts = false → can_step w ts.
Proof.
  intros Hok Htold Hf. assert (∃ i th, ts !! i = Some th ∧ finished th = false) as (i & th & Hi & Hth).
  { clear Hok Htold. induction ts as [|th ts IH]; [done|]. cbn in Hf.
    apply andb_false_iff in Hf as [H|H]; [by exists 0, th|].
    destruct (IH H) as (i & th' & ? & ?). by exists (S i), th'. }
  pose proof Hok as Hthok. rewrite Forall_lookup in Hthok. specialize (Hthok i th Hi).
  destruct (exec ts w th) as [r|] eqn:He; [by eapply exec_can_step|].
  destruct (exec_blocked ts w th Hthok He Hth) as [(l & k & Hp & _)|(t & k & Hp & Hover)].
  - eapply (waiting_can_step w ts 3); [done..|lia].
  - unfold joinable in Hover. rewrite (Htold i th t k Hi Hp) in Hover.
    destruct (worker_running _ _ Hover) as (j & th' & Hj & Hr & Hf').
    eapply worker_can_step; [done..|]. by rewrite Hr.
Qed.

(** ** Invariants of the display, and of what is put out *)

(** [p] keeps [P] with every access to the display, puts out only what satisfies [O],
    and ends with [Q]. *)
Fixpoint keeps {A} (P : Display → Prop) (O : output → Prop) (Q : A → Prop) (p : prog A) : Prop :=
  match p with
  | Ret a => Q a
  | OnModule _ k => ∀ x, keeps P O Q (k x)
  | OnDisplay f k => ∀ d, P d → P (f d).1.2 ∧ Forall O (f d).2 ∧ keeps P O Q (k (f d).1.1)
  | OnPreset _ k => ∀ x, keeps P O Q (k x)
  | OnLog _ k => ∀ x, keeps P O Q (k x)
  | OnSignals _ k => ∀ x, keeps P O Q (k x)
  | Output o k => O o ∧ keeps P O Q k
  | Dispatch _ k | Acquire _ k | Release _ k | Join _ k => keeps P O Q k
  end.

Lemma keeps_bind {A B} (P : Display → Prop) (O : output → Prop) (Q : A → Prop) (R : B → Prop)
    (p : prog A) (f : A → prog B) :
  keeps P O Q p → (∀ a, Q a → keeps P O R (f a)) → keeps P O R (bind p f).
Proof. induction p; cbn; naive_solver. Qed.

Lemma keeps_weaken {A} (P : Display → Prop) (O : output → Prop) (Q R : A → Prop) (p : prog A) :
  keeps P O Q p → (∀ a, Q a → R a) → keeps P O R p.
Proof. induction p; cbn; naive_solver. Qed.

(** [before] is what had been put out when the threads started. *)
Definition keeping (P : Display → Prop) (O : output → Prop) (before : list output) (c : config)
    : Prop :=
  P (w_display c.1) ∧ (∃ os, w_out c.1 = before ++ os ∧ Forall O os) ∧
  Forall (λ th, keeps P O (λ _, True) (th_prog th)) c.2.

Lemma tstep_keeping P O before c c' :
  keeping P O before c → tstep c c' → keeping P O before c'.
Proof.
  intros (Hd & (os0 & Ho & Hos) & Hk) Hstep. inversion Hstep as [w ts i th w' held p Hi Hexec]; subst. cbn in *.
  pose proof Hk as Hth. rewrite Forall_lookup in Hth. specialize (Hth i th Hi). clear Hstep.
  assert (∀ os, Forall O os → ∃ os', w_out w ++ os = before ++ os' ∧ Forall O os') as Hadd.
  { intros os H. exists (os0 ++ os). by rewrite Ho, app_assoc, Forall_app. }
  pose proof (Hadd [] (Forall_nil_2 _)) as Hsame. rewrite app_nil_r in Hsame.
  assert (P (w_display w') ∧ (∃ os, w_out w' = before ++ os ∧ Forall O os) ∧
    keeps P O (λ _, True) p) as (Hd' & Ho' & Hp).
  { unfold exec in Hexec.
    destruct (th_prog th) as [a|X g k|X g k|X g k|X g k|X g k|o k|c k|l k|l k|t k]; cbn in Hth.
    - done.
    - destruct (g _) as [x h]. by simplify_eq.
    - specialize (Hth _ Hd). destruct (g _) as [[x d] os]. cbn in Hth. simplify_eq.
      destruct Hth as (? & ? & ?). split_and!; [done| |done]. by apply Hadd.
    - destruct (g _) as [x o]. by simplify_eq.
    - destruct (g _) as [x st]. by simplify_eq.
    - destruct (g _) as [x b]. by simplify_eq.
    - simplify_eq. destruct Hth. split_and!; [done| |done]. apply Hadd. by constructor.
    - by simplify_eq.
    - destruct (lock_free ts l); by simplify_eq.
    - destruct (th_held th); [done|]. case_decide; by simplify_eq.
    - destruct (joinable ts _ t); by simplify_eq. }
  split_and!; [done..|]. by apply Forall_insert.
Qed.

Lemma rtc_keeping P O before c c' :
  keeping P O before c → rtc tstep c c' → keeping P O before c'.
Proof. intros Hc. induction 1; [done|]. eauto using tstep_keeping. Qed.

Lemma rtc_pool_ok c c' : pool_ok c.2 → rtc tstep c c' → pool_ok c'.2.
Proof.
  intros Hc. induction 1 as [|[w ts] [w1 ts1] c' Hs _ IH]; [done|].
  apply IH. by eapply tstep_ok.
Qed.
End threads.
