(* ===== verification/Actions.v ===== *)
(** * Business operations ([actions.rs])

    Identity, conversations and messages, status, and the inbound-side helpers.
    A closure given to [with_display_mut] is a function from the display to its
    result, the new display and what it put out; a function of the source that
    takes [&mut Display] is the same without the lock. *)
From S2P Require Import Prelude Utf8 Delivery Persistence ModuleState Runtime.
From Stdlib Require Import Ascii.

(** Character cap for a conversation-list preview. *)
Definition PREVIEW_MAX_CHARS : nat := 160.

(** The contract's records ([chat_module.lidl]). *)
Record Conversation := mk_conversation {
  c_convo_id : string;
  c_nickname : option string;
  c_message_count : Z;
  c_last_activity_ms : Z;
  c_kind : string;
  c_name : option string;
  c_description : option string;
  c_preview : option string;
  c_history_only : bool;
}.
Record ApiMessage := mk_api_message {
  m_from_self : bool;
  m_content : string;
  m_timestamp_ms : Z;
  m_sender : option string;
}.
Record GroupMember := mk_group_member { gm_address : string; gm_pending : bool }.
Record Status := mk_status {
  st_convo_count : Z;
  st_delivery_state : string;
  st_detail : string;
  st_delivery_adopted : bool;
}.

(** [non_empty]. *)
Definition non_empty (s : string) : option string :=
  if str_eqb s "" then None else Some s.

(** [chat_message]: each conversation is its own chat. *)
Definition chat_message (convo_id : string) (direction : Direction) (timestamp_ms : Z)
    (content : list ascii) : Message :=
  mk_message convo_id convo_id direction None None (as_i64 timestamp_ms) content.

(** [usize] and [u64] in a log line. *)
Definition show_len (n : nat) : string := pretty n.

Section actions.
Context {DB : Sqlite} {LC : Libchat}.

(** [CoreError] and its [Display]. *)
Inductive CoreError :=
| NotInit
| NotFound
| Internal (reason : string)
| ClientFailed (e : ClientError)
| HistoryOnly
| Store (e : SqlError).

Definition core_error_display (e : CoreError) : string :=
  match e with
  | NotInit => "module not initialised"
  | NotFound => "conversation not found"
  | Internal reason => reason
  | ClientFailed e => client_error_display e
  | HistoryOnly => "conversation is from a previous session and kept for its history only"
  | Store e => "chat.db: " +:+ sql_error_display e
  end.

(** [with_client]. *)
Definition with_client {R : Set} (f : Client → R * Client) : prog (result R CoreError) :=
  r ← with_state_mut (λ ms,
    let '(r, client) := f (ms_client ms) in
    (r, mk_module_state client (ms_inbound_stop ms) (ms_inbound_thread ms) (ms_event_thread ms)));
  Ret (match r with
       | Ok (Some r) => Ok r
       | Ok None => Err NotInit
       | Err LockPoisoned => Err (Internal "module lock poisoned")
       end).

(** The [??] after [with_client] on a client call: [CoreError::from]. *)
Definition with_client_try {R : Set} (f : Client → result R ClientError * Client)
    : prog (result R CoreError) :=
  r ←! with_client f; Ret (map_err ClientFailed r).

(** [persist_chat]. *)
Definition persist_chat (d : Display) (id : string) : result unit CoreError * Display :=
  match d_chat_db d with
  | None => (Err NotInit, d)
  | Some chat_db =>
      match chats (d_state d) !! id with
      | None => (Err NotFound, d)
      | Some session =>
          let '(saved, chat_db) := save_chat session chat_db in
          (map_err Store saved, set_db chat_db d)
      end
  end.

(** [record_message]: the list takes the message even when the write fails. *)
Definition record_message (d : Display) (message : Message) (chat_changed : bool)
    : result unit CoreError * Display :=
  match chats (d_state d) !! msg_chat_id message with
  | None => (Ok tt, d)
  | Some session =>
      match d_chat_db d with
      | None => (Err NotInit, d)
      | Some chat_db =>
          let '(recorded, chat_db) :=
            Persistence.record_message
              (if chat_changed then Some session else None) message chat_db in
          let session := push_message (display_message message) session in
          (map_err Store recorded,
           set_chats (<[msg_chat_id message := session]> (chats (d_state d)))
             (set_db chat_db d))
      end
  end.

(** [check_live]. *)
Definition check_live (convo_id : string) : prog (result unit CoreError) :=
  r ← with_display (R := option bool) (λ d, history_only <$> chats (d_state d) !! convo_id);
  Ret (match r with
       | None => Err NotFound
       | Some true => Err HistoryOnly
       | Some false => Ok tt
       end).

(** *** Identity *)

Definition set_installation_name (n : string) : prog (result unit CoreError) :=
  with_display_mut (λ d,
    let n := non_empty n in
    match d_chat_db d with
    | None => (Err NotInit, d, [])
    | Some chat_db =>
        match save_installation_name n chat_db with
        | (Err e, chat_db) => (Err (Store e), set_db chat_db d, [])
        | (Ok _, chat_db) =>
            let st := d_state d in
            (Ok tt, set_app (mk_app_state (chats st) n (deleted st)) (set_db chat_db d), [])
        end
    end).

Definition get_installation_name : prog string := with_display effective_installation_name.

Definition get_address : prog string := with_display d_address.

(** *** Conversations *)

(** The session [create_conversation], [create_group_conversation] and the
    inbound side insert. *)
Definition new_session (id : string) (k : ConversationKind)
    (n desc p : option string) : ChatSession :=
  mk_chat_session id None k n desc p [] 0 false.

Definition insert_session (s : ChatSession) (d : Display) : Display :=
  set_chats (<[chat_id s := s]> (chats (d_state d))) d.

Definition create_conversation (peer_address : string) : prog (result string CoreError) :=
  id ←! with_client_try (λ c, create_direct c peer_address);
  log LInfo ("created direct conversation " +:+ id) ;;
  let peer_label := short_label id in
  '_ ←! with_display_mut (λ d,
    let d := insert_session (new_session id Direct None None (Some peer_address)) d in
    (persist_chat d id, []));
  emit (conversation_created id true peer_label (kind_as_str Direct) "" "") ;;
  Ret (Ok id).

Definition create_group_conversation (n desc : string) : prog (result string CoreError) :=
  id ←! with_client_try (λ c, create_group c [] (mk_group_metadata n desc));
  log LInfo ("created group conversation " +:+ id) ;;
  let label := short_label id in
  '_ ←! with_display_mut (λ d,
    let d := insert_session (new_session id Group (non_empty n) (non_empty desc) None) d in
    (persist_chat d id, []));
  emit (conversation_created id true label (kind_as_str Group) n desc) ;;
  Ret (Ok id).

Definition add_group_member (convo_id peer_address : string) : prog (result unit CoreError) :=
  '_ ←! check_live convo_id;
  '_ ←! with_client_try (λ c, add_participants c convo_id [peer_address]);
  emit (conversation_updated convo_id) ;;
  Ret (Ok tt).

(** The closure of [list_group_members]: [pending_members] is asked only once
    [members] answered. *)
Definition roster (convo_id : string) (c : Client)
    : result (list Member * list Member) ClientError * Client :=
  match members c convo_id with
  | (Err e, c) => (Err e, c)
  | (Ok committed, c) =>
      match pending_members c convo_id with
      | (Err e, c) => (Err e, c)
      | (Ok invited, c) => (Ok (committed, invited), c)
      end
  end.

Definition list_group_members (convo_id : string) : prog (list GroupMember) :=
  live ← check_live convo_id;
  if is_ok live then
    r ← with_client (roster convo_id);
    match r with
    | Ok (Ok (committed, invited)) =>
        Ret (map (λ '(m, pending), mk_group_member (member_account m) pending)
               (map (λ m, (m, false)) committed ++ map (λ m, (m, true)) invited))
    | Ok (Err e) =>
        log LWarn ("list_group_members failed: " +:+ client_error_display e) ;;
        Ret []
    | Err e =>
        log LWarn ("list_group_members: " +:+ core_error_display e) ;;
        Ret []
    end
  else Ret [].

Definition conversation_of (s : ChatSession) : Conversation :=
  mk_conversation (chat_id s) (nickname s)
    (as_i64 (usize_add (older_messages s) (Z.of_nat (length (messages s)))))
    (match last (messages s) with Some m => as_i64 (timestamp_ms m) | None => 0%Z end)
    (kind_as_str (kind s)) (name s) (description s)
    ((λ m, take_chars PREVIEW_MAX_CHARS (content m)) <$> last (messages s))
    (history_only s).

(** A [HashMap]'s [values] come in no particular order. *)
Definition list_conversations : prog (list Conversation) :=
  with_display (λ d, map conversation_of (map_to_list (chats (d_state d))).*2).

Definition api_message (m : DisplayMessage) : ApiMessage :=
  mk_api_message (from_self m) (content m) (as_i64 (timestamp_ms m)) (sender m).

Definition get_messages (convo_id : string) : prog (list ApiMessage) :=
  with_display (λ d,
    map api_message (default [] (messages <$> chats (d_state d) !! convo_id))).

(** [clock] is what the system clock reads at [now_ms]. *)
Definition send_message (clock : option Z) (convo_id content : string)
    : prog (result unit CoreError) :=
  '_ ←! check_live convo_id;
  '_ ←! with_client_try (λ c, client_send c convo_id (as_bytes content));
  log LInfo ("sent " +:+ show_len (str_len content) +:+ " bytes to " +:+ convo_id) ;;
  let ts := now_ms clock in
  '_ ←! with_display_mut (λ d,
    (record_message d (chat_message convo_id Sent ts (as_bytes content)) false, []));
  emit (message_sent convo_id content (as_i64 ts)) ;;
  Ret (Ok tt).

Definition set_conversation_nickname (convo_id nick : string) : prog (result unit CoreError) :=
  '_ ←! with_display_mut (λ d,
    match chats (d_state d) !! convo_id with
    | None => (Err NotFound, d, [])
    | Some session =>
        let session := set_nickname (if str_eqb nick "" then None else Some nick) session in
        let d := set_chats (<[convo_id := session]> (chats (d_state d))) d in
        (persist_chat d convo_id, [])
    end);
  emit (conversation_updated convo_id) ;;
  Ret (Ok tt).

Definition delete_conversation (convo_id : string) : prog (result unit CoreError) :=
  '_ ←! with_display_mut (λ d,
    match chats (d_state d) !! convo_id with
    | None => (Err NotFound, d, [])
    | Some _ =>
        match d_chat_db d with
        | None => (Err NotInit, d, [])
        | Some chat_db =>
            match delete_chat convo_id chat_db with
            | (Err e, chat_db) => (Err (Store e), set_db chat_db d, [])
            | (Ok _, chat_db) =>
                let st := d_state d in
                (Ok tt,
                 set_app (mk_app_state (delete convo_id (chats st)) (installation_name st)
                            ({[convo_id]} ∪ deleted st)) (set_db chat_db d), [])
            end
        end
    end);
  emit (conversation_deleted convo_id) ;;
  Ret (Ok tt).

(** *** Status *)

Definition status : prog Status :=
  with_display (λ d,
    mk_status (as_i64 (Z.of_nat (size (chats (d_state d)))))
      (state_as_str (ds_state (d_delivery_state d)))
      (ds_detail (d_delivery_state d))
      (ds_adopted (d_delivery_state d))).

(** *** Inbound-side helpers *)

Definition delivery_log (k : DeliveryStateKind) (detail : string) : output :=
  match k, detail with
  | Error, _ => Log LError ("delivery failed: " +:+ detail)
  | _, "" => Log LInfo ("delivery is " +:+ state_as_str k)
  | _, _ => Log LInfo ("delivery is " +:+ state_as_str k +:+ ": " +:+ detail)
  end.

(** [set_delivery_state]: nothing happens when nothing changes. *)
Definition set_delivery_state (d : Display) (k : DeliveryStateKind) (detail : string)
    : Display * list output :=
  let s := d_delivery_state d in
  if bool_decide (ds_state s = k) && str_eqb (ds_detail s) detail then (d, [])
  else
    (set_delivery (set_state k detail s) d,
     [delivery_log k detail;
      Emit (delivery_state_changed (state_as_str k) detail (ds_adopted s))]).

Definition record_node_started (d : Display) (success : bool) (message : string)
    : Display * list output :=
  let s := d_delivery_state d in
  if negb (ds_starting s) then (d, [])
  else
    let s := set_starting false s in
    if success then
      set_delivery_state (set_delivery (set_started true s) d) Online ""
    else
      set_delivery_state (set_delivery s d) Error
        ("delivery_module.start failed: " +:+ message).

(** The group's shared metadata as a joiner reads it. *)
Definition observed_metadata (convo_id : string) (k : ConversationKind)
    : prog (option string * option string) :=
  match k with
  | Group =>
      r ← with_client (λ c, group_metadata c convo_id);
      match r with
      | Ok (Ok meta) => Ret (non_empty (meta_name meta), non_empty (meta_desc meta))
      | Ok (Err e) =>
          log LWarn ("group_metadata failed: " +:+ client_error_display e) ;;
          Ret (None, None)
      | Err e =>
          log LWarn ("group_metadata: " +:+ core_error_display e) ;;
          Ret (None, None)
      end
  | Direct => Ret (None, None)
  end.

Definition record_conversation_started (convo_id : string) (k : ConversationKind)
    : prog unit :=
  '(n, desc) ← observed_metadata convo_id k;
  with_display_mut (λ d,
    if decide (convo_id ∈ deleted (d_state d)) then (tt, d, [])
    else match chats (d_state d) !! convo_id with
         | Some session =>
             let d' := set_chats (<[convo_id := set_history_only false session]>
                                    (chats (d_state d))) d in
             if history_only session
             then (tt, d', [Emit (conversation_updated convo_id)])
             else (tt, d', [])
         | None =>
             let d := insert_session (new_session convo_id k n desc None) d in
             let created :=
               Emit (conversation_created convo_id false (short_label convo_id)
                       (kind_as_str k) (default "" n) (default "" desc)) in
             match persist_chat d convo_id with
             | (Ok _, d) => (tt, d, [created])
             | (Err e, d) =>
                 (tt, d, [created;
                    Log LError ("saving a conversation failed after it started: "
                                  +:+ core_error_display e)])
             end
         end).

(** The session an inbound message lands in, and whether its row changed. *)
Definition receiving_session (d : Display) (convo_id account : string)
    : ChatSession * bool :=
  let '(session, chat_changed) :=
    match chats (d_state d) !! convo_id with
    | Some session => (session, false)
    | None => (new_session convo_id default_kind None None None, true)
    end in
  if bool_decide (kind session = Direct) && bool_decide (peer session = None)
  then (set_peer (Some account) session, true)
  else (session, chat_changed).

Definition inbound_message (clock : option Z) (convo_id : string) (content : list ascii)
    (account installation : string) : Message :=
  mk_message convo_id convo_id Received (Some account) (Some installation)
    (as_i64 (now_ms clock)) content.

Definition record_message_received (clock : option Z) (convo_id : string)
    (content : list ascii) (account installation : string) : prog unit :=
  with_display_mut (λ d,
    if decide (convo_id ∈ deleted (d_state d)) then (tt, d, [])
    else
      let received :=
        Log LInfo ("received " +:+ show_len (length content) +:+ " bytes in " +:+ convo_id
                     +:+ " from " +:+ short_label account) in
      let ts := now_ms clock in
      let '(session, chat_changed) := receiving_session d convo_id account in
      let d := set_chats (<[convo_id := session]> (chats (d_state d))) d in
      let '(recorded, d) :=
        record_message d (inbound_message clock convo_id content account installation)
          chat_changed in
      let failed :=
        match recorded with
        | Ok _ => []
        | Err e => [Log LError ("recording an inbound message failed: "
                                  +:+ core_error_display e)]
        end in
      (tt, d, received :: failed ++
              [Emit (message_received convo_id (from_utf8_lossy content) (as_i64 ts) account)])).

(** The closure of [record_members_changed] only reads the display. *)
Definition record_members_changed (convo_id : string) : prog unit :=
  with_display_mut (λ d,
    if bool_decide (convo_id ∈ deleted (d_state d))
       || bool_decide (chats (d_state d) !! convo_id = None)
    then (tt, d, [])
    else (tt, d, [Emit (members_changed convo_id)])).
End actions.
