(* ===== verification/Lifecycle.v ===== *)
(** * Bring-up, delivery bootstrap and shutdown ([actions.rs], lifecycle half)

    [initialize] and [shutdown], and the asynchronous bootstrap of
    delivery_module's node. A callback of the source is a definition of its own
    ([create_node_answered], [node_info_answered], [start_answered]) that runs when
    the pending call it belongs to is answered. *)
From S2P Require Import Prelude Utf8 Delivery Persistence ModuleState Runtime Actions.
From Stdlib Require Import Ascii.

(** [LIBCHAT_PERSISTENCE_ENABLED]. *)
Definition LIBCHAT_PERSISTENCE_ENABLED : bool := false.

(** The registry and the account logs are on one server. *)
Definition DEFAULT_REGISTRY_URL : string := "https://devnet.chat-kc.logos.co".

(** [InitError] and its [Display]. *)
Inductive InitError :=
| NoPersistencePath
| InitInternal (reason : string)
| InitDelivery (reason : string).

Definition init_error_display (e : InitError) : string :=
  match e with
  | NoPersistencePath =>
      "host did not assign an instance persistence path; start the host with a session or config dir"
  | InitInternal reason | InitDelivery reason => reason
  end.

(** [persistence_path.replace('/', "_")]. *)
Fixpoint replace_slash (s : string) : string :=
  match s with
  | "" => ""
  | String.String a s =>
      String.String (if decide (a = "/"%char) then "_"%char else a) (replace_slash s)
  end.

(** The static key of [identity.db] and [chat.db]. *)
Definition store_key (persistence_path : string) : string :=
  "rust-chat-" +:+ replace_slash persistence_path.

(** The account log and the installations of libchat, as far as
    [register_installation] uses them. *)
Record account_services := mk_account_services {
  PendingInstallation : Type;
  VerifyingKey : Type;
  Account : Type;
  Installation : Type;
  pending_generate : PendingInstallation;
  endorsement_request : PendingInstallation → list ascii;
  key_from_canonical_slice : list ascii → result VerifyingKey string;
  account_new : Account;
  publish_endorsement : Account → VerifyingKey → result unit string * Account;
  account_addr : Account → string;
  pending_complete : PendingInstallation → string → Installation;
}.

(** What the host, the file system, the account and registry services and
    delivery_module answer while [initialize] runs: the servers by their address. An
    error is its text. *)
Class InitEnv {DB : Sqlite} {LC : Libchat} := {
  env_context : option string;
  env_create_dir_all : string → result unit string;
  CryptoStore : Type;
  env_open_store : string → string → result CryptoStore string;
  env_in_memory : CryptoStore;
  env_accounts : string → account_services;
  env_build_client (registry_url auth_url : string) :
    Installation (env_accounts auth_url) → CryptoStore → result Client string;
  env_on_message_received : result unit string;
  env_on_node_started : result unit string;
  env_on_connection_state_changed : result unit string;
}.
Arguments InitEnv : clear implicits.

Section lifecycle.
Context {J : Json} {DB : Sqlite} {LC : Libchat}.

(** ** [initialize] *)

(** [session.history_only = !live.contains(&session.chat_id)] over every chat. *)
Definition mark_history_only (live : list string) (st : AppState) : AppState :=
  mk_app_state
    ((λ s, set_history_only (negb (bool_decide (chat_id s ∈ live))) s) <$> chats st)
    (installation_name st) (deleted st).

(** [register_installation]: a new installation of a new account, whose published log
    endorses it. *)
Definition register_installation (services : account_services)
    : result (Installation services) string :=
  let pending := pending_generate services in
  key ←? key_from_canonical_slice services (endorsement_request services pending);
  match publish_endorsement services (account_new services) key with
  | (Ok _, account) => Ok (pending_complete services pending (account_addr services account))
  | (Err e, _) => Err e
  end.

(** The local set-up: everything up to the delivery subscriptions. *)
Definition local_setup `{!InitEnv DB LC}
    : result (Client * Connection * AppState) InitError :=
  persistence_path ←?
    ok_or (path ← env_context; if str_eqb path "" then None else Some path)
      NoPersistencePath;
  '_ ←? map_err (λ e, InitInternal ("cannot create instance persistence path: " +:+ e))
          (env_create_dir_all persistence_path);
  let key := store_key persistence_path in
  storage ←?
    (if LIBCHAT_PERSISTENCE_ENABLED then
       map_err (λ e, InitInternal ("open store failed: " +:+ e))
         (env_open_store (persistence_path +:+ "/identity.db") key)
     else Ok env_in_memory);
  installation ←? map_err (λ e, InitInternal ("publish account failed: " +:+ e))
          (register_installation (env_accounts DEFAULT_REGISTRY_URL));
  client ←? map_err (λ e, InitInternal ("client build failed: " +:+ e))
          (env_build_client DEFAULT_REGISTRY_URL DEFAULT_REGISTRY_URL installation storage);
  chat_db ←? map_err (λ e, InitInternal ("open chat.db failed: " +:+ sql_error_display e))
          (open (persistence_path +:+ "/chat.db") key);
  state ←? map_err (λ e, InitInternal ("read chat.db failed: " +:+ sql_error_display e))
          (load_state chat_db);
  live ←? map_err
          (λ e, InitInternal ("list_all_conversations failed: " +:+ client_error_display e))
          (list_all_conversations client);
  Ok (client, chat_db, mark_history_only live state).

(** [initialize]. The two workers are spawned where the session's signals are made, before
    the display is seeded: each is a thread of the pool ([EBridge n], [EEvents n] of
    [Interleaving.v]) that may take its steps at any time, and this program only keeps
    their handles. *)
Definition initialize `{!InitEnv DB LC} : prog (result ModuleState InitError) :=
  '(client, chat_db, state) ←! Ret local_setup;
  '_ ←! Ret (map_err (λ e, InitDelivery ("subscribe(messageReceived) failed: " +:+ e))
          env_on_message_received);
  '_ ←! Ret (map_err (λ e, InitDelivery ("subscribe(nodeStarted) failed: " +:+ e))
          env_on_node_started);
  match env_on_connection_state_changed with
  | Ok _ => Ret tt
  | Err e => log LError ("init: subscribe(connectionStateChanged) failed: " +:+ e)
  end ;;
  n ← new_session_signals;
  with_display_mut (λ _,
    (tt,
     mk_display state (Some chat_db) initialising
       (client_installation_name client) (client_addr client),
     [])) ;;
  Ret (Ok (mk_module_state client n (Some (BridgeThread n)) (Some (EventThread n)))).

(** ** Delivery bootstrap *)

Definition bootstrap_config (preset : string) : node_config :=
  mk_node_config "Core" preset "ERROR".

Definition start_delivery_bootstrap (preset : string) : prog unit :=
  dispatch (CreateNode (bootstrap_config preset) preset).

(** [start_node]: [starting] is set before the dispatch. *)
Definition start_node : prog unit :=
  with_display_mut (λ d, (tt, set_delivery (set_starting true (d_delivery_state d)) d, [])) ;;
  dispatch Start.

(** [set_delivery_error]. *)
Definition set_delivery_error (detail : string) : prog unit :=
  with_display_mut (λ d, let '(d, os) := set_delivery_state d Error detail in (tt, d, os)).

(** [join_existing_node]. *)
Definition join_existing_node (preset reason : string) : prog unit :=
  dispatch (GetNodeInfo preset reason).

(** The callback of [create_node_async]. *)
Definition create_node_answered (preset : string) (res : result Value LogosError)
    : prog unit :=
  match delivery_outcome res with
  | Ok _ => own_node_preset (λ _, (tt, Some preset)) ;; start_node
  | Err reason => join_existing_node preset reason
  end.

(** The callback of [get_node_info_async]. *)
Definition node_info_answered (preset reason : string) (res : result Value LogosError)
    : prog unit :=
  match delivery_outcome res with
  | Ok _ =>
      adopted ← own_node_preset (λ own, (negb (bool_decide (own = Some preset)), own));
      (if (adopted : bool) then
         log LWarn ("delivery_module already has a node this module did not create with preset "
                      +:+ preset +:+ "; joining it with the settings it was created with")
       else Ret tt) ;;
      with_display_mut (λ d, (tt, set_delivery (set_adopted adopted (d_delivery_state d)) d, [])) ;;
      start_node
  | Err _ => set_delivery_error ("delivery_module.createNode failed: " +:+ reason)
  end.

(** The callback of [start_async]. *)
Definition start_answered (res : result Value LogosError) : prog unit :=
  match delivery_outcome res with
  | Ok _ => Ret tt
  | Err e =>
      with_display_mut (λ d,
        let d := set_delivery (set_starting false (d_delivery_state d)) d in
        let '(d, os) := set_delivery_state d Error ("delivery_module.start failed: " +:+ e) in
        (tt, d, os))
  end.

(** The callback of [send_async] and of [subscribe_async] ([delivery.rs],
    [inbound.rs]): a failure is only logged. *)
Definition send_answered (res : result Value LogosError) : prog unit :=
  match delivery_outcome res with
  | Ok _ => Ret tt
  | Err e => log LError ("delivery_module.send failed: " +:+ e)
  end.
Definition subscribe_answered (res : result Value LogosError) : prog unit :=
  match delivery_outcome res with
  | Ok _ => Ret tt
  | Err e => log LError ("delivery_module.subscribe failed: " +:+ e)
  end.

(** What runs when a pending call is answered. *)
Definition answered (c : delivery_call) (res : result Value LogosError) : prog unit :=
  match c with
  | CreateNode _ preset => create_node_answered preset res
  | GetNodeInfo preset reason => node_info_answered preset reason res
  | Start => start_answered res
  | Send _ _ => send_answered res
  | Subscribe _ => subscribe_answered res
  end.

(** [claim_delivery_retry]. *)
Definition claim_delivery_retry : prog bool :=
  with_display_mut (λ d,
    let s := d_delivery_state d in
    if negb (bool_decide (ds_state s = Error)) || ds_started s then (false, d, [])
    else let '(d, os) := set_delivery_state d Initialising "" in (true, d, os)).

(** ** [shutdown] *)

(** The caller has taken [ms] out of the handle: the bridge is told to stop and joined,
    the client dropped and the event consumer joined, with no lock held; then the
    display is reset. *)
Definition shutdown (ms : ModuleState) : prog unit :=
  store_stop (ms_inbound_stop ms) ;;
  match ms_inbound_thread ms with Some t => join t | None => Ret tt end ;;
  drop_client (ms_inbound_stop ms) ;;
  match ms_event_thread ms with Some t => join t | None => Ret tt end ;;
  with_display_mut (λ _, (tt, display_default, [])).
End lifecycle.
