(* ===== verification/Inbound.v ===== *)
(** * Background workers ([inbound.rs])

    The bridge drains delivery_module's events, the event consumer the client's.
    A worker's input is the sequence of what its channels hand it. *)
From S2P Require Import Prelude Utf8 Delivery Persistence ModuleState Runtime Actions Lifecycle.
From Stdlib Require Import Ascii.

(** ** Seen messages *)

Definition SEEN_CAPACITY : Z := 10000.

Record SeenMessages := mk_seen {
  seen_hashes : gset string;
  seen_order : list string;
}.
Definition seen_default : SeenMessages := mk_seen ∅ [].

(** [SeenMessages::first_sighting]. *)
Definition first_sighting (s : SeenMessages) (hash : string) : bool * SeenMessages :=
  if decide (hash ∈ seen_hashes s) then (false, s)
  else
    let s :=
      if decide (Z.of_nat (length (seen_order s)) = SEEN_CAPACITY) then
        match seen_order s with
        | oldest :: rest => mk_seen (seen_hashes s ∖ {[oldest]}) rest
        | [] => s
        end
      else s in
    (true, mk_seen ({[hash]} ∪ seen_hashes s) (seen_order s ++ [hash])).

(** ** The bridge *)

(** [messageReceived], decoded; the SDK's decoder may reject it. *)
Record received := mk_received {
  rx_message_hash : string;
  rx_content_topic : string;
  rx_payload : list ascii;
  rx_source : string;
}.

(** [forward_message]: the log, what reaches the client's inbound channel, and
    the window of hashes. *)
Definition forward_message (evt : option received) (seen : SeenMessages)
    : list output * list (list ascii) * SeenMessages :=
  match evt with
  | None => ([Log LWarn "inbound: messageReceived payload missing or malformed"], [], seen)
  | Some msg =>
      if negb (starts_with (rx_content_topic msg) TOPIC_PREFIX) then ([], [], seen)
      else
        let '(first, seen) := first_sighting seen (rx_message_hash msg) in
        if negb first then
          ([Log LDebug ("inbound: dropped a repeat of " +:+ rx_message_hash msg
                          +:+ " (" +:+ rx_source msg +:+ ")")], [], seen)
        else ([], [rx_payload msg], seen)
  end.

(** Unknown statuses map to [Error]. *)
Definition map_connection_status (status : string) : DeliveryStateKind :=
  if str_eqb status "Connected" || str_eqb status "PartiallyConnected" then Online else Error.

Definition connection_transition (started : bool) (status : string)
    : option DeliveryStateKind :=
  if negb started then None else Some (map_connection_status status).

(** [kind_for_class]. *)
Definition kind_for_class (class : ConversationClass) : ConversationKind :=
  match class with Dm => Direct | GroupClass => Group end.

Section workers.
Context {J : Json} {DB : Sqlite} {LC : Libchat}.

Definition handle_connection_state (status : string) : prog unit :=
  with_display_mut (λ d,
    match connection_transition (ds_started (d_delivery_state d)) status with
    | Some next => let '(d, os) := set_delivery_state d next "" in (tt, d, os)
    | None => (tt, d, [])
    end).

(** The handler of [nodeStarted]; an event the SDK cannot decode is skipped. *)
Definition handle_node_started (evt : option (bool * string)) : prog unit :=
  match evt with
  | Some (success, message) =>
      with_display_mut (λ d, let '(d, os) := record_node_started d success message in (tt, d, os))
  | None => Ret tt
  end.

Definition handle_connection_event (evt : option string) : prog unit :=
  match evt with
  | Some status => handle_connection_state status
  | None => Ret tt
  end.

(** [drain]: the events [try_recv] hands out until it answers that the subscription is
    empty or, the flag, disconnected, which drops it. [None] is a dropped subscription.
    The list includes what arrives while the loop runs; a loop whose channel is never
    found empty has no such list, and is [drain_step] of [Termination.v]. *)
Definition drain {E} (sub : option (list E * bool)) (handle : E → prog unit) : prog bool :=
  match sub with
  | None => Ret false
  | Some (events, disconnected) =>
      foldr (λ evt rest, handle evt ;; rest) (Ret (negb disconnected)) events
  end.

(** [forward_subscriptions]: [queued] is what the subscribe channel holds; the
    result is what stays in it. *)
Definition forward_subscriptions (queued : list string) : prog (list string) :=
  state ← with_display (λ d, ds_state (d_delivery_state d));
  if negb (bool_decide (state = Online)) then Ret queued
  else foldr (λ topic rest, dispatch (Subscribe topic) ;; rest) (Ret []) queued.

(** One round of [run_bridge]'s loop: what [recv_timeout] returns, what is
    pending on the other subscriptions, what the core queued since. *)
Inductive recv := Received (evt : option received) | Timeout | Disconnected.
Record round := mk_round {
  rd_message : recv;
  rd_node_started : list (option (bool * string)) * bool;
  rd_connection : list (option string) * bool;
  rd_subscribe : list string;
}.
(** The bridge's locals: the subscriptions it still polls, the seen window, the
    queued topics and what it has sent to the client. *)
Record bridge := mk_bridge {
  br_node_started : bool;
  br_connection : bool;
  br_seen : SeenMessages;
  br_queue : list string;
  br_inbound : list (list ascii);
}.

Definition polled {E} (on : bool) (sub : list E * bool) : option (list E * bool) :=
  if on then Some sub else None.

Definition outputs (os : list output) : prog unit :=
  foldr (λ o rest, Output o rest) (Ret tt) os.

(** A turn of the loop once the message is dealt with: the other subscriptions, then
    the queued topics. *)
Definition finish_round (b : bridge) (r : round) (seen : SeenMessages)
    (inbound : list (list ascii)) : prog (option bridge) :=
  ns ← drain (polled (br_node_started b) (rd_node_started r)) handle_node_started;
  cn ← drain (polled (br_connection b) (rd_connection r)) handle_connection_event;
  queue ← forward_subscriptions (br_queue b ++ rd_subscribe r);
  Ret (Some (mk_bridge ns cn seen queue inbound)).

(** A turn of the loop: the locals after it, or [None] when the loop ends, told to
    stop or disconnected from the messages. [n] is the session whose flag it reads. *)
Definition bridge_round (n : nat) (b : bridge) (r : round) : prog (option bridge) :=
  stop ← load_stop n;
  if (stop : bool) then Ret None
  else
    match rd_message r with
    | Received evt =>
        let '(os, payloads, seen) := forward_message evt (br_seen b) in
        outputs os ;; finish_round b r seen (br_inbound b ++ payloads)
    | Timeout => finish_round b r (br_seen b) (br_inbound b)
    | Disconnected => Ret None
    end.

(** The loop, on the rounds its channels will see. *)
Fixpoint run_bridge (n : nat) (b : bridge) (rounds : list round) : prog bridge :=
  match rounds with
  | [] => Ret b
  | r :: rounds =>
      next ← bridge_round n b r;
      match next with
      | Some b => run_bridge n b rounds
      | None => Ret b
      end
  end.

(** ** The event consumer *)

(** The body of [run_events]'s loop; [clock] is read by a received message. *)
Definition handle_event (clock : option Z) (event : ClientEvent) : prog unit :=
  match event with
  | ConversationStarted convo_id class =>
      record_conversation_started convo_id (kind_for_class class)
  | MessageReceived convo_id content account signer =>
      record_message_received clock convo_id content account signer
  | ConversationMembersChanged convo_id => record_members_changed convo_id
  | InboundError message => log LWarn ("inbound error: " +:+ message)
  | OtherEvent => Ret tt
  end.

Definition run_events (events : list (option Z * ClientEvent)) : prog unit :=
  foldr (λ '(clock, event) rest, handle_event clock event ;; rest) (Ret tt) events.
End workers.
