(* ===== verification/Transport.v ===== *)
(** * The client's side of the delivery boundary ([delivery.rs], [SdkDelivery])

    What the client publishes through and reads from. A subscribe channel is the list of
    topics queued in it; the client's inbound channel the payloads in it. *)
From S2P Require Import Prelude Utf8 LogFiles Logging Delivery Persistence ModuleState Runtime.
From S2P Require Import Actions Lifecycle Inbound.
From Stdlib Require Import Ascii.

(** [AddressedEnvelope]. *)
Record envelope := mk_envelope { env_delivery_address : string; env_data : list ascii }.

Section transport.
Context {DB : Sqlite} {LC : Libchat}.

(** [SdkPublisher]: a handle on the subscribe channel, told by its number. *)
Record SdkPublisher := mk_sdk_publisher { sp_subscribe_tx : nat }.

(** [SdkDelivery]: the publisher, and the inbound stream until it is handed out. *)
Record SdkDelivery := mk_sdk_delivery {
  sd_inbound_rx : option (list (list ascii));
  sd_publisher : SdkPublisher;
}.

Definition sdk_new (inbound_rx : list (list ascii)) (subscribe_tx : nat) : SdkDelivery :=
  mk_sdk_delivery (Some inbound_rx) (mk_sdk_publisher subscribe_tx).

(** [SdkDelivery::publisher]: another handle on the same channel. *)
Definition publisher (s : SdkDelivery) : SdkPublisher := sd_publisher s.

(** [Transport::inbound]; [None] is the panic of a second call. *)
Definition inbound (s : SdkDelivery) : option (list (list ascii)) * SdkDelivery :=
  (sd_inbound_rx s, mk_sdk_delivery None (sd_publisher s)).

(** [SdkPublisher::publish]: dispatched and not waited for. *)
Definition publish (e : envelope) : prog (result unit string) :=
  dispatch (Send (content_topic_for (env_delivery_address e)) (env_data e)) ;;
  Ret (Ok tt).

(** The subscribe channels: what is queued in each, and the error of one whose
    receiver, which the bridge owns, is gone. *)
Record channels := mk_channels { ch_queued : nat → list string; ch_closed : nat → option string }.
Definition channel_send (tx : nat) (topic : string) (cs : channels) : result unit string * channels :=
  match ch_closed cs tx with
  | Some e => (Err e, cs)
  | None =>
      (Ok tt,
       mk_channels
         (λ i, if decide (i = tx) then ch_queued cs i ++ [topic] else ch_queued cs i) (ch_closed cs))
  end.

(** [SdkPublisher::subscribe]: queued for the bridge. *)
Definition subscribe (p : SdkPublisher) (delivery_address : string) (cs : channels)
    : result unit string * channels :=
  channel_send (sp_subscribe_tx p) (content_topic_for delivery_address) cs.

(** [SdkDelivery]'s own [publish] and [subscribe] are its publisher's. *)
Definition sdk_publish (s : SdkDelivery) (e : envelope) : prog (result unit string) := publish e.
Definition sdk_subscribe (s : SdkDelivery) (delivery_address : string) (cs : channels)
    : result unit string * channels :=
  subscribe (sd_publisher s) delivery_address cs.
End transport.

Section routing.
Context {J : Json} {DB : Sqlite} {LC : Libchat}.

Lemma run_dispatch_all (topics : list string) (w : world) :
  run (foldr (λ topic rest, dispatch (Subscribe topic) ;; rest) (Ret []) topics) w =
  ([] : list string,
   mk_world (w_module w) (w_display w) (w_own_preset w)
     (w_pending w ++ map Subscribe topics) (w_out w) (w_log w) (w_signals w)).
Proof.
  revert w. induction topics as [|t topics IH]; intros w; cbn.
  - destruct w. cbn. by rewrite app_nil_r.
  - rewrite IH. cbn. by rewrite <-app_assoc.
Qed.

(** [forward_subscriptions] hands over the whole queue in order once the node is
    online, and touches nothing before. *)
Lemma run_forward_subscriptions (queue : list string) (w : world) :
  run (forward_subscriptions queue) w =
  if bool_decide (ds_state (d_delivery_state (w_display w)) = Online)
  then ([], mk_world (w_module w) (w_display w) (w_own_preset w)
              (w_pending w ++ map Subscribe queue) (w_out w) (w_log w) (w_signals w))
  else (queue, w).
Proof.
  unfold forward_subscriptions. change (mbind ?k ?p) with (bind p k).
  rewrite run_bind. cbn.
  assert (put_display (w_display w) [] w = w) as ->.
  { destruct w. unfold put_display. cbn. by rewrite app_nil_r. }
  destruct (bool_decide _); [|done]. apply run_dispatch_all.
Qed.
End routing.
