(* ===== verification/Api.v ===== *)
(** * The contract's methods ([lib.rs])

    [ChatModuleImpl]: every method of [chat_module.lidl] over the operations. The
    generated scaffold that dispatches to them is not part of the repository. *)
From S2P Require Import Prelude Utf8 LogFiles Logging Delivery Persistence ModuleState Runtime.
From S2P Require Import Actions Lifecycle Inbound.

Definition ERR_LOCK_POISONED : string := "internal error: module lock poisoned".

(** The [Value]s a method's [Ok] carries. *)
Inductive ApiValue := VNull | VString (s : string).

Record ChatConfig := mk_chat_config {
  delivery_preset : option string;
  log_level : option string;
}.

Section api.
Context {EF : EnvFilterLib} {J : Json} {DB : Sqlite} {LC : Libchat}.

(** The result of a method: [.map(..).map_err(|e| e.to_string())]. *)
Definition api_result {A} (f : A → ApiValue) (p : prog (result A CoreError))
    : prog (result ApiValue string) :=
  r ← p; Ret (map_err core_error_display (map_ok f r)).
Definition null_result : prog (result unit CoreError) → prog (result ApiValue string) :=
  api_result (λ _, VNull).

(** The preset [init] joins: absent and empty mean [logos.test]. *)
Definition preset_of (config : ChatConfig) : string :=
  let named := default "" (delivery_preset config) in
  if str_eqb named "" then "logos.test" else named.

Definition init `{!InitEnv DB LC} (env : log_env) (config : ChatConfig)
    : prog (result ApiValue string) :=
  on_log (λ st, (tt, (install_once env (default "" (log_level config)) st).1)) ;;
  let preset := preset_of config in
  outcome ← install_with initialize;
  match outcome with
  | Err LockPoisoned => Ret (Err ERR_LOCK_POISONED)
  | Ok (Ok Installed) =>
      log LInfo ("init: state installed, joining delivery preset " +:+ preset) ;;
      start_delivery_bootstrap preset ;;
      Ret (Ok VNull)
  | Ok (Ok AlreadyInstalled) =>
      claimed ← claim_delivery_retry;
      (if (claimed : bool) then
         log LInfo ("init: delivery never started, joining delivery preset " +:+ preset) ;;
         start_delivery_bootstrap preset
       else
         log LWarn "init: already initialised; any new arguments are ignored, call shutdown() first to reconfigure") ;;
      Ret (Ok VNull)
  | Ok (Err e) =>
      log LError ("init: " +:+ init_error_display e) ;;
      Ret (Err (init_error_display e))
  end.

Definition api_shutdown : prog (result ApiValue string) :=
  taken ← take_state;
  match taken with
  | Err LockPoisoned => Ret (Err ERR_LOCK_POISONED)
  | Ok None => Ret (Ok VNull)
  | Ok (Some ms) => shutdown ms ;; Ret (Ok VNull)
  end.

Definition get_log_path : prog string := on_log (λ st, (log_path st, st)).
Definition health : prog bool := Ret true.
Definition api_get_installation_name : prog string := get_installation_name.
Definition api_set_installation_name (n : string) := null_result (set_installation_name n).
Definition api_get_address : prog string := get_address.
Definition api_create_conversation (peer_address : string) :=
  api_result VString (create_conversation peer_address).
Definition api_create_group_conversation (n desc : string) :=
  api_result VString (create_group_conversation n desc).
Definition api_add_group_member (convo_id peer_address : string) :=
  null_result (add_group_member convo_id peer_address).
Definition api_list_conversations : prog (list Conversation) := list_conversations.
Definition api_get_messages (convo_id : string) : prog (list ApiMessage) :=
  get_messages convo_id.
Definition api_list_group_members (convo_id : string) : prog (list GroupMember) :=
  list_group_members convo_id.
Definition api_send_message (clock : option Z) (convo_id content : string) :=
  null_result (send_message clock convo_id content).
Definition api_set_conversation_nickname (convo_id nick : string) :=
  null_result (set_conversation_nickname convo_id nick).
Definition api_delete_conversation (convo_id : string) :=
  null_result (delete_conversation convo_id).
Definition api_status : prog Status := status.
End api.
