(* ===== verification/Threads.v ===== *)
(** * The module's threads

    Everything that runs: the contract's methods, the callbacks delivery_module's
    answers run, and the two workers, as threads. They keep the lock discipline:
    a lock is taken above those held and given back in turn, guarded data is touched only
    under its lock, and a thread is joined with none held. *)
From stdpp Require Import relations.
From S2P Require Import Prelude Utf8 LogFiles Logging Delivery Persistence ModuleState Runtime.
From S2P Require Import Concurrency Actions Lifecycle Inbound Transport Api.

(** ** The lock discipline, compositionally *)

Section discipline.
Context {DB : Sqlite} {LC : Libchat}.

(** [p] keeps the discipline and gives back the locks it was started with. *)
Definition kept {A} (held : list lock) (p : prog A) : Prop := disciplined_to held held p.

Lemma kept_ret {A} held (a : A) : kept held (Ret a).
Proof. done. Qed.
Lemma kept_bind {A B} held (p : prog A) (f : A → prog B) :
  kept held p → (∀ a, kept held (f a)) → kept held (p ≫= f).
Proof. apply disciplined_bind. Qed.
Lemma kept_try {A B E} held (p : prog (result A E)) (f : A → prog (result B E)) :
  kept held p → (∀ a, kept held (f a)) → kept held (try_bind p f).
Proof. intros Hp Hf. apply (disciplined_bind held); [done|]. intros [a|e]; [apply Hf|done]. Qed.

(** The display lock may be taken with any other lock held. *)
Lemma kept_with_display {R : Set} held (f : Display → R) :
  Forall (λ h, lock_rank h < 2) held → kept held (with_display f).
Proof. intros H. cbn. split; [done|]. split; [set_solver|done]. Qed.
Lemma kept_with_display_mut {R : Set} held (f : Display → R * Display * list output) :
  Forall (λ h, lock_rank h < 2) held → kept held (with_display_mut f).
Proof. intros H. cbn. split; [done|]. split; [set_solver|done]. Qed.
Lemma kept_own_node_preset {R : Set} (f : option string → R * option string) :
  kept [] (own_node_preset f).
Proof. cbn. split; [done|]. split; [set_solver|done]. Qed.
Lemma kept_with_state_mut {R : Set} (f : ModuleState → R * ModuleState) : kept [] (with_state_mut f).
Proof. cbn. split; [done|]. split; [set_solver|done]. Qed.
Lemma kept_take_state : kept [] take_state.
Proof. cbn. split; [done|]. split; [set_solver|done]. Qed.

(** The closure of [install_with] runs with the module lock held. *)
Lemma kept_install_with {E} (f : prog (result ModuleState E)) :
  kept [ModuleLock] f → kept [] (install_with f).
Proof.
  intros Hf. cbn. split; [done|]. split; [set_solver|]. intros [[] [ms|]]; try done.
  apply (disciplined_bind [ModuleLock]); [done|]. intros [ms|e]; [|done].
  cbn. split; [set_solver|done].
Qed.

Lemma kept_emit held e : kept held (emit e).
Proof. done. Qed.
Lemma kept_log held l line : kept held (log l line).
Proof. done. Qed.
Lemma kept_dispatch held c : kept held (dispatch c).
Proof. done. Qed.
Lemma kept_on_log {R : Set} held (f : LogStatics → R * LogStatics) : kept held (on_log f).
Proof. done. Qed.
Lemma kept_new_session_signals held : kept held new_session_signals.
Proof. done. Qed.
Lemma kept_store_stop held n : kept held (store_stop n).
Proof. done. Qed.
Lemma kept_drop_client held n : kept held (drop_client n).
Proof. done. Qed.
Lemma kept_load_stop held n : kept held (load_stop n).
Proof. done. Qed.
Lemma kept_join t : kept [] (join t).
Proof. done. Qed.

Lemma kept_foldr {A B} held (f : A → prog B → prog B) (p : prog B) (l : list A) :
  kept held p → (∀ a q, kept held q → kept held (f a q)) → kept held (foldr f p l).
Proof. intros Hp Hf. induction l as [|a l IH]; [done|]. apply (Hf a), IH. Qed.
End discipline.

Create HintDb discipline discriminated.
#[export] Hint Resolve kept_ret kept_own_node_preset kept_with_state_mut kept_take_state
  kept_emit kept_log kept_dispatch kept_on_log kept_new_session_signals kept_store_stop kept_drop_client kept_load_stop kept_join
  : discipline.

(** Follows the program's shape, and splits the matches it meets. *)
Ltac discipline :=
  repeat first
    [ progress intros
    | solve [auto with discipline]
    | apply kept_with_display; by repeat constructor
    | apply kept_with_display_mut; by repeat constructor
    | apply kept_bind
    | apply kept_try
    | apply kept_foldr
    | case_match ].

Section operations.
Context {EF : EnvFilterLib} {J : Json} {DB : Sqlite} {LC : Libchat} `{E : !InitEnv DB LC}.

Lemma kept_with_client {R : Set} (f : Client → R * Client) : kept [] (with_client f).
Proof. unfold with_client. discipline. Qed.
Lemma kept_with_client_try {R : Set} (f : Client → result R ClientError * Client) :
  kept [] (with_client_try f).
Proof. unfold with_client_try. apply kept_try; [apply kept_with_client|discipline]. Qed.
Lemma kept_check_live id : kept [] (check_live id).
Proof. unfold check_live. discipline. Qed.
Hint Resolve kept_with_client kept_with_client_try kept_check_live : discipline.

Lemma kept_start_node : kept [] start_node.
Proof. unfold start_node. discipline. Qed.
Hint Resolve kept_start_node : discipline.

Lemma kept_answered c res : kept [] (answered c res).
Proof.
  destruct c; cbn [answered]; unfold create_node_answered, node_info_answered, start_answered,
    send_answered, subscribe_answered, join_existing_node, set_delivery_error; discipline.
Qed.

Lemma kept_initialize : kept [ModuleLock] initialize.
Proof. unfold initialize. discipline. Qed.

Lemma kept_shutdown ms : kept [] (shutdown ms).
Proof. unfold shutdown. discipline. Qed.

Lemma kept_handle_event clock e : kept [] (handle_event clock e).
Proof.
  destruct e; cbn [handle_event]; unfold record_conversation_started, observed_metadata,
    record_message_received, record_members_changed; discipline.
Qed.
Hint Resolve kept_handle_event : discipline.

Lemma kept_run_events events : kept [] (run_events events).
Proof. unfold run_events. discipline. Qed.

Lemma kept_handle_node_started evt : kept [] (handle_node_started evt).
Proof. unfold handle_node_started. discipline. Qed.
Lemma kept_handle_connection_event evt : kept [] (handle_connection_event evt).
Proof. unfold handle_connection_event, handle_connection_state. discipline. Qed.
Lemma kept_drain {X} (sub : option (list X * bool)) (handle : X → prog unit) :
  (∀ e, kept [] (handle e)) → kept [] (drain sub handle).
Proof. intros H. unfold drain. discipline. Qed.
Lemma kept_forward_subscriptions queue : kept [] (forward_subscriptions queue).
Proof. unfold forward_subscriptions. discipline. Qed.

Lemma kept_finish_round b r seen inbound : kept [] (finish_round b r seen inbound).
Proof.
  apply kept_bind; [apply kept_drain, kept_handle_node_started|]. intros ns.
  apply kept_bind; [apply kept_drain, kept_handle_connection_event|]. intros cn.
  apply kept_bind; [apply kept_forward_subscriptions|done].
Qed.

Lemma kept_bridge_round n b r : kept [] (bridge_round n b r).
Proof.
  apply kept_bind; [discipline|]. intros [|]; [done|].
  destruct (rd_message r) as [evt| |]; [|apply kept_finish_round|done].
  destruct (forward_message evt (br_seen b)) as [[os payloads] seen].
  apply kept_bind; [|intros; apply kept_finish_round]. unfold outputs.
  apply kept_foldr; [done|]. by intros o q Hq.
Qed.

Lemma kept_run_bridge n b rounds : kept [] (run_bridge n b rounds).
Proof.
  revert b. induction rounds as [|r rounds IH]; intros b; cbn [run_bridge]; [done|].
  apply kept_bind; [apply kept_bridge_round|]. by intros [b'|].
Qed.
End operations.
