(* ===== verification/Signals.v ===== *)
(** * What a joined thread was told

    [shutdown] joins the two workers of its session, and a worker ends only when it is
    told to: the bridge by its stop flag, the event consumer by the client's drop. Here
    is what a program has to do for its joins to come back ([tells]): it joins a worker
    only after telling it, it takes back nothing another was told, and the module's state
    names the threads of a session that was started. *)
From stdpp Require Import relations.
From S2P Require Import Prelude Utf8 LogFiles Logging Delivery Persistence ModuleState Runtime.
From S2P Require Import Concurrency Actions Lifecycle Inbound Transport Api.

(** ** The flags of the sessions so far *)

(** [ss'] has the sessions of [ss] at least, told as much at least. *)
Definition heard_more (s s' : signals) : Prop :=
  (sg_stop s = true → sg_stop s' = true) ∧ (sg_dropped s = true → sg_dropped s' = true).
Definition later (ss ss' : list signals) : Prop :=
  ∀ n s, ss !! n = Some s → ∃ s', ss' !! n = Some s' ∧ heard_more s s'.

#[export] Instance later_preorder : PreOrder later.
Proof.
  split.
  - intros ss n s Hn. by exists s.
  - intros ss1 ss2 ss3 H12 H23 n s Hn. destruct (H12 n s Hn) as (s2 & Hn2 & H2).
    destruct (H23 n s2 Hn2) as (s3 & Hn3 & H3). exists s3. split; [done|]. unfold heard_more in *.
    naive_solver.
Qed.

Lemma later_told ss ss' t : later ss ss' → told ss t = true → told ss' t = true.
Proof.
  intros Hl. destruct t as [n|n]; cbn; unfold stop_flag, client_dropped;
    (destruct (ss !! n) as [s|] eqn:Hn; cbn; [|done]);
    destruct (Hl n s Hn) as (s' & -> & H1 & H2); cbn; auto.
Qed.
Lemma later_length ss ss' n : later ss ss' → n < length ss → n < length ss'.
Proof.
  intros Hl [s Hn]%lookup_lt_is_Some. destruct (Hl n s Hn) as (s' & Hn' & _).
  by eapply lookup_lt_Some.
Qed.
Lemma later_app ss ss' : later ss (ss ++ ss').
Proof. intros n s Hn. exists s. split; [by apply lookup_app_l_Some|done]. Qed.
Lemma later_alter ss f n : (∀ s, heard_more s (f s)) → later ss (alter f n ss).
Proof.
  intros Hf i s Hi. destruct (decide (n = i)) as [->|Hne].
  - rewrite list_lookup_alter_eq, Hi. exists (f s). by split.
  - rewrite list_lookup_alter_ne by done. by exists s.
Qed.

Section signals.
Context {DB : Sqlite} {LC : Libchat}.
Implicit Types (ss : list signals) (ms : ModuleState) (h : ModuleHandle).

(** [ms] belongs to a session that was started, and names that session's threads. *)
Definition ms_known ss ms : Prop :=
  ms_inbound_stop ms < length ss ∧
  (∀ t, ms_inbound_thread ms = Some t → t = BridgeThread (ms_inbound_stop ms)) ∧
  (∀ t, ms_event_thread ms = Some t → t = EventThread (ms_inbound_stop ms)).
Definition mh_known ss h : Prop := ∀ ms, mh_inner h = Some ms → ms_known ss ms.

Lemma ms_known_later ss ss' ms : later ss ss' → ms_known ss ms → ms_known ss' ms.
Proof. intros Hl (Hn & Ht). split; [by eapply later_length|done]. Qed.
Lemma mh_known_later ss ss' h : later ss ss' → mh_known ss h → mh_known ss' h.
Proof. intros Hl Hh ms Hms. by eapply ms_known_later, Hh. Qed.

(** ** Programs that tell before they join

    [ss] is what was told when [p] starts. At each access others may have told more. *)
Fixpoint tells {A} ss (Q : list signals → A → Prop) (p : prog A) : Prop :=
  match p with
  | Ret a => Q ss a
  | OnModule f k => ∀ ss', later ss ss' → ∀ h, mh_known ss' h →
      mh_known ss' (f h).2 ∧ tells ss' Q (k (f h).1)
  | OnSignals f k => ∀ ss', later ss ss' →
      later ss' (f ss').2 ∧ tells (f ss').2 Q (k (f ss').1)
  | OnDisplay _ k => ∀ x, tells ss Q (k x)
  | OnPreset _ k => ∀ x, tells ss Q (k x)
  | OnLog _ k => ∀ x, tells ss Q (k x)
  | Output _ k | Dispatch _ k | Acquire _ k | Release _ k => tells ss Q k
  | Join t k => told ss t = true ∧ tells ss Q k
  end.

Definition anyhow {A} (_ : list signals) (_ : A) : Prop := True.

Lemma tells_later {A} ss ss' (Q : list signals → A → Prop) (p : prog A) :
  (∀ ss ss' a, later ss ss' → Q ss a → Q ss' a) →
  later ss ss' → tells ss Q p → tells ss' Q p.
Proof.
  intros HQ. revert ss ss'.
  induction p as [a|X g k IH|X g k IH|X g k IH|X g k IH|X g k IH|o k IH|c k IH|l k IH|l k IH|t k IH];
    intros ss ss' Hl; cbn; intros H; try (by eauto).
  - intros ss2 Hl2 h Hh. apply H; [by etrans|done].
  - intros ss2 Hl2. apply H. by etrans.
  - destruct H as [Ht H]. split; [by eapply later_told|by eauto].
Qed.

Lemma tells_bind {A B} ss (Q : list signals → A → Prop) (R : list signals → B → Prop)
    (p : prog A) (f : A → prog B) :
  tells ss Q p → (∀ ss' a, later ss ss' → Q ss' a → tells ss' R (f a)) →
  tells ss R (bind p f).
Proof.
  revert ss.
  induction p as [a|X g k IH|X g k IH|X g k IH|X g k IH|X g k IH|o k IH|c k IH|l k IH|l k IH|t k IH];
    intros ss; cbn; intros Hp Hf; try (by eauto).
  - by apply Hf.
  - intros ss' Hl h Hh. destruct (Hp ss' Hl h Hh) as [? Hk]. split; [done|].
    apply IH; [done|]. intros ss2 a Hl2. apply Hf. by etrans.
  - intros ss' Hl. destruct (Hp ss' Hl) as [Hg Hk]. split; [done|].
    apply IH; [done|]. intros ss2 a Hl2. apply Hf. etrans; [done|]. by etrans.
  - destruct Hp as [Ht Hk]. split; [done|]. by apply IH.
Qed.

(** ** A step of a thread among others *)

Definition telling (c : config) : Prop :=
  mh_known (w_signals c.1) (w_module c.1) ∧
  Forall (λ th, tells (w_signals c.1) anyhow (th_prog th)) c.2.

Lemma exec_tells ts w th w' held p :
  mh_known (w_signals w) (w_module w) → tells (w_signals w) anyhow (th_prog th) →
  exec ts w th = Some (w', held, p) →
  later (w_signals w) (w_signals w') ∧ mh_known (w_signals w') (w_module w') ∧
  tells (w_signals w') anyhow p.
Proof.
  intros Hh. unfold exec.
  destruct (th_prog th) as [a|X g k|X g k|X g k|X g k|X g k|o k|c k|l k|l k|t k]; cbn; intros Hp Hexec.
  - done.
  - specialize (Hp (w_signals w) (reflexivity _) _ Hh). destruct (g _) as [x h]. by simplify_eq.
  - destruct (g _) as [[x d] os]. by simplify_eq.
  - destruct (g _) as [x o]. by simplify_eq.
  - destruct (g _) as [x st]. by simplify_eq.
  - specialize (Hp (w_signals w) (reflexivity _)). destruct (g _) as [x ss] eqn:E. simplify_eq.
    cbn in *. destruct Hp. split_and!; [done| |done]. by eapply mh_known_later.
  - by simplify_eq.
  - by simplify_eq.
  - destruct (lock_free ts l); by simplify_eq.
  - destruct (th_held th); [done|]. case_decide; by simplify_eq.
  - destruct (joinable ts w t); [|done]. simplify_eq. naive_solver.
Qed.

Lemma tstep_telling c c' : telling c → tstep c c' → telling c'.
Proof.
  intros [Hh Hts] Hstep. inversion Hstep as [w ts i th w' held p Hi Hexec]; subst. cbn in *.
  pose proof Hts as Hth. rewrite Forall_lookup in Hth. specialize (Hth i th Hi).
  destruct (exec_tells _ _ _ _ _ _ Hh Hth Hexec) as (Hl & Hh' & Hp).
  split; [done|]. cbn. apply Forall_insert; [|done].
  eapply Forall_impl; [exact Hts|]. intros th' H. cbn in *. by eapply tells_later.
Qed.

Lemma rtc_telling c c' : telling c → rtc tstep c c' → telling c'.
Proof. intros Hc. induction 1; [done|]. eauto using tstep_telling. Qed.

(** No deadlock, the joins included. *)
Lemma told_pool_can_step w ts :
  pool_ok ts → telling (w, ts) → forallb finished ts = false → can_step w ts.
Proof.
  intros [Hok _] [_ Htell] Hf. apply pool_can_step; [done| |done].
  intros i th t k Hi Hp. rewrite Forall_lookup in Htell. specialize (Htell i th Hi). cbn in Htell.
  rewrite Hp in Htell. apply Htell.
Qed.

(** ** A program run alone is one of the schedules *)

Lemma alone_step w r held p w' held' p' :
  exec [mk_thread r held p] w (mk_thread r held p) = Some (w', held', p') →
  tstep (w, [mk_thread r held p]) (w', [mk_thread r held' p']).
Proof. apply (tstep_thread w [mk_thread r held p] 0 (mk_thread r held p)). done. Qed.

(** What [run] gives is reached by scheduling the program's own steps. *)
Lemma run_alone r held p w :
  thread_ok (mk_thread r held p) →
  mh_known (w_signals w) (w_module w) → tells (w_signals w) anyhow p →
  rtc tstep (w, [mk_thread r held p]) ((run p w).2, [mk_thread r [] (Ret (run p w).1)]).
Proof.
  revert held w.
  assert (∀ held w p w' held' p',
    thread_ok (mk_thread r held p) → mh_known (w_signals w) (w_module w) →
    tells (w_signals w) anyhow p →
    exec [mk_thread r held p] w (mk_thread r held p) = Some (w', held', p') →
    run p w = run p' w' →
    (∀ held w, thread_ok (mk_thread r held p') → mh_known (w_signals w) (w_module w) →
      tells (w_signals w) anyhow p' →
      rtc tstep (w, [mk_thread r held p']) ((run p' w).2, [mk_thread r [] (Ret (run p' w).1)])) →
    rtc tstep (w, [mk_thread r held p]) ((run p w).2, [mk_thread r [] (Ret (run p w).1)])) as Hstep.
  { clear p. intros held w p w' held' p' Hok Hh Ht Hexec -> IH.
    destruct (exec_ok _ _ _ _ _ _ Hok Hexec) as [Hok' _].
    destruct (exec_tells _ _ (mk_thread r held p) _ _ _ Hh Ht Hexec) as (_ & Hh' & Ht').
    eapply rtc_l; [by apply alone_step|]. by apply IH. }
  induction p as [a|X g k IH|X g k IH|X g k IH|X g k IH|X g k IH|o k IH|c k IH|l k IH|l k IH|t k IH];
    intros held w Hok Hh Ht.
  - destruct Hok as [Hheld _]. cbn in *. by subst.
  - destruct (g (w_module w)) as [x h] eqn:E.
    eapply Hstep; unfold exec; cbn; rewrite ?E; eauto.
  - destruct (g (w_display w)) as [[x d] os] eqn:E.
    eapply Hstep; unfold exec; cbn; rewrite ?E; eauto.
  - destruct (g (w_own_preset w)) as [x o] eqn:E.
    eapply Hstep; unfold exec; cbn; rewrite ?E; eauto.
  - destruct (g (w_log w)) as [x st] eqn:E.
    eapply Hstep; unfold exec; cbn; rewrite ?E; eauto.
  - destruct (g (w_signals w)) as [x ss] eqn:E.
    eapply Hstep; unfold exec; cbn; rewrite ?E; eauto.
  - eapply Hstep; cbn; eauto.
  - eapply Hstep; cbn; eauto.
  - pose proof Hok as [[Hrank _] _]. cbn in Hrank. eapply Hstep; [done..| | |exact IH]; [|done].
    unfold exec, lock_free. cbn. rewrite bool_decide_eq_true_2; [done|].
    intros Hl. rewrite Forall_forall in Hrank. specialize (Hrank l Hl). lia.
  - pose proof Hok as [Hd _]. cbn in Hd. destruct held as [|h held]; [done|]. destruct Hd as [-> _].
    eapply Hstep; [done..| | |exact IH]; [|done]. unfold exec. cbn. by rewrite decide_True.
  - destruct r as [t'|]; [by destruct (proj2 Hok ltac:(done))|].
    eapply Hstep; [done..| | |exact IH]; [|done]. unfold exec, joinable. cbn.
    by rewrite (proj1 Ht).
Qed.
End signals.

(** ** The operations *)

Section discipline.
Context {DB : Sqlite} {LC : Libchat}.
Implicit Types (ss : list signals) (ms : ModuleState).

(** What does not depend on what was told. *)
Definition tells_always {A} (p : prog A) : Prop := ∀ ss, tells ss anyhow p.

Lemma always_ret {A} (a : A) : tells_always (Ret a).
Proof. done. Qed.
Lemma always_bind {A B} (p : prog A) (f : A → prog B) :
  tells_always p → (∀ a, tells_always (f a)) → tells_always (p ≫= f).
Proof. intros Hp Hf ss. eapply tells_bind; [apply Hp|]. intros. by apply Hf. Qed.
Lemma always_try {A B E} (p : prog (result A E)) (f : A → prog (result B E)) :
  tells_always p → (∀ a, tells_always (f a)) → tells_always (try_bind p f).
Proof. intros Hp Hf. apply always_bind; [done|]. intros [a|e]; [apply Hf|done]. Qed.
Lemma always_foldr {A B} (f : A → prog B → prog B) (p : prog B) (l : list A) :
  tells_always p → (∀ a q, tells_always q → tells_always (f a q)) → tells_always (foldr f p l).
Proof. intros Hp Hf. induction l as [|a l IH]; [done|]. apply (Hf a), IH. Qed.

Lemma always_with_display {R : Set} (f : Display → R) : tells_always (with_display f).
Proof. done. Qed.
Lemma always_with_display_mut {R : Set} (f : Display → R * Display * list output) :
  tells_always (with_display_mut f).
Proof. done. Qed.
Lemma always_own_node_preset {R : Set} (f : option string → R * option string) :
  tells_always (own_node_preset f).
Proof. done. Qed.
Lemma always_emit e : tells_always (emit e).
Proof. done. Qed.
Lemma always_log l line : tells_always (log l line).
Proof. done. Qed.
Lemma always_dispatch c : tells_always (dispatch c).
Proof. done. Qed.
Lemma always_on_log {R : Set} (f : LogStatics → R * LogStatics) : tells_always (on_log f).
Proof. done. Qed.
Lemma always_load_stop n : tells_always (load_stop n).
Proof. done. Qed.

(** A client call leaves the session's threads as they are. *)
Lemma always_with_client {R : Set} (f : Client → R * Client) : tells_always (with_client f).
Proof.
  intros ss ss' _ h Hh. cbn.
  destruct (mh_poisoned h); [done|]. destruct (mh_inner h) as [ms|] eqn:Hms; [|done].
  destruct (f (ms_client ms)) as [r c]. cbn. split; [|done].
  intros ms' [= <-]. by apply (Hh ms).
Qed.

(** [take] hands out the state of a session that was started. *)
Lemma tells_take_state ss :
  tells ss (λ ss' r, ∀ ms, r = Ok (Some ms) → ms_known ss' ms) take_state.
Proof.
  intros ss' _ h Hh. cbn. destruct (mh_poisoned h); [by split|]. split; [done|].
  intros ms [= Hms]. by apply Hh.
Qed.

(** [install_with] keeps a state of the session its closure has started. *)
Lemma tells_install_with {E} ss (f : prog (result ModuleState E)) :
  (∀ ss, tells ss (λ ss' r, ∀ ms, r = Ok ms → ms_known ss' ms) f) →
  tells ss anyhow (install_with f).
Proof.
  intros Hf ss' _ h Hh. split; [done|]. cbn.
  destruct (mh_poisoned h); [done|]. destruct (mh_inner h); [done|].
  eapply tells_bind; [apply Hf|]. intros ss2 [ms|e] _ Hms; [|done].
  intros ss3 Hl h3 Hh3. cbn. split; [|done]. intros ms' [= <-].
  eapply ms_known_later; [done|]. by apply Hms.
Qed.

Lemma tells_shutdown ss ms : ms_known ss ms → tells ss anyhow (shutdown ms).
Proof.
  destruct ms as [c n bt et]. intros (Hn & Hb & He). cbn in Hn, Hb, He.
  assert (∀ ss' f, later ss ss' → ∃ s, alter f n ss' !! n = Some (f s)) as Hset.
  { intros ss' f Hl. destruct (lookup_lt_is_Some_2 ss' n (later_length _ _ _ Hl Hn)) as [s Hs].
    exists s. by rewrite list_lookup_alter_eq, Hs. }
  intros ss1 Hl1. split; [by apply later_alter|]. cbn [fst snd].
  set (ss1' := alter _ _ _). assert (later ss ss1') as Hl1'.
  { etrans; [done|]. by apply later_alter. }
  cbn [bind mbind prog_mbind ms_inbound_thread]. eapply (tells_bind _ (λ _ _, True)).
  { destruct bt as [t|]; [|done]. pose proof (Hb t eq_refl) as ->. split; [|done].
    cbn. unfold stop_flag. by destruct (Hset ss1 (λ s, mk_signals true (sg_dropped s)) Hl1) as [s ->]. }
  intros ss2 [] Hl2 _ ss3 Hl3. split; [by apply later_alter|]. cbn [fst snd].
  cbn [bind mbind prog_mbind ms_event_thread]. eapply (tells_bind _ (λ _ _, True)); [|done].
  destruct et as [t|]; [|done]. pose proof (He t eq_refl) as ->. split; [|done].
  cbn. unfold client_dropped.
  destruct (Hset ss3 (λ s, mk_signals (sg_stop s) true)) as [s ->]; [|done].
  etrans; [exact Hl1'|]. by etrans.
Qed.
End discipline.

Create HintDb signals discriminated.
#[export] Hint Resolve always_ret always_with_display always_with_display_mut
  always_own_node_preset always_emit always_log always_dispatch always_on_log
  always_load_stop always_with_client : signals.

(** Follows the program's shape, and splits the matches it meets. *)
Ltac tell :=
  repeat first
    [ progress intros
    | solve [auto with signals]
    | apply always_bind
    | apply always_try
    | apply always_foldr
    | case_match ].

Section operations.
Context {EF : EnvFilterLib} {J : Json} {DB : Sqlite} {LC : Libchat} `{E : !InitEnv DB LC}.

Lemma always_with_client_try {R : Set} (f : Client → result R ClientError * Client) :
  tells_always (with_client_try f).
Proof. unfold with_client_try. tell. Qed.
Lemma always_check_live id : tells_always (check_live id).
Proof. unfold check_live. tell. Qed.
Lemma always_start_node : tells_always start_node.
Proof. unfold start_node. tell. Qed.
#[local] Hint Resolve always_with_client_try always_check_live always_start_node : signals.

Lemma always_answered c res : tells_always (answered c res).
Proof.
  destruct c; cbn [answered]; unfold create_node_answered, node_info_answered, start_answered,
    send_answered, subscribe_answered, join_existing_node, set_delivery_error; tell.
Qed.

Lemma always_handle_event clock e : tells_always (handle_event clock e).
Proof.
  destruct e; cbn [handle_event]; unfold record_conversation_started, observed_metadata,
    record_message_received, record_members_changed; tell.
Qed.
Lemma always_run_events events : tells_always (run_events events).
Proof.
  apply always_foldr; [done|]. intros [clock e] q Hq.
  apply always_bind; [apply always_handle_event|done].
Qed.

Lemma always_finish_round b r seen inbound : tells_always (finish_round b r seen inbound).
Proof.
  unfold finish_round, drain, handle_node_started, handle_connection_event,
    handle_connection_state, forward_subscriptions. tell.
Qed.
Lemma always_bridge_round n b r : tells_always (bridge_round n b r).
Proof.
  apply always_bind; [apply always_load_stop|]. intros [|]; [done|].
  destruct (rd_message r) as [evt| |]; [|apply always_finish_round|done].
  destruct (forward_message evt (br_seen b)) as [[os payloads] seen].
  apply always_bind; [|intros; apply always_finish_round].
  unfold outputs. apply always_foldr; [done|]. by intros o q Hq.
Qed.
Lemma always_run_bridge n b rounds : tells_always (run_bridge n b rounds).
Proof.
  revert b. induction rounds as [|r rounds IH]; intros b; cbn [run_bridge]; [done|].
  apply always_bind; [apply always_bridge_round|]. by intros [b'|].
Qed.

(** A new session: its state names the threads it spawned. *)
Lemma tells_initialize ss :
  tells ss (λ ss' r, ∀ ms, r = Ok ms → ms_known ss' ms) initialize.
Proof.
  unfold initialize, try_bind.
  assert (∀ {A B C} (r : result A B) (k : A → prog (result ModuleState C)),
    (∀ a, tells ss (λ ss' r, ∀ ms, r = Ok ms → ms_known ss' ms) (k a)) →
    ∀ conv, tells ss (λ ss' r, ∀ ms, r = Ok ms → ms_known ss' ms)
      (match r with Ok a => k a | Err e => Ret (Err (conv e)) end)) as Hpure.
  { intros A B C [a|e] k Hk conv; [apply Hk|done]. }
  cbn [bind]. apply (Hpure _ _ _ _ _) with (conv := λ e, e). intros [[client c] st].
  apply (Hpure _ _ _ _ _) with (conv := λ e, e). intros _.
  apply (Hpure _ _ _ _ _) with (conv := λ e, e). intros _.
  eapply (tells_bind _ anyhow); [by destruct env_on_connection_state_changed|].
  intros ss1 _ _ _ ss2 _. split; [apply later_app|]. cbn. intros _ ms [= <-].
  split; [rewrite length_app; cbn; lia|]. split; by intros t [= <-].
Qed.

Lemma always_install_initialize : tells_always (install_with initialize).
Proof. intros ss. apply tells_install_with, tells_initialize. Qed.
#[local] Hint Resolve always_install_initialize : signals.

Lemma always_init env config : tells_always (init env config).
Proof. unfold init, claim_delivery_retry, start_delivery_bootstrap. tell. Qed.

Lemma always_api_shutdown : tells_always api_shutdown.
Proof.
  intros ss. unfold api_shutdown. eapply tells_bind; [apply tells_take_state|].
  intros ss1 [[ms|]|[]] _ Hms; [|done..].
  eapply (tells_bind _ anyhow); [by apply tells_shutdown, Hms|done].
Qed.
End operations.

#[export] Hint Resolve always_with_client_try always_check_live always_init always_api_shutdown
  always_answered always_run_events always_run_bridge : signals.
