(* ===== verification/SqliteMem.v ===== *)
(** * A database in memory

    An implementation of [Sqlite] that meets [SqliteLaws], so that the theorems
    proved against the interface can be evaluated. Writes fail where a script
    says so: each call that writes takes one entry, [true] for a failure. *)
From S2P Require Import Prelude Persistence.

Record mem := mk_mem {
  mem_view : tables;
  mem_base : option tables;
  mem_script : list bool;
}.

(** One write: the script decides, [f] is its effect. *)
Definition mem_write (f : mem → mem) (c : mem) : result unit string * mem :=
  let rest := mk_mem (mem_view c) (mem_base c) (tail (mem_script c)) in
  if default false (head (mem_script c)) then (Err "disk I/O error", rest)
  else (Ok tt, f rest).

Definition on_view (f : tables → tables) (c : mem) : mem :=
  mk_mem (f (mem_view c)) (mem_base c) (mem_script c).

(** [disk] is what the file holds when it is opened. *)
Definition mem_sqlite (disk : tables) : Sqlite := {|
  Connection := mem;
  SqlError := string;
  sql_error_display := id;
  from_sql_failure := λ e, match e with InvalidType => "invalid type" | UnknownKind k => k end;
  conn_open := λ _, Ok (mk_mem disk None []);
  pragma_update := λ c _ _, (Ok tt, c);
  migrations_to_latest := λ c, (Ok tt, c);
  sql_execute := λ c s, mem_write (on_view (stmt_apply s)) c;
  sql_begin := mem_write (λ c, mk_mem (mem_view c) (Some (mem_view c)) (mem_script c));
  sql_commit := mem_write (λ c, mk_mem (mem_view c) None (mem_script c));
  sql_rollback := λ c,
    mk_mem (default (mem_view c) (mem_base c)) None (mem_script c);
  sql_select_chats := λ c, Ok (map Ok (map_to_list (t_chats (mem_view c))).*2);
  sql_select_deleted := λ c, Ok (elements (t_deleted (mem_view c)));
  sql_select_setting := λ c k, Ok (t_settings (mem_view c) !! k);
  store_migrate := λ c, (Ok tt, c);
  store_record := λ c m, mem_write (on_view (add_message m)) c;
  store_messages := λ c i n, Ok (last_n n (messages_of (mem_view c) i));
  store_count := λ c i,
    let n := Z.of_nat (length (messages_of (mem_view c) i)) in
    if (n <? u64_max_plus_1)%Z then Ok n else Err "count out of range";
  store_delete_chat := λ c i, mem_write (on_view (drop_messages i)) c;
|}.

Lemma mem_write_law f c r c' :
  mem_write f c = (r, c') →
  c' = if is_ok r then f (mk_mem (mem_view c) (mem_base c) (tail (mem_script c)))
       else mk_mem (mem_view c) (mem_base c) (tail (mem_script c)).
Proof. unfold mem_write. by case_match; intros [= <- <-]. Qed.

Lemma mem_select_law (t : tables) rows :
  map (@Ok chat_row string) (map_to_list (t_chats t)).*2 = map Ok rows →
  rows ≡ₚ (map_to_list (t_chats t)).*2.
Proof.
  intros H. assert (rows = (map_to_list (t_chats t)).*2) as ->; [|done].
  revert H. generalize ((map_to_list (t_chats t)).*2). induction rows as [|r rows IH];
    intros [|x l]; cbn; intros H; simplify_eq; [done|]. f_equal. by apply IH.
Qed.

#[export] Instance mem_laws disk : SqliteLaws (mem_sqlite disk).
Proof.
  refine (@Build_SqliteLaws (mem_sqlite disk) mem_view mem_base _ _ _ _ _ _ _ _ _ _ _).
  - intros c s r c' H%mem_write_law. subst. by destruct r.
  - intros c r c' H%mem_write_law. subst. by destruct r.
  - intros c r c' H%mem_write_law. subst. by destruct r.
  - done.
  - intros c rows [= H]. by apply mem_select_law.
  - by intros c ids [= <-].
  - by intros c k v [= <-].
  - intros c m r c' H%mem_write_law. subst. by destruct r.
  - by intros c i n ms [= <-].
  - cbn. intros c i n. case_match eqn:E; [|done]. intros [= <-].
    apply Z.ltb_lt in E. split; [|done]. unfold in_u64. lia.
  - intros c i r c' H%mem_write_law. subst. by destruct r.
Defined.
