(* ===== verification/Samples.v ===== *)
(** * Concrete instances of the interfaces

    A JSON value type, a chat client that numbers its conversations, and an
    environment for [initialize]: what the theorems' instances are evaluated on. *)
From S2P Require Import Prelude Utf8 LogFiles Logging Delivery Persistence ModuleState Runtime.
From S2P Require Import Actions Lifecycle SqliteMem.
From Stdlib Require Import Ascii.

(** JSON, without numbers. *)
Inductive json :=
| JNull
| JBool (b : bool)
| JString (s : string)
| JArray (l : list json)
| JObject (fields : list (string * json)).

Definition json_field (v : json) (k : string) : option json :=
  match v with
  | JObject fields => snd <$> find (λ '(k', _), str_eqb k' k) fields
  | _ => None
  end.

#[export] Instance sample_json : Json := {|
  Value := json;
  Null := JNull;
  json_get := json_field;
  as_bool := λ v, match v with JBool b => Some b | _ => None end;
  as_str := λ v, match v with JString s => Some s | _ => None end;
  value_display := λ _, "<json>";
  LogosError := string;
  logos_error_display := id;
|}.

Definition accepted : result json string := Ok (JObject [("success", JBool true)]).
Definition refused (reason : string) : result json string :=
  Ok (JObject [("success", JBool false); ("error", JString reason)]).

(** A client whose next conversation is [sc_next], and that refuses to send into
    the conversations it does not hold. *)
Record sample_client := mk_sample_client {
  sc_next : nat;
  sc_convos : list string;
  sc_sent : list (string * list ascii);
}.

Definition sample_create (c : sample_client) : result string string * sample_client :=
  let i := "convo-" +:+ pretty (sc_next c) in
  (Ok i, mk_sample_client (S (sc_next c)) (i :: sc_convos c) (sc_sent c)).

#[export] Instance sample_libchat : Libchat := {|
  Client := sample_client;
  ClientError := string;
  client_error_display := id;
  Member := string;
  member_account := id;
  create_direct := λ c _, sample_create c;
  create_group := λ c _ _, sample_create c;
  add_participants := λ c i _,
    (if bool_decide (i ∈ sc_convos c) then Ok tt else Err "no such conversation", c);
  members := λ c _, (Ok ["saro"; "raya"], c);
  pending_members := λ c _, (Ok ["alma"], c);
  client_send := λ c i content,
    if bool_decide (i ∈ sc_convos c)
    then (Ok tt, mk_sample_client (sc_next c) (sc_convos c) (sc_sent c ++ [(i, content)]))
    else (Err "no such conversation", c);
  group_metadata := λ c _, (Ok (mk_group_metadata "Book Club" ""), c);
  list_all_conversations := λ c, Ok (sc_convos c);
  client_installation_name := λ _, "saro-device";
  client_addr := λ _, "saro-account";
|}.

#[export] Instance sample_filter : EnvFilterLib := {|
  EnvFilter := string;
  filter_try_new := λ s, if str_eqb s "libchat=nonsense" then None else Some s;
  filter_new := id;
  filter_display := id;
|}.

Definition client0 : sample_client := mk_sample_client 0 [] [].

(** An account keeps the keys it endorsed; an installation is named by its key and
    account. *)
Definition sample_accounts : account_services :=
  mk_account_services (list ascii) string (list string) (list ascii * string)
    (as_bytes "saro-device-key") id (λ l, Ok (String.string_of_list_ascii l)) []
    (λ account key, (Ok tt, account ++ [key])) (λ _, "saro-account") pair.

(** The host assigned [path]. *)
Definition sample_env (disk : tables) (path : option string)
    : InitEnv (mem_sqlite disk) sample_libchat :=
  @Build_InitEnv (mem_sqlite disk) sample_libchat path (λ _, Ok tt) unit
    (λ _ _, Ok tt) tt (λ _, sample_accounts) (λ _ _ _ _, Ok client0) (Ok tt) (Ok tt) (Ok tt).

Definition log_statics0 : LogStatics := mk_log_statics false "" None None (mk_fs ∅ ∅).
Definition open_answers0 : open_answers := mk_open_answers None None (Some []) (λ _, true).
Definition log_env0 : log_env :=
  mk_log_env None (Some "/data") open_answers0 "20260730_120000" (Ok tt).

(** A fresh process. *)
Definition world0 (disk : tables) : @world (mem_sqlite disk) sample_libchat :=
  @process_start (mem_sqlite disk) sample_libchat log_statics0.

(** A module that is up on a database that holds [disk] (and [file] when it is
    opened again), showing [st]; no write fails until [script] says so. *)
Definition world_up (file disk : tables) (st : AppState) (script : list bool)
    (ds : DeliveryState) (client : sample_client)
    : @world (mem_sqlite file) sample_libchat :=
  @mk_world (mem_sqlite file) sample_libchat
    (mk_module_handle false (Some
      (@mk_module_state sample_libchat client 0 (Some (BridgeThread 0)) (Some (EventThread 0)))))
    (@mk_display (mem_sqlite file) st (Some (mk_mem disk None script)) ds
       "saro-device" "saro-account")
    None [] [] log_statics0 [mk_signals false false].

(** A module that is up, with one live conversation, ["convo-0"], and a past one,
    ["convo-old"], on its disk and on display. *)
Definition sample_session : ChatSession := new_session "convo-0" Direct None None (Some "saro").
Definition old_message : Message :=
  mk_message "convo-old" "convo-old" Received (Some "raya") (Some "raya-phone") 1700000000000
    (as_bytes "see you").
Definition old_session : ChatSession :=
  mk_chat_session "convo-old" (Some "Raya") Direct None None (Some "raya") [] 0 true.
Definition sample_disk : tables :=
  add_message old_message
    (stmt_apply (UpsertChat (row_of_session old_session))
      (stmt_apply (UpsertChat (row_of_session sample_session)) tables_empty)).
Definition sample_state : AppState :=
  put_chat "convo-old" (push_message (display_message old_message) old_session)
    (put_chat "convo-old" old_session (put_chat "convo-0" sample_session app_state_default)).
Definition online : DeliveryState := mk_delivery_state Online "" false true false.
Definition sample_world (file : tables) (script : list bool)
    : @world (mem_sqlite file) sample_libchat :=
  world_up file sample_disk sample_state script online (mk_sample_client 1 ["convo-0"] []).

Lemma sample_stored : stored sample_disk sample_state.
Proof.
  apply (stored_add_message _ _ _ old_session); [|done..].
  apply stored_put; [|done]. apply stored_put; [|done]. apply stored_empty.
Qed.
