(* ===== verification/Interleaving.v ===== *)
(** * What holds at every point of every interleaving

    The lock discipline of all that runs, and deadlock freedom. *)
From stdpp Require Import relations.
From S2P Require Import Prelude Utf8 LogFiles Logging Delivery Persistence ModuleState Runtime.
From S2P Require Import Concurrency Actions Lifecycle Inbound Transport Api Threads Signals.
From S2P Require Import SqliteMem Samples.

(** ** Everything that runs *)

Section entries.
Context {EF : EnvFilterLib} {J : Json} {DB : Sqlite} {LC : Libchat} `{E : !InitEnv DB LC}.

Inductive entry :=
| EInit (env : log_env) (config : ChatConfig)
| EShutdown
| EGetLogPath | EHealth | EGetInstallationName | EGetAddress | EListConversations | EStatus
| ESetInstallationName (n : string)
| ECreateConversation (peer : string)
| ECreateGroup (n desc : string)
| EAddMember (id peer : string)
| EGetMessages (id : string)
| EListMembers (id : string)
| ESendMessage (clock : option Z) (id content : string)
| ESetNickname (id nick : string)
| EDelete (id : string)
| EAnswered (c : delivery_call) (res : result Value LogosError)
| EPublish (e : envelope)
| EBridge (n : nat) (b : bridge) (rounds : list round)
| EEvents (n : nat) (events : list (option Z * ClientEvent)).

Definition ignore {A} (p : prog A) : prog unit := p ≫= (λ _, Ret tt).

Definition entry_prog (e : entry) : prog unit :=
  match e with
  | EInit env config => ignore (init env config)
  | EShutdown => ignore api_shutdown
  | EGetLogPath => ignore get_log_path
  | EHealth => ignore health
  | EGetInstallationName => ignore api_get_installation_name
  | EGetAddress => ignore api_get_address
  | EListConversations => ignore api_list_conversations
  | EStatus => ignore api_status
  | ESetInstallationName n => ignore (api_set_installation_name n)
  | ECreateConversation peer => ignore (api_create_conversation peer)
  | ECreateGroup n desc => ignore (api_create_group_conversation n desc)
  | EAddMember id peer => ignore (api_add_group_member id peer)
  | EGetMessages id => ignore (api_get_messages id)
  | EListMembers id => ignore (api_list_group_members id)
  | ESendMessage clock id content => ignore (api_send_message clock id content)
  | ESetNickname id nick => ignore (api_set_conversation_nickname id nick)
  | EDelete id => ignore (api_delete_conversation id)
  | EAnswered c res => answered c res
  | EPublish e => ignore (publish e)
  | EBridge n b rounds => ignore (run_bridge n b rounds)
  | EEvents _ events => run_events events
  end.

Definition entry_role (e : entry) : option worker :=
  match e with
  | EBridge n _ _ => Some (BridgeThread n)
  | EEvents n _ => Some (EventThread n)
  | _ => None
  end.

Definition spawn (e : entry) : thread := mk_thread (entry_role e) [] (entry_prog e).
Definition launch (w : world) (es : list entry) : config := (w, map spawn es).

Lemma kept_ignore {A} (p : prog A) : kept [] p → kept [] (ignore p).
Proof. intros Hp. by apply kept_bind. Qed.
Lemma kept_api_result {A} (f : A → ApiValue) (p : prog (result A CoreError)) :
  kept [] p → kept [] (api_result f p).
Proof. intros Hp. by apply kept_bind. Qed.

Lemma kept_init env config : kept [] (init env config).
Proof.
  unfold init. apply kept_bind; [discipline|]. intros _.
  apply kept_bind; [apply kept_install_with, kept_initialize|].
  unfold claim_delivery_retry, start_delivery_bootstrap. discipline.
Qed.

Lemma kept_api_shutdown : kept [] api_shutdown.
Proof.
  unfold api_shutdown. apply kept_bind; [discipline|]. intros [[ms|]|[]]; [|done..].
  apply kept_bind; [apply kept_shutdown|discipline].
Qed.

#[local] Hint Resolve kept_with_client kept_with_client_try kept_check_live : discipline.

Lemma kept_entry e : kept [] (entry_prog e).
Proof.
  destruct e; cbn [entry_prog];
    try apply kept_ignore; try (apply kept_api_result).
  - apply kept_init.
  - apply kept_api_shutdown.
  - unfold get_log_path. discipline.
  - done.
  - unfold api_get_installation_name, get_installation_name. discipline.
  - unfold api_get_address, get_address. discipline.
  - unfold api_list_conversations, list_conversations. discipline.
  - unfold api_status, status. discipline.
  - unfold set_installation_name. discipline.
  - unfold create_conversation. discipline.
  - unfold create_group_conversation. discipline.
  - unfold add_group_member. discipline.
  - unfold api_get_messages, get_messages. discipline.
  - unfold api_list_group_members, list_group_members. discipline.
  - unfold send_message. discipline.
  - unfold set_conversation_nickname. discipline.
  - unfold delete_conversation. discipline.
  - apply kept_answered.
  - unfold publish. discipline.
  - apply kept_run_bridge.
  - apply kept_run_events.
Qed.

(** Every entry joins only what it has told to end. *)
Lemma always_entry e : tells_always (entry_prog e).
Proof.
  destruct e; cbn [entry_prog]; unfold ignore, api_result, get_log_path, health,
    api_get_installation_name, get_installation_name, api_get_address, get_address,
    api_list_conversations, list_conversations, api_status, status, api_set_installation_name,
    set_installation_name, api_create_conversation, create_conversation,
    api_create_group_conversation, create_group_conversation, api_add_group_member,
    add_group_member, api_get_messages, get_messages, api_list_group_members,
    list_group_members, api_send_message, send_message, api_set_conversation_nickname,
    set_conversation_nickname, api_delete_conversation, delete_conversation, null_result,
    api_result, publish; tell.
Qed.

(** A module that is up belongs to a session that was started. *)
Definition session_known w : Prop := mh_known (w_signals w) (w_module w).

Lemma launch_telling w es : session_known w → telling (launch w es).
Proof.
  intros Hw. split; [done|]. cbn. apply Forall_forall. intros th (e & -> & _)%list_elem_of_fmap.
  apply always_entry.
Qed.
End entries.

(** ** The workers join nobody *)

Section no_join.
Context {EF : EnvFilterLib} {J : Json} {DB : Sqlite} {LC : Libchat} `{E : !InitEnv DB LC}.

Lemma no_join_mbind {A B} (p : prog A) (f : A → prog B) :
  no_join p → (∀ a, no_join (f a)) → no_join (p ≫= f).
Proof. apply no_join_bind. Qed.
Lemma no_join_foldr {A B} (f : A → prog B → prog B) (p : prog B) (l : list A) :
  no_join p → (∀ a q, no_join q → no_join (f a q)) → no_join (foldr f p l).
Proof. intros Hp Hf. induction l as [|a l IH]; [done|]. apply (Hf a), IH. Qed.

Ltac joinless :=
  repeat first
    [ progress intros | done | apply no_join_mbind | apply no_join_foldr | case_match ].

Lemma no_join_run_events events : no_join (run_events events).
Proof.
  apply no_join_foldr; [done|]. intros [clock e] q Hq. apply no_join_mbind; [|done].
  destruct e; cbn [handle_event]; unfold record_conversation_started, observed_metadata,
    record_message_received, record_members_changed, with_client; joinless.
Qed.

Lemma no_join_bridge_round n b r : no_join (bridge_round n b r).
Proof.
  assert (∀ seen inbound, no_join (finish_round b r seen inbound)) as Hfinish.
  { intros seen inbound. unfold finish_round, drain, handle_node_started, handle_connection_event,
      handle_connection_state, forward_subscriptions. joinless. }
  apply no_join_mbind; [done|]. intros [|]; [done|].
  destruct (rd_message r) as [evt| |]; [|apply Hfinish|done].
  destruct (forward_message evt (br_seen b)) as [[os payloads] seen].
  apply no_join_mbind; [|by intros]. unfold outputs. joinless.
Qed.

Lemma no_join_run_bridge n b rounds : no_join (run_bridge n b rounds).
Proof.
  revert b. induction rounds as [|r rounds IH]; intros b; cbn [run_bridge]; [done|].
  apply no_join_mbind; [apply no_join_bridge_round|]. by intros [b'|].
Qed.

Lemma spawn_ok e : thread_ok (spawn e).
Proof.
  split; [apply kept_entry|]. intros Hr. destruct e; try done; cbn [spawn th_prog entry_prog].
  - apply no_join_mbind; [apply no_join_run_bridge|done].
  - apply no_join_run_events.
Qed.

Lemma launch_ok (w : world) (es : list entry) : pool_ok (launch w es).2.
Proof.
  split.
  - cbn. apply Forall_forall. intros th (e & -> & _)%list_elem_of_fmap. apply spawn_ok.
  - intros i j th th' l Hi _ _ Hl _. cbn in Hi.
    apply list_elem_of_lookup_2, list_elem_of_fmap in Hi as (e & -> & _).
    by apply not_elem_of_nil in Hl.
Qed.
(** An entry that runs alone is one of the schedules. *)
Lemma entry_alone w e : session_known w →
  rtc tstep (launch w [e])
    ((run (entry_prog e) w).2, [mk_thread (entry_role e) [] (Ret (run (entry_prog e) w).1)]).
Proof. intros Hw. apply run_alone; [apply spawn_ok|done|apply always_entry]. Qed.
End no_join.

Section theorems.
Context {EF : EnvFilterLib} {J : Json} {DB : Sqlite} {LC : Libchat} `{E : !InitEnv DB LC}.

(** Every method of the contract, every callback and both workers keep the lock
    discipline: a lock is taken above those held and released in turn, guarded
    data is touched only under its lock, and a thread is joined with none held. *)
Theorem entry_points_disciplined (e : entry) : disciplined (entry_prog e).
Proof. apply kept_entry. Qed.

(** C12. Any number of them running at once never deadlock: at every point of every
    interleaving all have finished or one can step. That includes [shutdown]'s joins,
    although a worker that has dealt with all it was handed goes on waiting, and is over
    only once its stop flag is set or its client dropped. *)
Theorem no_deadlock (w : world) (es : list entry) w' ts' :
  session_known w → rtc tstep (launch w es) (w', ts') →
  forallb finished ts' = true ∨ ∃ c, tstep (w', ts') c.
Proof.
  intros Hw Hsteps. pose proof (rtc_pool_ok _ _ (launch_ok w es) Hsteps) as Hok.
  apply rtc_telling in Hsteps; [|by apply launch_telling].
  destruct (forallb finished ts') eqn:Hf; [by left|right]. by apply told_pool_can_step.
Qed.
End theorems.

(** ** Instances *)

Section instances.
Definition up0 : @world (mem_sqlite sample_disk) sample_libchat := sample_world sample_disk [].
#[local] Instance env0 : InitEnv (mem_sqlite sample_disk) sample_libchat :=
  sample_env sample_disk (Some "/data").

(** A call and a [shutdown], at once. *)
Definition pair0 : list entry := [EStatus; EShutdown].

(** The call has taken the display lock. *)
Definition locked0 : config :=
  (up0, <[0 := mk_thread None [DisplayLock]
            (OnDisplay (λ d, (mk_status (as_i64 (Z.of_nat (size (chats (d_state d)))))
                 (state_as_str (ds_state (d_delivery_state d))) (ds_detail (d_delivery_state d))
                 (ds_adopted (d_delivery_state d)), d, []))
               (λ _, Release DisplayLock (Ret tt)))]> (launch up0 pair0).2).

Lemma locked0_reached : rtc tstep (launch up0 pair0) locked0.
Proof. apply rtc_once. by apply (tstep_thread _ _ 0 (spawn EStatus)). Qed.

Lemma up0_known : session_known up0.
Proof. intros ms [= <-]. split; [cbn; lia|]. split; by intros t [= <-]. Qed.

Lemma no_deadlock_witness : ∃ c, tstep locked0 c.
Proof.
  destruct (no_deadlock up0 pair0 _ _ up0_known locked0_reached) as [H|H]; [|exact H].
  cbn in H. discriminate H.
Defined.
End instances.
