(* ===== verification/Termination.v ===== *)
(** * What ends the bridge

    Told to stop, the bridge begins at most one more turn. A turn comes to an end when
    each channel it drains was found empty once: [drain_step] runs [inbound.rs]'s
    [drain] on a channel that may be filled for ever. *)
From stdpp Require Import relations.
From S2P Require Import Prelude Utf8 LogFiles Logging Delivery Persistence ModuleState Runtime.
From S2P Require Import Concurrency Actions Lifecycle Inbound Transport Api Threads Signals.
From S2P Require Import SqliteMem Samples Interleaving.

(** ** What is left of a program after one of its steps *)

Section after.
Context {DB : Sqlite} {LC : Libchat}.
Implicit Types (w : world).

Definition after {A} (w : world) (p p' : prog A) : Prop :=
  match p with
  | Ret _ => False
  | OnModule f k => p' = k (f (w_module w)).1
  | OnDisplay f k => p' = k (f (w_display w)).1.1
  | OnPreset f k => p' = k (f (w_own_preset w)).1
  | OnLog f k => p' = k (f (w_log w)).1
  | OnSignals f k => p' = k (f (w_signals w)).1
  | Output _ k | Dispatch _ k | Acquire _ k | Release _ k | Join _ k => p' = k
  end.

(** What may be left, whatever the world was. *)
Definition shrinks {A} (p' p : prog A) : Prop := ∃ w, after w p p'.

Lemma shrinks_acc {A} (p : prog A) : Acc shrinks p.
Proof.
  induction p as [a|X g k IH|X g k IH|X g k IH|X g k IH|X g k IH|o k IH|c k IH|l k IH|l k IH|t k IH];
    constructor; intros p' [w Hw]; cbn [after] in Hw; [destruct Hw|subst p'; apply IH..].
Qed.

Lemma after_or_ret {A} w (p : prog A) : (∃ p', after w p p') ∨ ∃ a, p = Ret a.
Proof. destruct p; cbn; eauto. Qed.
End after.

(** ** The bridge's loop on channels that never dry up *)

Section loop.
Context {J : Json} {DB : Sqlite} {LC : Libchat}.

(** A point of the loop: the turns begun, and what is left of the current one. *)
Definition loop_point : Type := nat * prog (option bridge).

(** [src] is what the channels hand to each turn. Other threads change the world
    between two accesses as they like, but leave the bridge told to stop. *)
Inductive loop_step (n : nat) (src : nat → round) : loop_point → loop_point → Prop :=
| loop_access i w p p' :
    stop_flag (w_signals w) n = true → after w p p' → loop_step n src (i, p) (i, p')
| loop_turn i b :
    loop_step n src (i, Ret (Some b)) (S i, bridge_round n b (src i)).

Lemma loop_over n src i (o : option bridge) :
  (∀ b, o ≠ Some b) → Acc (flip (loop_step n src)) (i, Ret o).
Proof. intros Ho. constructor. intros c Hc. inversion Hc; subst; cbn in *; [done|]. by destruct (Ho b). Qed.

(** A turn begun after the flag was set ends at once. *)
Lemma stopped_round_step n src i b r c :
  loop_step n src (i, bridge_round n b r) c → c = (i, Ret None).
Proof. inversion 1 as [? w p p' Hw Hp|]; subst. cbn in Hp. by rewrite Hw in Hp; subst. Qed.

Lemma loop_turn_acc n src i (p : prog (option bridge)) :
  (∀ b, Acc (flip (loop_step n src)) (S i, bridge_round n b (src i))) →
  Acc (flip (loop_step n src)) (i, p).
Proof.
  intros Hturn. induction (shrinks_acc p) as [p _ IH]. constructor. intros c Hc.
  inversion Hc as [? w ? p' _ Hp|? b]; subst; [|apply Hturn]. apply IH. by exists w.
Qed.

Lemma loop_stopped_turn n src i b r : Acc (flip (loop_step n src)) (i, bridge_round n b r).
Proof.
  constructor. intros c ->%stopped_round_step. by apply loop_over.
Qed.

(** The turns begun after a point: at most one. *)
Definition within (n : nat) (src : nat → round) (i : nat) (c : loop_point) : Prop :=
  c.1 = i ∨ c.1 = S i ∧ (c.2 = Ret None ∨ ∃ b, c.2 = bridge_round n b (src i)).

Lemma within_step n src i c c' : within n src i c → loop_step n src c c' → within n src i c'.
Proof.
  intros [Hc|[Hc Hp]] Hstep.
  - inversion Hstep; subst; cbn in *; [by left|]. subst. right. eauto.
  - destruct c as [j p]. cbn in *. subst. destruct Hp as [->|[b ->]].
    + inversion Hstep; by subst.
    + apply stopped_round_step in Hstep as ->. right. eauto.
Qed.

Lemma within_steps n src i c c' : within n src i c → rtc (loop_step n src) c c' → within n src i c'.
Proof. intros Hc. induction 1; eauto using within_step. Qed.
End loop.

(** ** A drain, on a channel that may be filled while it runs *)

Section draining.
Context {DB : Sqlite} {LC : Libchat} {E : Type}.

(** What [try_recv] answers. *)
Inductive try_recv := Got (evt : E) | NothingYet | Gone.
(** The loop of [drain], and of [forward_subscriptions], breaks on anything but an event. *)
Definition breaks (r : try_recv) : bool := match r with Got _ => false | _ => true end.

(** A point of the loop: the [try_recv]s made, and what is left of the handler. *)
Definition drain_point : Type := nat * prog unit.

(** [polls k] is what the [k]th [try_recv] answers, whatever goes on meanwhile. Other
    threads change the world between two accesses of the handler as they like. *)
Inductive drain_step (polls : nat → try_recv) (handle : E → prog unit) : drain_point → drain_point → Prop :=
| drain_access k w p p' : after w p p' → drain_step polls handle (k, p) (k, p')
| drain_next k evt : polls k = Got evt → drain_step polls handle (k, Ret tt) (S k, handle evt).

Implicit Types (polls : nat → try_recv) (handle : E → prog unit).

Lemma drain_acc_handler polls handle k p :
  Acc (flip (drain_step polls handle)) (k, Ret tt) → Acc (flip (drain_step polls handle)) (k, p).
Proof.
  intros [Hret]. induction (shrinks_acc p) as [p _ IH]. constructor. intros c Hc.
  inversion Hc as [? w ? p' Hp|? evt Hevt]; subst; [apply IH; by exists w|by apply Hret].
Qed.

Lemma drain_acc polls handle m k :
  k ≤ m → breaks (polls m) = true → Acc (flip (drain_step polls handle)) (k, Ret tt).
Proof.
  intros Hkm Hm. remember (m - k) as fuel eqn:Hf. revert k Hkm Hf.
  induction fuel as [|fuel IH]; intros k Hkm Hf; constructor; intros c Hc;
    inversion Hc as [? w ? p' Hp|? evt Hevt]; subst; [destruct Hp| |destruct Hp|].
  - assert (k = m) as -> by lia. by rewrite Hevt in Hm.
  - apply drain_acc_handler, IH; lia.
Qed.

Lemma drain_ends polls handle k p :
  Acc (flip (drain_step polls handle)) (k, p) → ∃ m, k ≤ m ∧ breaks (polls m) = true.
Proof.
  intros Hacc. remember (k, p) as c eqn:Hc. revert k p Hc.
  induction Hacc as [c _ IH]. intros k p ->.
  pose (w := mk_world (mk_module_handle false None) display_default None [] []
    (mk_log_statics false "" None None (mk_fs ∅ ∅)) []).
  destruct (after_or_ret w p) as [[p' Hp]|[[] ->]].
  - by apply (IH (k, p') (drain_access _ _ _ _ _ _ Hp) k p').
  - destruct (polls k) as [evt| |] eqn:Hk; [|exists k; by rewrite Hk..].
    destruct (IH (S k, handle evt) (drain_next _ _ _ _ Hk) (S k) (handle evt) eq_refl) as (m & Hm & Hb).
    exists m. split; [lia|done].
Qed.
End draining.
Arguments try_recv : clear implicits.

Section theorems.
Context {EF : EnvFilterLib} {J : Json} {DB : Sqlite} {LC : Libchat} `{E : !InitEnv DB LC}.

(** C15. Once told to stop, the bridge begins at most one more turn, wherever it was,
    whatever each turn finds in its channels and whatever the other threads do meanwhile,
    and the only point it can rest at is the end of its loop. A turn itself lasts as long
    as the channels it drains are found filled: each drain ends exactly if one of its polls
    finds its channel empty or gone, so events that keep coming faster than they are
    handled hold the bridge, and a [shutdown] that waits for it, beyond any poll interval. *)
Theorem stop_ends_bridge (n : nat) (src : nat → round) (i : nat) (p : prog (option bridge)) :
  Acc (flip (loop_step n src)) (i, p) ∧
  (∀ j q, rtc (loop_step n src) (i, p) (j, q) →
    j ≤ S i ∧ ((∀ c, ¬ loop_step n src (j, q) c) → q = Ret None)) ∧
  ∀ (Evt : Type) (polls : nat → try_recv Evt) (handle : Evt → prog unit) k,
    Acc (flip (drain_step polls handle)) (k, Ret tt) ↔ ∃ m, k ≤ m ∧ breaks (polls m) = true.
Proof.
  split_and!.
  - apply loop_turn_acc. intros b. apply loop_stopped_turn.
  - intros j q Hsteps. split.
    + assert (within n src i (i, p)) as H by by left.
      destruct (within_steps _ _ _ _ _ H Hsteps) as [H'|[H' _]]; cbn in H'; lia.
    + intros Hend.
      pose (w := mk_world (mk_module_handle false None) display_default None [] []
        (mk_log_statics false "" None None (mk_fs ∅ ∅))
        (replicate (S n) (mk_signals true false))).
      destruct (after_or_ret w q) as [[q' Hq]|[[b|] ->]]; [| |done]; exfalso.
      * eapply Hend. apply (loop_access n src j w); [|done].
        unfold stop_flag, w. cbn [w_signals]. by rewrite lookup_replicate_2 by lia.
      * eapply Hend, loop_turn.
  - intros Evt polls handle k. split; [apply drain_ends|]. intros (m & Hm & Hb). by eapply drain_acc.
Qed.
End theorems.
