(* ===== verification/DisplayInvariant.v ===== *)
(** * The invariant of the display

    Well-formedness of what the display holds, kept by every access of every
    operation, hence true at every point of every interleaving. *)
From stdpp Require Import relations.
From Stdlib Require Import Ascii.
From S2P Require Import Prelude Utf8 LogFiles Logging Delivery Persistence ModuleState Runtime.
From S2P Require Import Concurrency Actions Lifecycle Inbound Transport Api Threads SqliteMem.
From S2P Require Import Samples Interleaving.

Section invariant.
Context {EF : EnvFilterLib} {J : Json} {DB : Sqlite} {LC : Libchat} `{E : !InitEnv DB LC}.
Implicit Types (d : Display) (st : AppState) (s : ChatSession).

(** A message: text, and a sender exactly when it was received. *)
Definition message_ok (m : DisplayMessage) : Prop :=
  is_str (content m) = true ∧ in_u64 (timestamp_ms m) ∧
  from_self m = bool_decide (sender m = None).

(** A session: a group has no peer, only a group has a name and a description, and
    empty means unset. *)
Definition session_ok s : Prop :=
  (kind s = Group → peer s = None) ∧
  (kind s = Direct → name s = None ∧ description s = None) ∧
  nickname s ≠ Some "" ∧ name s ≠ Some "" ∧ description s ≠ Some "" ∧
  Forall message_ok (messages s).

Definition chats_ok st : Prop :=
  (∀ i s, chats st !! i = Some s → chat_id s = i ∧ session_ok s) ∧
  installation_name st ≠ Some "".

(** Online only once the node started; a detail only with an error. *)
Definition delivery_ok (ds : DeliveryState) : Prop :=
  (ds_state ds = Online → ds_started ds = true) ∧
  (ds_detail ds ≠ "" → ds_state ds = Error).

Definition display_ok d : Prop := chats_ok (d_state d) ∧ delivery_ok (d_delivery_state d).

(** *** What consumers are told *)

(** An event keeps to the contract's vocabulary and ranges: received content is text,
    times are 64-bit integers, a conversation's label is short and only a group has
    a name, the delivery state is one of three and has a detail only in error. *)
Definition event_ok (e : event) : Prop :=
  match e with
  | message_received _ text ts _ => is_str text = true ∧ in_i64 ts
  | message_sent _ _ ts => in_i64 ts
  | conversation_created id _ label kind name desc =>
      label = short_label id ∧
      (kind = "direct" ∧ name = "" ∧ desc = "" ∨ kind = "group")
  | delivery_state_changed state detail _ =>
      state ∈ ["initialising"; "online"; "error"] ∧ (detail ≠ "" → state = "error")
  | conversation_updated _ | members_changed _ | conversation_deleted _ => True
  end.

Definition output_ok (o : output) : Prop :=
  match o with Emit e => event_ok e | Log _ _ => True end.

(** *** The pure updates *)

Lemma non_empty_ok (n : string) : non_empty n ≠ Some "".
Proof. unfold non_empty, str_eqb. case_bool_decide; congruence. Qed.

Lemma put_session_ok d i s :
  display_ok d → chat_id s = i → session_ok s →
  display_ok (set_chats (<[i := s]> (chats (d_state d))) d).
Proof.
  intros [[Hc Hn] Hd] Hi Hs. split; [|done]. split; [|done]. cbn.
  intros j s' [[<- <-]|[_ Hj]]%lookup_insert_Some; [done|]. by apply Hc.
Qed.

Lemma persist_chat_ok d i : display_ok d → display_ok (persist_chat d i).2.
Proof.
  unfold persist_chat. destruct (d_chat_db d); [|done]. destruct (_ !! i); [|done].
  by destruct (save_chat _ _).
Qed.

(** What the store keeps of a message sent without a sender, or received with one, is
    shown well formed. *)
Lemma display_message_ok m :
  bool_decide (msg_direction m = Sent) = bool_decide (msg_sender_account m = None) →
  message_ok (display_message m).
Proof.
  intros H. split; [apply from_utf8_lossy_is_str|]. split; [apply as_u64_range|exact H].
Qed.

Lemma record_message_ok d m b :
  message_ok (display_message m) → display_ok d → display_ok (record_message d m b).2.
Proof.
  intros Hm Hd. unfold record_message. destruct (_ !! _) as [s|] eqn:Hs; [|done].
  destruct (d_chat_db d) as [c|]; [|done]. destruct (Persistence.record_message _ _ _). cbn.
  apply (proj1 (proj1 Hd)) in Hs as [? (? & ? & ? & ? & ? & ?)].
  apply (put_session_ok (set_db _ d)); [done..|]. split_and!; [done..|]. cbn.
  apply Forall_app. split; [done|]. by constructor.
Qed.

Lemma set_delivery_state_ok d k detail :
  display_ok d → (k = Online → ds_started (d_delivery_state d) = true) →
  (detail ≠ "" → k = Error) → display_ok (set_delivery_state d k detail).1.
Proof. intros [Hc Hd] Hk Hdet. unfold set_delivery_state. by case_match. Qed.

Lemma set_delivery_state_says d k detail :
  k ≠ Stopped → (detail ≠ "" → k = Error) → Forall output_ok (set_delivery_state d k detail).2.
Proof.
  intros Hk Hdet. unfold set_delivery_state. case_match; [constructor|].
  constructor; [by destruct k, detail|]. constructor; [|constructor]. cbn.
  split; [destruct k; cbn; [set_solver..|done]|]. by intros ->%Hdet.
Qed.

Lemma record_node_started_says d b m : Forall output_ok (record_node_started d b m).2.
Proof.
  unfold record_node_started. case_match; [constructor|].
  destruct b; by apply set_delivery_state_says.
Qed.

Lemma set_delivery_error_ok d ds detail :
  display_ok d → display_ok (set_delivery_state (set_delivery (set_starting false ds) d) Error detail).1.
Proof.
  intros [Hc Hd]. unfold set_delivery_state. case_match eqn:Eq; (split; [done|]); cbn.
  - apply andb_true_iff in Eq as [Hs%bool_decide_eq_true _]. cbn in Hs.
    split; cbn; [by rewrite Hs|done].
  - split; cbn; done.
Qed.

Lemma record_node_started_ok d b m : display_ok d → display_ok (record_node_started d b m).1.
Proof.
  intros Hd. unfold record_node_started. case_match; [done|].
  destruct b; [|by apply set_delivery_error_ok].
  unfold set_delivery_state. case_match eqn:Eq; (split; [apply Hd|]); split; cbn; try done.
  apply Hd.
Qed.

Lemma receiving_session_ok d id account :
  display_ok d → chat_id (receiving_session d id account).1 = id ∧
  session_ok (receiving_session d id account).1.
Proof.
  intros [[Hc _] _]. unfold receiving_session.
  destruct (chats (d_state d) !! id) as [s|] eqn:Hs.
  - apply Hc in Hs as [Hi (Hg & Hrest)]. destruct (bool_decide (kind s = Direct)) eqn:Hk; [|done].
    apply bool_decide_eq_true in Hk. destruct (bool_decide _); cbn; (split; [done|]); [|done].
    destruct Hrest. split; [|done]. cbn. by rewrite Hk.
  - done.
Qed.
End invariant.

Section keeping.
Context {EF : EnvFilterLib} {J : Json} {DB : Sqlite} {LC : Libchat} `{E : !InitEnv DB LC}.
Implicit Types (P : Display → Prop) (O : output → Prop).

Abbreviation anything := (λ _, True).

Lemma keeps_mbind {A B} P O (Q : A → Prop) (R : B → Prop) (p : prog A) (f : A → prog B) :
  keeps P O Q p → (∀ a, Q a → keeps P O R (f a)) → keeps P O R (p ≫= f).
Proof. apply keeps_bind. Qed.
Lemma keeps_seq {A B} P O (R : B → Prop) (p : prog A) (f : A → prog B) :
  keeps P O anything p → (∀ a, keeps P O R (f a)) → keeps P O R (p ≫= f).
Proof. intros Hp Hf. by eapply keeps_bind; [exact Hp|intros a _]. Qed.
Lemma keeps_try {A B E'} P O (p : prog (result A E')) (f : A → prog (result B E')) :
  keeps P O anything p → (∀ a, keeps P O anything (f a)) → keeps P O anything (try_bind p f).
Proof. intros Hp Hf. eapply keeps_bind; [exact Hp|]. intros [a|e] _; [apply Hf|done]. Qed.
Lemma keeps_foldr {A B} P O (f : A → prog B → prog B) (p : prog B) (l : list A) :
  keeps P O anything p → (∀ a q, keeps P O anything q → keeps P O anything (f a q)) →
  keeps P O anything (foldr f p l).
Proof. intros Hp Hf. induction l as [|a l IH]; [done|]. apply (Hf a), IH. Qed.

Lemma keeps_mut {R : Set} P O (f : Display → R * Display * list output) :
  (∀ d, P d → P (f d).1.2 ∧ Forall O (f d).2) → keeps P O anything (with_display_mut f).
Proof. intros Hf d Hd. destruct (Hf d Hd). done. Qed.
Lemma keeps_quiet {R : Set} P O (f : Display → R * Display) :
  (∀ d, P d → P (f d).2) → keeps P O anything (with_display_mut (λ d, (f d, []))).
Proof. intros Hf. apply keeps_mut. intros d Hd. split; [by apply Hf|constructor]. Qed.
Lemma keeps_read {R : Set} P O (f : Display → R) : keeps P O anything (with_display f).
Proof. by intros d Hd. Qed.

Lemma keeps_with_client {R : Set} P O (f : Client → R * Client) :
  keeps P O anything (with_client f).
Proof. by intros x. Qed.
Lemma keeps_with_client_try {R : Set} P O (f : Client → result R ClientError * Client) :
  keeps P O anything (with_client_try f).
Proof. apply keeps_try; [apply keeps_with_client|]. by intros [a|e]. Qed.
Lemma keeps_check_live P O id : keeps P O anything (check_live id).
Proof. apply keeps_seq; [apply keeps_read|]. by intros [[]|]. Qed.
End keeping.

(** A list of outputs, each known to be fine. *)
Ltac says := cbn; repeat first [ apply Forall_nil_2 | apply Forall_cons_2 | done | assumption ].

(** The matches of a closure over the display. *)
Ltac kept_display :=
  repeat first
    [ progress intros
    | done
    | apply keeps_with_client | apply keeps_with_client_try | apply keeps_check_live
    | apply keeps_read
    | apply keeps_mut
    | apply keeps_seq
    | apply keeps_try
    | apply keeps_foldr
    | case_match ].

Section operations.
Context {EF : EnvFilterLib} {J : Json} {DB : Sqlite} {LC : Libchat} `{E : !InitEnv DB LC}.
Implicit Types (P : Display → Prop) (O : output → Prop).

Abbreviation anything := (λ _, True).

Lemma keeps_set_installation_name n : keeps display_ok output_ok anything (set_installation_name n).
Proof.
  apply keeps_mut. intros d [Hc Hd]. destruct (d_chat_db d) as [c|]; [|done].
  cbn zeta. destruct (save_installation_name _ c) as [[u|e] c']; [|done].
  split; [|constructor]. split; [|done]. split; [apply Hc|]. apply non_empty_ok.
Qed.

Lemma keeps_insert P O (s : ChatSession) :
  (∀ d, P d → P (insert_session s d)) → (∀ d i, P d → P (persist_chat d i).2) →
  keeps P O anything (with_display_mut (λ d,
    let d := insert_session s d in (persist_chat d (chat_id s), []))).
Proof. intros H1 H2. apply keeps_quiet. intros d Hd. by apply H2, H1. Qed.

Lemma insert_new_ok i k (n desc p : option string) d :
  (k = Group → p = None) → (k = Direct → n = None ∧ desc = None) →
  n ≠ Some "" → desc ≠ Some "" →
  display_ok d → display_ok (insert_session (new_session i k n desc p) d).
Proof. intros Hp Hk Hn Hdesc Hd. apply put_session_ok; [done..|]. by split_and!; [..|constructor]. Qed.

Lemma keeps_create_conversation peer : keeps display_ok output_ok anything (create_conversation peer).
Proof.
  apply keeps_try; [apply keeps_with_client_try|]. intros id.
  apply keeps_seq; [done|]. intros _.
  apply keeps_try; [|intros _; split; [|done]; split; [done|by left]].
  apply (keeps_insert _ _ (new_session id Direct None None (Some peer))).
  - intros d. by apply insert_new_ok.
  - apply persist_chat_ok.
Qed.

Lemma keeps_create_group n desc : keeps display_ok output_ok anything (create_group_conversation n desc).
Proof.
  apply keeps_try; [apply keeps_with_client_try|]. intros id.
  apply keeps_seq; [done|]. intros _.
  apply keeps_try; [|intros _; split; [|done]; split; [done|by right]].
  apply (keeps_insert _ _ (new_session id Group (non_empty n) (non_empty desc) None)).
  - intros d. by apply insert_new_ok; try apply non_empty_ok.
  - apply persist_chat_ok.
Qed.

Lemma keeps_send_message clock id content :
  keeps display_ok output_ok anything (send_message clock id content).
Proof.
  unfold send_message. apply keeps_try; [apply keeps_check_live|]. intros _.
  apply keeps_try; [apply keeps_with_client_try|]. intros _.
  apply keeps_seq; [done|]. intros _. apply keeps_try.
  - apply keeps_quiet. intros d. by apply record_message_ok, display_message_ok.
  - intros _. split; [|done]. apply as_i64_range.
Qed.

Lemma keeps_set_nickname id nick :
  keeps display_ok output_ok anything (set_conversation_nickname id nick).
Proof.
  unfold set_conversation_nickname. apply keeps_try; [|done]. apply keeps_mut. intros d Hd.
  destruct (chats _ !! id) as [s|] eqn:Hs; [|done]. split; [|constructor]. apply persist_chat_ok.
  destruct (proj1 (proj1 Hd) id s Hs) as (Hi & Hg & Hk & Hn & Hrest).
  apply put_session_ok; [done..|]. split; [done|]. split; [done|]. split; [|done].
  apply (non_empty_ok nick).
Qed.

Lemma keeps_delete id : keeps display_ok output_ok anything (delete_conversation id).
Proof.
  unfold delete_conversation. apply keeps_try; [|done]. apply keeps_mut. intros d Hd.
  destruct (chats _ !! id) as [s|]; [|done]. destruct (d_chat_db d) as [c|]; [|done].
  destruct (delete_chat id c) as [[u|e] c']; [|done]. destruct Hd as [[Hc Hn] Hd].
  split; [|constructor]. split; [|done]. split; [|done]. cbn. intros i s1 [_ Hi]%lookup_delete_Some. by apply Hc.
Qed.

Lemma keeps_delivery P O (f : Display → Display * list output) :
  (∀ d, P d → P (f d).1 ∧ Forall O (f d).2) →
  keeps P O anything (with_display_mut (λ d, let '(d, os) := f d in (tt, d, os))).
Proof. intros Hf. apply keeps_mut. intros d Hd. specialize (Hf d Hd). by destruct (f d). Qed.

Lemma keeps_start_node : keeps display_ok output_ok anything start_node.
Proof. unfold start_node. kept_display. Qed.

Lemma keeps_answered c res : keeps display_ok output_ok anything (answered c res).
Proof.
  destruct c; cbn [answered].
  - unfold create_node_answered. case_match; [|done].
    apply keeps_seq; [by intros x|]. intros _. apply keeps_start_node.
  - unfold node_info_answered. case_match.
    + apply keeps_seq; [by intros x|]. intros adopted.
      apply keeps_seq; [by destruct adopted|]. intros _.
      apply keeps_seq; [by apply keeps_mut|]. intros _. apply keeps_start_node.
    + apply (keeps_delivery display_ok output_ok (λ d, set_delivery_state d Error _)).
      intros d Hd. split; [by apply set_delivery_state_ok|by apply set_delivery_state_says].
  - unfold start_answered. case_match; [done|].
    apply (keeps_delivery display_ok output_ok (λ d,
      set_delivery_state (set_delivery (set_starting false (d_delivery_state d)) d) Error _)).
    intros d Hd. split; [by apply set_delivery_error_ok|by apply set_delivery_state_says].
  - unfold send_answered. by case_match.
  - unfold subscribe_answered. by case_match.
Qed.

Lemma keeps_event clock e : keeps display_ok output_ok anything (handle_event clock e).
Proof.
  destruct e as [id class|id content account signer|id|line|]; cbn [handle_event]; try done.
  - unfold record_conversation_started.
    apply (keeps_mbind _ _ (λ '(n, desc), n ≠ Some "" ∧ desc ≠ Some "" ∧
      (kind_for_class class = Direct → n = None ∧ desc = None))).
    { unfold observed_metadata. destruct (kind_for_class class); [done|].
      apply keeps_seq; [apply keeps_with_client|]. intros [[meta|err]|err]; [|done..].
      split_and!; [apply non_empty_ok..|done]. }
    intros [n desc] (Hn & Hdesc & Hdirect). apply keeps_mut. intros d Hd. case_decide; [done|].
    destruct (chats _ !! id) as [s|] eqn:Hs.
    + destruct (proj1 (proj1 Hd) id s Hs) as [Hi Hok].
      destruct (history_only s); (split; [by apply put_session_ok|]); says.
    + pose proof (persist_chat_ok (insert_session
        (new_session id (kind_for_class class) n desc None) d) id) as Hp.
      assert (output_ok (Emit (conversation_created id false (short_label id)
        (kind_as_str (kind_for_class class)) (default "" n) (default "" desc)))) as Hev.
      { split; [done|]. destruct (kind_for_class class); [left|by right].
        by destruct (Hdirect eq_refl) as [-> ->]. }
      cbn zeta. destruct (persist_chat _ _) as [[u|err] d'];
        (split; [apply Hp; by apply insert_new_ok|]);
        says.
  - apply keeps_mut. intros d Hd. case_decide; [done|].
    pose proof (receiving_session_ok d id account Hd) as [Hi Hok].
    destruct (receiving_session d id account) as [s b]. cbn [fst] in *. cbn zeta.
    pose proof (record_message_ok (set_chats (<[id := s]> (chats (d_state d))) d)
      (inbound_message clock id content account signer) b) as Hr.
    destruct (record_message _ _ _) as [r d']. split; [apply Hr; [by apply display_message_ok|by apply put_session_ok]|].
    constructor; [done|]. apply Forall_app. split; [destruct r; says|].
    constructor; [|done]. split; [apply from_utf8_lossy_is_str|apply as_i64_range].
  - apply keeps_mut. intros d Hd. case_match; (split; [done|]); says.
Qed.

Lemma keeps_run_events events : keeps display_ok output_ok anything (run_events events).
Proof.
  apply keeps_foldr; [done|]. intros [clock e] q Hq. apply keeps_seq; [|done].
  apply keeps_event.
Qed.

Lemma keeps_drain {X} (sub : option (list X * bool)) (h : X → prog unit) :
  (∀ e, keeps display_ok output_ok anything (h e)) → keeps display_ok output_ok anything (drain sub h).
Proof.
  intros Hh. destruct sub as [[l dis]|]; [|done]. apply keeps_foldr; [done|]. intros e q Hq.
  by apply keeps_seq.
Qed.

Lemma keeps_handle_node_started evt : keeps display_ok output_ok anything (handle_node_started evt).
Proof.
  destruct evt as [[ok m]|]; [|done].
  apply (keeps_delivery display_ok output_ok (λ d, record_node_started d ok m)).
  intros d Hd. split; [by apply record_node_started_ok|apply record_node_started_says].
Qed.

Lemma keeps_handle_connection_event evt : keeps display_ok output_ok anything (handle_connection_event evt).
Proof.
  destruct evt as [status|]; [|done]. apply keeps_mut. intros d Hd.
  unfold connection_transition. destruct (ds_started _) eqn:Hs; [|done]. cbn [negb].
  pose proof (set_delivery_state_ok d (map_connection_status status) "" Hd (λ _, Hs)) as H.
  assert (map_connection_status status ≠ Stopped) as Hns
    by (unfold map_connection_status; by case_match).
  pose proof (set_delivery_state_says d _ "" Hns) as Ho.
  destruct (set_delivery_state _ _ _). split; [by apply H|by apply Ho].
Qed.

Lemma keeps_finish_round b r seen inbound :
  keeps display_ok output_ok anything (finish_round b r seen inbound).
Proof.
  apply keeps_seq; [apply keeps_drain, keeps_handle_node_started|]. intros ns.
  apply keeps_seq; [apply keeps_drain, keeps_handle_connection_event|]. intros cn.
  apply keeps_seq; [|done]. apply keeps_seq; [apply keeps_read|]. intros k. case_match; [done|].
  apply keeps_foldr; [done|]. by intros t q Hq.
Qed.

Lemma forward_message_says evt seen : Forall output_ok (forward_message evt seen).1.1.
Proof.
  destruct evt as [m|]; cbn; [|says]. case_match; [says|].
  destruct (first_sighting _ _) as [[] seen']; says.
Qed.

Lemma keeps_outputs P O os : Forall O os → keeps P O anything (outputs os).
Proof. induction 1 as [|o os Ho _ IH]; [done|]. by split. Qed.

Lemma keeps_run_bridge n b rounds : keeps display_ok output_ok anything (run_bridge n b rounds).
Proof.
  revert b. induction rounds as [|r rounds IH]; intros b; cbn [run_bridge]; [done|].
  apply keeps_seq; [|by intros [b'|]].
  apply keeps_seq; [done|]. intros [|]; [done|].
  destruct (rd_message r) as [evt| |]; [|apply keeps_finish_round|done].
  pose proof (forward_message_says evt (br_seen b)) as Hos.
  destruct (forward_message evt (br_seen b)) as [[os payloads] seen].
  apply keeps_seq; [by apply keeps_outputs|intros; apply keeps_finish_round].
Qed.
End operations.

Section entries.
Context {EF : EnvFilterLib} {J : Json} {DB : Sqlite} {LC : Libchat} `{E : !InitEnv DB LC}.

(** What [initialize] would load is well formed. *)
Definition loads_ok : Prop :=
  ∀ client c st, local_setup = Ok (client, c, st) → chats_ok st.

Lemma keeps_initialize : loads_ok → keeps display_ok output_ok (λ _, True) initialize.
Proof.
  intros Hload. unfold initialize, try_bind. cbn [bind].
  destruct local_setup as [[[client c] st]|e] eqn:Hs; [|done].
  destruct env_on_message_received; [|done]. cbn [map_err bind].
  destruct env_on_node_started; [|done]. cbn [map_err bind].
  apply keeps_seq; [by destruct env_on_connection_state_changed|]. intros _.
  apply (keeps_seq _ _ (λ _, True)); [done|]. intros n. apply keeps_seq; [|done].
  apply keeps_mut. intros d _. split; [|constructor]. split; [by apply (Hload client c)|]. by split.
Qed.

Lemma keeps_install_with {X} (f : prog (result ModuleState X)) :
  keeps display_ok output_ok (λ _, True) f → keeps display_ok output_ok (λ _, True) (install_with f).
Proof.
  intros Hf. cbn. intros [[] [ms|]]; try done.
  apply (keeps_seq _ _ (λ _, True)); [done|]. by intros [ms|e].
Qed.

Lemma keeps_shutdown ms : keeps display_ok output_ok (λ _, True) (shutdown ms).
Proof.
  unfold shutdown. apply keeps_seq; [done|]. intros _.
  apply keeps_seq; [by destruct (ms_inbound_thread ms)|]. intros _.
  apply keeps_seq; [done|]. intros _.
  apply keeps_seq; [by destruct (ms_event_thread ms)|]. intros _.
  apply keeps_mut. intros d _. split; [by split; split|constructor].
Qed.

Lemma keeps_claim : keeps display_ok output_ok (λ _, True) claim_delivery_retry.
Proof.
  apply keeps_mut. intros d Hd. cbn zeta. destruct (_ || _); [done|].
  pose proof (set_delivery_state_ok d Initialising "" Hd) as Hk.
  pose proof (set_delivery_state_says d Initialising "") as Ho.
  destruct (set_delivery_state _ _ _). split; [by apply Hk|by apply Ho].
Qed.

Lemma keeps_init env config : loads_ok → keeps display_ok output_ok (λ _, True) (init env config).
Proof.
  intros Hload. apply keeps_seq; [by intros x|]. intros _.
  apply keeps_seq; [by apply keeps_install_with, keeps_initialize|].
  intros [[[]|e]|[]]; try done.
  apply keeps_seq; [apply keeps_claim|]. by intros [].
Qed.

Lemma keeps_ignore {A} (p : prog A) :
  keeps display_ok output_ok (λ _, True) p → keeps display_ok output_ok (λ _, True) (ignore p).
Proof. intros Hp. by apply keeps_seq. Qed.
Lemma keeps_api_result {A} (f : A → ApiValue) (p : prog (result A CoreError)) :
  keeps display_ok output_ok (λ _, True) p → keeps display_ok output_ok (λ _, True) (api_result f p).
Proof. intros Hp. by apply keeps_seq. Qed.

Lemma keeps_entry e : loads_ok → keeps display_ok output_ok (λ _, True) (entry_prog e).
Proof.
  intros Hload. destruct e; cbn [entry_prog]; try apply keeps_ignore; try (apply keeps_api_result);
    try (by apply keeps_read); try done.
  - by apply keeps_init.
  - apply keeps_seq; [by intros x|]. intros [[ms|]|[]]; [|done..].
    apply keeps_seq; [apply keeps_shutdown|done].
  - apply keeps_set_installation_name.
  - apply keeps_create_conversation.
  - apply keeps_create_group.
  - unfold add_group_member. kept_display.
  - unfold api_list_group_members, list_group_members. kept_display.
  - apply keeps_send_message.
  - apply keeps_set_nickname.
  - apply keeps_delete.
  - apply keeps_answered.
  - apply keeps_run_bridge.
  - apply keeps_run_events.
Qed.

Lemma keeping_display w es w' ts' :
  loads_ok → display_ok (w_display w) → rtc tstep (launch w es) (w', ts') →
  keeping display_ok output_ok (w_out w) (w', ts').
Proof.
  intros Hload Hw Hsteps. eapply (rtc_keeping _ _ _ (launch w es)); [|exact Hsteps].
  split; [done|]. split; [exists []; by rewrite app_nil_r|].
  apply Forall_forall. intros th (e & -> & _)%list_elem_of_fmap. by apply keeps_entry.
Qed.

(** C18. Whatever the schedule, every event the module raises keeps to the contract:
    received text is text whatever bytes arrived, times fit, a conversation's kind and label
    are what consumers parse, and the delivery state is "initialising", "online" or "error",
    the last alone with a detail; "stopped" is never announced. *)
Theorem events_conform (w : world) (es : list entry) w' ts' :
  loads_ok → display_ok (w_display w) → rtc tstep (launch w es) (w', ts') →
  ∃ os, w_out w' = w_out w ++ os ∧ ∀ e, Emit e ∈ os → event_ok e.
Proof.
  intros Hload Hw Hsteps.
  destruct (keeping_display w es w' ts' Hload Hw Hsteps) as (_ & (os & Ho & Hos) & _).
  exists os. split; [done|]. intros e He. rewrite Forall_forall in Hos. by apply (Hos (Emit e)).
Qed.
End entries.

(** ** An instance *)

Section instance.
#[local] Instance env1 : InitEnv (mem_sqlite sample_disk) sample_libchat :=
  sample_env sample_disk (Some "/data").

Lemma sample_session_ok s :
  kind s = Direct → (nickname s, name s, description s) ∈
    [(None, None, None); (Some "Raya", None, None)] → Forall message_ok (messages s) →
  session_ok s.
Proof.
  intros Hk H Hm. split; [by rewrite Hk|].
  rewrite !elem_of_cons in H. destruct H as [[= -> -> ->]|[[= -> -> ->]|H]]; try done.
  by apply not_elem_of_nil in H.
Qed.

Lemma sample_chats_ok : chats_ok sample_state.
Proof.
  split; [|done]. intros i s. unfold sample_state, put_chat. cbn [chats].
  rewrite !lookup_insert_Some. change (chats app_state_default) with (∅ : gmap string ChatSession).
  rewrite lookup_empty. intros [[<- <-]|[_ [[<- <-]|[_ [[<- <-]|[_ H]]]]]]; [..|done];
    (split; [done|]; apply sample_session_ok;
      [done|rewrite !elem_of_cons; auto|repeat constructor; by vm_compute]).
Qed.

Lemma reload_chats_ok live st :
  chats_ok st → chats_ok (mark_history_only live
    (mk_app_state (reload_session <$> chats st) (installation_name st) (deleted st))).
Proof.
  intros [Hc Hn]. split; [|done]. intros i s. cbn. rewrite !lookup_fmap.
  destruct (chats st !! i) as [s0|] eqn:Hi; [|done]. intros [= <-].
  destruct (Hc i s0 Hi) as (? & ? & ? & ? & ? & ? & Hm). split; [done|].
  split_and!; [done..|]. by apply Forall_drop.
Qed.

Lemma sample_loads_ok : loads_ok (E := env1).
Proof.
  intros client c st Hsetup.
  unfold local_setup in Hsetup. cbn [env_context env1 sample_env] in Hsetup.
  change (ok_or _ _) with (Ok (A := string) (E := InitError) "/data") in Hsetup. cbn [and_then] in Hsetup.
  cbn [env_create_dir_all env1 sample_env map_err and_then LIBCHAT_PERSISTENCE_ENABLED] in Hsetup.
  change (open _ _) with (Ok (E := string) (mk_mem sample_disk None [])) in Hsetup.
  cbn [map_err and_then env_accounts env_build_client env1 sample_env] in Hsetup.
  destruct (load_state (DB := mem_sqlite sample_disk) (mk_mem sample_disk None [])) as [st0|] eqn:E; [|done].
  cbn in Hsetup. injection Hsetup as _ _ <-.
  apply (load_state_stored (L := mem_laws sample_disk) _ sample_state) in E as ->;
    [|apply sample_stored].
  apply (reload_chats_ok []), sample_chats_ok.
Qed.

Lemma up0_ok : display_ok (w_display up0).
Proof. split; [apply sample_chats_ok|]. by split. Qed.

(** A message of bytes that are no text arrives in ["convo-0"]. *)
Definition garbled0 : entry :=
  EEvents 0 [(Some 9%Z, MessageReceived "convo-0" ["255"%char] "saro" "phone")].

Lemma events_conform_witness :
  event_ok (message_received "convo-0" (from_utf8_lossy ["255"%char]) 9 "saro").
Proof.
  pose proof (entry_alone (E := env1) up0 garbled0 up0_known) as Hsteps.
  destruct (events_conform (E := env1) up0 [garbled0] _ _ sample_loads_ok up0_ok Hsteps)
    as (os & Ho & Hos).
  apply Hos. apply (f_equal (drop (length (w_out up0)))) in Ho.
  rewrite drop_app_length in Ho. rewrite <-Ho. vm_compute. right. left.
Defined.
End instance.
