(* ===== verification/ActionsFacts.v ===== *)
(** * What the operations do

    The behaviour of the business operations on every branch, the agreement of
    the display with [chat.db] they maintain, and what they log. *)
From S2P Require Import Prelude Utf8 LogFiles Logging Delivery Persistence ModuleState Runtime.
From S2P Require Import Actions SqliteMem Samples.
From Stdlib Require Import Ascii.

(** ** Running the primitives *)

Section run_primitives.
Context {DB : Sqlite} {LC : Libchat}.
Implicit Types (w : world) (d : Display).

Lemma put_display_id w : put_display (w_display w) [] w = w.
Proof. destruct w. unfold put_display. cbn. by rewrite app_nil_r. Qed.

Lemma run_with_display {R : Set} (f : Display → R) w :
  run (with_display f) w = (f (w_display w), w).
Proof. cbn. by rewrite put_display_id. Qed.

Lemma run_with_display_mut {R : Set} (f : Display → R * Display * list output) w :
  run (with_display_mut f) w =
  ((f (w_display w)).1.1, put_display (f (w_display w)).1.2 (f (w_display w)).2 w).
Proof. cbn. by destruct (f (w_display w)) as [[r d] os]. Qed.

(** The client lock taken around [f], on each state of the handle. *)
Definition set_client (c : Client) (ms : ModuleState) : ModuleState :=
  mk_module_state c (ms_inbound_stop ms) (ms_inbound_thread ms) (ms_event_thread ms).

Lemma run_with_client {R : Set} (f : Client → R * Client) w :
  run (with_client f) w =
  if mh_poisoned (w_module w) then (Err (Internal "module lock poisoned"), w)
  else match mh_inner (w_module w) with
       | None => (Err NotInit, w)
       | Some ms =>
           (Ok (f (ms_client ms)).1,
            put_module (mk_module_handle false (Some (set_client (f (ms_client ms)).2 ms))) w)
       end.
Proof.
  destruct w as [[p inner] d o pd out lg b]. cbn. destruct p; [done|].
  destruct inner as [ms|]; [|done]. by destruct (f (ms_client ms)).
Qed.

(** A client call either happened, and only the client changed, or did not, and
    nothing did. *)
Lemma run_with_client_try {R : Set} (f : Client → result R ClientError * Client) w r w' :
  run (with_client_try f) w = (r, w') →
  w_display w' = w_display w ∧ w_out w' = w_out w ∧ w_pending w' = w_pending w ∧
  w_log w' = w_log w ∧ w_own_preset w' = w_own_preset w ∧
  match r with
  | Ok a => ∃ ms, mh_inner (w_module w) = Some ms ∧ (f (ms_client ms)).1 = Ok a ∧
      mh_inner (w_module w') = Some (set_client (f (ms_client ms)).2 ms)
  | Err (ClientFailed e) => ∃ ms, mh_inner (w_module w) = Some ms ∧
      (f (ms_client ms)).1 = Err e
  | Err NotInit => mh_inner (w_module w) = None ∧ w' = w
  | Err (Internal _) => mh_poisoned (w_module w) = true ∧ w' = w
  | Err _ => False
  end.
Proof.
  unfold with_client_try. rewrite run_try_bind, run_with_client.
  destruct (mh_poisoned (w_module w)) eqn:Hp; [by intros [= <- <-]|].
  destruct (mh_inner (w_module w)) as [ms|] eqn:Hms; [|by intros [= <- <-]].
  cbn. destruct (f (ms_client ms)) as [[a|e] c] eqn:Hf; intros [= <- <-]; cbn;
    repeat (split; [done|]); exists ms; by rewrite Hf.
Qed.

Lemma run_check_live i w :
  run (check_live i) w =
  (match chats (d_state (w_display w)) !! i with
   | None => Err NotFound
   | Some s => if history_only s then Err HistoryOnly else Ok tt
   end, w).
Proof.
  unfold check_live. change (mbind ?k ?p) with (bind p k).
  rewrite run_bind, run_with_display. cbn.
  destruct (chats _ !! i) as [s|]; [|done]. cbn. by destruct (history_only s).
Qed.
End run_primitives.

(** ** The display and [chat.db] *)

Section agreement.
Context {DB : Sqlite} {L : SqliteLaws DB} {LC : Libchat}.
Implicit Types (w : world) (d : Display).

(** [chat.db] is open, outside a transaction, and holds what the display shows. *)
Definition synced d : Prop :=
  ∃ c, d_chat_db d = Some c ∧ base c = None ∧ stored (view c) (d_state d).

(** [chat.db] is open and no transaction is: all the operations need of it. *)
Definition connected d : Prop := ∃ c, d_chat_db d = Some c ∧ base c = None.

Lemma synced_connected d : synced d → connected d.
Proof. intros (c & Hc & Hb & _). by exists c. Qed.

(** A display write came back with [r]: it did all of [f] or nothing. *)
Definition wrote (f : tables → tables) (r : result unit CoreError) d (st' : AppState) d' : Prop :=
  ∃ c c', d_chat_db d = Some c ∧ d' = set_db c' (set_app st' d) ∧ base c' = None ∧
    match r with
    | Ok _ => view c' = f (view c)
    | Err (Store _) => view c' = view c
    | Err _ => False
    end.

Lemma wrote_synced f r d st' d' :
  synced d → wrote f r d st' d' → (∀ t, stored t (d_state d) → stored (f t) st') →
  is_ok r = true → synced d'.
Proof.
  intros (c0 & Hc0 & _ & Hst) (c & c' & Hc & -> & Hb & Hv) Hf Hr.
  exists c'. split_and!; [done..|]. destruct r as [|]; [|done].
  rewrite Hv. apply Hf. by simplify_eq.
Qed.

Lemma wrote_connected f r d st' d' : wrote f r d st' d' → connected d'.
Proof. intros (c & c' & _ & -> & Hb & _). by exists c'. Qed.

Lemma persist_wrote d i s r d' :
  connected d →
  persist_chat (set_chats (<[i := s]> (chats (d_state d))) d) i = (r, d') →
  wrote (stmt_apply (UpsertChat (row_of_session s))) r d (put_chat i s (d_state d)) d'.
Proof.
  intros (c & Hc & Hb). unfold persist_chat. cbn. rewrite Hc, lookup_insert_eq.
  destruct (save_chat s c) as [x c'] eqn:E. intros [= <- <-].
  apply save_chat_atomic in E as [Hb' Hv]; [|done].
  exists c, c'. split_and!; try done. by destruct x.
Qed.

Lemma record_wrote d i s m b r d' :
  connected d → msg_chat_id m = i →
  (b = false → chats (d_state d) !! i = Some s) →
  record_message (set_chats (<[i := s]> (chats (d_state d))) d) m b = (r, d') →
  wrote (record_tables (if b then Some s else None) m) r d
    (put_chat i (push_message (display_message m) s) (d_state d)) d'.
Proof.
  intros (c & Hc & Hbase) <- Hs. unfold record_message. cbn.
  rewrite Hc, lookup_insert_eq.
  destruct (Persistence.record_message _ _ _) as [x c'] eqn:E. intros [= <- <-].
  apply record_message_atomic in E as [Hb' Hv]; [|done].
  exists c, c'. split_and!; try done.
  - by rewrite insert_insert_eq.
  - by destruct x.
Qed.

Lemma stored_record t st i s m (b : bool) :
  stored t st → same_log st i s → msg_chat_id m = i →
  (b = false → chats st !! i = Some s) →
  stored (record_tables (if b then Some s else None) m t)
    (put_chat i (push_message (display_message m) s) st).
Proof.
  intros Hst Hlog Hm Hs. unfold record_tables. destruct b.
  - pose proof (stored_put _ _ _ _ Hst Hlog) as Hput.
    apply (stored_add_message _ _ i s m) in Hput; [|apply lookup_insert_eq|done].
    unfold put_chat in *. cbn in Hput. by rewrite insert_insert_eq in Hput.
  - apply stored_add_message; auto.
Qed.

Lemma same_log_lookup t st i s s' :
  stored t st → chats st !! i = Some s →
  chat_id s' = chat_id s → messages s' = messages s → older_messages s' = older_messages s →
  same_log st i s'.
Proof.
  intros Hst Hi Hid Hm Ho. split; [by rewrite Hid; apply (stored_keys _ _ Hst)|].
  by rewrite Hi.
Qed.

Lemma same_log_fresh st i k n desc p :
  chats st !! i = None → same_log st i (new_session i k n desc p).
Proof. intros Hi. split; [done|]. by rewrite Hi. Qed.

(** *** Outcomes of the operations

    [unchanged]: a call that failed before it reached the display. *)
Definition unchanged w w' : Prop :=
  w_display w' = w_display w ∧ w_out w' = w_out w ∧ w_pending w' = w_pending w.

Definition client_failure {A} (r : result A CoreError) : Prop :=
  match r with
  | Err NotInit | Err (Internal _) | Err (ClientFailed _) => True
  | _ => False
  end.

Lemma client_try_cases {R : Set} (f : Client → result R ClientError * Client) w :
  let '(r, w') := run (with_client_try f) w in
  unchanged w w' ∧ (client_failure r ∨
    ∃ a ms, r = Ok a ∧ mh_inner (w_module w) = Some ms ∧ (f (ms_client ms)).1 = Ok a).
Proof.
  destruct (run (with_client_try f) w) as [r w'] eqn:E.
  apply run_with_client_try in E as (Hd & Ho & Hp & _ & _ & Hr).
  split; [done|]. destruct r as [a|[]]; try (by left); try done.
  right. destruct Hr as (ms & ? & ? & _). eauto.
Qed.

Definition sent_line (id content : string) : output :=
  Log LInfo ("sent " +:+ show_len (str_len content) +:+ " bytes to " +:+ id).

Definition sent_message (clock : option Z) (content : string) : DisplayMessage :=
  mk_display_message true content (now_ms clock) None.

Lemma display_sent clock id content :
  is_str content = true →
  display_message (chat_message id Sent (now_ms clock) (as_bytes content))
  = sent_message clock content.
Proof.
  intros Hs. unfold sent_message.
  change (display_message _) with
    (mk_display_message true (from_utf8_lossy (as_bytes content))
       (as_u64 (as_i64 (now_ms clock))) None).
  rewrite from_utf8_lossy_as_bytes by done.
  by rewrite as_u64_as_i64 by apply now_ms_range.
Qed.

Lemma set_chats_id d : set_chats (chats (d_state d)) d = d.
Proof. by destruct d as [[] ? ? ? ?]. Qed.

Lemma send_message_cases clock id content w :
  connected (w_display w) → is_str content = true →
  let '(r, w') := run (send_message clock id content) w in
  match chats (d_state (w_display w)) !! id with
  | None => r = Err NotFound ∧ w' = w
  | Some s =>
      if history_only s then r = Err HistoryOnly ∧ w' = w
      else
        (client_failure r ∧ unchanged w w') ∨
        (∃ ms, mh_inner (w_module w) = Some ms ∧
           (client_send (ms_client ms) id (as_bytes content)).1 = Ok tt) ∧
        wrote (add_message (chat_message id Sent (now_ms clock) (as_bytes content))) r
          (w_display w)
          (put_chat id (push_message (sent_message clock content) s) (d_state (w_display w)))
          (w_display w') ∧
        w_out w' = w_out w ++ sent_line id content ::
          (if is_ok r then [Emit (message_sent id content (as_i64 (now_ms clock)))] else [])
  end.
Proof.
  intros Hsync Hstr. unfold send_message. rewrite run_try_bind, run_check_live. cbn [fst snd].
  destruct (chats _ !! id) as [s|] eqn:Hs; [|done].
  destruct (history_only s); [done|]. rewrite run_try_bind.
  pose proof (client_try_cases (λ c, client_send c id (as_bytes content)) w) as Hcl.
  destruct (run (with_client_try _) w) as [r1 w1]. cbn [fst snd].
  destruct Hcl as [(Hd & Ho & Hp) Hcl].
  destruct r1 as [a|e]; [|left; split; [by destruct Hcl as [|(?&?&?&_)]|done]].
  destruct Hcl as [[]|(a' & ms & _ & Hms & Hok)]. destruct a'.
  cbn. rewrite Hd.
  destruct (record_message _ _ _) as [r d'] eqn:Er. cbn.
  rewrite <-(set_chats_id (w_display w)) in Er.
  rewrite <-(insert_id _ _ _ Hs) in Er.
  apply (record_wrote _ id s) in Er; [|done..].
  rewrite display_sent in Er by done.
  destruct r as [[]|e]; cbn; right; rewrite Ho.
  - split; [by exists ms|]. rewrite app_nil_r, <-!app_assoc. done.
  - split; [by exists ms|]. rewrite app_nil_r. done.
Qed.

(** The two ways of opening a conversation share their shape. *)
Definition open_with (f : Client → result string ClientError * Client)
    (line : string → string) (session : string → ChatSession) (created : string → event)
    : prog (result string CoreError) :=
  id ←! with_client_try f;
  log LInfo (line id) ;;
  '_ ←! with_display_mut (λ d,
    let d := insert_session (session id) d in (persist_chat d id, []));
  emit (created id) ;;
  Ret (Ok id).

Lemma open_with_cases f line session created w :
  (∀ id, chat_id (session id) = id ∧ messages (session id) = [] ∧
         older_messages (session id) = 0%Z) →
  connected (w_display w) →
  let '(r, w') := run (open_with f line session created) w in
  (client_failure r ∧ unchanged w w') ∨
  ∃ id ms, mh_inner (w_module w) = Some ms ∧ (f (ms_client ms)).1 = Ok id ∧
    wrote (stmt_apply (UpsertChat (row_of_session (session id))))
      (map_ok (λ _, tt) r) (w_display w)
      (put_chat id (session id) (d_state (w_display w))) (w_display w') ∧
    (is_ok r = true → r = Ok id) ∧
    w_out w' = w_out w ++ Log LInfo (line id) ::
      (if is_ok r then [Emit (created id)] else []).
Proof.
  intros Hsess Hsync. unfold open_with. rewrite run_try_bind.
  pose proof (client_try_cases f w) as Hcl.
  destruct (run (with_client_try _) w) as [r1 w1]. cbn [fst snd].
  destruct Hcl as [(Hd & Ho & Hp) Hcl].
  destruct r1 as [id|e]; [|left; split; [by destruct Hcl as [|(?&?&?&_)]|done]].
  destruct Hcl as [[]|(a' & ms & [= <-] & Hms & Hok)].
  destruct (Hsess id) as (Hid & Hm0 & Ho0).
  cbn. rewrite Hd. unfold insert_session. rewrite Hid.
  destruct (persist_chat _ _) as [r d'] eqn:Er. cbn.
  assert (wrote (stmt_apply (UpsertChat (row_of_session (session id)))) r (w_display w)
      (put_chat id (session id) (d_state (w_display w))) d') as Hw by by apply persist_wrote in Er.
  destruct r as [[]|e]; cbn; right; exists id, ms; rewrite Ho, app_nil_r;
    repeat (split; [done|]); rewrite <-?app_assoc; done.
Qed.

Lemma create_conversation_open peer w :
  run (create_conversation peer) w =
  run (open_with (λ c, create_direct c peer) (λ id, "created direct conversation " +:+ id)
    (λ id, new_session id Direct None None (Some peer))
    (λ id, conversation_created id true (short_label id) "direct" "" "")) w.
Proof. reflexivity. Qed.

Lemma create_group_conversation_open n desc w :
  run (create_group_conversation n desc) w =
  run (open_with (λ c, create_group c [] (mk_group_metadata n desc))
    (λ id, "created group conversation " +:+ id)
    (λ id, new_session id Group (non_empty n) (non_empty desc) None)
    (λ id, conversation_created id true (short_label id) "group" n desc)) w.
Proof. reflexivity. Qed.

Lemma set_conversation_nickname_cases id nick w :
  connected (w_display w) →
  let '(r, w') := run (set_conversation_nickname id nick) w in
  match chats (d_state (w_display w)) !! id with
  | None => r = Err NotFound ∧ w' = w
  | Some s =>
      let s' := set_nickname (if str_eqb nick "" then None else Some nick) s in
      wrote (stmt_apply (UpsertChat (row_of_session s'))) r (w_display w)
        (put_chat id s' (d_state (w_display w))) (w_display w') ∧
      w_out w' = w_out w ++ (if is_ok r then [Emit (conversation_updated id)] else [])
  end.
Proof.
  intros Hsync. unfold set_conversation_nickname.
  rewrite run_try_bind, run_with_display_mut. cbn [fst snd].
  destruct (chats _ !! id) as [s|] eqn:Hs; cbn [fst snd run];
    [|by rewrite put_display_id].
  destruct (persist_chat _ _) as [r d'] eqn:Er.
  apply persist_wrote in Er; [|done].
  destruct r as [[]|e]; cbn; rewrite !app_nil_r; done.
Qed.

Lemma delete_conversation_cases id w :
  connected (w_display w) →
  let '(r, w') := run (delete_conversation id) w in
  match chats (d_state (w_display w)) !! id with
  | None => r = Err NotFound ∧ w' = w
  | Some s =>
      let st := d_state (w_display w) in
      wrote (deleted_tables id) r (w_display w)
        (if is_ok r
         then mk_app_state (delete id (chats st)) (installation_name st) ({[id]} ∪ deleted st)
         else st) (w_display w') ∧
      w_out w' = w_out w ++ (if is_ok r then [Emit (conversation_deleted id)] else [])
  end.
Proof.
  intros (c & Hc & Hb). unfold delete_conversation.
  rewrite run_try_bind, run_with_display_mut. cbn [fst snd]. rewrite Hc.
  destruct (chats _ !! id) as [s|] eqn:Hs; cbn [fst snd run];
    [|by rewrite put_display_id].
  destruct (delete_chat id c) as [r c'] eqn:Er.
  apply delete_chat_atomic in Er as [Hb' Hv]; [|done].
  destruct r as [[]|e]; cbn; rewrite !app_nil_r; (split; [|done]); exists c, c';
    split_and!; try done.
Qed.

Lemma set_installation_name_cases n w :
  connected (w_display w) →
  let '(r, w') := run (set_installation_name n) w in
  let st := d_state (w_display w) in
  wrote (stmt_apply (installation_name_write (non_empty n))) r (w_display w)
    (if is_ok r then mk_app_state (chats st) (non_empty n) (deleted st) else st)
    (w_display w') ∧
  w_out w' = w_out w.
Proof.
  intros (c & Hc & Hb). unfold set_installation_name.
  rewrite run_with_display_mut. rewrite Hc.
  destruct (save_installation_name (non_empty n) c) as [r c'] eqn:Er.
  apply save_installation_name_atomic in Er as [Hb' Hv]; [|done].
  destruct r as [[]|e]; cbn; rewrite !app_nil_r; (split; [|done]); exists c, c';
    split_and!; try done.
Qed.

(** *** The inbound side *)

Definition received_line (id account : string) (content : list ascii) : output :=
  Log LInfo ("received " +:+ show_len (length content) +:+ " bytes in " +:+ id
               +:+ " from " +:+ short_label account).
Definition store_failure_line (what : string) (r : result unit CoreError) : list output :=
  match r with
  | Ok _ => []
  | Err e => [Log LError (what +:+ core_error_display e)]
  end.
Definition received_message (clock : option Z) (content : list ascii) (account : string)
    : DisplayMessage :=
  mk_display_message false (from_utf8_lossy content) (now_ms clock) (Some account).

Lemma display_received clock id content account installation :
  display_message (inbound_message clock id content account installation)
  = received_message clock content account.
Proof.
  change (display_message _) with
    (mk_display_message false (from_utf8_lossy content)
       (as_u64 (as_i64 (now_ms clock))) (Some account)).
  by rewrite as_u64_as_i64 by apply now_ms_range.
Qed.

Lemma receiving_session_known d id account :
  (receiving_session d id account).2 = false →
  chats (d_state d) !! id = Some (receiving_session d id account).1.
Proof.
  unfold receiving_session. destruct (chats (d_state d) !! id) as [s|]; [|by destruct (_ && _)].
  by destruct (_ && _).
Qed.

(** The session a message lands in has its chat's list, and a changed row is
    flagged. *)
Lemma receiving_session_spec d t id account :
  stored t (d_state d) →
  same_log (d_state d) id (receiving_session d id account).1 ∧
  ((receiving_session d id account).2 = false →
   chats (d_state d) !! id = Some (receiving_session d id account).1).
Proof.
  intros Hst. unfold receiving_session.
  destruct (chats (d_state d) !! id) as [s|] eqn:Hs.
  - destruct (_ && _); cbn; (split; [|done]); by apply (same_log_lookup t _ _ s).
  - cbn. split; [|done]. by split; [|rewrite Hs].
Qed.

Lemma record_message_received_cases clock id content account installation w :
  connected (w_display w) →
  let w' := (run (record_message_received clock id content account installation) w).2 in
  let st := d_state (w_display w) in
  if decide (id ∈ deleted st) then w' = w
  else
    ∃ r, let '(s, changed) := receiving_session (w_display w) id account in
    wrote (record_tables (if changed then Some s else None)
             (inbound_message clock id content account installation)) r (w_display w)
      (put_chat id (push_message (received_message clock content account) s) st)
      (w_display w') ∧
    w_out w' = w_out w ++ received_line id account content ::
      store_failure_line "recording an inbound message failed: " r ++
      [Emit (message_received id (from_utf8_lossy content) (as_i64 (now_ms clock)) account)].
Proof.
  intros Hsync. unfold record_message_received. cbn zeta. rewrite run_with_display_mut. cbn [snd].
  destruct (decide _) as [Hd|Hd]; [cbn; by rewrite put_display_id|].
  pose proof (receiving_session_known (w_display w) id account) as Hs.
  destruct (receiving_session (w_display w) id account) as [s changed]. cbn [fst snd] in *.
  destruct (record_message _ _ _) as [r d'] eqn:Er.
  apply (record_wrote _ id s) in Er; [|done..].
  rewrite display_received in Er. exists r. by destruct r.
Qed.

Lemma run_with_client_silent {R : Set} (f : Client → R * Client) w :
  unchanged w (run (with_client f) w).2.
Proof.
  rewrite run_with_client. destruct (mh_poisoned _); [done|].
  by destruct (mh_inner _).
Qed.

(** Reading a group's metadata leaves the display alone; it may log a warning. *)
Lemma run_observed_metadata id k w :
  let '(_, w') := run (observed_metadata id k) w in
  w_display w' = w_display w ∧
  (w_out w' = w_out w ∨ ∃ line, w_out w' = w_out w ++ [Log LWarn line]).
Proof.
  destruct k; cbn [observed_metadata]; [by split; [|left]|].
  change (mbind ?k ?p) with (bind p k). rewrite run_bind.
  pose proof (run_with_client_silent (λ c, group_metadata c id) w) as (Hd & Ho & _).
  destruct (run (with_client _) w) as [[[meta|e]|e] w1]; cbn in *; rewrite Hd, Ho; eauto.
Qed.

(** What the client tells of a group: its name and description, where it gives them;
    nothing of a direct conversation, nor while there is no client to ask. *)
Definition told_metadata (id : string) (k : ConversationKind) w
    : option string * option string :=
  match k, mh_poisoned (w_module w), mh_inner (w_module w) with
  | Group, false, Some ms =>
      match (group_metadata (ms_client ms) id).1 with
      | Ok meta => (non_empty (meta_name meta), non_empty (meta_desc meta))
      | Err _ => (None, None)
      end
  | _, _, _ => (None, None)
  end.

Lemma observed_told id k w : (run (observed_metadata id k) w).1 = told_metadata id k w.
Proof.
  destruct k; cbn [observed_metadata]; [done|].
  change (mbind ?k ?p) with (bind p k). rewrite run_bind, run_with_client.
  unfold told_metadata. destruct (mh_poisoned _); [done|].
  destruct (mh_inner _) as [ms|]; [|done].
  by destruct (group_metadata _ _) as [[meta|e] client].
Qed.

Definition created_event (id : string) (k : ConversationKind) (n desc : option string) : output :=
  Emit (conversation_created id false (short_label id) (kind_as_str k)
          (default "" n) (default "" desc)).

Lemma record_conversation_started_cases id k w :
  connected (w_display w) →
  let w' := (run (record_conversation_started id k) w).2 in
  let st := d_state (w_display w) in
  ∃ warn n desc,
    Forall (λ o, ∃ line, o = Log LWarn line) warn ∧ (n, desc) = told_metadata id k w ∧
    if decide (id ∈ deleted st)
    then w_display w' = w_display w ∧ w_out w' = w_out w ++ warn
    else match chats st !! id with
         | Some s =>
             w_display w' = set_chats (<[id := set_history_only false s]> (chats st)) (w_display w) ∧
             w_out w' = w_out w ++ warn ++
               (if history_only s then [Emit (conversation_updated id)] else [])
         | None =>
             ∃ r, wrote (stmt_apply (UpsertChat (row_of_session (new_session id k n desc None))))
                    r (w_display w) (put_chat id (new_session id k n desc None) st)
                    (w_display w') ∧
               w_out w' = w_out w ++ warn ++ created_event id k n desc ::
                 store_failure_line "saving a conversation failed after it started: " r
         end.
Proof.
  intros Hsync. unfold record_conversation_started. cbn zeta.
  change (mbind ?k ?p) with (bind p k). rewrite run_bind.
  pose proof (run_observed_metadata id k w) as H.
  pose proof (observed_told id k w) as Htold.
  destruct (run (observed_metadata id k) w) as [[n desc] w1]. cbn [fst snd] in *.
  destruct H as [Hd Hwarn].
  assert (∃ warn, Forall (λ o, ∃ line, o = Log LWarn line) warn ∧ w_out w1 = w_out w ++ warn)
    as (warn & Hw & Ho).
  { destruct Hwarn as [->|[line ->]]; [exists []|exists [Log LWarn line]].
    - split; [done|]. by rewrite app_nil_r.
    - split; [|done]. constructor; [by exists line|done]. }
  exists warn, n, desc. split; [done|]. split; [done|].
  rewrite run_with_display_mut, Hd. cbn [snd]. destruct (decide _).
  { cbn. by rewrite Ho, app_nil_r. }
  destruct (chats _ !! id) as [s|] eqn:Hs.
  { destruct (history_only s); cbn; by rewrite Ho, <-app_assoc. }
  unfold insert_session. cbn [chat_id new_session].
  destruct (persist_chat _ _) as [r d'] eqn:Er.
  apply persist_wrote in Er; [|done].
  exists r. destruct r; cbn; by rewrite Ho, <-app_assoc.
Qed.
End agreement.
