(* ===== verification/History.v ===== *)
(** * The agreement of memory and disk over a session, and across a restart

    Every request a consumer, the chat client or delivery_module can make of a
    module that is up, as one step on the world. As long as no write is reported
    to have failed, the display and [chat.db] agree at each step; so a restart
    reads back what was on screen. *)
From S2P Require Import Prelude Utf8 LogFiles Logging Delivery Persistence ModuleState Runtime.
From S2P Require Import Actions Lifecycle Inbound ActionsFacts SqliteMem Samples.
From Stdlib Require Import Ascii.
From stdpp Require Import relations.

(** ** Requests *)

Section requests.
Context {J : Json} {DB : Sqlite} {LC : Libchat}.

Inductive request :=
| CreateConversation (peer : string)
| CreateGroup (n desc : string)
| AddMember (id peer : string)
| SendMessage (clock : option Z) (id content : string)
| SetNickname (id nick : string)
| DeleteConversation (id : string)
| SetInstallationName (n : string)
| ClientEvents (clock : option Z) (e : ClientEvent)
| DeliveryAnswered (c : delivery_call) (res : result Value LogosError)
| NodeStarted (evt : option (bool * string))
| ConnectionState (evt : option string).

Definition no_result (p : prog unit) : prog (result unit CoreError) := p ;; Ret (Ok tt).

Definition perform (rq : request) : prog (result unit CoreError) :=
  match rq with
  | CreateConversation peer => r ← create_conversation peer; Ret (map_ok (λ _, tt) r)
  | CreateGroup n desc => r ← create_group_conversation n desc; Ret (map_ok (λ _, tt) r)
  | AddMember id peer => add_group_member id peer
  | SendMessage clock id content => send_message clock id content
  | SetNickname id nick => set_conversation_nickname id nick
  | DeleteConversation id => delete_conversation id
  | SetInstallationName n => set_installation_name n
  | ClientEvents clock e => no_result (handle_event clock e)
  | DeliveryAnswered c res => no_result (answered c res)
  | NodeStarted evt => no_result (handle_node_started evt)
  | ConnectionState evt => no_result (handle_connection_event evt)
  end.

(** What the caller and the host's log are told when a write fails. *)
Definition store_failure (o : output) : bool :=
  match o with
  | Log LError line =>
      starts_with line "recording an inbound message failed: "
      || starts_with line "saving a conversation failed after it started: "
  | _ => false
  end.

Definition reports_failure (r : result unit CoreError) (os : list output) : bool :=
  match r with Err (Store _) => true | _ => existsb store_failure os end.

(** What a request put out. *)
Definition new_outputs (w w' : world) : list output := drop (length (w_out w)) (w_out w').

(** libchat names a new conversation apart from those on display. *)
Definition fresh_ids (rq : request) (w : world) : Prop :=
  ∀ ms id, mh_inner (w_module w) = Some ms →
    match rq with
    | CreateConversation peer => (create_direct (ms_client ms) peer).1 = Ok id
    | CreateGroup n desc =>
        (create_group (ms_client ms) [] (mk_group_metadata n desc)).1 = Ok id
    | _ => False
    end →
    chats (d_state (w_display w)) !! id = None.

(** Contents are Rust strings. *)
Definition typed (rq : request) : Prop :=
  match rq with SendMessage _ _ content => is_str content = true | _ => True end.

Definition step (w w' : world) : Prop :=
  ∃ rq, typed rq ∧ fresh_ids rq w ∧ w' = (run (perform rq) w).2 ∧
    reports_failure (run (perform rq) w).1 (new_outputs w w') = false.
End requests.

(** ** The delivery side leaves the chats alone *)

Section delivery_only.
Context {J : Json} {DB : Sqlite} {LC : Libchat}.
Implicit Types (w : world) (d : Display).

Definition same_chats d d' : Prop := d_state d' = d_state d ∧ d_chat_db d' = d_chat_db d.

#[global] Instance same_chats_preorder : PreOrder same_chats.
Proof. split; [done|]. intros ??? [] []. split; congruence. Qed.

Lemma set_delivery_state_chats d k detail : same_chats d (set_delivery_state d k detail).1.
Proof. unfold set_delivery_state. by case_match. Qed.

Lemma record_node_started_chats d b m : same_chats d (record_node_started d b m).1.
Proof.
  unfold record_node_started. case_match; [done|].
  destruct b; by rewrite <-set_delivery_state_chats.
Qed.

Lemma run_start_node w : same_chats (w_display w) (w_display (run start_node w).2).
Proof. done. Qed.

Lemma answered_chats c res w :
  same_chats (w_display w) (w_display (run (answered c res) w).2).
Proof.
  destruct c; cbn [answered].
  - unfold create_node_answered. by destruct (delivery_outcome res).
  - unfold node_info_answered. destruct (delivery_outcome res); cbn.
    + by destruct (negb _).
    + pose proof (set_delivery_state_chats (w_display w) Error
        ("delivery_module.createNode failed: " +:+ reason)) as H.
      cbn. by destruct (set_delivery_state _ _ _).
  - unfold start_answered. destruct (delivery_outcome res) as [|e]; [done|]. cbn.
    pose proof (set_delivery_state_chats
      (set_delivery (set_starting false (d_delivery_state (w_display w))) (w_display w))
      Error ("delivery_module.start failed: " +:+ e)) as H.
    by destruct (set_delivery_state _ _ _).
  - unfold send_answered. by destruct (delivery_outcome res).
  - unfold subscribe_answered. by destruct (delivery_outcome res).
Qed.

Lemma handle_node_started_chats evt w :
  same_chats (w_display w) (w_display (run (handle_node_started evt) w).2).
Proof.
  destruct evt as [[b m]|]; [|done]. cbn.
  pose proof (record_node_started_chats (w_display w) b m) as H.
  by destruct (record_node_started _ _ _).
Qed.

Lemma handle_connection_event_chats evt w :
  same_chats (w_display w) (w_display (run (handle_connection_event evt) w).2).
Proof.
  destruct evt as [st|]; [|done]. cbn. unfold connection_transition.
  destruct (negb _); [done|].
  pose proof (set_delivery_state_chats (w_display w) (map_connection_status st) "") as H.
  by destruct (set_delivery_state _ _ _).
Qed.
End delivery_only.

(** ** Agreement is an invariant *)

Section invariant.
Context {J : Json} {DB : Sqlite} {L : SqliteLaws DB} {LC : Libchat}.
Implicit Types (w : world) (d : Display).

Lemma same_chats_synced d d' : same_chats d d' → synced d → synced d'.
Proof. intros [Hs Hc] (c & Hdb & Hb & Hst). exists c. rewrite Hs, Hc. done. Qed.

Lemma unchanged_synced w w' : unchanged w w' → synced (w_display w) → synced (w_display w').
Proof. by intros [-> _]. Qed.

Lemma wrote_not_failed f r d st' d' os :
  wrote f r d st' d' → reports_failure r os = false → is_ok r = true.
Proof. intros (c & c' & _ & _ & _ & Hr). by destruct r as [|[]]. Qed.

Lemma wrote_logged f what r d st' d' :
  wrote f r d st' d' → (∀ line, store_failure (Log LError (what +:+ line)) = true) →
  existsb store_failure (store_failure_line what r) = false → is_ok r = true.
Proof.
  intros (c & c' & _ & _ & _ & Hr) Hwhat. destruct r as [|[]]; try done.
  cbn [store_failure_line existsb]. by rewrite Hwhat.
Qed.

Lemma new_outputs_app w w' os : w_out w' = w_out w ++ os → new_outputs w w' = os.
Proof. unfold new_outputs. intros ->. apply drop_app_length. Qed.

Lemma run_perform_create peer w :
  run (perform (CreateConversation peer)) w =
  prod_map (map_ok (λ _, tt)) id (run (create_conversation peer) w).
Proof. cbn [perform]. change (mbind ?k ?p) with (bind p k). by rewrite run_bind. Qed.
Lemma run_perform_group n desc w :
  run (perform (CreateGroup n desc)) w =
  prod_map (map_ok (λ _, tt)) id (run (create_group_conversation n desc) w).
Proof. cbn [perform]. change (mbind ?k ?p) with (bind p k). by rewrite run_bind. Qed.

Lemma create_step f line session created w :
  (∀ id, chat_id (session id) = id ∧ messages (session id) = [] ∧
         older_messages (session id) = 0%Z) →
  synced (w_display w) →
  (∀ ms id, mh_inner (w_module w) = Some ms → (f (ms_client ms)).1 = Ok id →
    chats (d_state (w_display w)) !! id = None) →
  reports_failure (map_ok (λ _, tt) (run (open_with f line session created) w).1)
    (new_outputs w (run (open_with f line session created) w).2) = false →
  synced (w_display (run (open_with f line session created) w).2).
Proof.
  intros Hs Hsync Hfresh. pose proof (open_with_cases f line session created w Hs (synced_connected _ Hsync)) as H.
  destruct (run _ w) as [r w']. cbn [fst snd]. intros Hr.
  destruct H as [[_ Hu]|(id & ms & Hms & Hid & Hw & _ & _)]; [by eapply unchanged_synced|].
  pose proof (Hfresh ms id Hms Hid) as Hnew.
  eapply (wrote_synced _ _ _ _ _ Hsync Hw); [|by eapply wrote_not_failed].
  intros t Ht. apply stored_put; [done|]. split; [apply Hs|]. rewrite Hnew. apply Hs.
Qed.

Lemma add_member_display id peer w :
  w_display (run (add_group_member id peer) w).2 = w_display w.
Proof.
  unfold add_group_member. rewrite run_try_bind, run_check_live. cbn [fst snd].
  destruct (chats _ !! id) as [s|]; [|done]. destruct (history_only s); [done|].
  rewrite run_try_bind.
  pose proof (client_try_cases (λ c, add_participants c id [peer]) w) as H.
  destruct (run (with_client_try _) w) as [[a|e] w1]; cbn in *; by destruct H as [[Hd _] _].
Qed.

Lemma add_member_says id peer w :
  ∃ os, w_out (run (add_group_member id peer) w).2 = w_out w ++ os ∧
    (os = [] ∨ os = [Emit (conversation_updated id)]).
Proof.
  unfold add_group_member. rewrite run_try_bind, run_check_live. cbn [fst snd].
  assert (∃ os, w_out w = w_out w ++ os ∧ (os = [] ∨ os = [Emit (conversation_updated id)])) as Hnone
    by (exists []; rewrite app_nil_r; auto).
  destruct (chats _ !! id) as [s|]; [|done]. destruct (history_only s); [done|].
  rewrite run_try_bind.
  pose proof (client_try_cases (λ c, add_participants c id [peer]) w) as H.
  destruct (run (with_client_try _) w) as [[a|e] w1]; cbn in *; destruct H as [(_ & Ho & _) _];
    rewrite Ho; [|done]. eexists. split; [done|]. by right.
Qed.

Lemma members_changed_display id w :
  w_display (run (record_members_changed id) w).2 = w_display w.
Proof.
  unfold record_members_changed. rewrite run_with_display_mut. by destruct (_ || _).
Qed.

Lemma message_event_synced clock id content account signer w :
  synced (w_display w) →
  let w' := (run (record_message_received clock id content account signer) w).2 in
  existsb store_failure (new_outputs w w') = false → synced (w_display w').
Proof.
  intros Hsync w' Hr. subst w'.
  pose proof (record_message_received_cases clock id content account signer w (synced_connected _ Hsync)) as H.
  cbn zeta in H. destruct (decide _); [by rewrite H|]. destruct H as [r H].
  pose proof Hsync as (c & _ & _ & Hst).
  destruct (receiving_session_spec _ _ id account Hst) as [Hlog Hs].
  destruct (receiving_session _ id account) as [s changed]. destruct H as [Hw Ho].
  apply new_outputs_app in Ho. rewrite Ho in Hr. cbn [existsb] in Hr.
  rewrite existsb_app in Hr. apply orb_false_iff in Hr as [_ [Hr _]%orb_false_iff].
  eapply (wrote_synced _ _ _ _ _ Hsync Hw).
  - intros t Ht. rewrite <-(display_received clock id content account signer).
    by apply stored_record.
  - eapply wrote_logged; [done| |done]. intros line. cbn [store_failure].
    by rewrite starts_with_app.
Qed.

Lemma started_event_synced id k w :
  synced (w_display w) →
  let w' := (run (record_conversation_started id k) w).2 in
  existsb store_failure (new_outputs w w') = false → synced (w_display w').
Proof.
  intros Hsync w' Hr. subst w'.
  destruct (record_conversation_started_cases id k w (synced_connected _ Hsync)) as (warn & n & desc & _ & _ & H).
  destruct (decide _); [destruct H as [-> _]; done|].
  destruct (chats _ !! id) as [s|] eqn:Hs.
  - destruct H as [-> _]. destruct Hsync as (c & Hc & Hb & Hst). exists c.
    split_and!; [done..|]. cbn.
    by apply (stored_same_row _ _ id s).
  - destruct H as (r & Hw & Ho). apply new_outputs_app in Ho. rewrite Ho, existsb_app in Hr.
    apply orb_false_iff in Hr as [_ Hr]. cbn [existsb store_failure] in Hr.
    eapply (wrote_synced _ _ _ _ _ Hsync Hw).
    + intros t Ht. apply stored_put; [done|]. by apply same_log_fresh.
    + eapply wrote_logged; [exact Hw| |exact Hr]. intros line. cbn [store_failure].
      rewrite starts_with_app. apply orb_true_r.
Qed.

Lemma run_no_result (p : prog unit) w :
  run (no_result p) w = (Ok tt, (run p w).2).
Proof. unfold no_result. change (mbind ?k ?p) with (bind p k). by rewrite run_bind. Qed.

Lemma handle_event_synced clock e w :
  synced (w_display w) →
  let w' := (run (handle_event clock e) w).2 in
  existsb store_failure (new_outputs w w') = false → synced (w_display w').
Proof.
  destruct e; cbn [handle_event]; try done.
  - apply started_event_synced.
  - apply message_event_synced.
  - intros ?. cbn zeta. by rewrite members_changed_display.
Qed.

Lemma step_synced w w' : synced (w_display w) → step w w' → synced (w_display w').
Proof.
  intros Hsync (rq & Htyped & Hfresh & -> & Hr).
  pose proof Hsync as (c & Hc & Hb & Hst).
  destruct rq; [rewrite run_perform_create, create_conversation_open in *
    |rewrite run_perform_group, create_group_conversation_open in * |..]; cbn [perform] in *;
    try (rewrite run_no_result in *; cbn [fst snd] in *).
  - by eapply create_step.
  - by eapply create_step.
  - by rewrite add_member_display.
  - pose proof (send_message_cases clock id content w (synced_connected _ Hsync) Htyped) as H.
    destruct (run _ w) as [r w']. cbn [fst snd] in *.
    destruct (chats _ !! id) as [s|] eqn:Hs; [|by destruct H as [_ ->]].
    destruct (history_only s); [by destruct H as [_ ->]|].
    destruct H as [[_ Hu]|(_ & Hw & _)]; [by eapply unchanged_synced|].
    eapply (wrote_synced _ _ _ _ _ Hsync Hw); [|by eapply wrote_not_failed].
    intros t Ht. rewrite <-(display_sent clock id content Htyped).
    by apply (stored_add_message _ _ id s).
  - pose proof (set_conversation_nickname_cases id nick w (synced_connected _ Hsync)) as H.
    destruct (run _ w) as [r w']. cbn [fst snd] in *.
    destruct (chats _ !! id) as [s|] eqn:Hs; [|by destruct H as [_ ->]].
    destruct H as [Hw _].
    eapply (wrote_synced _ _ _ _ _ Hsync Hw); [|by eapply wrote_not_failed].
    intros t Ht. apply stored_put; [done|]. by eapply same_log_lookup.
  - pose proof (delete_conversation_cases id w (synced_connected _ Hsync)) as H.
    destruct (run _ w) as [r w']. cbn [fst snd] in *.
    destruct (chats _ !! id) as [s|] eqn:Hs; [|by destruct H as [_ ->]].
    destruct H as [Hw _]. pose proof (wrote_not_failed _ _ _ _ _ _ Hw Hr) as Hok.
    eapply (wrote_synced _ _ _ _ _ Hsync Hw); [|done].
    intros t Ht. rewrite Hok. by apply stored_delete.
  - pose proof (set_installation_name_cases n w (synced_connected _ Hsync)) as H.
    destruct (run _ w) as [r w']. cbn [fst snd] in *.
    destruct H as [Hw _]. pose proof (wrote_not_failed _ _ _ _ _ _ Hw Hr) as Hok.
    eapply (wrote_synced _ _ _ _ _ Hsync Hw); [|done].
    intros t Ht. rewrite Hok. by apply stored_set_name.
  - by apply handle_event_synced.
  - by eapply same_chats_synced; [apply answered_chats|].
  - by eapply same_chats_synced; [apply handle_node_started_chats|].
  - by eapply same_chats_synced; [apply handle_connection_event_chats|].
Qed.

Lemma steps_synced w w' : synced (w_display w) → rtc step w w' → synced (w_display w').
Proof. intros Hw. induction 1 as [w|w w1 w' Hs _ IH]; [done|]. eauto using step_synced. Qed.
End invariant.

(** ** Bring-up *)

Section restart.
Context {J : Json} {DB : Sqlite} {L : SqliteLaws DB} {LC : Libchat}.
Implicit Types (w : world).

(** What a restart makes of the state: the live conversations take messages. *)
Definition reload_state (live : list string) (st : AppState) : AppState :=
  mark_history_only live
    (mk_app_state (reload_session <$> chats st) (installation_name st) (deleted st)).

(** What the local set-up comes back with. *)
Lemma local_setup_ok `{E : !InitEnv DB LC} client c st :
  local_setup = Ok (client, c, st) →
  ∃ p st0 live, env_context = Some p ∧ open (p +:+ "/chat.db") (store_key p) = Ok c ∧
    load_state c = Ok st0 ∧ list_all_conversations client = Ok live ∧
    st = mark_history_only live st0.
Proof.
  unfold local_setup. destruct env_context as [p|]; [|done]. cbn.
  destruct (str_eqb p _); [done|]. cbn.
  destruct (env_create_dir_all p); [|done]. cbn.
  destruct (register_installation (env_accounts _)) as [inst|]; [|done]. cbn.
  destruct (env_build_client _ _ inst env_in_memory) as [cl|]; [|done]. cbn.
  destruct (open _ _) as [c0|] eqn:Hopen; [|done]. cbn.
  destruct (load_state c0) as [st0|] eqn:Hload; [|done]. cbn.
  destruct (list_all_conversations cl) as [live|] eqn:Hlive; [|done]. cbn.
  intros [= <- <- <-]. by exists p, st0, live.
Qed.

(** An [initialize] that comes back with a module went through every set-up step,
    and filled the display. *)
Lemma initialize_ok `{E : !InitEnv DB LC} w ms w' :
  run initialize w = (Ok ms, w') →
  ∃ p c st live,
    env_context = Some p ∧ open (p +:+ "/chat.db") (store_key p) = Ok c ∧
    load_state c = Ok st ∧ list_all_conversations (ms_client ms) = Ok live ∧
    w_display w' = mk_display (mark_history_only live st) (Some c) initialising
      (client_installation_name (ms_client ms)) (client_addr (ms_client ms)) ∧
    let n := length (w_signals w) in
    ms = mk_module_state (ms_client ms) n (Some (BridgeThread n)) (Some (EventThread n)) ∧
    w_signals w' = w_signals w ++ [mk_signals false false].
Proof.
  unfold initialize. rewrite run_try_bind. cbn [run fst snd].
  destruct local_setup as [[[client c] st]|e] eqn:Hsetup; [|done].
  rewrite run_try_bind. cbn [run fst snd]. destruct env_on_message_received; [|done]. cbn [map_err].
  rewrite run_try_bind. cbn [run fst snd]. destruct env_on_node_started; [|done]. cbn [map_err].
  intros Hrun.
  set (n := length (w_signals w)).
  assert (ms = mk_module_state client n (Some (BridgeThread n)) (Some (EventThread n)) ∧
    w_signals w' = w_signals w ++ [mk_signals false false] ∧
    w_display w' = mk_display st (Some c) initialising
      (client_installation_name client) (client_addr client)) as (-> & Hs & Hd).
  { destruct env_on_connection_state_changed; cbn in Hrun; by simplify_eq. }
  rewrite Hd. apply local_setup_ok in Hsetup as (p & st0 & live & ? & ? & ? & ? & ->).
  by exists p, c, st0, live.
Qed.

(** Marking chats history-only needs no write. *)
Lemma stored_mark t st live :
  stored t st → stored t (mark_history_only live st).
Proof.
  intros Hst. split; cbn; try apply Hst.
  - rewrite (stored_chats _ _ Hst), <-map_fmap_compose. by apply map_fmap_ext.
  - intros i s. rewrite lookup_fmap, fmap_Some. intros (s0 & Hi & ->). cbn.
    by apply (stored_keys _ _ Hst).
  - intros i s. rewrite lookup_fmap, fmap_Some. intros (s0 & Hi & ->). cbn.
    by apply (stored_messages _ _ Hst).
  - intros i. rewrite lookup_fmap, fmap_None. apply Hst.
Qed.

Lemma initialize_reloads `{E : !InitEnv DB LC} st w ms w' :
  (∀ p c, env_context = Some p → open (p +:+ "/chat.db") (store_key p) = Ok c →
    base c = None ∧ stored (view c) st) →
  run initialize w = (Ok ms, w') →
  ∃ live, list_all_conversations (ms_client ms) = Ok live ∧
    d_state (w_display w') = reload_state live st ∧ synced (w_display w').
Proof.
  intros Hdisk Hrun. apply initialize_ok in Hrun as (p & c & st0 & live & Hp & Hopen & Hload & Hlive & -> & _).
  destruct (Hdisk p c Hp Hopen) as [Hb Hst]. exists live. split; [done|].
  apply (load_state_stored _ _ _ Hst) in Hload as ->. split; [done|].
  exists c. split_and!; [done..|]. apply stored_mark. by apply reload_stored.
Qed.
End restart.
