(* ===== verification/Outcomes.v ===== *)
(** * What a caller sees of each operation

    The outcome of the operations on every branch, in terms of what the contract
    shows (the result, the events, [get_messages] and [list_conversations]) and of
    what [chat.db] holds. *)
From S2P Require Import Prelude Utf8 LogFiles Logging Delivery Persistence ModuleState Runtime.
From S2P Require Import Actions Lifecycle Inbound SqliteMem Samples ActionsFacts History.
From Stdlib Require Import Ascii.

(** ** What is on display and on disk *)

Section observed.
Context {DB : Sqlite} {L : SqliteLaws DB} {LC : Libchat}.
Implicit Types (w : world) (d : Display).

(** The tables the module's connection sees. *)
Definition disk_of w : option tables := view <$> d_chat_db (w_display w).
(** What [get_messages] answers. *)
Definition shown w (id : string) : list ApiMessage := (run (get_messages id) w).1.

(** The events among what was put out. *)
Definition events_of (os : list output) : list event :=
  omap (λ o, match o with Emit e => Some e | Log _ _ => None end) os.

Lemma events_of_app os os' : events_of (os ++ os') = events_of os ++ events_of os'.
Proof. apply omap_app. Qed.

Lemma shown_eq w id :
  shown w id = map api_message (default [] (messages <$> chats (d_state (w_display w)) !! id)).
Proof. unfold shown, get_messages. by rewrite run_with_display. Qed.

(** How a display write that came back with [r] reads from outside. *)
Lemma wrote_observed f r w st' w' :
  wrote f r (w_display w) st' (w_display w') →
  d_state (w_display w') = st' ∧
  disk_of w' = (if is_ok r then f else id) <$> disk_of w ∧
  (r = Ok tt ∨ ∃ e, r = Err (Store e)).
Proof.
  unfold disk_of. intros (c & c' & Hc & -> & _ & Hr). rewrite Hc. cbn.
  destruct r as [[]|[]]; cbn; try done; rewrite Hr; eauto.
Qed.
End observed.

Lemma sample_synced file script :
  synced (L := mem_laws file) (w_display (sample_world file script)).
Proof. exists (mk_mem sample_disk None script). split_and!; [done..|]. apply sample_stored. Qed.

(** ** Sending *)

Section sending.
Context {DB : Sqlite} {L : SqliteLaws DB} {LC : Libchat}.
Implicit Types (w : world).

(** C6. Sending succeeds exactly when the client took the payload and the message is on
    disk; a store failure leaves it on display only, with no [message_sent]; any
    other failure leaves nothing. *)
Theorem send_message_outcome clock id content w :
  synced (w_display w) → is_str content = true →
  let '(r, w') := run (send_message clock id content) w in
  let m := mk_api_message true content (as_i64 (now_ms clock)) None in
  match r with
  | Ok _ =>
      synced (w_display w') ∧
      shown w' id = shown w id ++ [m] ∧
      disk_of w' = add_message (chat_message id Sent (now_ms clock) (as_bytes content)) <$> disk_of w ∧
      new_outputs w w' = [sent_line id content;
                          Emit (message_sent id content (as_i64 (now_ms clock)))] ∧
      ∃ ms s, mh_inner (w_module w) = Some ms ∧ (client_send (ms_client ms) id (as_bytes content)).1 = Ok tt ∧
        chats (d_state (w_display w)) !! id = Some s ∧ history_only s = false
  | Err (Store _) =>
      shown w' id = shown w id ++ [m] ∧ disk_of w' = disk_of w ∧
      new_outputs w w' = [sent_line id content]
  | Err e =>
      shown w' id = shown w id ∧ disk_of w' = disk_of w ∧ new_outputs w w' = [] ∧
      (e = NotFound ↔ chats (d_state (w_display w)) !! id = None) ∧
      (e = HistoryOnly ↔ history_only <$> chats (d_state (w_display w)) !! id = Some true)
  end.
Proof.
  intros Hsync Hstr. pose proof (send_message_cases clock id content w (synced_connected _ Hsync) Hstr) as H.
  destruct (run _ w) as [r w']. cbn zeta.
  assert (new_outputs w w = []) as Hnil by apply drop_all.
  destruct (chats _ !! id) as [s|] eqn:Hs; [|destruct H as [-> ->]; split_and!; naive_solver].
  destruct (history_only s) eqn:Hh;
    [destruct H as [-> ->]; cbn; rewrite Hh; split_and!; naive_solver|].
  destruct H as [[Hr (Hd & Ho & _)]|((ms & Hms & Hok) & Hw & Ho)].
  { assert (new_outputs w w' = []) as Hno by (unfold new_outputs; rewrite Ho; apply drop_all).
    rewrite !shown_eq. unfold disk_of. rewrite Hd.
    destruct r as [|[]]; try done; cbn; rewrite Hh; split_and!; naive_solver. }
  apply new_outputs_app in Ho as Hno.
  destruct (wrote_observed _ _ _ _ _ Hw) as (Hst & Hdisk & Hcase).
  assert (shown w' id = shown w id ++ [mk_api_message true content (as_i64 (now_ms clock)) None])
    as Hshown.
  { rewrite !shown_eq, Hst, Hs. unfold put_chat. cbn. rewrite lookup_insert_eq. cbn.
    by rewrite map_app. }
  destruct Hcase as [->|[e ->]]; cbn in *; [|split_and!; [done| |done]; by rewrite Hdisk; destruct (disk_of w)].
  split_and!; [|done..|by exists ms, s].
  eapply (wrote_synced _ _ _ _ _ Hsync Hw); [|done].
  intros t Ht. rewrite <-(display_sent clock id content Hstr). by apply (stored_add_message _ _ id s).
Qed.
End sending.

(** ** Opening conversations *)

Section opening.
Context {DB : Sqlite} {L : SqliteLaws DB} {LC : Libchat}.
Implicit Types (w : world).

(** The state with the session [s] added. *)
Definition with_session (s : ChatSession) (st : AppState) : AppState :=
  put_chat (chat_id s) s st.

Lemma open_with_outcome f line session created w :
  (∀ id, chat_id (session id) = id ∧ messages (session id) = [] ∧
         older_messages (session id) = 0%Z) →
  synced (w_display w) →
  (∀ ms id, mh_inner (w_module w) = Some ms → (f (ms_client ms)).1 = Ok id →
    chats (d_state (w_display w)) !! id = None) →
  let '(r, w') := run (open_with f line session created) w in
  match r with
  | Ok id =>
      synced (w_display w') ∧
      d_state (w_display w') = with_session (session id) (d_state (w_display w)) ∧
      disk_of w' = stmt_apply (UpsertChat (row_of_session (session id))) <$> disk_of w ∧
      new_outputs w w' = [Log LInfo (line id); Emit (created id)]
  | Err (Store _) =>
      ∃ id, d_state (w_display w') = with_session (session id) (d_state (w_display w)) ∧
        disk_of w' = disk_of w ∧ new_outputs w w' = [Log LInfo (line id)]
  | Err _ => w_display w' = w_display w ∧ new_outputs w w' = []
  end.
Proof.
  intros Hs Hsync Hfresh. pose proof (open_with_cases f line session created w Hs (synced_connected _ Hsync)) as H.
  destruct (run _ w) as [r w'].
  destruct H as [[Hr (Hd & Ho & _)]|(id & ms & Hms & Hok & Hw & Hid & Ho)].
  { assert (new_outputs w w' = []) by (unfold new_outputs; rewrite Ho; apply drop_all).
    destruct r as [|[]]; done. }
  pose proof (Hfresh ms id Hms Hok) as Hnew.
  apply new_outputs_app in Ho. destruct (Hs id) as [Hcid [Hm0 Ho0]].
  destruct (wrote_observed _ _ _ _ _ Hw) as (Hst & Hdisk & Hcase).
  unfold with_session. destruct r as [id'|e].
  - pose proof (Hid eq_refl) as [= ->]. rewrite Hcid. split_and!; [|done..].
    eapply (wrote_synced _ _ _ _ _ Hsync Hw); [|done].
    intros t Ht. apply stored_put; [done|]. split; [done|]. by rewrite Hnew.
  - destruct Hcase as [|[e' [= ->]]]; [done|]. exists id. rewrite Hcid.
    split_and!; [done| |done]. rewrite Hdisk. by destruct (disk_of w).
Qed.

(** C11. A direct conversation the client opens, under an id not on display, is on
    display and on disk, with its [peer], and is announced as outgoing. If its row
    cannot be written the call fails and the conversation stays on display, logged as
    created, with no row and no event. Refused for any other reason, it leaves display
    and disk alone and puts nothing out. *)
Theorem create_conversation_outcome peer w :
  synced (w_display w) → fresh_ids (CreateConversation peer) w →
  let '(r, w') := run (create_conversation peer) w in
  match r with
  | Ok id =>
      let s := new_session id Direct None None (Some peer) in
      synced (w_display w') ∧
      d_state (w_display w') = with_session s (d_state (w_display w)) ∧
      disk_of w' = stmt_apply (UpsertChat (row_of_session s)) <$> disk_of w ∧
      new_outputs w w' =
        [Log LInfo ("created direct conversation " +:+ id);
         Emit (conversation_created id true (short_label id) "direct" "" "")]
  | Err (Store _) =>
      ∃ id, d_state (w_display w') =
          with_session (new_session id Direct None None (Some peer)) (d_state (w_display w)) ∧
        disk_of w' = disk_of w ∧
        new_outputs w w' = [Log LInfo ("created direct conversation " +:+ id)]
  | Err _ => w_display w' = w_display w ∧ new_outputs w w' = []
  end.
Proof.
  intros Hsync Hfresh. rewrite create_conversation_open.
  apply open_with_outcome; [done..|]. intros ms id Hms Hid. by apply (Hfresh ms).
Qed.

(** C13. A group conversation the client opens, under an id not on display, is on display
    and on disk, with its name and description where they are not empty, and is
    announced as outgoing with both as they were given. If its row cannot be written
    the call fails and the conversation stays on display, logged as created, with no
    row and no event. Refused for any other reason, it leaves display and disk alone and
    puts nothing out. *)
Theorem create_group_conversation_outcome n desc w :
  synced (w_display w) → fresh_ids (CreateGroup n desc) w →
  let '(r, w') := run (create_group_conversation n desc) w in
  match r with
  | Ok id =>
      let s := new_session id Group (non_empty n) (non_empty desc) None in
      synced (w_display w') ∧
      d_state (w_display w') = with_session s (d_state (w_display w)) ∧
      disk_of w' = stmt_apply (UpsertChat (row_of_session s)) <$> disk_of w ∧
      new_outputs w w' =
        [Log LInfo ("created group conversation " +:+ id);
         Emit (conversation_created id true (short_label id) "group" n desc)]
  | Err (Store _) =>
      ∃ id, d_state (w_display w') =
          with_session (new_session id Group (non_empty n) (non_empty desc) None)
            (d_state (w_display w)) ∧
        disk_of w' = disk_of w ∧
        new_outputs w w' = [Log LInfo ("created group conversation " +:+ id)]
  | Err _ => w_display w' = w_display w ∧ new_outputs w w' = []
  end.
Proof.
  intros Hsync Hfresh. rewrite create_group_conversation_open.
  apply open_with_outcome; [done..|]. intros ms id Hms Hid. by apply (Hfresh ms).
Qed.
End opening.

(** ** Changing and deleting *)

Section changing.
Context {DB : Sqlite} {L : SqliteLaws DB} {LC : Libchat}.
Implicit Types (w : world).

(** C14. A nickname is set, or with the empty string removed, on display and, when the
    conversation's row can be written, on disk, and the conversation is announced as
    updated. If the row cannot be written the call says so, the nickname is on display
    all the same, the disk keeps the old one and nothing is announced. For an unknown
    conversation the call answers that, and nothing changes. *)
Theorem set_conversation_nickname_outcome id nick w :
  synced (w_display w) →
  let '(r, w') := run (set_conversation_nickname id nick) w in
  match chats (d_state (w_display w)) !! id with
  | None => r = Err NotFound ∧ w' = w
  | Some s =>
      let s' := set_nickname (non_empty nick) s in
      d_state (w_display w') = with_session s' (d_state (w_display w)) ∧
      match r with
      | Ok _ =>
          synced (w_display w') ∧
          disk_of w' = stmt_apply (UpsertChat (row_of_session s')) <$> disk_of w ∧
          new_outputs w w' = [Emit (conversation_updated id)]
      | Err e => (∃ e', e = Store e') ∧ disk_of w' = disk_of w ∧ new_outputs w w' = []
      end
  end.
Proof.
  intros Hsync. pose proof (set_conversation_nickname_cases id nick w (synced_connected _ Hsync)) as H.
  destruct (run _ w) as [r w']. destruct (chats _ !! id) as [s|] eqn:Hs; [|done].
  fold (non_empty nick) in H. cbn zeta in *. destruct H as [Hw Ho]. apply new_outputs_app in Ho.
  pose proof Hsync as (c & _ & _ & Hst). pose proof (stored_keys _ _ Hst id s Hs) as Hid.
  destruct (wrote_observed _ _ _ _ _ Hw) as (Hst' & Hdisk & Hcase).
  split. { rewrite Hst'. unfold with_session. by cbn; rewrite Hid. }
  destruct Hcase as [->|[e ->]]; cbn in *.
  - split_and!; [|done..]. eapply (wrote_synced _ _ _ _ _ Hsync Hw); [|done].
    intros t Ht. apply stored_put; [done|]. by eapply same_log_lookup.
  - split_and!; [eauto| |done]. rewrite Hdisk. by destruct (disk_of w).
Qed.

(** C7. A deleted conversation is gone from display and disk, with its messages, and
    its tombstone is kept, or nothing happened at all. *)
Theorem delete_conversation_outcome id w :
  synced (w_display w) →
  let '(r, w') := run (delete_conversation id) w in
  match r with
  | Ok _ =>
      chats (d_state (w_display w)) !! id ≠ None ∧ synced (w_display w') ∧
      d_state (w_display w') =
        mk_app_state (delete id (chats (d_state (w_display w))))
          (installation_name (d_state (w_display w)))
          ({[id]} ∪ deleted (d_state (w_display w))) ∧
      (∃ t, disk_of w' = Some t ∧ t_chats t !! id = None ∧ messages_of t id = [] ∧
        id ∈ t_deleted t ∧
        ∀ t0 j, disk_of w = Some t0 → j ≠ id →
          t_chats t !! j = t_chats t0 !! j ∧ messages_of t j = messages_of t0 j) ∧
      new_outputs w w' = [Emit (conversation_deleted id)]
  | Err e =>
      (e = NotFound ∧ chats (d_state (w_display w)) !! id = None ∨ ∃ e', e = Store e') ∧
      d_state (w_display w') = d_state (w_display w) ∧ disk_of w' = disk_of w ∧
      new_outputs w w' = []
  end.
Proof.
  intros Hsync. pose proof (delete_conversation_cases id w (synced_connected _ Hsync)) as H.
  destruct (run _ w) as [r w']. destruct (chats _ !! id) as [s|] eqn:Hs.
  2:{ destruct H as [-> ->]. split_and!; [by left|done..|apply drop_all]. }
  cbn zeta in H. destruct H as [Hw Ho]. apply new_outputs_app in Ho.
  destruct (wrote_observed _ _ _ _ _ Hw) as (Hst' & Hdisk & Hcase).
  destruct Hcase as [->|[e ->]]; cbn in *.
  - split_and!; [done| |done| |done].
    { eapply (wrote_synced _ _ _ _ _ Hsync Hw); [|done]. intros t Ht. by apply stored_delete. }
    destruct Hsync as (c & Hc & _). rewrite Hdisk. unfold disk_of. rewrite Hc. cbn.
    eexists. split; [done|]. unfold messages_of. cbn. rewrite !lookup_delete_eq.
    split_and!; [done..|set_solver|]. intros t0 j [= <-] Hj.
    by rewrite !lookup_delete_ne by done.
  - split_and!; [eauto|done| |done]. rewrite Hdisk. by destruct (disk_of w).
Qed.

(** C40. A name set for the installation is what [get_installation_name] answers from then
    on and what the disk holds, the empty string giving the client's own name back; the
    conversations are left alone and nothing is announced. If it cannot be written the
    call fails and nothing changes. *)
Theorem set_installation_name_outcome n w :
  synced (w_display w) →
  let '(r, w') := run (set_installation_name n) w in
  new_outputs w w' = [] ∧
  match r with
  | Ok _ =>
      synced (w_display w') ∧
      (run get_installation_name w').1 =
        (if str_eqb n "" then d_intrinsic_name (w_display w') else n) ∧
      (λ t, t_settings t !! "installation_name") <$> disk_of w' = Some (non_empty n) ∧
      chats (d_state (w_display w')) = chats (d_state (w_display w)) ∧
      deleted (d_state (w_display w')) = deleted (d_state (w_display w))
  | Err e =>
      (∃ e', e = Store e') ∧ d_state (w_display w') = d_state (w_display w) ∧
      disk_of w' = disk_of w
  end.
Proof.
  intros Hsync. pose proof (set_installation_name_cases n w (synced_connected _ Hsync)) as H.
  destruct (run _ w) as [r w']. cbn zeta in H. destruct H as [Hw Ho].
  split; [unfold new_outputs; rewrite Ho; apply drop_all|].
  destruct (wrote_observed _ _ _ _ _ Hw) as (Hst' & Hdisk & Hcase).
  destruct Hcase as [->|[e ->]]; cbn in *.
  - split_and!; [| | |by rewrite Hst'..].
    + eapply (wrote_synced _ _ _ _ _ Hsync Hw); [|done]. intros t Ht. by apply stored_set_name.
    + unfold effective_installation_name. rewrite Hst'. cbn.
      unfold non_empty. by destruct (str_eqb n "").
    + destruct Hsync as (c & Hc & _). rewrite Hdisk. unfold disk_of. rewrite Hc. cbn.
      f_equal. destruct (non_empty n); [apply lookup_insert_eq|apply lookup_delete_eq].
  - split_and!; [eauto|done|]. rewrite Hdisk. by destruct (disk_of w).
Qed.
End changing.

(** ** The inbound side *)

Section inbound.
Context {J : Json} {DB : Sqlite} {L : SqliteLaws DB} {LC : Libchat}.
Implicit Types (w : world) (d : Display).

(** [s] is conversation [id] after a message of [account] in it, [old] the conversation
    as it was on display, its messages apart. *)
Definition received_into (id account : string) (old : option ChatSession) (s : ChatSession) : Prop :=
  chat_id s = from_option chat_id id old ∧
  kind s = from_option kind Direct old ∧
  peer s = match kind s with
           | Direct => Some (default account (old ≫= peer))
           | Group => old ≫= peer
           end ∧
  nickname s = old ≫= nickname ∧ name s = old ≫= name ∧ description s = old ≫= description ∧
  older_messages s = from_option older_messages 0%Z old ∧
  history_only s = from_option history_only false old.

Lemma receiving_session_into d id account :
  received_into id account (chats (d_state d) !! id) (receiving_session d id account).1.
Proof.
  unfold receiving_session, received_into. destruct (chats _ !! id) as [[i n [] nm de [p|] ms o h]|]; done.
Qed.

Lemma received_into_push id account old m s :
  received_into id account old s → received_into id account old (push_message m s).
Proof. done. Qed.

(** C9. A message that arrives in a conversation that was not deleted is shown last in
    it and announced, whether or not it could be stored; stored, it is on disk with
    the row it may have changed. A direct chat that has no peer takes the sending
    account as its peer, one that has a peer keeps it, and so does a group; an unknown
    conversation is added as a direct one of that account; nothing else of the
    conversation changes. Nothing happens in a deleted conversation. *)
Theorem record_message_received_outcome clock id content account installation w :
  synced (w_display w) →
  let w' := (run (record_message_received clock id content account installation) w).2 in
  let st := d_state (w_display w) in
  if decide (id ∈ deleted st) then w' = w
  else
    let text := from_utf8_lossy content in
    let ts := as_i64 (now_ms clock) in
    let failures := existsb store_failure (new_outputs w w') in
    shown w' id = shown w id ++ [mk_api_message false text ts (Some account)] ∧
    head (new_outputs w w') = Some (received_line id account content) ∧
    last (new_outputs w w') = Some (Emit (message_received id text ts account)) ∧
    (failures = true → disk_of w' = disk_of w) ∧
    (failures = false → synced (w_display w') ∧
      (λ t, messages_of t id) <$> disk_of w' =
        (λ t, messages_of t id ++ [inbound_message clock id content account installation])
          <$> disk_of w) ∧
    (∃ s, chats (d_state (w_display w')) !! id = Some s ∧ received_into id account (chats st !! id) s) ∧
    ∀ j, j ≠ id → chats (d_state (w_display w')) !! j = chats st !! j.
Proof.
  intros Hsync w' st. subst w' st.
  pose proof (message_event_synced clock id content account installation w Hsync) as Hkeep.
  pose proof (record_message_received_cases clock id content account installation w (synced_connected _ Hsync)) as H.
  cbn zeta in *. set (w' := (run _ w).2) in *. destruct (decide _); [done|].
  destruct H as [r H]. pose proof Hsync as (c & Hc & _ & Hst).
  destruct (receiving_session_spec _ _ id account Hst) as [Hlog Hs].
  pose proof (receiving_session_into (w_display w) id account) as Hinto.
  destruct (receiving_session _ id account) as [s b].
  cbn [fst snd] in *. destruct H as [Hw Ho].
  destruct (wrote_observed _ _ _ _ _ Hw) as (Hst' & Hdisk & Hcase).
  apply new_outputs_app in Ho. rewrite Hst'. cbn [put_chat chats].
  assert (existsb store_failure (new_outputs w w') = negb (is_ok r)) as Hf.
  { rewrite Ho. destruct Hcase as [->|[e ->]]; [done|]. cbn [existsb store_failure_line app store_failure].
    by rewrite starts_with_app. }
  split_and!.
  - rewrite !shown_eq, Hst'. unfold put_chat. cbn. rewrite lookup_insert_eq. cbn.
    rewrite map_app. destruct Hlog as [_ Hm]. destruct (chats _ !! id); by destruct Hm as [-> _].
  - by rewrite Ho.
  - rewrite Ho. rewrite app_comm_cons. apply last_snoc.
  - rewrite Hf. intros Hr. rewrite Hdisk. destruct r; [done|]. by destruct (disk_of w).
  - intros Hr. split; [by apply Hkeep|]. rewrite Hf in Hr. destruct r; [|done].
    rewrite Hdisk. cbn [is_ok]. rewrite <-option_fmap_compose.
    destruct (disk_of w) as [t|]; [|done]. cbn. f_equal. unfold record_tables.
    rewrite messages_of_add, decide_True by done. f_equal. by destruct b.
  - exists (push_message (received_message clock content account) s).
    rewrite lookup_insert_eq. split; [done|]. by apply received_into_push.
  - intros j Hj. by rewrite lookup_insert_ne.
Qed.

(** C10. A conversation the client reports: a deleted one stays deleted, a past one
    becomes live again with its history, and an unknown one is added, with the name
    and description the client tells of a group, saved and announced as incoming. *)
Theorem record_conversation_started_outcome id k w :
  synced (w_display w) →
  let w' := (run (record_conversation_started id k) w).2 in
  let st := d_state (w_display w) in
  let events := events_of (new_outputs w w') in
  let failures := existsb store_failure (new_outputs w w') in
  deleted (d_state (w_display w')) = deleted st ∧
  if decide (id ∈ deleted st) then w_display w' = w_display w ∧ events = []
  else match chats st !! id with
       | Some s =>
           d_state (w_display w') = put_chat id (set_history_only false s) st ∧
           disk_of w' = disk_of w ∧
           events = if history_only s then [conversation_updated id] else []
       | None =>
           ∃ n desc, (n, desc) = told_metadata id k w ∧
             let s := new_session id k n desc None in
             d_state (w_display w') = put_chat id s st ∧
             disk_of w' = (if failures then disk_of w
                           else stmt_apply (UpsertChat (row_of_session s)) <$> disk_of w) ∧
             events = [conversation_created id false (short_label id) (kind_as_str k)
                         (default "" n) (default "" desc)]
       end.
Proof.
  intros Hsync w' st. subst w' st.
  destruct (record_conversation_started_cases id k w (synced_connected _ Hsync)) as (warn & n & desc & Hwarn & Hk & H).
  cbn zeta. set (w' := (run _ w).2) in *.
  assert (events_of warn = [] ∧ existsb store_failure warn = false) as [Hev Hnf].
  { clear -Hwarn. induction Hwarn as [|o warn [line ->] _ IH]; [done|]. apply IH. }
  destruct (decide _).
  { destruct H as [-> Ho]. split_and!; [done..|]. by rewrite (new_outputs_app _ _ _ Ho). }
  destruct (chats _ !! id) as [s|] eqn:Hs.
  { destruct H as [Hd Ho]. rewrite (new_outputs_app _ _ _ Ho), events_of_app, Hev.
    unfold disk_of. rewrite Hd. split_and!; [done..|]. by destruct (history_only s). }
  destruct H as (r & Hw & Ho). rewrite (new_outputs_app _ _ _ Ho).
  destruct (wrote_observed _ _ _ _ _ Hw) as (Hst' & Hdisk & Hcase).
  rewrite Hst'. split; [done|]. exists n, desc. rewrite events_of_app, Hev, existsb_app, Hnf, Hdisk. cbn zeta.
  split_and!; [done|done| |]; destruct Hcase as [->|[e ->]]; try done.
  cbn [existsb store_failure_line created_event store_failure is_ok orb].
  rewrite starts_with_app, orb_true_r. by destruct (disk_of w).
Qed.
End inbound.

(** ** Deleted stays deleted *)

Section gone.
Context {J : Json} {DB : Sqlite} {LC : Libchat}.
Implicit Types (w : world) (d : Display).

Definition gone (id : string) (st : AppState) : Prop :=
  id ∈ deleted st ∧ chats st !! id = None.

(** The conversation an event is about. *)
Definition event_convo (e : event) : option string :=
  match e with
  | message_received i _ _ _ | message_sent i _ _ | conversation_created i _ _ _ _ _
  | conversation_updated i | members_changed i | conversation_deleted i => Some i
  | delivery_state_changed _ _ _ => None
  end.

(** [w'] comes from [w] with [id] left alone: still gone, and not heard of. *)
Definition silent (id : string) w w' : Prop :=
  gone id (d_state (w_display w')) ∧
  ∃ os, w_out w' = w_out w ++ os ∧ Forall (λ e, event_convo e ≠ Some id) (events_of os).

Lemma silent_quiet id w w' :
  w_display w' = w_display w → w_out w' = w_out w → gone id (d_state (w_display w)) →
  silent id w w'.
Proof. intros Hd Ho Hg. split; [by rewrite Hd|]. exists []. by rewrite Ho, app_nil_r. Qed.

Lemma silent_trans id w1 w2 w3 : silent id w1 w2 → silent id w2 w3 → silent id w1 w3.
Proof.
  intros [_ (os1 & H1 & F1)] [Hg (os2 & H2 & F2)]. split; [done|]. exists (os1 ++ os2).
  rewrite events_of_app, Forall_app, H2, H1, app_assoc. done.
Qed.

Lemma persist_chat_state d i : d_state (persist_chat d i).2 = d_state d.
Proof.
  unfold persist_chat. destruct (d_chat_db d); [|done]. destruct (_ !! i); [|done].
  by destruct (save_chat _ _).
Qed.

Lemma record_message_others d m b j :
  j ≠ msg_chat_id m →
  chats (d_state (record_message d m b).2) !! j = chats (d_state d) !! j ∧
  deleted (d_state (record_message d m b).2) = deleted (d_state d).
Proof.
  intros Hj. unfold record_message. destruct (_ !! msg_chat_id m); [|done].
  destruct (d_chat_db d); [|done]. destruct (Persistence.record_message _ _ _). cbn.
  by rewrite lookup_insert_ne.
Qed.

Lemma silent_mut id (f : Display → unit * Display * list output) w :
  gone id (d_state (f (w_display w)).1.2) →
  Forall (λ e, event_convo e ≠ Some id) (events_of (f (w_display w)).2) →
  silent id w (run (with_display_mut f) w).2.
Proof.
  rewrite run_with_display_mut. cbn. intros Hg Hf. split; [done|]. by eexists.
Qed.

Lemma silent_message id clock i content account inst w :
  gone id (d_state (w_display w)) →
  silent id w (run (record_message_received clock i content account inst) w).2.
Proof.
  intros [Hd Hc]. apply silent_mut; destruct (decide (i ∈ _)) as [|Hi]; try done;
    assert (id ≠ i) as Hne by congruence;
    destruct (receiving_session _ i account) as [s b]; cbn beta iota zeta;
    pose proof (record_message_others (set_chats (<[i := s]> (chats (d_state (w_display w)))) (w_display w))
      (inbound_message clock i content account inst) b id Hne) as [H1 H2];
    destruct (record_message _ _ _) as [r d']; cbn in *.
  - split; [by rewrite H2|]. by rewrite H1, lookup_insert_ne.
  - rewrite events_of_app. apply Forall_app. split; [destruct r; constructor|].
    constructor; [|done]. cbn. congruence.
Qed.

Lemma silent_started id i k w :
  gone id (d_state (w_display w)) →
  silent id w (run (record_conversation_started i k) w).2.
Proof.
  intros Hg. unfold record_conversation_started.
  change (mbind ?k ?p) with (bind p k). rewrite run_bind.
  pose proof (run_observed_metadata i k w) as H.
  destruct (run (observed_metadata i k) w) as [[n desc] w1]. cbn [fst snd].
  destruct H as [Hdis Hout].
  apply (silent_trans _ _ w1).
  { split; [by rewrite Hdis|]. destruct Hout as [->|[line ->]]; eexists;
      [by rewrite app_nil_r|by split]. }
  rewrite <-Hdis in Hg. clear Hdis Hout. destruct Hg as [Hd Hc].
  apply silent_mut; destruct (decide (i ∈ _)) as [|Hi]; try done;
    assert (id ≠ i) as Hne by congruence; destruct (chats _ !! i) as [s|].
  - destruct (history_only s); (split; [done|]); cbn; by rewrite lookup_insert_ne.
  - unfold insert_session. cbn [chat_id new_session].
    pose proof (persist_chat_state (set_chats (<[i := new_session i k n desc None]>
      (chats (d_state (w_display w1)))) (w_display w1)) i) as H.
    destruct (persist_chat _ _) as [[|] d']; cbn in *; rewrite H;
      (split; [done|]); cbn; by rewrite lookup_insert_ne.
  - destruct (history_only s); cbn; repeat constructor; cbn; congruence.
  - destruct (persist_chat _ _) as [[|] d']; cbn; repeat constructor; cbn; congruence.
Qed.

Lemma silent_event id clock e w :
  gone id (d_state (w_display w)) → silent id w (run (handle_event clock e) w).2.
Proof.
  intros Hg. destruct e as [i class|i content account signer|i|line|]; cbn [handle_event].
  - by apply silent_started.
  - by apply silent_message.
  - apply silent_mut; [by destruct (_ || _)|].
    destruct (decide (id = i)) as [<-|Hne].
    + destruct Hg as [Hd _]. by rewrite bool_decide_eq_true_2.
    + destruct (_ || _); cbn; repeat constructor. cbn. congruence.
  - cbn. split; [done|]. by eexists.
  - by apply silent_quiet.
Qed.

(** C8. Whatever the client reports, in whatever order, a deleted conversation is not
    heard of again: no row, no message, no event. *)
Theorem deleted_stays_deleted id (events : list (option Z * ClientEvent)) w :
  gone id (d_state (w_display w)) →
  let w' := (run (run_events events) w).2 in
  gone id (d_state (w_display w')) ∧ shown w' id = [] ∧
  Forall (λ e, event_convo e ≠ Some id) (events_of (new_outputs w w')).
Proof.
  intros Hg w'. assert (silent id w w') as [Hg' (os & Ho & Hf)].
  { subst w'. revert w Hg. induction events as [|[clock e] events IH]; intros w Hg.
    - by apply silent_quiet.
    - cbn [run_events foldr]. change (mbind ?k ?p) with (bind p k). rewrite run_bind.
      pose proof (silent_event id clock e w Hg) as H.
      apply (silent_trans _ _ _ _ H). apply IH. apply H. }
  split; [done|]. rewrite (new_outputs_app _ _ _ Ho). split; [|done].
  rewrite shown_eq. destruct Hg' as [_ ->]. done.
Qed.
End gone.

(** ** Instances *)

Definition up : @world (mem_sqlite sample_disk) sample_libchat := sample_world sample_disk [].
Lemma up_synced : synced (L := mem_laws sample_disk) (w_display up).
Proof. apply sample_synced. Defined.

(** What an [Ok] carries. *)
Definition ok_value {A E} (r : result A E) : option A :=
  match r with Ok a => Some a | Err _ => None end.
Lemma ok_value_Some {A E} (r : result A E) a : ok_value r = Some a → r = Ok a.
Proof. destruct r; cbn; congruence. Qed.

(** The result of a run on [up], evaluated. *)
Ltac ran H value :=
  match type of H with
  | context [run ?p up] =>
      let Hok := fresh in
      assert (ok_value (run p up).1 = Some value) as Hok by (vm_compute; reflexivity);
      apply ok_value_Some in Hok;
      destruct (run p up) as [r w']; cbn [fst snd] in *; subst r
  end.

Lemma send_message_outcome_witness :
  shown (run (send_message (Some 5%Z) "convo-0" "hi") up).2 "convo-0" =
    [mk_api_message true "hi" 5 None].
Proof.
  pose proof (send_message_outcome (Some 5%Z) "convo-0" "hi" up up_synced eq_refl) as H.
  ran H tt. exact (proj1 (proj2 H)).
Defined.

Lemma sample_fresh peer : fresh_ids (CreateConversation peer) up.
Proof. intros ms id [= <-] [= <-]. vm_compute. reflexivity. Qed.
Lemma sample_fresh_group n desc : fresh_ids (CreateGroup n desc) up.
Proof. intros ms id [= <-] [= <-]. vm_compute. reflexivity. Qed.

Lemma create_conversation_outcome_witness :
  chats (d_state (w_display (run (create_conversation "raya") up).2)) !! "convo-1" =
    Some (new_session "convo-1" Direct None None (Some "raya")).
Proof.
  pose proof (create_conversation_outcome "raya" up up_synced (sample_fresh "raya")) as H.
  ran H "convo-1". destruct H as (_ & Hd & _). by rewrite Hd.
Defined.

Lemma create_group_conversation_outcome_witness :
  chats (d_state (w_display (run (create_group_conversation "Book Club" "") up).2)) !! "convo-1" =
    Some (new_session "convo-1" Group (Some "Book Club") None None).
Proof.
  pose proof (create_group_conversation_outcome "Book Club" "" up up_synced
    (sample_fresh_group "Book Club" "")) as H.
  ran H "convo-1". destruct H as (_ & Hd & _). by rewrite Hd.
Defined.

Lemma up_convo_0 : chats (d_state (w_display up)) !! "convo-0" = Some sample_session.
Proof. vm_compute. reflexivity. Qed.

Lemma set_conversation_nickname_outcome_witness :
  d_state (w_display (run (set_conversation_nickname "convo-0" "Saro") up).2) =
    with_session (set_nickname (Some "Saro") sample_session) sample_state.
Proof.
  pose proof (set_conversation_nickname_outcome "convo-0" "Saro" up up_synced) as H.
  rewrite up_convo_0 in H. ran H tt. exact (proj1 H).
Defined.

Lemma delete_conversation_outcome_witness :
  chats (d_state (w_display (run (delete_conversation "convo-0") up).2)) =
    delete "convo-0" (chats sample_state).
Proof.
  pose proof (delete_conversation_outcome "convo-0" up up_synced) as H.
  ran H tt. destruct H as (_ & _ & Hd & _). by rewrite Hd.
Defined.

Lemma set_installation_name_outcome_witness :
  (run get_installation_name (run (set_installation_name "laptop") up).2).1 = "laptop".
Proof.
  pose proof (set_installation_name_outcome "laptop" up up_synced) as H.
  ran H tt. exact (proj1 (proj2 (proj2 H))).
Defined.

Lemma up_not_deleted id : id ∉ deleted (d_state (w_display up)).
Proof. change (id ∉ (∅ : gset string)). set_solver. Qed.

Lemma record_message_received_outcome_witness :
  shown (run (record_message_received (Some 5%Z) "convo-0" (as_bytes "hey") "saro" "phone") up).2
    "convo-0" = [mk_api_message false "hey" 5 (Some "saro")].
Proof.
  pose proof (record_message_received_outcome (Some 5%Z) "convo-0"
    (as_bytes "hey") "saro" "phone" up up_synced) as H.
  cbn zeta in H. rewrite decide_False in H by apply up_not_deleted. exact (proj1 H).
Defined.

Definition past_session : ChatSession := push_message (display_message old_message) old_session.

Lemma record_conversation_started_outcome_witness :
  d_state (w_display (run (record_conversation_started "convo-old" Direct) up).2) =
    put_chat "convo-old" (set_history_only false past_session) sample_state.
Proof.
  pose proof (record_conversation_started_outcome "convo-old" Direct up up_synced) as [_ H].
  cbn zeta in H. rewrite decide_False in H by apply up_not_deleted.
  assert (chats (d_state (w_display up)) !! "convo-old" = Some past_session) as E
    by (vm_compute; reflexivity).
  rewrite E in H. exact (proj1 H).
Defined.

(** ["convo-0"] deleted, then a message in it arrives after all. *)
Definition after_delete : @world (mem_sqlite sample_disk) sample_libchat :=
  (run (delete_conversation "convo-0") up).2.
Definition late_message : option Z * ClientEvent :=
  (Some 9%Z, MessageReceived "convo-0" (as_bytes "still there?") "saro" "phone").

Lemma deleted_stays_deleted_witness :
  shown (run (run_events [late_message]) after_delete).2 "convo-0" = [].
Proof.
  apply (deleted_stays_deleted "convo-0" [late_message] after_delete).
  split; [|vm_compute; reflexivity].
  change (deleted (d_state (w_display after_delete))) with ({["convo-0"]} ∪ ∅ : gset string).
  set_solver.
Defined.
