(* ===== verification/Restart.v ===== *)
(** * Across a restart

    What is on screen when the module goes down is what the next bring-up shows. *)
From S2P Require Import Prelude Utf8 LogFiles Logging Delivery Persistence ModuleState Runtime.
From S2P Require Import Actions Lifecycle Inbound SqliteMem Samples ActionsFacts History.
From S2P Require Import Outcomes.
From Stdlib Require Import Ascii.
From stdpp Require Import relations.

(** [list_conversations] after a restart: the live ones can be sent to. *)
Definition relisted (live : list string) (c : Conversation) : Conversation :=
  mk_conversation (c_convo_id c) (c_nickname c) (c_message_count c) (c_last_activity_ms c)
    (c_kind c) (c_name c) (c_description c) (c_preview c)
    (negb (bool_decide (c_convo_id c ∈ live))).

Lemma last_last_n {A} n (l : list A) : 0 < n → last (last_n n l) = last l.
Proof.
  intros Hn. rewrite !last_lookup, last_n_length. unfold last_n. rewrite lookup_drop.
  destruct l as [|x l]; [done|]. f_equal. cbn [length]. lia.
Qed.

Lemma conversation_of_reload live s :
  conversation_of (set_history_only (negb (bool_decide (chat_id s ∈ live))) (reload_session s))
  = relisted live (conversation_of s).
Proof.
  unfold relisted, conversation_of. cbn. rewrite last_last_n by (unfold LOADED_PER_CHAT; lia).
  f_equal. f_equal. unfold usize_add. f_equal. rewrite last_n_length. lia.
Qed.

Section shown.
Context {J : Json} {DB : Sqlite} {L : SqliteLaws DB} {LC : Libchat}.
Implicit Types (w : world).

Lemma shown_reload w w' live id :
  d_state (w_display w') = reload_state live (d_state (w_display w)) →
  shown w' id = last_n LOADED_PER_CHAT (shown w id).
Proof.
  intros E. rewrite !shown_eq, E. cbn. rewrite !lookup_fmap.
  destruct (chats _ !! id) as [s|]; [|done]. cbn.
  unfold last_n. by rewrite length_map, skipn_map.
Qed.

Lemma listed_reload w w' live :
  d_state (w_display w') = reload_state live (d_state (w_display w)) →
  (run list_conversations w').1 ≡ₚ map (relisted live) (run list_conversations w).1.
Proof.
  intros E. unfold list_conversations. rewrite !run_with_display, E. cbn.
  rewrite !map_to_list_fmap.
  induction (map_to_list (chats (d_state (w_display w)))) as [|[i s] l IH]; [done|].
  cbn. by rewrite <-conversation_of_reload, IH.
Qed.
End shown.

(** C4. After any sequence of requests none of which reported a failed write, a module
    brought up again on the same [chat.db] lists the same conversations, with the
    same counts, previews and activity, shows the newest 500 messages of each in the
    same order, keeps the tombstones and the chosen name, and agrees with its disk. *)
Theorem history_survives_restart {J : Json} {DB : Sqlite} {L : SqliteLaws DB} {LC : Libchat}
    `{E : !InitEnv DB LC} (w w1 w2 : world) ms w3 :
  synced (w_display w) → rtc step w w1 →
  (∀ p c, env_context = Some p → open (p +:+ "/chat.db") (store_key p) = Ok c →
    base c = None ∧ disk_of w1 = Some (view c)) →
  run initialize w2 = (Ok ms, w3) →
  ∃ live, list_all_conversations (ms_client ms) = Ok live ∧
    (run list_conversations w3).1 ≡ₚ map (relisted live) (run list_conversations w1).1 ∧
    (∀ id, shown w3 id = last_n LOADED_PER_CHAT (shown w1 id)) ∧
    deleted (d_state (w_display w3)) = deleted (d_state (w_display w1)) ∧
    installation_name (d_state (w_display w3)) = installation_name (d_state (w_display w1)) ∧
    synced (w_display w3).
Proof.
  intros Hw Hsteps Hdisk Hrun. destruct (steps_synced _ _ Hw Hsteps) as (c1 & Hc1 & _ & Hst).
  destruct (initialize_reloads (d_state (w_display w1)) w2 ms w3) as (live & Hlive & Hstate & Hsync);
    [|done|].
  - intros p c Hp Hopen. destruct (Hdisk p c Hp Hopen) as [Hb Hv]. split; [done|].
    unfold disk_of in Hv. rewrite Hc1 in Hv. by injection Hv as <-.
  - exists live. split_and!; [done|by apply listed_reload|intros id; by eapply shown_reload|..];
      by rewrite ?Hstate.
Qed.

(** Saro sends a message and the module restarts. *)
Definition before_restart (file : tables) : @world (mem_sqlite file) sample_libchat :=
  (run (DB := mem_sqlite file) (send_message (Some 1700000001000%Z) "convo-0" "hi")
     (sample_world file [])).2.
Definition sent_disk : tables :=
  add_message (chat_message "convo-0" Sent 1700000001000 (as_bytes "hi")) sample_disk.

Lemma history_survives_restart_witness :
  let E := sample_env sent_disk (Some "/data") in
  let w3 := (run (DB := mem_sqlite sent_disk) initialize (world0 sent_disk)).2 in
  shown w3 "convo-0" = [mk_api_message true "hi" 1700000001000 None] ∧
  shown w3 "convo-old" = [mk_api_message false "see you" 1700000000000 (Some "raya")].
Proof.
  intros E w3.
  destruct (history_survives_restart (J := sample_json) (L := mem_laws sent_disk) (E := E)
    (sample_world sent_disk []) (before_restart sent_disk) (world0 sent_disk)
    (mk_module_state (LC := sample_libchat) client0 0 (Some (BridgeThread 0)) (Some (EventThread 0))) w3)
    as (live & _ & _ & Hshown & _).
  - apply sample_synced.
  - apply rtc_once. exists (SendMessage (Some 1700000001000%Z) "convo-0" "hi").
    split_and!; [done|by intros ms id _ []|done|by vm_compute].
  - intros p c [= <-] [= <-]. split; [done|]. by vm_compute.
  - done.
  - split; rewrite Hshown; by vm_compute.
Defined.
