(* ===== verification/DeliveryMachine.v ===== *)
(** * The delivery state machine

    How [delivery_state] moves: the answers of delivery_module, its events, and
    the retry of a failed bootstrap, one display access at a time. *)
From S2P Require Import Prelude Utf8 LogFiles Logging Delivery Persistence ModuleState Runtime.
From S2P Require Import Actions Lifecycle Inbound Api SqliteMem Samples ActionsFacts History.
From S2P Require Import Outcomes.

(** ** Inputs *)

Section machine.
Context {J : Json} {DB : Sqlite} {LC : Libchat}.
Implicit Types (w : world) (d : Display).

(** What moves the delivery state of a module that is up. *)
Inductive dinput :=
| Answered (c : delivery_call) (res : result Value LogosError)
| StartedEvent (evt : option (bool * string))
| StatusEvent (evt : option string)
| Retry.

Definition dprog (i : dinput) : prog unit :=
  match i with
  | Answered c res => answered c res
  | StartedEvent evt => handle_node_started evt
  | StatusEvent evt => handle_connection_event evt
  | Retry => claim_delivery_retry ;; Ret tt
  end.

Definition dstate w : DeliveryState := d_delivery_state (w_display w).
Definition reported (s : DeliveryState) : string * string :=
  (state_as_str (ds_state s), ds_detail s).

(** The events of a move: one, carrying the new state, when what [status] answers
    changed. *)
Definition move_events (s s' : DeliveryState) : list event :=
  if decide (reported s' = reported s) then []
  else [delivery_state_changed (reported s').1 (reported s').2 (ds_adopted s')].

Lemma state_as_str_inj : Inj (=) (=) state_as_str.
Proof. by intros [] []. Qed.

Lemma move_events_refl s s' : reported s' = reported s → move_events s s' = [].
Proof. intros E. unfold move_events. by rewrite decide_True. Qed.

Lemma set_delivery_state_eq d k detail :
  d_delivery_state (set_delivery_state d k detail).1 = set_state k detail (d_delivery_state d).
Proof.
  unfold set_delivery_state. case_match eqn:E; [|done].
  apply andb_true_iff in E as [<-%bool_decide_eq_true <-%bool_decide_eq_true].
  cbn. by destruct (d_delivery_state d).
Qed.

Lemma set_delivery_state_events d k detail :
  events_of (set_delivery_state d k detail).2 =
  move_events (d_delivery_state d) (set_state k detail (d_delivery_state d)).
Proof.
  unfold set_delivery_state, move_events, reported. cbn [ds_state ds_detail set_state fst snd ds_adopted].
  destruct (bool_decide _ && _) eqn:E.
  - apply andb_true_iff in E as [<-%bool_decide_eq_true <-%bool_decide_eq_true].
    by rewrite decide_True.
  - rewrite decide_False.
    + cbn. destruct k, detail; done.
    + intros [= Hk Hdet]. apply state_as_str_inj in Hk. unfold str_eqb in E.
      by rewrite Hk, Hdet, !bool_decide_eq_true_2 in E.
Qed.

(** A program whose moves are announced. *)
Definition announced (p : prog unit) : Prop :=
  ∀ w, let w' := (run p w).2 in
    ∃ os, w_out w' = w_out w ++ os ∧ events_of os = move_events (dstate w) (dstate w').

Lemma announced_quiet (p : prog unit) :
  (∀ w, reported (dstate (run p w).2) = reported (dstate w) ∧
        ∃ os, w_out (run p w).2 = w_out w ++ os ∧ events_of os = []) →
  announced p.
Proof.
  intros H w. destruct (H w) as (Hs & os & Ho & He). exists os. split; [done|].
  by rewrite He, move_events_refl.
Qed.

Lemma announced_mut (f : Display → unit * Display * list output) :
  (∀ d, events_of (f d).2 = move_events (d_delivery_state d) (d_delivery_state (f d).1.2)) →
  announced (with_display_mut f).
Proof. intros H w. rewrite run_with_display_mut. cbn. eexists. split; [done|]. apply H. Qed.

Lemma set_state_announces d0 d k detail :
  reported (d_delivery_state d) = reported (d_delivery_state d0) →
  let '(d', os) := set_delivery_state d k detail in
  events_of os = move_events (d_delivery_state d0) (d_delivery_state d').
Proof.
  intros Hd. pose proof (set_delivery_state_events d k detail) as He.
  pose proof (set_delivery_state_eq d k detail) as Hs.
  destruct (set_delivery_state d k detail) as [d' os]. cbn [fst snd] in *.
  rewrite He, <-Hs. unfold move_events. by rewrite Hd.
Qed.

Lemma announced_set k detail g :
  (∀ d, reported (d_delivery_state (g d)) = reported (d_delivery_state d)) →
  announced (with_display_mut (λ d, let '(d, os) := set_delivery_state (g d) k detail in (tt, d, os))).
Proof.
  intros Hg. apply announced_mut. intros d.
  pose proof (set_state_announces d (g d) k detail (Hg d)) as H. by destruct (set_delivery_state _ _ _).
Qed.

Ltac announced_quietly os :=
  apply announced_quiet; intros w; split; [done|]; exists os; cbn; rewrite ?app_nil_r.

Lemma dprog_announced i : announced (dprog i).
Proof.
  destruct i as [c res|[[ok m]|]|[status|]|]; cbn [dprog].
  - destruct c; cbn [answered].
    + unfold create_node_answered. case_match; by announced_quietly ([] : list output).
    + unfold node_info_answered. case_match.
      * apply announced_quiet. intros w. cbn. destruct (negb _); cbn; (split; [done|]);
          [eexists [_]|exists []]; cbn; by rewrite ?app_nil_r.
      * by apply (announced_set Error _ id).
    + unfold start_answered. case_match; [by announced_quietly ([] : list output)|].
      by apply (announced_set Error _
        (λ d, set_delivery (set_starting false (d_delivery_state d)) d)).
    + unfold send_answered. case_match; [by announced_quietly ([] : list output)|].
      by announced_quietly [Log LError ("delivery_module.send failed: " +:+ e)].
    + unfold subscribe_answered. case_match; [by announced_quietly ([] : list output)|].
      by announced_quietly [Log LError ("delivery_module.subscribe failed: " +:+ e)].
  - apply announced_mut. intros d. unfold record_node_started.
    destruct (negb _); [cbn; by rewrite move_events_refl|]. cbn zeta.
    destruct ok; match goal with |- context [set_delivery_state ?d1 ?k ?detail] =>
      pose proof (set_state_announces d d1 k detail eq_refl) as H end;
      by destruct (set_delivery_state _ _ _).
  - by announced_quietly ([] : list output).
  - apply announced_mut. intros d. unfold connection_transition.
    destruct (negb _); [cbn; by rewrite move_events_refl|].
    pose proof (set_state_announces d d (map_connection_status status) "" eq_refl) as H.
    by destruct (set_delivery_state _ _ _).
  - by announced_quietly ([] : list output).
  - intros w. change (mbind ?k ?p) with (bind p k). rewrite run_bind. cbn [run snd].
    unfold claim_delivery_retry. rewrite run_with_display_mut. cbn zeta.
    destruct (_ || _); [exists []; cbn; by rewrite move_events_refl|].
    pose proof (set_state_announces (w_display w) (w_display w) Initialising "" eq_refl) as H.
    destruct (set_delivery_state _ _ _) as [d' os]. by exists os.
Qed.
End machine.

(** ** Runs of inputs *)

Section runs.
Context {J : Json} {DB : Sqlite} {LC : Libchat}.
Implicit Types (w : world) (ins : list dinput).

Definition dsteps ins w : world := foldl (λ w i, (run (dprog i) w).2) w ins.

Lemma dsteps_snoc ins i w : dsteps (ins ++ [i]) w = (run (dprog i) (dsteps ins w)).2.
Proof. unfold dsteps. by rewrite foldl_app. Qed.

(** *** The start handshake *)

(** An answer that there is a node to start: created, or already there. *)
Definition node_ready (i : dinput) : Prop :=
  match i with
  | Answered (CreateNode _ _) res | Answered (GetNodeInfo _ _) res =>
      is_ok (delivery_outcome res) = true
  | _ => False
  end.
Definition node_started (i : dinput) : Prop :=
  match i with StartedEvent (Some (true, _)) => True | _ => False end.

(** *** The machine, as a function

    [dmove] is what an input does to the state, to the preset this process created
    a node with, and which calls it makes next. *)
Definition dmove (i : dinput) (s : DeliveryState) (own : option string)
    : DeliveryState * option string * list delivery_call :=
  match i with
  | Answered (CreateNode _ preset) res =>
      match delivery_outcome res with
      | Ok _ => (set_starting true s, Some preset, [Start])
      | Err reason => (s, own, [GetNodeInfo preset reason])
      end
  | Answered (GetNodeInfo preset reason) res =>
      match delivery_outcome res with
      | Ok _ =>
          (set_starting true (set_adopted (negb (bool_decide (own = Some preset))) s), own, [Start])
      | Err _ => (set_state Error ("delivery_module.createNode failed: " +:+ reason) s, own, [])
      end
  | Answered Start res =>
      match delivery_outcome res with
      | Ok _ => (s, own, [])
      | Err e =>
          (set_state Error ("delivery_module.start failed: " +:+ e) (set_starting false s), own, [])
      end
  | StartedEvent (Some (ok, message)) =>
      if negb (ds_starting s) then (s, own, [])
      else if ok : bool
      then (set_state Online "" (set_started true (set_starting false s)), own, [])
      else (set_state Error ("delivery_module.start failed: " +:+ message) (set_starting false s),
            own, [])
  | StatusEvent (Some status) =>
      if ds_started s then (set_state (map_connection_status status) "" s, own, [])
      else (s, own, [])
  | Retry =>
      if bool_decide (ds_state s = Error) && negb (ds_started s)
      then (set_state Initialising "" s, own, [])
      else (s, own, [])
  | _ => (s, own, [])
  end.

(** What the machine reads of the world. *)
Definition dview w : DeliveryState * option string * list delivery_call :=
  (dstate w, w_own_preset w, w_pending w).

Lemma set_delivery_state_run k detail (g : Display → Display) w :
  dview (run (with_display_mut
    (λ d, let '(d, os) := set_delivery_state (g d) k detail in (tt, d, os))) w).2 =
  (set_state k detail (d_delivery_state (g (w_display w))), w_own_preset w, w_pending w).
Proof.
  rewrite run_with_display_mut. pose proof (set_delivery_state_eq (g (w_display w)) k detail) as E.
  destruct (set_delivery_state (g (w_display w)) k detail) as [d os]. unfold dview, dstate.
  cbn in *. by rewrite E.
Qed.

Lemma dprog_dmove i w :
  let '(s, own, calls) := dmove i (dstate w) (w_own_preset w) in
  dview (run (dprog i) w).2 = (s, own, w_pending w ++ calls).
Proof.
  assert (w_pending w ++ [] = w_pending w) as Hnil by apply app_nil_r.
  assert (dview w = (dstate w, w_own_preset w, w_pending w ++ [])) as Hsame by by rewrite Hnil.
  destruct i as [c res|[[ok m]|]|[status|]|]; cbn [dprog dmove]; try done.
  - destruct c; cbn [answered dmove].
    + unfold create_node_answered. by destruct (delivery_outcome res).
    + unfold node_info_answered. destruct (delivery_outcome res); [|unfold set_delivery_error].
      * cbn. by destruct (negb _).
      * by rewrite (set_delivery_state_run Error _ id), Hnil.
    + unfold start_answered. destruct (delivery_outcome res); [done|].
      rewrite (set_delivery_state_run Error _
        (λ d, set_delivery (set_starting false (d_delivery_state d)) d)). by rewrite Hnil.
    + unfold send_answered. by destruct (delivery_outcome res).
    + unfold subscribe_answered. by destruct (delivery_outcome res).
  - assert (run (handle_node_started (Some (ok, m))) w = run (with_display_mut (λ d,
      let '(d, os) := record_node_started d ok m in (tt, d, os))) w) as -> by done.
    rewrite run_with_display_mut. unfold record_node_started. fold (dstate w).
    destruct (negb (ds_starting (dstate w))); [by rewrite Hnil|].
    pose proof (set_delivery_state_run Online ""
      (λ d, set_delivery (set_started true (set_starting false (d_delivery_state d))) d) w) as H1.
    pose proof (set_delivery_state_run Error ("delivery_module.start failed: " +:+ m)
      (λ d, set_delivery (set_starting false (d_delivery_state d)) d) w) as H2.
    rewrite run_with_display_mut in H1, H2. destruct ok; cbn beta iota; rewrite Hnil; [exact H1|exact H2].
  - unfold handle_connection_event, handle_connection_state, connection_transition.
    pose proof (set_delivery_state_run (map_connection_status status) "" id w) as H.
    rewrite run_with_display_mut in H |- *. fold (dstate w).
    destruct (ds_started (dstate w)); cbn [negb]; rewrite Hnil; [exact H|done].
  - change (mbind ?k ?p) with (bind p k). rewrite run_bind. cbn [run snd].
    unfold claim_delivery_retry.
    pose proof (set_delivery_state_run Initialising "" id w) as H.
    rewrite run_with_display_mut in H. rewrite run_with_display_mut. cbn zeta. fold (dstate w).
    destruct (bool_decide _), (ds_started (dstate w)); cbn [negb andb orb]; rewrite Hnil; try done.
    unfold id in H. by destruct (set_delivery_state _ _ _).
Qed.

Lemma handshake_step i w :
  let s := dstate w in
  let s' := dstate (run (dprog i) w).2 in
  (ds_starting s' = true → ds_starting s = true ∨ node_ready i) ∧
  (ds_started s' = true → ds_started s = true ∨ ds_starting s = true ∧ node_started i) ∧
  ((ds_state s = Online → ds_started s = true) → ds_state s' = Online → ds_started s' = true).
Proof.
  cbn zeta. pose proof (dprog_dmove i w) as H.
  destruct (dmove i (dstate w) (w_own_preset w)) as [[s' own'] calls] eqn:E.
  unfold dview in H. injection H as -> _ _. revert E.
  destruct i as [[]|[[[] m]|]|[status|]|]; cbn [dmove node_ready node_started];
    repeat case_match; intros [= <- <- <-]; cbn; try naive_solver.
  destruct (ds_starting (dstate w)); naive_solver.
Qed.

Lemma starting_after ins w :
  ds_starting (dstate w) = false → ds_starting (dstate (dsteps ins w)) = true →
  ∃ x, x ∈ ins ∧ node_ready x.
Proof.
  intros Hw. induction ins as [|i ins IH] using rev_ind; [by cbn; rewrite Hw|].
  rewrite dsteps_snoc. intros Hs. destruct (handshake_step i (dsteps ins w)) as [H _].
  destruct (H Hs) as [Hs'|Hr].
  - destruct (IH Hs') as (x & Hx & ?). exists x. split; [|done]. by apply elem_of_app; left.
  - exists i. split; [|done]. apply elem_of_app. right. by left.
Qed.

Lemma started_after ins w :
  ds_starting (dstate w) = false → ds_started (dstate w) = false →
  ds_started (dstate (dsteps ins w)) = true →
  ∃ before y after, ins = before ++ y :: after ∧ node_started y ∧
    ∃ x, x ∈ before ∧ node_ready x.
Proof.
  intros Hw Hw'. induction ins as [|i ins IH] using rev_ind; [by cbn; rewrite Hw'|].
  rewrite dsteps_snoc. intros Hs. destruct (handshake_step i (dsteps ins w)) as (_ & H & _).
  destruct (H Hs) as [Hs'|[Hst Hn]].
  - destruct (IH Hs') as (before & y & after & -> & ? & ?). exists before, y, (after ++ [i]).
    split; [|done]. by rewrite <-app_assoc.
  - exists ins, i, []. split_and!; [done..|]. by apply (starting_after _ w).
Qed.

(** Runs of the machine, with the calls dispatched on the way. *)
Definition dmoves (ins : list dinput) (v : DeliveryState * option string * list delivery_call)
    : DeliveryState * option string * list delivery_call :=
  foldl (λ '(s, own, calls) i,
    let '(s', own', new) := dmove i s own in (s', own', calls ++ new)) v ins.

Lemma dsteps_dmoves ins w : dview (dsteps ins w) = dmoves ins (dview w).
Proof.
  revert w. induction ins as [|i ins IH]; intros w; [done|].
  change (dsteps (i :: ins) w) with (dsteps ins (run (dprog i) w).2). rewrite IH.
  change (dmoves (i :: ins) (dview w)) with
    (dmoves ins (let '(s', own', new) := dmove i (dstate w) (w_own_preset w) in
                 (s', own', w_pending w ++ new))).
  f_equal. pose proof (dprog_dmove i w) as H. by destruct (dmove i _ _) as [[s' own'] new].
Qed.

(** C20. The delivery programs refine the machine: whatever the answers and events, in
    whatever order, the state, the node's preset and the calls dispatched are the
    ones [dmove] says. *)
Theorem delivery_refines_machine ins w :
  let '(s, own, calls) := dmoves ins (dview w) in
  dstate (dsteps ins w) = s ∧ w_own_preset (dsteps ins w) = own ∧
  w_pending (dsteps ins w) = calls.
Proof.
  pose proof (dsteps_dmoves ins w) as H. destruct (dmoves ins (dview w)) as [[s own] calls].
  unfold dview in H. by simplify_eq.
Qed.

(** C21. Online is reported only after this bring-up's own start handshake: an answer
    that there is a node to start, and later a successful [nodeStarted]; a
    connection status alone never does it. *)
Theorem online_after_handshake ins w :
  dstate w = initialising → ds_state (dstate (dsteps ins w)) = Online →
  ∃ before y after, ins = before ++ y :: after ∧ node_started y ∧
    ∃ x, x ∈ before ∧ node_ready x.
Proof.
  intros Hw Hon. apply (started_after _ w); [by rewrite Hw..|]. revert Hon.
  induction ins as [|i ins IH] using rev_ind; [by cbn; rewrite Hw|].
  rewrite dsteps_snoc. by apply handshake_step.
Qed.
End runs.

(** ** Retrying, and what is left over *)

Section retry.
Context {J : Json} {DB : Sqlite} {LC : Libchat}.
Implicit Types (w : world).

(** The bootstrap is run again exactly for one that failed before its node started,
    and only once: the claim moves the state back to initialising. *)
Theorem retry_claimed_once w :
  let '(claimed, w1) := run claim_delivery_retry w in
  (claimed = true ↔ ds_state (dstate w) = Error ∧ ds_started (dstate w) = false) ∧
  (claimed = true → dstate w1 = set_state Initialising "" (dstate w) ∧
                    (run claim_delivery_retry w1).1 = false) ∧
  (claimed = false → w1 = w).
Proof.
  unfold claim_delivery_retry. rewrite run_with_display_mut. cbn zeta. unfold dstate.
  destruct (negb _ || _) eqn:E.
  - cbn [fst snd]. rewrite put_display_id. split_and!; [|done..]. split; [done|].
    intros [Hs Hd]. by rewrite Hs, Hd in E.
  - apply orb_false_iff in E as [Hs%negb_false_iff%bool_decide_eq_true Hd].
    pose proof (set_delivery_state_eq (w_display w) Initialising "") as Eq.
    destruct (set_delivery_state _ _ _) as [d os]. cbn [fst snd] in *.
    split_and!; [done| |done]. intros _. split; [done|].
    rewrite run_with_display_mut. cbn [w_display put_display]. by rewrite Eq.
Qed.

(** A node this process created, on a retry after joining one it had not created,
    is still reported as adopted: a created node does not clear the flag. *)
Theorem created_node_stays_adopted w config preset reason refusal info failure created :
  dstate w = initialising → w_own_preset w ≠ Some preset →
  is_ok (delivery_outcome refusal) = false → is_ok (delivery_outcome info) = true →
  is_ok (delivery_outcome failure) = false → is_ok (delivery_outcome created) = true →
  let w' := dsteps [Answered (CreateNode config preset) refusal;
                    Answered (GetNodeInfo preset reason) info;
                    Answered Start failure;
                    Retry;
                    Answered (CreateNode config preset) created;
                    StartedEvent (Some (true, ""))] w in
  w_own_preset w' = Some preset ∧ dstate w' = mk_delivery_state Online "" false true true.
Proof.
  intros Hw Hown H1 H2 H3 H4 w'.
  assert (dview w' = dmoves _ (dview w)) as H by apply dsteps_dmoves.
  clearbody w'. unfold dmoves, dview in H. rewrite Hw in H.
  destruct (delivery_outcome refusal) as [|e1] eqn:E1; [done|].
  destruct (delivery_outcome info) as [v2|] eqn:E2; [|done].
  destruct (delivery_outcome failure) as [|e3] eqn:E3; [done|].
  destruct (delivery_outcome created) as [v4|] eqn:E4; [|done].
  cbn in H. rewrite E1 in H. cbn in H. rewrite E2 in H. cbn in H. rewrite E3 in H. cbn in H.
  rewrite (bool_decide_eq_true_2 (Error = Error)) in H by done. cbn in H. rewrite E4 in H. cbn in H. injection H as -> -> _.
  by rewrite bool_decide_eq_false_2.
Qed.

(** An answer to [start] that arrives after [shutdown] moves a stopped module's
    state to an error. *)
Theorem late_answer_after_shutdown w ms failure e :
  delivery_outcome failure = Err e →
  let w1 := (run (shutdown ms) w).2 in
  dstate w1 = stopped ∧
  dstate (run (answered Start failure) w1).2 =
    set_state Error ("delivery_module.start failed: " +:+ e) stopped.
Proof.
  intros He w1. assert (w_display w1 = display_default) as Hd.
  { subst w1. cbn. by destruct (ms_inbound_thread ms), (ms_event_thread ms). }
  assert (dstate w1 = stopped) as Hs by by unfold dstate; rewrite Hd.
  split; [done|]. pose proof (dprog_dmove (Answered Start failure) w1) as E.
  cbn [dmove dprog] in E. rewrite He, Hs in E. unfold dview in E. by injection E.
Qed.
End retry.

(** *** Instances *)

Definition sample_inputs : list dinput :=
  [Answered (CreateNode (bootstrap_config "logos.test") "logos.test") accepted;
   Answered Start accepted;
   StatusEvent (Some "Connected");
   StartedEvent (Some (true, ""))].
Definition initialising_world : @world (mem_sqlite sample_disk) sample_libchat :=
  world_up sample_disk sample_disk sample_state [] initialising client0.

Lemma online_after_handshake_witness :
  ∃ before y after, sample_inputs = before ++ y :: after ∧ node_started y ∧
    ∃ x, x ∈ before ∧ node_ready x.
Proof. apply (online_after_handshake sample_inputs initialising_world); reflexivity. Defined.

Lemma created_node_stays_adopted_witness :
  let w' := dsteps [Answered (CreateNode (bootstrap_config "logos.test") "logos.test")
                      (refused "a node already exists");
                    Answered (GetNodeInfo "logos.test" "a node already exists") accepted;
                    Answered Start (refused "no such node");
                    Retry;
                    Answered (CreateNode (bootstrap_config "logos.test") "logos.test") accepted;
                    StartedEvent (Some (true, ""))] initialising_world in
  st_delivery_adopted (run status w').1 = true ∧ w_own_preset w' = Some "logos.test".
Proof.
  intros w'.
  destruct (created_node_stays_adopted (J := sample_json) initialising_world
    (bootstrap_config "logos.test") "logos.test" "a node already exists"
    (refused "a node already exists") accepted (refused "no such node") accepted) as [H1 H2];
    try done.
Defined.

Lemma late_answer_after_shutdown_witness :
  let w1 := (run (shutdown (mk_module_state (LC := sample_libchat) client0
                   0 (Some (BridgeThread 0)) (Some (EventThread 0)))) initialising_world).2 in
  dstate (run (answered Start (refused "stopping")) w1).2 =
    set_state Error "delivery_module.start failed: stopping" stopped.
Proof.
  exact (proj2 (late_answer_after_shutdown (J := sample_json) initialising_world
    (mk_module_state (LC := sample_libchat) client0 0 (Some (BridgeThread 0)) (Some (EventThread 0)))
    (refused "stopping") "stopping" eq_refl)).
Defined.
