(* ===== verification/StatusEvents.v ===== *)
(** * The delivery state a consumer follows

    Under every interleaving of what runs on a module that is up, the
    [delivery_state_changed] events add up to what [status] answers: each access of the
    display either leaves the reported state alone or announces the one it leaves. *)
From stdpp Require Import relations.
From S2P Require Import Prelude Utf8 LogFiles Logging Delivery Persistence ModuleState Runtime.
From S2P Require Import Concurrency Actions Lifecycle Inbound Transport Api Threads Signals.
From S2P Require Import SqliteMem Samples Interleaving ActionsFacts History Outcomes DeliveryMachine.

(** A consumer's copy of the delivery state after an event. *)
Definition follow (s : string * string) (e : event) : string * string :=
  match e with
  | delivery_state_changed k detail _ => (k, detail)
  | _ => s
  end.
Definition followed (s : string * string) (os : list output) : string * string :=
  foldl follow s (events_of os).

Lemma followed_app s os os' : followed s (os ++ os') = followed (followed s os) os'.
Proof. unfold followed. by rewrite events_of_app, foldl_app. Qed.

Lemma follow_move s s' : foldl follow (reported s) (move_events s s') = reported s'.
Proof. unfold move_events. case_decide as E; [by rewrite E|]. by destruct (reported s'). Qed.

Section tracking.
Context {DB : Sqlite} {LC : Libchat}.
Implicit Types (w : world) (d : Display) (h : ModuleHandle).

Definition is_up h : Prop := is_Some (mh_inner h).

(** What an access of the display put out leads from the state reported before it to
    the one reported after it. *)
Definition told d (d' : Display) (os : list output) : Prop :=
  followed (reported (d_delivery_state d)) os = reported (d_delivery_state d').

(** [p] keeps a module up, and tells of every change of the reported state. *)
Fixpoint reports_state {A} (p : prog A) : Prop :=
  match p with
  | Ret _ => True
  | OnModule f k => ∀ h, is_up h → is_up (f h).2 ∧ reports_state (k (f h).1)
  | OnDisplay f k => ∀ d, told d (f d).1.2 (f d).2 ∧ reports_state (k (f d).1.1)
  | OnPreset _ k => ∀ x, reports_state (k x)
  | OnLog _ k => ∀ x, reports_state (k x)
  | OnSignals _ k => ∀ x, reports_state (k x)
  | Output o k => (∀ s, followed s [o] = s) ∧ reports_state k
  | Dispatch _ k | Acquire _ k | Release _ k | Join _ k => reports_state k
  end.

Lemma reports_bind {A B} (p : prog A) (f : A → prog B) :
  reports_state p → (∀ a, reports_state (f a)) → reports_state (p ≫= f).
Proof. induction p; cbn; naive_solver. Qed.
Lemma reports_try {A B E} (p : prog (result A E)) (f : A → prog (result B E)) :
  reports_state p → (∀ a, reports_state (f a)) → reports_state (try_bind p f).
Proof. intros Hp Hf. apply reports_bind; [done|]. intros [a|e]; [apply Hf|done]. Qed.
Lemma reports_foldr {A B} (f : A → prog B → prog B) (p : prog B) (l : list A) :
  reports_state p → (∀ a q, reports_state q → reports_state (f a q)) → reports_state (foldr f p l).
Proof. intros Hp Hf. induction l as [|a l IH]; [done|]. apply (Hf a), IH. Qed.
Lemma reports_mut {R : Set} (f : Display → R * Display * list output) :
  (∀ d, told d (f d).1.2 (f d).2) → reports_state (with_display_mut f).
Proof. intros Hf d. split; [apply Hf|done]. Qed.
Lemma reports_read {R : Set} (f : Display → R) : reports_state (with_display f).
Proof. by intros d. Qed.

Lemma reports_with_client {R : Set} (f : Client → R * Client) : reports_state (with_client f).
Proof.
  intros h Hh. cbn. destruct (mh_poisoned h); [done|]. destruct Hh as [ms ->].
  destruct (f (ms_client ms)) as [r c]. cbn. split; [by eexists|done].
Qed.
(** A module that is up is not installed again. *)
Lemma reports_install_with {E} (f : prog (result ModuleState E)) : reports_state (install_with f).
Proof.
  intros h Hh. split; [done|]. destruct Hh as [ms Hms]. cbn. rewrite Hms.
  by destruct (mh_poisoned h).
Qed.

(** *** At every step *)

Definition tracked w (c : config) : Prop :=
  is_up (w_module c.1) ∧ Forall (λ th, reports_state (th_prog th)) c.2 ∧
  ∃ os, w_out c.1 = w_out w ++ os ∧ followed (reported (dstate w)) os = reported (dstate c.1).

Lemma exec_reports ts w th w' held p :
  is_up (w_module w) → reports_state (th_prog th) → exec ts w th = Some (w', held, p) →
  is_up (w_module w') ∧ reports_state p ∧
  ∃ os, w_out w' = w_out w ++ os ∧ followed (reported (dstate w)) os = reported (dstate w').
Proof.
  assert (∀ v, is_up (w_module w) → w_out v = w_out w → dstate v = dstate w →
    ∃ os, w_out v = w_out w ++ os ∧ followed (reported (dstate w)) os = reported (dstate v)) as Hsame.
  { intros v _ Ho Hs. exists []. by rewrite Ho, Hs, app_nil_r. }
  unfold exec. intros Hup.
  destruct (th_prog th) as [a|X g k|X g k|X g k|X g k|X g k|o k|c k|l k|l k|t' k]; cbn; intros Hp He.
  - done.
  - specialize (Hp _ Hup). destruct (g (w_module w)) as [x h]. simplify_eq. destruct Hp as [? ?].
    split_and!; [done..|]. by apply Hsame.
  - destruct (Hp (w_display w)) as [Ht Hk]. destruct (g (w_display w)) as [[x d] os]. simplify_eq.
    split_and!; [done..|]. by exists os.
  - destruct (g (w_own_preset w)) as [x o]. simplify_eq. split_and!; [done|done|]. by apply Hsame.
  - destruct (g (w_log w)) as [x st]. simplify_eq. split_and!; [done|done|]. by apply Hsame.
  - destruct (g (w_signals w)) as [x b]. simplify_eq. split_and!; [done|done|]. by apply Hsame.
  - simplify_eq. destruct Hp as [Ho Hk]. split_and!; [done..|]. exists [o]. split; [done|]. apply Ho.
  - simplify_eq. split_and!; [done..|]. by apply Hsame.
  - case_match; simplify_eq. split_and!; [done..|]. by apply Hsame.
  - repeat case_match; simplify_eq. split_and!; [done..|]. by apply Hsame.
  - case_match; simplify_eq. split_and!; [done..|]. by apply Hsame.
Qed.

Lemma tstep_tracked w c c' : tracked w c → tstep c c' → tracked w c'.
Proof.
  intros (Hup & Hts & os & Ho & Hs) Hstep. inversion Hstep as [w1 ts i th w' held p Hi He]; subst.
  cbn [fst snd] in *.
  destruct (exec_reports _ _ _ _ _ _ Hup (Forall_lookup_1 _ _ _ _ Hts Hi) He)
    as (Hup' & Hp & os' & Ho' & Hs').
  split_and!; [done|by apply Forall_insert|]. exists (os ++ os'). cbn [fst].
  split; [by rewrite Ho', Ho, app_assoc|]. by rewrite followed_app, Hs.
Qed.
Lemma rtc_tracked w c c' : tracked w c → rtc tstep c c' → tracked w c'.
Proof. intros Hc. induction 1; eauto using tstep_tracked. Qed.
End tracking.

(** ** The operations *)

Section operations.
Context {EF : EnvFilterLib} {J : Json} {DB : Sqlite} {LC : Libchat} `{E : !InitEnv DB LC}.
Implicit Types (w : world) (d : Display).

Lemma told_same d d' os :
  d_delivery_state d' = d_delivery_state d → (∀ s, followed s os = s) → told d d' os.
Proof. unfold told. intros -> Ho. apply Ho. Qed.

Lemma told_set d0 d k detail :
  reported (d_delivery_state d) = reported (d_delivery_state d0) →
  told d0 (set_delivery_state d k detail).1 (set_delivery_state d k detail).2.
Proof.
  intros Hd. pose proof (set_state_announces d0 d k detail Hd) as H.
  destruct (set_delivery_state d k detail) as [d' os]. unfold told, followed. cbn [fst snd].
  rewrite H. apply follow_move.
Qed.

Lemma told_set_eq d0 d k detail d' os :
  set_delivery_state d k detail = (d', os) →
  reported (d_delivery_state d) = reported (d_delivery_state d0) → told d0 d' os.
Proof. intros Hs Hd. pose proof (told_set d0 d k detail Hd) as H. by rewrite Hs in H. Qed.

Lemma told_node_started d ok m :
  told d (record_node_started d ok m).1 (record_node_started d ok m).2.
Proof.
  unfold record_node_started. destruct (negb _); [by apply told_same|].
  destruct ok; by apply told_set.
Qed.

Lemma persist_chat_delivery d i : d_delivery_state (persist_chat d i).2 = d_delivery_state d.
Proof.
  unfold persist_chat. destruct (d_chat_db d); [|done]. destruct (_ !! i); [|done].
  by destruct (save_chat _ _).
Qed.
Lemma record_message_delivery d m b : d_delivery_state (record_message d m b).2 = d_delivery_state d.
Proof.
  unfold record_message. destruct (_ !! msg_chat_id m); [|done]. destruct (d_chat_db d); [|done].
  by destruct (Persistence.record_message _ _ _).
Qed.
End operations.

Create HintDb reports discriminated.
#[local] Hint Resolve reports_with_client reports_install_with reports_read : reports.

(** Programs whose accesses leave the delivery state alone, up to their calls. *)
Ltac telling_program :=
  repeat first
    [ progress intros
    | done
    | solve [auto with reports]
    | apply reports_mut
    | apply reports_bind
    | apply reports_try
    | apply reports_foldr
    | case_match ].

(** A closure that leaves the delivery state alone. *)
Ltac untold :=
  apply told_same; cbn; try done;
  rewrite ?persist_chat_delivery, ?record_message_delivery; try done.

Section entries.
Context {EF : EnvFilterLib} {J : Json} {DB : Sqlite} {LC : Libchat} `{E : !InitEnv DB LC}.
Implicit Types (w : world) (d : Display).

Lemma reports_persist {R : Set} (f : Display → R * Display * list output) :
  (∀ d, d_delivery_state (f d).1.2 = d_delivery_state d ∧ ∀ s, followed s (f d).2 = s) →
  reports_state (with_display_mut f).
Proof. intros Hf. apply reports_mut. intros d. destruct (Hf d). by apply told_same. Qed.

Lemma reports_record m (b : bool) :
  reports_state (with_display_mut (λ d, (record_message d m b, []))).
Proof. apply reports_persist. intros d. split; [apply record_message_delivery|done]. Qed.

Lemma reports_message clock id content account inst :
  reports_state (record_message_received clock id content account inst).
Proof.
  apply reports_persist. intros d. destruct (decide _); [done|].
  destruct (receiving_session _ _ _) as [s b]. cbn zeta.
  pose proof (record_message_delivery (set_chats (<[id := s]> (chats (d_state d))) d)
    (inbound_message clock id content account inst) b) as H.
  destruct (record_message _ _ _) as [[u|e] d']; cbn in *; by rewrite H.
Qed.

Lemma reports_started id k : reports_state (record_conversation_started id k).
Proof.
  unfold record_conversation_started, observed_metadata. apply reports_bind; [telling_program|].
  intros [n desc]. apply reports_persist. intros d. destruct (decide _); [done|].
  destruct (chats _ !! id) as [s|]; [by destruct (history_only s)|].
  match goal with |- context [persist_chat ?d1 id] => pose proof (persist_chat_delivery d1 id) as H end.
  destruct (persist_chat _ _) as [[u|e] d']; cbn in *; by rewrite H.
Qed.

Lemma reports_handle_event clock e : reports_state (handle_event clock e).
Proof.
  destruct e as [id k|id content account signer|id|line|]; cbn [handle_event].
  - apply reports_started.
  - apply reports_message.
  - apply reports_persist. intros d. by destruct (_ || _).
  - done.
  - done.
Qed.

Lemma reports_connection_state status : reports_state (handle_connection_state status).
Proof.
  apply reports_mut. intros d. unfold connection_transition.
  destruct (negb _); [by apply told_same|].
  pose proof (told_set d d (map_connection_status status) "" eq_refl) as H.
  by destruct (set_delivery_state _ _ _).
Qed.
Lemma reports_node_started evt : reports_state (handle_node_started evt).
Proof.
  destruct evt as [[ok m]|]; [|done]. apply reports_mut. intros d.
  pose proof (told_node_started d ok m) as H. by destruct (record_node_started _ _ _).
Qed.
Lemma reports_claim : reports_state claim_delivery_retry.
Proof.
  apply reports_mut. intros d. cbn zeta. destruct (_ || _); [by apply told_same|].
  pose proof (told_set d d Initialising "" eq_refl) as H. by destruct (set_delivery_state _ _ _).
Qed.
Lemma reports_answered c res : reports_state (answered c res).
Proof.
  destruct c; cbn [answered]; unfold create_node_answered, node_info_answered, start_answered,
    send_answered, subscribe_answered, join_existing_node, start_node; telling_program; try (by untold).
  all: by eapply told_set_eq.
Qed.
#[local] Hint Resolve reports_handle_event reports_connection_state reports_node_started reports_claim
  reports_answered reports_record : reports.

Lemma reports_outputs os :
  Forall (λ o, ∀ s, followed s [o] = s) os → reports_state (outputs os).
Proof. induction 1; [done|]. by split. Qed.
Lemma reports_forward evt seen : reports_state (outputs (forward_message evt seen).1.1).
Proof.
  apply reports_outputs. unfold forward_message.
  repeat case_match; simplify_eq; repeat constructor.
Qed.
Lemma reports_finish_round b r seen inbound : reports_state (finish_round b r seen inbound).
Proof.
  unfold finish_round, drain, handle_connection_event, forward_subscriptions. telling_program.
Qed.
Lemma reports_run_bridge n b rounds : reports_state (run_bridge n b rounds).
Proof.
  revert b. induction rounds as [|r rounds IH]; intros b; cbn [run_bridge]; [done|].
  apply reports_bind; [|by intros [b'|]]. intros stop. destruct (stop : bool); [done|].
  destruct (rd_message r) as [evt| |]; [|apply reports_finish_round|done].
  pose proof (reports_forward evt (br_seen b)) as H. destruct (forward_message _ _) as [[os payloads] seen].
  apply reports_bind; [exact H|]. intros _. apply reports_finish_round.
Qed.
#[local] Hint Resolve reports_run_bridge : reports.

Lemma reports_entry e : e ≠ EShutdown → reports_state (entry_prog e).
Proof.
  destruct e; intros He; try done; clear He;
    cbn [entry_prog]; unfold ignore, init, start_delivery_bootstrap,
    run_events, api_result, get_log_path, health, check_live, with_client_try,
    api_get_installation_name, get_installation_name, api_get_address, get_address,
    api_list_conversations, list_conversations, api_status, status, api_set_installation_name,
    set_installation_name, api_create_conversation, create_conversation,
    api_create_group_conversation, create_group_conversation, api_add_group_member,
    add_group_member, api_get_messages, get_messages, api_list_group_members,
    list_group_members, api_send_message, send_message, api_set_conversation_nickname,
    set_conversation_nickname, api_delete_conversation, delete_conversation, null_result,
    api_result, publish; telling_program; try (by untold).
Qed.

(** What [status] says of the delivery state, its origin apart. *)
Definition said (s : Status) : string * string := (st_delivery_state s, st_detail s).

(** C22. From any point between an [init] and the [shutdown], whatever calls, answers and
    events are handled in whatever interleaving: a consumer that reads [status] there and
    follows [delivery_state_changed] from then on holds the state and the detail that
    [status] would answer. (Not whether the node was adopted: a join sets that without an
    event.) *)
Theorem events_track_delivery_state w (es : list entry) w1 ts1 w2 ts2 :
  is_Some (mh_inner (w_module w)) → Forall (λ e, e ≠ EShutdown) es →
  rtc tstep (launch w es) (w1, ts1) → rtc tstep (w1, ts1) (w2, ts2) →
  foldl follow (said (run status w1).1) (events_of (new_outputs w1 w2)) = said (run status w2).1.
Proof.
  intros Hup Hes H1 H2. assert (tracked w (launch w es)) as Hw.
  { split; [exact Hup|]. split; [|exists []; by rewrite app_nil_r].
    apply Forall_fmap, (Forall_impl _ _ _ Hes). intros e. apply reports_entry. }
  destruct (rtc_tracked _ _ _ Hw H1) as (Hup1 & Hts1 & _).
  assert (tracked w1 (w1, ts1)) as Hw1.
  { split; [done|]. split; [done|]. exists []. by rewrite app_nil_r. }
  destruct (rtc_tracked _ _ _ Hw1 H2) as (_ & _ & os & Ho & Hs). cbn [fst] in *.
  rewrite (new_outputs_app _ _ _ Ho). exact Hs.
Qed.
End entries.

(** ** An instance: the start handshake is answered while a message arrives *)

Section instance.
#[local] Instance env6 : InitEnv (mem_sqlite sample_disk) sample_libchat :=
  sample_env sample_disk (Some "/data").

Definition handshake : list entry :=
  [EAnswered (CreateNode (bootstrap_config "logos.test") "logos.test") accepted;
   EBridge 0 (mk_bridge true true seen_default [] [])
     [mk_round Timeout ([Some (true, "")], false) ([], false) []];
   EEvents 0 [(Some 9%Z, MessageReceived "convo-0" (as_bytes "hey") "saro" "phone")]].
(** The answer, then the message between two accesses of the bridge. *)
Definition handshake_turns : list nat := repeat 0 7 ++ [1; 2; 2; 2] ++ repeat 1 6.

Lemma events_track_delivery_state_witness :
  ∃ c, schedule handshake_turns (launch (E := env6) initialising_world handshake) = Some c ∧
    foldl follow ("initialising", "") (events_of (new_outputs initialising_world c.1)) =
      said (run status c.1).1 ∧
    said (run status c.1).1 = ("online", "") ∧ length (events_of (new_outputs initialising_world c.1)) = 2.
Proof.
  assert ((λ c, (said (run status c.1).1, length (events_of (new_outputs initialising_world c.1)))) <$>
    schedule handshake_turns (launch (E := env6) initialising_world handshake) =
    Some (("online", ""), 2)) as Hrun by (vm_compute; reflexivity).
  apply fmap_Some in Hrun as (c & Hrun & Hsaid). exists c. split; [exact Hrun|].
  assert (said (run status c.1).1 = ("online", "")) as Hs by exact (eq_sym (f_equal fst Hsaid)).
  split; [|split; [exact Hs|exact (eq_sym (f_equal snd Hsaid))]].
  destruct c as [w2 ts2]. apply schedule_steps in Hrun.
  refine (events_track_delivery_state (E := env6) initialising_world handshake initialising_world _
    w2 ts2 _ _ (rtc_refl _ _) Hrun).
  - eexists. reflexivity.
  - repeat constructor; intros ?; congruence.
Defined.
End instance.
