(* ===== verification/Replay.v ===== *)
(** * Following the module by its events

    The contract pushes an event for what happens and answers [get_messages] and
    [list_conversations] for what is. Here a consumer keeps a copy of the
    conversations and their messages by the events alone. *)
From stdpp Require Import relations.
From Stdlib Require Import Ascii.
From S2P Require Import Prelude Utf8 LogFiles Logging Delivery Persistence ModuleState Runtime.
From S2P Require Import Concurrency Actions Lifecycle Inbound Transport Api Threads SqliteMem.
From S2P Require Import Samples Interleaving ActionsFacts History Outcomes DeliveryMachine.

(** ** The consumer's copy *)

Record convo_view := mk_view {
  v_kind : string;
  v_name : option string;
  v_description : option string;
  v_messages : list ApiMessage;
  v_older : Z;                  (* counted, not shown *)
}.
Notation views := (gmap string convo_view).

Definition view_session (s : ChatSession) : convo_view :=
  mk_view (kind_as_str (kind s)) (name s) (description s) (map api_message (messages s))
    (older_messages s).
(** What the getters answer, as a consumer would keep it. *)
Definition view_of (st : AppState) : views := view_session <$> chats st.

Definition add_to (v : convo_view) (m : ApiMessage) : convo_view :=
  mk_view (v_kind v) (v_name v) (v_description v) (v_messages v ++ [m]) (v_older v).
(** A message of a conversation the consumer has not heard of opens a direct one. *)
Definition unheard_of : convo_view := mk_view "direct" None None [] 0.
Definition push_view (id : string) (m : ApiMessage) (v : views) : views :=
  <[id := add_to (default unheard_of (v !! id)) m]> v.

Definition follow_event (v : views) (e : event) : views :=
  match e with
  | message_received id text ts account =>
      push_view id (mk_api_message false text ts (Some account)) v
  | message_sent id text ts => push_view id (mk_api_message true text ts None) v
  | conversation_created id _ _ kind name desc =>
      <[id := mk_view kind (non_empty name) (non_empty desc) [] 0]> v
  | conversation_deleted id => delete id v
  | conversation_updated _ | members_changed _ | delivery_state_changed _ _ _ => v
  end.

(** The empty string stands for none, there and back. *)
Lemma non_empty_default (s : string) : non_empty (default "" (non_empty s)) = non_empty s.
Proof.
  unfold non_empty at 2 3. unfold str_eqb. case_bool_decide; [done|]. cbn.
  unfold non_empty, str_eqb. by rewrite bool_decide_eq_false_2.
Qed.

Lemma view_put id s st : view_of (put_chat id s st) = <[id := view_session s]> (view_of st).
Proof. unfold view_of, put_chat. cbn. apply fmap_insert. Qed.

Lemma view_push id s m st :
  chats st !! id = Some s ∨ chats st !! id = None ∧ view_session s = unheard_of →
  view_of (put_chat id (push_message m s) st) = push_view id (api_message m) (view_of st).
Proof.
  intros Hs. rewrite view_put. unfold push_view, view_of. f_equal. rewrite lookup_fmap.
  unfold view_session, add_to. cbn. rewrite map_app.
  destruct Hs as [->|[-> E]]; cbn; [done|].
  injection E as -> -> -> -> ->. done.
Qed.

(** ** One request at a time *)

Section replay.
Context {J : Json} {DB : Sqlite} {L : SqliteLaws DB} {LC : Libchat}.
Implicit Types (w : world) (d : Display).

Definition answers w : views := view_of (d_state (w_display w)).

(** The copy, kept up with what was put out between [w] and [w']. *)
Definition replayed w w' : Prop :=
  ∃ os, w_out w' = w_out w ++ os ∧ answers w' = foldl follow_event (answers w) (events_of os).

#[global] Instance replayed_preorder : PreOrder replayed.
Proof.
  split.
  - intros w. exists []. by rewrite app_nil_r.
  - intros w1 w2 w3 (os & H1 & V1) (os' & H2 & V2). exists (os ++ os').
    by rewrite H2, H1, app_assoc, V2, V1, events_of_app, foldl_app.
Qed.

Lemma replayed_same w w' os :
  w_out w' = w_out w ++ os → d_state (w_display w') = d_state (w_display w) →
  foldl follow_event (answers w) (events_of os) = answers w → replayed w w'.
Proof. intros Ho Hd Hv. exists os. split; [done|]. unfold answers in *. by rewrite Hd, Hv. Qed.

Lemma replayed_unchanged w w' : unchanged w w' → replayed w w'.
Proof. intros (Hd & Ho & _). apply (replayed_same _ _ []); [by rewrite app_nil_r|by rewrite Hd|done]. Qed.

Lemma wrote_view f r w st' w' :
  wrote f r (w_display w) st' (w_display w') → answers w' = view_of st'.
Proof. intros (c & c' & _ & Hd & _). unfold answers. by rewrite Hd. Qed.

(** An announcement of the delivery state leaves the copy as it is. *)
Lemma replayed_delivery i w :
  (∀ w, same_chats (w_display w) (w_display (run (dprog i) w).2)) →
  replayed w (run (dprog i) w).2.
Proof.
  intros Hsame. destruct (dprog_announced i w) as (os & Ho & He). destruct (Hsame w) as [Hs _].
  apply (replayed_same _ _ os); [done..|]. rewrite He. unfold move_events. by case_decide.
Qed.

Lemma open_replayed f line session created w :
  (∀ id, chat_id (session id) = id ∧ messages (session id) = [] ∧
         older_messages (session id) = 0%Z) →
  (∀ id v, follow_event v (created id) = <[id := view_session (session id)]> v) →
  connected (w_display w) →
  let out := run (open_with f line session created) w in
  reports_failure (map_ok (λ _, tt) out.1) (new_outputs w out.2) = false → replayed w out.2.
Proof.
  intros Hs Hview Hc out. pose proof (open_with_cases f line session created w Hs Hc) as H.
  subst out. destruct (run _ w) as [r w']. cbn [fst snd].
  destruct H as [[_ Hu]|(id & ms & _ & _ & Hw & Hok & Ho)]; [by intros _; apply replayed_unchanged|].
  intros Hr. eexists. split; [exact Ho|]. rewrite (wrote_view _ _ _ _ _ Hw), view_put.
  destruct r as [id'|e]; [by cbn; rewrite Hview|].
  destruct Hw as (c & c' & _ & _ & _ & Hv). by destruct e.
Qed.

Lemma send_replayed clock id content w :
  connected (w_display w) → is_str content = true →
  let '(r, w') := run (send_message clock id content) w in
  reports_failure r (new_outputs w w') = false → replayed w w'.
Proof.
  intros Hc Htyped. pose proof (send_message_cases clock id content w Hc Htyped) as H.
  destruct (run _ w) as [r w']. destruct (chats _ !! id) as [s|] eqn:Hs; [|by destruct H as [_ ->]].
  destruct (history_only s); [by destruct H as [_ ->]|].
  destruct H as [[_ Hu]|(_ & Hw & Ho)]; [by intros _; apply replayed_unchanged|].
  intros Hr. eexists. split; [exact Ho|]. rewrite (wrote_view _ _ _ _ _ Hw), view_push by by left.
  by rewrite (wrote_not_failed _ _ _ _ _ _ Hw Hr).
Qed.

Lemma received_replayed clock id content account signer w :
  connected (w_display w) →
  replayed w (run (record_message_received clock id content account signer) w).2.
Proof.
  intros Hc. pose proof (record_message_received_cases clock id content account signer w Hc) as H.
  cbn zeta in H. destruct (decide _); [by rewrite H|]. destruct H as [r H].
  destruct (receiving_session _ id account) as [s changed] eqn:Es. destruct H as [Hw Ho].
  eexists. split; [exact Ho|]. rewrite (wrote_view _ _ _ _ _ Hw).
  assert (view_of (put_chat id (push_message (received_message clock content account) s)
      (d_state (w_display w))) =
    push_view id (api_message (received_message clock content account)) (answers w)) as ->.
  { unfold answers. unfold receiving_session in Es. destruct (chats _ !! id) as [s0|] eqn:Hs0.
    - assert (view_session s = view_session s0) as Ev by (destruct (_ && _); by simplify_eq).
      rewrite <-(view_push id s0) by by left. rewrite !view_put. f_equal.
      unfold view_session in *. cbn. rewrite !map_app. congruence.
    - apply view_push. right. split; [done|]. cbv beta iota in Es.
      destruct (_ && _); by simplify_eq. }
  cbn. by destruct r.
Qed.

Lemma started_replayed id k w :
  connected (w_display w) → replayed w (run (record_conversation_started id k) w).2.
Proof.
  intros Hc.
  destruct (record_conversation_started_cases id k w Hc) as (warn & n & desc & Hwarn & Htold & H).
  assert (events_of warn = []) as Hev.
  { clear -Hwarn. induction Hwarn as [|o warn [line ->] _ IH]; [done|]. apply IH. }
  cbn zeta in H. destruct (decide _).
  { destruct H as [Hd Ho]. apply (replayed_same _ _ warn); [done|by rewrite Hd|by rewrite Hev]. }
  destruct (chats _ !! id) as [s|] eqn:Hs.
  - destruct H as [Hd Ho]. eexists. split; [exact Ho|]. rewrite events_of_app, Hev. unfold answers.
    rewrite Hd. change (d_state (set_chats _ _)) with
      (put_chat id (set_history_only false s) (d_state (w_display w))).
    rewrite view_put. change (view_session (set_history_only false s)) with (view_session s).
    rewrite insert_id; [by destruct (history_only s)|].
    unfold view_of. by rewrite lookup_fmap, Hs.
  - destruct H as (r & Hw & Ho). eexists. split; [exact Ho|].
    rewrite (wrote_view _ _ _ _ _ Hw), view_put, events_of_app, Hev.
    assert (non_empty (default "" n) = n ∧ non_empty (default "" desc) = desc) as [Hn Hdesc].
    { unfold told_metadata in Htold. clear -Htold.
      repeat case_match; injection Htold as -> ->; split; try apply non_empty_default; done. }
    cbn. rewrite Hn, Hdesc. by destruct r.
Qed.

Lemma add_member_replayed id peer w :
  let '(r, w') := run (add_group_member id peer) w in
  reports_failure r (new_outputs w w') = false → replayed w w'.
Proof.
  pose proof (add_member_display id peer w) as Hd.
  pose proof (add_member_says id peer w) as (os & Ho & He).
  destruct (run _ w) as [r w']. cbn [snd] in *. intros _.
  apply (replayed_same _ _ os); [done|by rewrite Hd|]. by destruct He as [->| ->].
Qed.

Lemma nickname_replayed id nick w :
  connected (w_display w) →
  let '(r, w') := run (set_conversation_nickname id nick) w in
  reports_failure r (new_outputs w w') = false → replayed w w'.
Proof.
  intros Hc. pose proof (set_conversation_nickname_cases id nick w Hc) as H.
  destruct (run _ w) as [r w']. destruct (chats _ !! id) as [s|] eqn:Hs; [|by destruct H as [_ ->]].
  destruct H as [Hw Ho]. intros _. eexists. split; [exact Ho|].
  rewrite (wrote_view _ _ _ _ _ Hw), view_put.
  change (view_session (set_nickname ?n s)) with (view_session s).
  rewrite insert_id; [by destruct r|]. unfold view_of. by rewrite lookup_fmap, Hs.
Qed.

Lemma delete_replayed id w :
  connected (w_display w) →
  let '(r, w') := run (delete_conversation id) w in
  reports_failure r (new_outputs w w') = false → replayed w w'.
Proof.
  intros Hc. pose proof (delete_conversation_cases id w Hc) as H.
  destruct (run _ w) as [r w']. destruct (chats _ !! id) as [s|] eqn:Hs; [|by destruct H as [_ ->]].
  destruct H as [Hw Ho]. intros Hr. eexists. split; [exact Ho|].
  rewrite (wrote_view _ _ _ _ _ Hw). rewrite (wrote_not_failed _ _ _ _ _ _ Hw Hr).
  cbn. unfold answers, view_of. cbn. apply fmap_delete.
Qed.

Lemma set_name_replayed n w :
  connected (w_display w) →
  let '(r, w') := run (set_installation_name n) w in
  reports_failure r (new_outputs w w') = false → replayed w w'.
Proof.
  intros Hc. pose proof (set_installation_name_cases n w Hc) as H.
  destruct (run _ w) as [r w']. destruct H as [Hw Ho]. intros _.
  exists []. rewrite app_nil_r. split; [done|]. rewrite (wrote_view _ _ _ _ _ Hw).
  by destruct r.
Qed.

Lemma event_replayed clock e w :
  connected (w_display w) → replayed w (run (handle_event clock e) w).2.
Proof.
  intros Hc. destruct e; cbn [handle_event].
  - by apply started_replayed.
  - by apply received_replayed.
  - unfold record_members_changed. rewrite run_with_display_mut. cbn [snd].
    destruct (_ || _); by eapply replayed_same.
  - by eapply replayed_same.
  - done.
Qed.
Lemma perform_replayed rq w :
  synced (w_display w) → typed rq → fresh_ids rq w →
  let '(r, w') := run (perform rq) w in
  reports_failure r (new_outputs w w') = false → replayed w w'.
Proof.
  intros Hsync Htyped Hfresh. pose proof (synced_connected _ Hsync) as Hc.
  destruct rq; rewrite ?run_perform_create, ?run_perform_group; cbn [perform];
    try rewrite run_no_result; unfold prod_map; cbn [fst snd].
  - rewrite create_conversation_open. by apply open_replayed.
  - rewrite create_group_conversation_open. by apply open_replayed.
  - by apply add_member_replayed.
  - by apply send_replayed.
  - by apply nickname_replayed.
  - by apply delete_replayed.
  - by apply set_name_replayed.
  - intros _. by apply event_replayed.
  - intros _. apply (replayed_delivery (Answered c res)). apply answered_chats.
  - intros _. apply (replayed_delivery (StartedEvent evt)). apply handle_node_started_chats.
  - intros _. apply (replayed_delivery (StatusEvent evt)). apply handle_connection_event_chats.
Qed.

Lemma steps_replayed w w' : synced (w_display w) → rtc step w w' → replayed w w'.
Proof.
  intros Hw Hsteps. induction Hsteps as [w|w w1 w' Hs _ IH]; [done|].
  transitivity w1; [|by eapply IH, step_synced].
  destruct Hs as (rq & Htyped & Hfresh & -> & Hr).
  pose proof (perform_replayed rq w Hw Htyped Hfresh) as H.
  destruct (run (perform rq) w) as [r w1]. by apply H.
Qed.

Lemma shown_view w id : shown w id = default [] (v_messages <$> answers w !! id).
Proof. rewrite shown_eq. unfold answers, view_of. rewrite lookup_fmap. by destruct (_ !! id). Qed.

(** C5. While requests are made one after another, each whole before the next, none
    reporting a failed write and libchat naming each new conversation apart from those
    on display, a consumer that took a copy of the conversations and follows the events
    has what the getters answer: the same conversations with the same kinds, names and descriptions, and the same
    messages in the same order, with as many more counted. (Of calls that overlap, the
    events may come in another order: [event_order_can_differ].) *)
Theorem events_replay_history w w' :
  synced (w_display w) → rtc step w w' →
  let copy := foldl follow_event (answers w) (events_of (new_outputs w w')) in
  copy = answers w' ∧ ∀ id, default [] (v_messages <$> copy !! id) = shown w' id.
Proof.
  intros Hw Hsteps. destruct (steps_replayed w w' Hw Hsteps) as (os & Ho & Hv).
  cbn zeta. rewrite (new_outputs_app _ _ _ Ho), <-Hv. split; [done|].
  intros id. by rewrite shown_view.
Qed.
End replay.

(** ** Instances *)

(** A reply sent, and a message received, in ["convo-0"]. *)
Lemma events_replay_history_witness :
  let w' := (run (send_message (Some 5%Z) "convo-0" "hi") up).2 in
  default [] (v_messages <$>
    foldl follow_event (answers up) (events_of (new_outputs up w')) !! "convo-0") =
  [mk_api_message true "hi" 5 None].
Proof.
  intros w'.
  destruct (events_replay_history (J := sample_json) up w' up_synced) as [_ H].
  - apply rtc_once. exists (SendMessage (Some 5%Z) "convo-0" "hi").
    split_and!; [done|by intros ms id _ []|done|by vm_compute].
  - rewrite H. by vm_compute.
Defined.

(** The same reply and message, at once: the reply's event is raised after its thread
    has let go of the display, the message's while its thread holds it. *)
Section order.
#[local] Instance env2 : InitEnv (mem_sqlite sample_disk) sample_libchat :=
  sample_env sample_disk (Some "/data").

Definition crossing : list entry :=
  [ESendMessage (Some 5%Z) "convo-0" "hi";
   EEvents 0 [(Some 6%Z, MessageReceived "convo-0" (as_bytes "hey") "saro" "phone")]].
Definition crossing_turns : list nat := repeat 0 10 ++ repeat 1 3 ++ repeat 0 1.

(** Between threads the order of the events is not that of the history: there is a
    schedule of a send and an arrival in which both finish, [get_messages] answers the
    sent message first, and a consumer that follows the events has it last. *)
Theorem event_order_can_differ :
  ∃ w' ts', rtc tstep (launch (E := env2) up crossing) (w', ts') ∧ forallb finished ts' = true ∧
    let sent := mk_api_message true "hi" 5 None in
    let received := mk_api_message false "hey" 6 (Some "saro") in
    shown w' "convo-0" = [sent; received] ∧
    default [] (v_messages <$>
      foldl follow_event (answers up) (events_of (new_outputs up w')) !! "convo-0") =
    [received; sent].
Proof.
  assert ((λ c, (forallb finished c.2, shown c.1 "convo-0",
      default [] (v_messages <$>
        foldl follow_event (answers up) (events_of (new_outputs up c.1)) !! "convo-0"))) <$>
    schedule crossing_turns (launch (E := env2) up crossing) =
    Some (true, [mk_api_message true "hi" 5 None; mk_api_message false "hey" 6 (Some "saro")],
      [mk_api_message false "hey" 6 (Some "saro"); mk_api_message true "hi" 5 None])) as H
    by (vm_compute; reflexivity).
  apply fmap_Some in H as ([w' ts'] & Hs & H).
  apply pair_equal_spec in H as [[Hf Hsent]%pair_equal_spec Hgot].
  exists w', ts'. split; [by eapply schedule_steps|].
  split; [exact (eq_sym Hf)|]. split; [exact (eq_sym Hsent)|exact (eq_sym Hgot)].
Qed.
End order.
