(* ===== verification/Failures.v ===== *)
(** * When writes fail

    [History.v] and [Restart.v] say what holds as long as no write is reported to
    have failed. Here any write may fail: what is on disk then lags what is on
    display, and a restart only loses what it lacks. *)
From stdpp Require Import relations.
From Stdlib Require Import Ascii.
From S2P Require Import Prelude Utf8 LogFiles Logging Delivery Persistence ModuleState Runtime.
From S2P Require Import Actions Lifecycle Inbound SqliteMem Samples ActionsFacts History.
From S2P Require Import Outcomes.

(** ** A disk that lags *)

(** What a row and the chat on display it is of have in common: all that no
    operation changes. *)
Definition row_of (r : chat_row) (s : ChatSession) : Prop :=
  row_kind r = Text (kind_as_str (kind s)) ∧ row_name r = name s ∧ row_description r = description s.

(** [lags t st]: the tables [t] hold the tombstones and the chosen name of the state
    [st], rows of its chats only, and of each chat's log its older part and some of
    the messages on display, in their order. *)
Record lags (t : tables) (st : AppState) : Prop := {
  lags_deleted : t_deleted t = deleted st;
  lags_name : t_settings t !! "installation_name" = installation_name st;
  lags_keys : ∀ i s, chats st !! i = Some s → chat_id s = i;
  lags_rows : ∀ i r, t_chats t !! i = Some r →
    row_chat_id r = i ∧ ∃ s, chats st !! i = Some s ∧ row_of r s;
  lags_messages : ∀ i s, chats st !! i = Some s →
    ∃ older new, map display_message (messages_of t i) = older ++ new ∧
      new `sublist_of` messages s ∧ older_messages s = Z.of_nat (length older) ∧
      (older = [] ∨ LOADED_PER_CHAT ≤ length new);
  lags_orphans : ∀ i, chats st !! i = None → messages_of t i = [];
}.

Lemma stored_lags t st : stored t st → lags t st.
Proof.
  intros Hst. split; try apply Hst.
  - intros i r. rewrite (stored_chats _ _ Hst), lookup_fmap, fmap_Some.
    intros (s & Hs & ->). split; [by apply (stored_keys _ _ Hst)|]. by exists s.
  - intros i s Hs. destruct (stored_messages _ _ Hst i s Hs) as (older & ? & ? & ?).
    by exists older, (messages s).
Qed.

(** [s] may take the place of what [st] holds under [i]. *)
Definition same_chat (st : AppState) (i : string) (s : ChatSession) : Prop :=
  same_log st i s ∧
  ∀ s0, chats st !! i = Some s0 →
    kind s = kind s0 ∧ name s = name s0 ∧ description s = description s0.

Lemma lags_put t st i s : lags t st → same_chat st i s → lags t (put_chat i s st).
Proof.
  intros Hst [[Hid Hlog] Hsame]. split; cbn; try apply Hst.
  - intros j s' [[<- <-]|[Hne Hj]]%lookup_insert_Some; [done|]. by apply (lags_keys _ _ Hst).
  - intros j r Hr. destruct (lags_rows _ _ Hst j r Hr) as (Hj & s0 & Hs0 & Hk & Hn & Hd).
    split; [done|]. destruct (decide (j = i)) as [->|Hne].
    + destruct (Hsame s0 Hs0) as (Ek & En & Ed). exists s. rewrite lookup_insert_eq.
      split; [done|]. unfold row_of. by rewrite Ek, En, Ed.
    + exists s0. by rewrite lookup_insert_ne.
  - intros j s' [[<- <-]|[Hne Hj]]%lookup_insert_Some; [|by apply (lags_messages _ _ Hst)].
    destruct (chats st !! i) as [s0|] eqn:Hi; destruct Hlog as [-> ->].
    + by apply (lags_messages _ _ Hst).
    + exists [], []. rewrite (lags_orphans _ _ Hst i Hi). by split_and!; [..|left].
  - intros j [Hj _]%lookup_insert_None. exact (lags_orphans _ _ Hst j Hj).
Qed.

Lemma lags_upsert t st i s :
  lags t st → chats st !! i = Some s → lags (stmt_apply (UpsertChat (row_of_session s)) t) st.
Proof.
  intros Hst Hs. pose proof (lags_keys _ _ Hst i s Hs) as Hid.
  split; try apply Hst. cbn. rewrite Hid.
  intros j r [[<- <-]|[Hne Hr]]%lookup_insert_Some; [|by apply (lags_rows _ _ Hst)].
  split; [done|]. by exists s.
Qed.

Lemma lags_put_saved t st i s :
  lags t st → same_chat st i s →
  lags (stmt_apply (UpsertChat (row_of_session s)) t) (put_chat i s st).
Proof. intros Hst Hs. apply (lags_upsert _ _ i); [by apply lags_put|apply lookup_insert_eq]. Qed.

(** A message goes on display whether it is recorded or not. *)
Lemma lags_message t st i s m (recorded : bool) :
  lags t st → chats st !! i = Some s → msg_chat_id m = i →
  lags (if recorded then add_message m t else t)
    (put_chat i (push_message (display_message m) s) st).
Proof.
  intros Hst Hi Hm.
  assert (t_deleted (if recorded then add_message m t else t) = t_deleted t ∧
    t_settings (if recorded then add_message m t else t) = t_settings t ∧
    t_chats (if recorded then add_message m t else t) = t_chats t) as (Ed & En & Ec)
    by by destruct recorded.
  assert (∀ j, j ≠ i → messages_of (if recorded then add_message m t else t) j =
    messages_of t j) as Hother.
  { intros j Hne. destruct recorded; [|done].
    by rewrite messages_of_add, decide_False by congruence. }
  split; rewrite ?Ed, ?En, ?Ec; cbn; try apply Hst.
  - intros j s' [[<- <-]|[Hne Hj]]%lookup_insert_Some; [|by apply (lags_keys _ _ Hst)].
    exact (lags_keys _ _ Hst i s Hi).
  - intros j r Hr. destruct (lags_rows _ _ Hst j r Hr) as (Hj & s0 & Hs0 & Hrow).
    split; [done|]. destruct (decide (j = i)) as [->|Hne].
    + rewrite lookup_insert_eq. rewrite Hi in Hs0. injection Hs0 as <-. by eexists.
    + rewrite lookup_insert_ne by done. by exists s0.
  - intros j s' [[<- <-]|[Hne Hj]]%lookup_insert_Some;
      [|rewrite Hother by done; by apply (lags_messages _ _ Hst)].
    destruct (lags_messages _ _ Hst i s Hi) as (older & new & Hlog & Hsub & Ho & Hfull).
    exists older, (new ++ if recorded then [display_message m] else []). split_and!.
    + destruct recorded; [|by rewrite app_nil_r].
      rewrite messages_of_add, decide_True, map_app, Hlog, <-app_assoc by done. done.
    + cbn. apply sublist_app; [done|]. destruct recorded; [done|apply sublist_nil_l].
    + done.
    + rewrite length_app. destruct Hfull; [by left|right; lia].
  - intros j [Hj Hne]%lookup_insert_None. rewrite Hother by congruence.
    exact (lags_orphans _ _ Hst j Hj).
Qed.

Lemma lags_delete t st i :
  lags t st →
  lags (deleted_tables i t)
    (mk_app_state (delete i (chats st)) (installation_name st) ({[i]} ∪ deleted st)).
Proof.
  intros Hst. split; cbn; try apply Hst.
  - by rewrite (lags_deleted _ _ Hst).
  - intros j s [Hne Hj]%lookup_delete_Some. by apply (lags_keys _ _ Hst).
  - intros j r [Hne Hr]%lookup_delete_Some. rewrite lookup_delete_ne by done.
    by apply (lags_rows _ _ Hst).
  - intros j s [Hne Hj]%lookup_delete_Some. unfold messages_of. cbn.
    rewrite lookup_delete_ne by done. by apply (lags_messages _ _ Hst).
  - intros j. unfold messages_of. cbn. rewrite !lookup_delete. case_decide; [done|].
    apply (lags_orphans _ _ Hst).
Qed.

Lemma lags_set_name t st n :
  lags t st →
  lags (stmt_apply (installation_name_write n) t) (mk_app_state (chats st) n (deleted st)).
Proof.
  intros Hst. split; destruct n; cbn; try apply Hst.
  - apply lookup_insert_eq.
  - apply lookup_delete_eq.
Qed.

Lemma lags_record t st i s m (changed recorded : bool) :
  lags t st → same_chat st i s → msg_chat_id m = i →
  lags (if recorded then record_tables (if changed then Some s else None) m t else t)
    (put_chat i (push_message (display_message m) s) st).
Proof.
  intros Hst Hs Hm.
  assert (lags (if recorded && changed
      then stmt_apply (UpsertChat (row_of_session s)) t else t) (put_chat i s st)) as Hput
    by (destruct recorded, changed; by first [apply lags_put_saved | apply lags_put]).
  pose proof (lags_message _ _ i s m recorded Hput (lookup_insert_eq _ _ _) Hm) as H.
  unfold put_chat in *. cbn in H. rewrite insert_insert_eq in H.
  by destruct recorded, changed.
Qed.

(** ** Any write may fail *)

Section attempts.
Context {J : Json} {DB : Sqlite} {L : SqliteLaws DB} {LC : Libchat}.
Implicit Types (w : world) (d : Display).

Definition behind d : Prop :=
  ∃ c, d_chat_db d = Some c ∧ base c = None ∧ lags (view c) (d_state d).

Lemma synced_behind d : synced d → behind d.
Proof. intros (c & Hc & Hb & Hst). exists c. split_and!; [done..|]. by apply stored_lags. Qed.

Lemma behind_connected d : behind d → connected d.
Proof. intros (c & Hc & Hb & _). by exists c. Qed.

(** A step of [History.v], except that its writes may have failed. *)
Definition attempt w w' : Prop :=
  ∃ rq, typed rq ∧ fresh_ids rq w ∧ w' = (run (perform rq) w).2.

Lemma step_attempt w w' : step w w' → attempt w w'.
Proof. intros (rq & ? & ? & ? & _). by exists rq. Qed.

Lemma wrote_behind f r d st' d' :
  behind d → wrote f r d st' d' →
  (∀ t, lags t (d_state d) → lags (if is_ok r then f t else t) st') → behind d'.
Proof.
  intros (c0 & Hc0 & _ & Hst) (c & c' & Hc & -> & Hb & Hv) Hf.
  rewrite Hc0 in Hc. injection Hc as <-. exists c'. split_and!; [done..|].
  assert (view c' = if is_ok r then f (view c0) else view c0) as -> by by destruct r as [|[]].
  by apply Hf.
Qed.

Lemma unchanged_behind w w' : unchanged w w' → behind (w_display w) → behind (w_display w').
Proof. by intros [-> _]. Qed.

Lemma same_chats_behind d d' : same_chats d d' → behind d → behind d'.
Proof. intros [Hs Hc] (c & Hdb & Hb & Hst). exists c. by rewrite Hs, Hc. Qed.

Lemma upsert_behind r d i s d' :
  behind d → same_chat (d_state d) i s →
  wrote (stmt_apply (UpsertChat (row_of_session s))) r d (put_chat i s (d_state d)) d' →
  behind d'.
Proof.
  intros Hd Hs Hw. eapply wrote_behind; [done..|]. intros t Ht.
  destruct (is_ok r); [by apply lags_put_saved|by apply lags_put].
Qed.

Lemma same_chat_fresh st i s :
  chats st !! i = None → chat_id s = i → messages s = [] → older_messages s = 0%Z →
  same_chat st i s.
Proof. intros Hi ???. unfold same_chat, same_log. by rewrite Hi. Qed.

Lemma same_chat_kept t st i s s' :
  lags t st → chats st !! i = Some s →
  chat_id s' = chat_id s → messages s' = messages s → older_messages s' = older_messages s →
  kind s' = kind s → name s' = name s → description s' = description s →
  same_chat st i s'.
Proof.
  intros Hst Hi Hid ?????. unfold same_chat, same_log. rewrite Hi, Hid.
  split; [split; [by apply (lags_keys _ _ Hst)|done]|]. by intros s0 [= <-].
Qed.

Lemma open_behind f line session created w :
  (∀ id, chat_id (session id) = id ∧ messages (session id) = [] ∧
         older_messages (session id) = 0%Z) →
  behind (w_display w) →
  (∀ ms id, mh_inner (w_module w) = Some ms → (f (ms_client ms)).1 = Ok id →
    chats (d_state (w_display w)) !! id = None) →
  behind (w_display (run (open_with f line session created) w).2).
Proof.
  intros Hs Hd Hfresh.
  pose proof (open_with_cases f line session created w Hs (behind_connected _ Hd)) as H.
  destruct (run _ w) as [r w']. destruct H as [[_ Hu]|(id & ms & Hms & Hid & Hw & _ & _)];
    [by eapply unchanged_behind|].
  eapply upsert_behind; [exact Hd| |exact Hw].
  destruct (Hs id) as (? & ? & ?). by apply same_chat_fresh; [eapply Hfresh|..].
Qed.

Lemma received_behind clock id content account signer w :
  behind (w_display w) →
  behind (w_display (run (record_message_received clock id content account signer) w).2).
Proof.
  intros Hd.
  pose proof (record_message_received_cases clock id content account signer w
    (behind_connected _ Hd)) as H.
  cbn zeta in H. destruct (decide _); [by rewrite H|]. destruct H as [r H].
  destruct (receiving_session _ id account) as [s changed] eqn:Es. destruct H as [Hw _].
  eapply (wrote_behind _ _ _ _ _ Hd Hw). intros t Ht.
  rewrite <-(display_received clock id content account signer).
  apply lags_record; [done| |done].
  unfold receiving_session in Es. destruct (chats _ !! id) as [s0|] eqn:Hs0.
  - eapply (same_chat_kept _ _ _ s0); [done..| | | | | |];
      destruct (_ && _); by injection Es as <- <-.
  - apply same_chat_fresh; [done|..]; by injection Es as <- <-.
Qed.

Lemma started_behind id k w :
  behind (w_display w) → behind (w_display (run (record_conversation_started id k) w).2).
Proof.
  intros Hd.
  destruct (record_conversation_started_cases id k w (behind_connected _ Hd))
    as (warn & n & desc & _ & _ & H).
  cbn zeta in H. destruct (decide _); [by destruct H as [-> _]|].
  destruct (chats _ !! id) as [s|] eqn:Hs.
  - destruct H as [-> _]. destruct Hd as (c & Hc & Hb & Hst). exists c. split_and!; [done..|].
    apply (lags_put _ _ id); [done|]. by eapply same_chat_kept.
  - destruct H as (r & Hw & _). eapply upsert_behind; [exact Hd| |exact Hw].
    by apply same_chat_fresh.
Qed.

Lemma attempt_behind w w' : behind (w_display w) → attempt w w' → behind (w_display w').
Proof.
  intros Hd (rq & Htyped & Hfresh & ->). pose proof (behind_connected _ Hd) as Hc.
  pose proof Hd as (c & _ & _ & Hst).
  destruct rq; rewrite ?run_perform_create, ?run_perform_group; cbn [perform];
    rewrite ?run_no_result; cbn [snd].
  - rewrite create_conversation_open. by apply open_behind.
  - rewrite create_group_conversation_open. by apply open_behind.
  - by rewrite add_member_display.
  - pose proof (send_message_cases clock id content w Hc Htyped) as H.
    destruct (run _ w) as [r w']. destruct (chats _ !! id) as [s|] eqn:Hs; [|by destruct H as [_ ->]].
    destruct (history_only s); [by destruct H as [_ ->]|].
    destruct H as [[_ Hu]|(_ & Hw & _)]; [by eapply unchanged_behind|].
    eapply (wrote_behind _ _ _ _ _ Hd Hw). intros t Ht.
    rewrite <-(display_sent clock id content Htyped). by apply lags_message.
  - pose proof (set_conversation_nickname_cases id nick w Hc) as H.
    destruct (run _ w) as [r w']. destruct (chats _ !! id) as [s|] eqn:Hs; [|by destruct H as [_ ->]].
    destruct H as [Hw _]. eapply upsert_behind; [exact Hd| |exact Hw]. by eapply same_chat_kept.
  - pose proof (delete_conversation_cases id w Hc) as H.
    destruct (run _ w) as [r w']. destruct (chats _ !! id) as [s|] eqn:Hs; [|by destruct H as [_ ->]].
    destruct H as [Hw _]. eapply (wrote_behind _ _ _ _ _ Hd Hw). intros t Ht.
    destruct (is_ok r); [by apply lags_delete|done].
  - pose proof (set_installation_name_cases n w Hc) as H.
    destruct (run _ w) as [r w']. destruct H as [Hw _].
    eapply (wrote_behind _ _ _ _ _ Hd Hw). intros t Ht.
    destruct (is_ok r); [by apply lags_set_name|done].
  - destruct e; cbn [handle_event]; [by apply started_behind|by apply received_behind| |done..].
    by rewrite members_changed_display.
  - by eapply same_chats_behind; [apply answered_chats|].
  - by eapply same_chats_behind; [apply handle_node_started_chats|].
  - by eapply same_chats_behind; [apply handle_connection_event_chats|].
Qed.

Lemma attempts_behind w w' : behind (w_display w) → rtc attempt w w' → behind (w_display w').
Proof. intros Hw. induction 1; eauto using attempt_behind. Qed.
End attempts.

(** ** Reading such a disk back *)

Section reading.
Context {DB : Sqlite} {L : SqliteLaws DB}.

(** What a restart makes of a chat, at most. *)
Definition less_of (s' s : ChatSession) : Prop :=
  chat_id s' = chat_id s ∧ kind s' = kind s ∧ name s' = name s ∧
  description s' = description s ∧ messages s' `sublist_of` messages s.

Lemma load_session_row c r k s :
  row_kind r = Text (kind_as_str k) → load_session c (Ok r) = Ok s →
  chat_id s = row_chat_id r ∧ kind s = k ∧ name s = row_name r ∧
  description s = row_description r ∧
  messages s = map display_message (last_n LOADED_PER_CHAT (messages_of (view c) (row_chat_id r))).
Proof.
  intros Hk. unfold load_session. cbn [and_then]. unfold session_of_row.
  rewrite Hk, kind_roundtrip. cbn.
  destruct (store_messages c _ LOADED_PER_CHAT) as [ms|] eqn:Em; [|done]. cbn.
  destruct (store_count c _) as [n|]; [|done]. cbn. intros [= <-].
  by apply messages_law in Em as ->.
Qed.

(** The newest page of a log whose tail is some of what was on display. *)
Lemma last_n_tail {A} n (older new : list A) :
  older = [] ∨ n ≤ length new → last_n n (older ++ new) `sublist_of` new.
Proof.
  unfold last_n. intros [->|Hn]; [apply sublist_drop|].
  rewrite length_app, drop_app_ge by lia. apply sublist_drop.
Qed.

Lemma load_session_lags c st r s :
  lags (view c) st → t_chats (view c) !! row_chat_id r = Some r →
  load_session c (Ok r) = Ok s →
  chat_id s = row_chat_id r ∧ ∃ s0, chats st !! row_chat_id r = Some s0 ∧ less_of s s0.
Proof.
  intros Hst Hr Hs. destruct (lags_rows _ _ Hst _ _ Hr) as (_ & s0 & Hs0 & Hk & Hn & Hd).
  destruct (load_session_row _ _ _ _ Hk Hs) as (Hid & Ek & En & Ed & Em).
  split; [done|]. exists s0. split; [done|]. unfold less_of.
  rewrite Hid, Ek, En, Ed, Em, Hn, Hd, (lags_keys _ _ Hst _ _ Hs0). split_and!; [done..|].
  destruct (lags_messages _ _ Hst _ _ Hs0) as (older & new & Hlog & Hsub & _ & Hfull).
  etrans; [|exact Hsub]. unfold last_n. rewrite <-skipn_map, <-(length_map display_message), Hlog.
  by apply last_n_tail.
Qed.

Lemma load_chats_found c st rs acc m :
  lags (view c) st → (∀ r, r ∈ rs → t_chats (view c) !! row_chat_id r = Some r) →
  load_chats c (map Ok rs) acc = Ok m →
  dom m = dom acc ∪ list_to_set (map row_chat_id rs) ∧
  ∀ i s, m !! i = Some s → acc !! i = Some s ∨ ∃ s0, chats st !! i = Some s0 ∧ less_of s s0.
Proof.
  intros Hst. revert acc. induction rs as [|r rs IH]; intros acc Hrs; cbn [load_chats map].
  { intros [= <-]. split; [set_solver|]. by left. }
  destruct (load_session c (Ok r)) as [s|] eqn:Es; [|done]. cbn. intros Hm.
  destruct (load_session_lags c st r s) as (Hid & s0 & Hs0 & Hless); [done|apply Hrs; by left|done|].
  destruct (IH _ (λ r Hr, Hrs r (list_elem_of_further _ _ _ Hr)) Hm) as [Hdom Hfound].
  split; [rewrite Hdom, dom_insert_L, Hid; cbn; set_solver|].
  intros i s' Hi. destruct (Hfound i s' Hi) as [[[<- <-]|[_ Hacc]]%lookup_insert_Some|]; eauto.
  right. exists s0. by rewrite Hid.
Qed.

Lemma load_state_lags c st st' :
  lags (view c) st → load_state c = Ok st' →
  deleted st' = deleted st ∧ installation_name st' = installation_name st ∧
  dom (chats st') = dom (t_chats (view c)) ∧
  ∀ i s', chats st' !! i = Some s' → ∃ s, chats st !! i = Some s ∧ less_of s' s.
Proof.
  intros Hst. unfold load_state.
  destruct (sql_select_chats c) as [rows|] eqn:Er; [|done]. cbn.
  destruct (load_chats c rows ∅) as [m|] eqn:Em; [|done]. cbn.
  destruct (sql_select_deleted c) as [ids|] eqn:Ed; [|done]. cbn.
  destruct (sql_select_setting c "installation_name") as [n|] eqn:En; [|done]. cbn.
  intros [= <-]. cbn.
  apply select_deleted_law in Ed. apply select_setting_law in En as ->.
  destruct (load_chats_rows _ _ _ _ Em) as [rs ->]. apply select_chats_law in Er.
  assert (∀ r, r ∈ rs → t_chats (view c) !! row_chat_id r = Some r) as Hrs.
  { intros r. rewrite Er, list_elem_of_fmap. intros ([i r'] & -> & H%elem_of_map_to_list).
    cbn. by rewrite (proj1 (lags_rows _ _ Hst i r' H)). }
  destruct (load_chats_found c st rs ∅ m Hst Hrs Em) as [Hdom Hfound]. split_and!.
  - apply set_eq. intros i.
    by rewrite elem_of_list_to_set, Ed, elem_of_elements, (lags_deleted _ _ Hst).
  - apply (lags_name _ _ Hst).
  - rewrite Hdom. apply set_eq. intros i.
    rewrite dom_empty_L, elem_of_union, elem_of_list_to_set, elem_of_dom, list_elem_of_fmap.
    split; [intros [Hi|Hi]; [set_solver|revert Hi]|intros Hi; right; revert Hi].
    + intros (r & -> & Hr). exists r. by apply Hrs.
    + intros [r Hr]. exists r. split; [by destruct (lags_rows _ _ Hst i r Hr)|].
      rewrite Er, list_elem_of_fmap. exists (i, r). by rewrite elem_of_map_to_list.
  - intros i s' Hi. destruct (Hfound i s' Hi) as [H|]; [|done]. by rewrite lookup_empty in H.
Qed.
End reading.

(** ** What a consumer sees of it *)

Section listing.
Context {DB : Sqlite} {LC : Libchat}.
Implicit Types (w : world).

(** [list_conversations] lists [id]. *)
Definition listed w (id : string) : Prop :=
  ∃ c, c ∈ (run list_conversations w).1 ∧ c_convo_id c = id.

Lemma in_listing w c :
  c ∈ (run list_conversations w).1 ↔
  ∃ i s, chats (d_state (w_display w)) !! i = Some s ∧ c = conversation_of s.
Proof.
  unfold list_conversations. rewrite run_with_display. cbn [fst].
  rewrite list_elem_of_fmap. split.
  - intros (s & -> & ([i s'] & -> & H%elem_of_map_to_list)%list_elem_of_fmap). by exists i, s'.
  - intros (i & s & Hi & ->). exists s. split; [done|].
    apply list_elem_of_fmap. exists (i, s). by rewrite elem_of_map_to_list.
Qed.

End listing.

Section less.
Context {DB : Sqlite} {LC : Libchat} {DB' : Sqlite} {LC' : Libchat}.
Variables (w1 : @world DB LC) (w3 : @world DB' LC').

(** Each chat of [w3] is one of [w1]'s, at most. *)
Definition less_than : Prop :=
  ∀ i s', chats (d_state (w_display w3)) !! i = Some s' →
    chat_id s' = i ∧ ∃ s, chats (d_state (w_display w1)) !! i = Some s ∧ less_of s' s.

Lemma less_observed t :
  dom (chats (d_state (w_display w3))) = dom (t_chats t) → less_than →
  ∀ id, listed w3 id ↔ ∃ r, t_chats t !! id = Some r.
Proof.
  intros Hdom Hfound id. change (listed w3 id ↔ is_Some (t_chats t !! id)).
  rewrite <-elem_of_dom, <-Hdom, elem_of_dom. split.
  - intros (c & (i & s' & Hs' & ->)%in_listing & <-). cbn.
    destruct (Hfound i s' Hs') as [-> _]. by exists s'.
  - intros [s' Hs']. exists (conversation_of s'). split; [apply in_listing; by exists id, s'|].
    by destruct (Hfound id s' Hs').
Qed.

Lemma less_found :
  less_than → ∀ c3, c3 ∈ (run list_conversations w3).1 →
  ∃ c1, c1 ∈ (run list_conversations w1).1 ∧ c_convo_id c3 = c_convo_id c1 ∧
    c_kind c3 = c_kind c1 ∧ c_name c3 = c_name c1 ∧ c_description c3 = c_description c1.
Proof.
  intros Hfound c3 (i & s' & Hs' & ->)%in_listing. destruct (Hfound i s' Hs') as (_ & s & Hs & Hless).
  exists (conversation_of s). split; [apply in_listing; by exists i, s|].
  destruct Hless as (Hid & Hk & Hname & Hdesc & _). cbn. by rewrite Hid, Hk, Hname, Hdesc.
Qed.

Lemma less_shown : less_than → ∀ id, shown w3 id `sublist_of` shown w1 id.
Proof.
  intros Hfound id. rewrite !shown_eq.
  destruct (chats (d_state (w_display w3)) !! id) as [s'|] eqn:Hs'; [|apply sublist_nil_l].
  destruct (Hfound id s' Hs') as (_ & s & -> & _ & _ & _ & _ & Hsub). cbn.
  by apply (fmap_sublist api_message).
Qed.
End less.

(** ** A restart after failures *)

Section restarts.
Context {J : Json} {DB : Sqlite} {L : SqliteLaws DB} {LC : Libchat} `{E : !InitEnv DB LC}.
Implicit Types (w : world).

(** The module goes down at [w1] and comes up at [w3] on what [w1] left on disk. *)
Definition comes_back (w1 w3 : world) : Prop :=
  (∀ p c, env_context = Some p → open (p +:+ "/chat.db") (store_key p) = Ok c →
    base c = None ∧ disk_of w1 = Some (view c)) ∧
  ∃ w2 ms, run initialize w2 = (Ok ms, w3).

(** A bring-up on tables that lag. *)
Lemma initialize_less t st1 w2 ms w3 :
  lags t st1 →
  (∀ p c, env_context = Some p → open (p +:+ "/chat.db") (store_key p) = Ok c → view c = t) →
  run initialize w2 = (Ok ms, w3) →
  let st3 := d_state (w_display w3) in
  deleted st3 = deleted st1 ∧ installation_name st3 = installation_name st1 ∧
  dom (chats st3) = dom (t_chats t) ∧
  ∀ i s', chats st3 !! i = Some s' →
    chat_id s' = i ∧ ∃ s, chats st1 !! i = Some s ∧ less_of s' s.
Proof.
  intros Hst Hdisk Hrun.
  apply initialize_ok in Hrun as (p & c & st & live & Hp & Hopen & Hload & _ & -> & _).
  rewrite <-(Hdisk p c Hp Hopen) in *.
  destruct (load_state_lags c _ st Hst Hload) as (Hd & Hn & Hdom & Hfound).
  cbn. split_and!; [done..|by rewrite dom_fmap_L|].
  intros i s'. rewrite lookup_fmap, fmap_Some. intros (s & Hs & ->).
  destruct (Hfound i s Hs) as (s0 & Hs0 & Hless). split; [|by exists s0].
  destruct Hless as [Hid _]. cbn. by rewrite Hid, (lags_keys _ _ Hst i s0).
Qed.

Lemma comes_back_less w1 w3 :
  behind (w_display w1) → comes_back w1 w3 →
  let st1 := d_state (w_display w1) in
  let st3 := d_state (w_display w3) in
  deleted st3 = deleted st1 ∧ installation_name st3 = installation_name st1 ∧
  (∀ t, disk_of w1 = Some t → dom (chats st3) = dom (t_chats t)) ∧
  ∀ i s', chats st3 !! i = Some s' →
    chat_id s' = i ∧ ∃ s, chats st1 !! i = Some s ∧ less_of s' s.
Proof.
  intros (c1 & Hc1 & _ & Hst) (Hdisk & w2 & ms & Hrun).
  assert (disk_of w1 = Some (view c1)) as Ev by (unfold disk_of; by rewrite Hc1).
  destruct (initialize_less (view c1) (d_state (w_display w1)) w2 ms w3)
    as (Hd & Hn & Hdom & Hfound); [done| |done|].
  { intros p c Hp Hopen. destruct (Hdisk p c Hp Hopen) as [_ Hv]. rewrite Ev in Hv.
    by injection Hv. }
  split_and!; [done..| |done]. intros t. rewrite Ev. by intros [= <-].
Qed.

(** After any requests, of which any write may have failed, a module brought up again
    on the same [chat.db] only lacks what could not be written: it lists the
    conversations that have a row, each with the kind, name and description it had on
    display, shows of each some of the messages that were on display, in their order,
    and has every tombstone and the chosen name. *)
Theorem failed_writes_only_lose (w w1 w3 : world) :
  synced (w_display w) → rtc attempt w w1 → comes_back w1 w3 →
  (∀ t id, disk_of w1 = Some t → listed w3 id ↔ ∃ r, t_chats t !! id = Some r) ∧
  (∀ c3, c3 ∈ (run list_conversations w3).1 →
     ∃ c1, c1 ∈ (run list_conversations w1).1 ∧ c_convo_id c3 = c_convo_id c1 ∧
       c_kind c3 = c_kind c1 ∧ c_name c3 = c_name c1 ∧ c_description c3 = c_description c1) ∧
  (∀ id, shown w3 id `sublist_of` shown w1 id) ∧
  deleted (d_state (w_display w3)) = deleted (d_state (w_display w1)) ∧
  installation_name (d_state (w_display w3)) = installation_name (d_state (w_display w1)).
Proof.
  intros Hw Hsteps Hback. apply synced_behind in Hw.
  destruct (comes_back_less w1 w3 (attempts_behind _ _ Hw Hsteps) Hback)
    as (Hd & Hn & Hdom & Hfound). split_and!; [| | |done..].
  - intros t id Ht. apply (less_observed w1 w3 t (Hdom t Ht) Hfound).
  - exact (less_found w1 w3 Hfound).
  - exact (less_shown w1 w3 Hfound).
Qed.

(** *** A row that was never written *)

Definition no_row w (id : string) : Prop := ∀ t, disk_of w = Some t → t_chats t !! id = None.

(** Messages sent in one conversation. *)
Definition send_all (id : string) (sends : list (option Z * string)) w : world :=
  foldl (λ w '(clock, content), (run (send_message clock id content) w).2) w sends.

Lemma send_no_row clock id content w :
  connected (w_display w) → is_str content = true → no_row w id →
  let w' := (run (send_message clock id content) w).2 in
  no_row w' id.
Proof.
  intros Hc Htyped Hrow w'. subst w'.
  pose proof (send_message_cases clock id content w Hc Htyped) as H.
  destruct (run _ w) as [r w']. cbn [snd].
  destruct (chats _ !! id) as [s|]; [|by destruct H as [_ ->]].
  destruct (history_only s); [by destruct H as [_ ->]|].
  destruct H as [[_ [Hd _]]|(_ & Hw & _)]; [unfold no_row, disk_of in *; by rewrite Hd|].
  destruct (wrote_observed _ _ _ _ _ Hw) as (_ & Hdisk & _). intros t. rewrite Hdisk.
  destruct (disk_of w) as [t0|] eqn:Ht0; [|done]. intros [= <-].
  pose proof (Hrow t0 Ht0) as Hnone. by destruct (is_ok r).
Qed.

Lemma send_all_no_row id sends w :
  behind (w_display w) → Forall (λ m, is_str m.2 = true) sends → no_row w id →
  behind (w_display (send_all id sends w)) ∧ no_row (send_all id sends w) id.
Proof.
  revert w. induction sends as [|[clock content] sends IH]; intros w Hd Htyped Hrow; [done|].
  inversion_clear Htyped as [|? ? Ht Hts]. cbn [send_all foldl]. apply IH; [|done|].
  - apply (attempt_behind w); [done|]. exists (SendMessage clock id content).
    split_and!; [done|by intros ms i _ []|done].
  - apply send_no_row; [by apply behind_connected|done..].
Qed.

(** C36. A conversation whose row could not be written when it was created gets no row by
    being written to: whatever is sent in it, and reported sent, the next bring-up
    does not list it. *)
Theorem sends_do_not_save_conversation (w w3 : world) id sends :
  behind (w_display w) → no_row w id → Forall (λ m, is_str m.2 = true) sends →
  comes_back (send_all id sends w) w3 → ¬ listed w3 id.
Proof.
  intros Hd Hrow Htyped Hback. destruct (send_all_no_row id sends w Hd Htyped Hrow) as [Hd1 Hrow1].
  destruct (comes_back_less _ w3 Hd1 Hback) as (_ & _ & Hdom & Hkeys).
  destruct Hd1 as (c1 & Hc1 & _). intros (c & (i & s & Hs & ->)%in_listing & Hid). cbn in Hid.
  destruct (Hkeys i s Hs) as [Hi _]. rewrite Hid in Hi. subst i.
  assert (disk_of (send_all id sends w) = Some (view c1)) as Ht by (unfold disk_of; by rewrite Hc1).
  assert (id ∈ dom (t_chats (view c1))) as [r Hr]%elem_of_dom
    by (rewrite <-(Hdom _ Ht); by apply elem_of_dom).
  by rewrite (Hrow1 _ Ht) in Hr.
Qed.
End restarts.

(** ** Instances *)

(** Creating ["convo-1"] fails to write its row; the reply sent in it is recorded. *)
Definition unsaved_disk : tables :=
  add_message (chat_message "convo-1" Sent 5 (as_bytes "hi")) sample_disk.
Definition unsaved : @world (mem_sqlite unsaved_disk) sample_libchat :=
  (run (create_conversation "raya") (sample_world unsaved_disk [true])).2.
Definition replied : @world (mem_sqlite unsaved_disk) sample_libchat :=
  send_all "convo-1" [(Some 5%Z, "hi")] unsaved.
#[local] Instance env3 : InitEnv (mem_sqlite unsaved_disk) sample_libchat :=
  sample_env unsaved_disk (Some "/data").
Definition returned : @world (mem_sqlite unsaved_disk) sample_libchat :=
  (run (DB := mem_sqlite unsaved_disk) initialize (world0 unsaved_disk)).2.

Lemma unsaved_attempt :
  attempt (J := sample_json) (sample_world unsaved_disk [true]) unsaved.
Proof.
  exists (CreateConversation "raya"). split_and!; [done| |].
  - intros ms id [= <-] [= <-]. by vm_compute.
  - by rewrite run_perform_create.
Qed.

Lemma replied_comes_back : comes_back (L := mem_laws _) replied returned.
Proof.
  split.
  - intros p c [= <-] [= <-]. split; [done|]. by vm_compute.
  - exists (world0 unsaved_disk),
      (mk_module_state (LC := sample_libchat) client0 0 (Some (BridgeThread 0)) (Some (EventThread 0))).
    done.
Qed.

Lemma failed_writes_only_lose_witness :
  shown replied "convo-1" = [mk_api_message true "hi" 5 None] ∧ shown returned "convo-1" = [] ∧
  (∀ id, shown returned id `sublist_of` shown replied id).
Proof.
  split_and!; [by vm_compute..|].
  destruct (failed_writes_only_lose (J := sample_json) (L := mem_laws _) (E := env3)
    (sample_world unsaved_disk [true]) replied returned) as (_ & _ & H & _); [| | |exact H].
  - apply sample_synced.
  - eapply rtc_l; [apply unsaved_attempt|]. apply rtc_once.
    exists (SendMessage (Some 5%Z) "convo-1" "hi").
    split_and!; [done|by intros ms id _ []|done].
  - apply replied_comes_back.
Defined.

(** The reply was reported sent. *)
Lemma sends_do_not_save_conversation_witness :
  is_ok (run (send_message (Some 5%Z) "convo-1" "hi") unsaved).1 = true ∧
  shown replied "convo-1" = [mk_api_message true "hi" 5 None] ∧ ¬ listed returned "convo-1".
Proof.
  split; [by vm_compute|]. split; [by vm_compute|].
  refine (sends_do_not_save_conversation (J := sample_json) (L := mem_laws _) (E := env3)
    unsaved returned "convo-1" [(Some 5%Z, "hi")] _ _ _ _).
  - eapply (attempt_behind (J := sample_json) (sample_world unsaved_disk [true]));
      [apply synced_behind, sample_synced|apply unsaved_attempt].
  - intros t. vm_compute. by intros [= <-].
  - by constructor.
  - apply replied_comes_back.
Defined.
