(* ===== verification/BringUp.v ===== *)
(** * Bringing the module up and taking it down ([lib.rs], [init] and [shutdown]) *)
From S2P Require Import Prelude Utf8 LogFiles Logging Delivery Persistence ModuleState Runtime.
From S2P Require Import Actions Lifecycle Inbound Api SqliteMem Samples ActionsFacts History.
From S2P Require Import Signals Outcomes DeliveryMachine.

Section init.
Context {EF : EnvFilterLib} {J : Json} {DB : Sqlite} {LC : Libchat} `{E : !InitEnv DB LC}.
Implicit Types (w : world).

(** [install_with] on each state of the handle. *)
Lemma run_install_with {X} (f : prog (result ModuleState X)) w :
  run (install_with f) w =
  if mh_poisoned (w_module w) then (Err LockPoisoned, w)
  else match mh_inner (w_module w) with
       | Some _ => (Ok (Ok AlreadyInstalled), w)
       | None =>
           match run f w with
           | (Ok ms, w') =>
               (Ok (Ok Installed),
                put_module (mk_module_handle (mh_poisoned (w_module w')) (Some ms)) w')
           | (Err e, w') => (Ok (Err e), w')
           end
       end.
Proof.
  destruct w as [[p inner] d o pd out lg b]. cbn. destruct p; [done|].
  destruct inner as [ms|]; [done|]. rewrite run_bind.
  by destruct (run f _) as [[ms|e] w'].
Qed.

(** A failed [initialize] leaves everything but the lines it logged alone. *)
Lemma initialize_err w e w' :
  run initialize w = (Err e, w') → w' = w.
Proof.
  unfold initialize. rewrite run_try_bind. cbn [run fst snd].
  destruct local_setup as [[[client c] st]|err]; [|by intros [= _ <-]].
  rewrite run_try_bind. cbn [run fst snd]. destruct env_on_message_received; [|by intros [= _ <-]].
  cbn [map_err]. rewrite run_try_bind. cbn [run fst snd].
  destruct env_on_node_started; [|by intros [= _ <-]]. cbn [map_err].
  by destruct env_on_connection_state_changed.
Qed.

Lemma initialize_keeps w r w' :
  run initialize w = (r, w') →
  w_module w' = w_module w ∧ w_own_preset w' = w_own_preset w ∧ w_pending w' = w_pending w ∧
  w_log w' = w_log w.
Proof.
  destruct r as [ms|e]; [|by intros ->%initialize_err].
  unfold initialize. rewrite run_try_bind. cbn [run fst snd].
  destruct local_setup as [[[client c] st]|err]; [|done].
  rewrite run_try_bind. cbn [run fst snd]. destruct env_on_message_received; [|done].
  cbn [map_err]. rewrite run_try_bind. cbn [run fst snd].
  destruct env_on_node_started; [|done]. cbn [map_err].
  destruct env_on_connection_state_changed; cbn; intros H; by simplify_eq.
Qed.

Definition logged_init (env : log_env) (config : ChatConfig) w : world :=
  put_log (install_once env (default "" (log_level config)) (w_log w)).1 w.

Lemma run_init env config w :
  run (init env config) w =
  let w := logged_init env config w in
  let preset := preset_of config in
  match run (install_with initialize) w with
  | (Err _, w) => (Err ERR_LOCK_POISONED, w)
  | (Ok (Ok Installed), w) =>
      (Ok VNull,
       put_pending (CreateNode (bootstrap_config preset) preset)
         (put_output (Log LInfo ("init: state installed, joining delivery preset " +:+ preset)) w))
  | (Ok (Ok AlreadyInstalled), w) =>
      match run claim_delivery_retry w with
      | (true, w) =>
          (Ok VNull,
           put_pending (CreateNode (bootstrap_config preset) preset)
             (put_output (Log LInfo
                ("init: delivery never started, joining delivery preset " +:+ preset)) w))
      | (false, w) =>
          (Ok VNull, put_output (Log LWarn
             "init: already initialised; any new arguments are ignored, call shutdown() first to reconfigure") w)
      end
  | (Ok (Err e), w) =>
      (Err (init_error_display e), put_output (Log LError ("init: " +:+ init_error_display e)) w)
  end.
Proof.
  unfold init. change (mbind ?k ?p) with (bind p k). rewrite run_bind.
  change (run (on_log _) w) with (tt, logged_init env config w). cbn [fst snd].
  change (mbind ?k ?p) with (bind p k). rewrite run_bind. cbn zeta.
  destruct (run (install_with initialize) _) as [[[[]|e]|[]] w1]; cbn [fst snd]; try done.
  change (mbind ?k ?p) with (bind p k). rewrite run_bind.
  by destruct (run claim_delivery_retry w1) as [[] w2].
Qed.

(** C25. An [init] that fails says why and changes nothing a caller can see but the log:
    no module, no display, no call to delivery_module. *)
Theorem failed_init_changes_nothing env config w reason w' :
  run (init env config) w = (Err reason, w') →
  w_module w' = w_module w ∧ w_display w' = w_display w ∧ w_pending w' = w_pending w ∧
  events_of (new_outputs w w') = [] ∧
  (reason = ERR_LOCK_POISONED ∧ mh_poisoned (w_module w) = true ∨
   ∃ e, reason = init_error_display e ∧ mh_inner (w_module w) = None ∧
     (run initialize (logged_init env config w)).1 = Err e).
Proof.
  rewrite run_init. cbn zeta. rewrite run_install_with. change (w_module (logged_init env config w)) with (w_module w).
  destruct (mh_poisoned _) eqn:Hp.
  { intros [= <- <-]. split_and!; [done..| |by left]. unfold new_outputs. cbn. by rewrite drop_all. }
  destruct (mh_inner _) as [ms|] eqn:Hi.
  { destruct (run claim_delivery_retry _) as [[] w1]; done. }
  destruct (run initialize (logged_init env config w)) as [[ms|e] w1] eqn:Einit; [done|].
  apply initialize_err in Einit as Hw. subst w1. intros [= <- <-].
  split_and!; [done..| |].
  - unfold new_outputs. cbn. by rewrite drop_app_length.
  - right. exists e. done.
Qed.

(** C24. [init] on a module that is up keeps the module, the conversations and the log,
    and calls delivery_module again exactly for a bootstrap that failed before its
    node started, then with this call's preset. *)
Theorem init_again env config w ms :
  mh_poisoned (w_module w) = false → mh_inner (w_module w) = Some ms →
  ls_installed (w_log w) = true →
  let '(r, w') := run (init env config) w in
  r = Ok VNull ∧ w_module w' = w_module w ∧ w_log w' = w_log w ∧
  d_state (w_display w') = d_state (w_display w) ∧
  d_chat_db (w_display w') = d_chat_db (w_display w) ∧
  (if bool_decide (ds_state (dstate w) = Error) && negb (ds_started (dstate w))
   then dstate w' = set_state Initialising "" (dstate w) ∧
        w_pending w' = w_pending w ++
          [CreateNode (bootstrap_config (preset_of config)) (preset_of config)]
   else dstate w' = dstate w ∧ w_pending w' = w_pending w).
Proof.
  intros Hp Hi Hlog. rewrite run_init. cbn zeta.
  assert (logged_init env config w = w) as ->.
  { unfold logged_init, install_once. rewrite Hlog. by destruct w. }
  rewrite run_install_with, Hp, Hi. unfold claim_delivery_retry.
  rewrite run_with_display_mut. cbn zeta. fold (dstate w).
  pose proof (set_delivery_state_chats (w_display w) Initialising "") as [Hs Hc].
  pose proof (set_delivery_state_eq (w_display w) Initialising "") as Hd.
  destruct (bool_decide _), (ds_started (dstate w)); cbn [negb andb orb fst snd];
    rewrite ?put_display_id; try done.
  destruct (set_delivery_state _ _ _) as [d os]. cbn in *. by split_and!.
Qed.

(** An [init] that brings the module up went through [initialize]. *)
Lemma init_initializes env config w w' :
  mh_inner (w_module w) = None → run (init env config) w = (Ok VNull, w') →
  ∃ ms w1, run initialize (logged_init env config w) = (Ok ms, w1) ∧
    mh_inner (w_module w') = Some ms ∧ w_display w' = w_display w1 ∧
    w_pending w' = w_pending w ++
      [CreateNode (bootstrap_config (preset_of config)) (preset_of config)].
Proof.
  intros Hi. rewrite run_init. cbn zeta. rewrite run_install_with.
  change (w_module (logged_init env config w)) with (w_module w).
  rewrite Hi. destruct (mh_poisoned _); [done|].
  destruct (run initialize _) as [[ms|e] w1] eqn:Einit; [|done]. intros [= <-].
  apply initialize_keeps in Einit as Hkeep. destruct Hkeep as (_ & _ & Hpend & _).
  exists ms, w1. cbn. by rewrite Hpend.
Qed.

(** C23. [init] on a module that is down installs the client, shows what [chat.db] holds
    and dispatches the node's creation on the preset it was given, [logos.test] by
    default; delivery is initialising. *)
Theorem first_init env config w w' :
  mh_inner (w_module w) = None → run (init env config) w = (Ok VNull, w') →
  ∃ ms c st live,
    mh_inner (w_module w') = Some ms ∧ d_chat_db (w_display w') = Some c ∧
    load_state c = Ok st ∧ list_all_conversations (ms_client ms) = Ok live ∧
    d_state (w_display w') = mark_history_only live st ∧ dstate w' = initialising ∧
    (run get_address w').1 = client_addr (ms_client ms) ∧
    w_pending w' = w_pending w ++
      [CreateNode (bootstrap_config (preset_of config)) (preset_of config)].
Proof.
  intros Hi (ms & w1 & Einit & Hms & Hd & Hpend)%init_initializes; [|done].
  apply initialize_ok in Einit as (p & c & st & live & _ & _ & Hload & Hlive & Hdis & _).
  exists ms, c, st, live. unfold dstate, get_address. rewrite run_with_display, Hd, Hdis.
  by split_and!.
Qed.
End init.

Section shutdown.
Context {EF : EnvFilterLib} {J : Json} {DB : Sqlite} {LC : Libchat}.
Implicit Types (w : world).

(** C26. [shutdown] stops the bridge, drops the client, closes [chat.db] and forgets everything but the
    preset of the node, which outlives it; from then on the module is as before its
    first [init], and a second [shutdown] finds nothing to do. *)
Theorem shutdown_resets w ms :
  mh_poisoned (w_module w) = false → mh_inner (w_module w) = Some ms →
  ms_known (w_signals w) ms →
  let '(r, w') := run api_shutdown w in
  r = Ok VNull ∧ mh_inner (w_module w') = None ∧
  told (w_signals w') (BridgeThread (ms_inbound_stop ms)) = true ∧
  told (w_signals w') (EventThread (ms_inbound_stop ms)) = true ∧
  d_chat_db (w_display w') = None ∧ w_own_preset w' = w_own_preset w ∧
  w_pending w' = w_pending w ∧ new_outputs w w' = [] ∧
  (run status w').1 = mk_status 0 "stopped" "" false ∧
  (run list_conversations w').1 = [] ∧
  (∀ peer, (run (api_create_conversation peer) w').1 = Err "module not initialised") ∧
  run api_shutdown w' = (Ok VNull, w').
Proof.
  intros Hp Hi [Hn _]. destruct w as [[p inner] d own pend out lg ss]. cbn in Hp, Hi, Hn. subst.
  destruct (lookup_lt_is_Some_2 ss (ms_inbound_stop ms) Hn) as [s Hs].
  destruct ms as [c n [t|] [t'|]]; cbn in Hs |- *; split_and!; try done;
    try (unfold stop_flag, client_dropped; by rewrite !list_lookup_alter_eq, Hs);
    unfold new_outputs; cbn; by rewrite app_nil_r, drop_all.
Qed.
End shutdown.

(** *** Instances *)

Definition sample_config : ChatConfig := mk_chat_config None (Some "debug").

(** The outcome of an [init] on the sample module. *)
Definition sample_init (path : option string) (w : @world (mem_sqlite sample_disk) sample_libchat) :=
  run (@init sample_filter (mem_sqlite sample_disk) sample_libchat
         (sample_env sample_disk path) log_env0 sample_config) w.

Lemma pair_eq {A B} (p : A * B) a b : p = (a, b) ↔ p.1 = a ∧ p.2 = b.
Proof. destruct p. naive_solver. Qed.

Lemma failed_init_changes_nothing_witness :
  w_display (sample_init None (world0 sample_disk)).2 = display_default ∧
  w_pending (sample_init None (world0 sample_disk)).2 = [].
Proof.
  destruct (failed_init_changes_nothing (E := sample_env sample_disk None) log_env0 sample_config
    (world0 sample_disk) (init_error_display NoPersistencePath)
    (sample_init None (world0 sample_disk)).2) as (_ & H1 & H2 & _);
    [by apply pair_eq; split|].
  split; [exact H1|exact H2].
Defined.

Lemma first_init_witness :
  let w' := (sample_init (Some "/data") (world0 sample_disk)).2 in
  dstate w' = initialising ∧
  w_pending w' = [CreateNode (bootstrap_config "logos.test") "logos.test"].
Proof.
  intros w'. destruct (first_init (E := sample_env sample_disk (Some "/data")) log_env0 sample_config
    (world0 sample_disk) w') as (ms & c & st & live & _ & _ & _ & _ & _ & Hd & _ & Hp);
    [done|by apply pair_eq; split|].
  split; [exact Hd|exact Hp].
Defined.

(** A bootstrap that failed, and a subscriber installed by an earlier [init]. *)
Definition failed_world : @world (mem_sqlite sample_disk) sample_libchat :=
  let w := world_up sample_disk sample_disk sample_state []
             (mk_delivery_state Error "delivery_module.createNode failed: x" false false false)
             client0 in
  put_log (mk_log_statics true "/data/chat_module_20260730_120000.log" None None (mk_fs ∅ ∅)) w.

Lemma init_again_witness :
  w_pending (sample_init (Some "/data") failed_world).2 =
    [CreateNode (bootstrap_config "logos.test") "logos.test"].
Proof.
  pose proof (init_again (E := sample_env sample_disk (Some "/data")) log_env0 sample_config
    failed_world _ eq_refl eq_refl eq_refl) as H.
  unfold sample_init. destruct (run _ failed_world) as [r w'].
  destruct H as (_ & _ & _ & _ & _ & _ & Hp). exact Hp.
Defined.

Lemma failed_known ms :
  mh_inner (w_module failed_world) = Some ms → ms_known (w_signals failed_world) ms.
Proof. intros [= <-]. split; [cbn; lia|]. split; by intros t [= <-]. Qed.

Lemma shutdown_resets_witness :
  (run status (run api_shutdown failed_world).2).1 = mk_status 0 "stopped" "" false.
Proof.
  pose proof (shutdown_resets failed_world _ eq_refl eq_refl (failed_known _ eq_refl)) as H.
  destruct (run api_shutdown failed_world) as [r w'].
  by destruct H as (_ & _ & _ & _ & _ & _ & _ & _ & H & _).
Defined.
