(* ===== verification/Shutdown.v ===== *)
(** * What a [shutdown] leaves behind

    When the only [shutdown] running has returned, the workers of the session it ended
    are over, whatever else ran meanwhile. An [init] that does not wait for the
    [shutdown] to return can bring the next session up before that: the handle is free as
    soon as the state is taken, the old event consumer may still write, and the
    [shutdown]'s reset falls on the new display ([shutdown_can_undo_init]). *)
From stdpp Require Import relations.
From S2P Require Import Prelude Utf8 LogFiles Logging Delivery Persistence ModuleState Runtime.
From S2P Require Import Concurrency Actions Lifecycle Inbound Transport Api Threads Signals.
From S2P Require Import SqliteMem Samples Interleaving Outcomes.

Section waiting.
Context {DB : Sqlite} {LC : Libchat}.
Implicit Types (t : worker) (ts : list thread) (ms : ModuleState) (h : ModuleHandle).

(** [ms] has [t] to join, and [h] is up with such a state. *)
Definition owns t ms : Prop := ms_inbound_thread ms = Some t ∨ ms_event_thread ms = Some t.
Definition up t h : Prop :=
  mh_poisoned h = false ∧ ∃ ms, mh_inner h = Some ms ∧ owns t ms.

(** [p] joins [t] before it ends. *)
Fixpoint joins {A} t (p : prog A) : Prop :=
  match p with
  | Ret _ => False
  | OnModule _ k => ∀ x, joins t (k x)
  | OnDisplay _ k => ∀ x, joins t (k x)
  | OnPreset _ k => ∀ x, joins t (k x)
  | OnLog _ k => ∀ x, joins t (k x)
  | OnSignals _ k => ∀ x, joins t (k x)
  | Output _ k | Dispatch _ k | Acquire _ k | Release _ k => joins t k
  | Join t' k => t' = t ∨ joins t k
  end.

(** [p] takes the state of a module that is up with [t], and then joins [t]. *)
Fixpoint takes {A} t (p : prog A) : Prop :=
  match p with
  | Ret _ => False
  | OnModule f k => ∀ h, up t h →
      up t (f h).2 ∧ takes t (k (f h).1) ∨ joins t (k (f h).1)
  | OnDisplay _ k => ∀ x, takes t (k x)
  | OnPreset _ k => ∀ x, takes t (k x)
  | OnLog _ k => ∀ x, takes t (k x)
  | OnSignals _ k => ∀ x, takes t (k x)
  | Output _ k | Dispatch _ k | Acquire _ k | Release _ k | Join _ k => takes t k
  end.

(** [p] leaves a module that is up as it is. *)
Fixpoint leaves {A} t (p : prog A) : Prop :=
  match p with
  | Ret _ => True
  | OnModule f k => ∀ h, up t h → up t (f h).2 ∧ leaves t (k (f h).1)
  | OnDisplay _ k => ∀ x, leaves t (k x)
  | OnPreset _ k => ∀ x, leaves t (k x)
  | OnLog _ k => ∀ x, leaves t (k x)
  | OnSignals _ k => ∀ x, leaves t (k x)
  | Output _ k | Dispatch _ k | Acquire _ k | Release _ k | Join _ k => leaves t k
  end.

Lemma joins_bind_l {A B} t (p : prog A) (f : A → prog B) : joins t p → joins t (p ≫= f).
Proof. induction p; cbn; naive_solver. Qed.
Lemma joins_bind_r {A B} t (p : prog A) (f : A → prog B) :
  (∀ a, joins t (f a)) → joins t (p ≫= f).
Proof. intros Hf. induction p; cbn; auto. Qed.

Lemma leaves_bind {A B} t (p : prog A) (f : A → prog B) :
  leaves t p → (∀ a, leaves t (f a)) → leaves t (p ≫= f).
Proof. induction p; cbn; naive_solver. Qed.
Lemma leaves_try {A B E} t (p : prog (result A E)) (f : A → prog (result B E)) :
  leaves t p → (∀ a, leaves t (f a)) → leaves t (try_bind p f).
Proof. intros Hp Hf. apply leaves_bind; [done|]. intros [a|e]; [apply Hf|done]. Qed.
Lemma leaves_foldr {A B} t (f : A → prog B → prog B) (p : prog B) (l : list A) :
  leaves t p → (∀ a q, leaves t q → leaves t (f a q)) → leaves t (foldr f p l).
Proof. intros Hp Hf. induction l as [|a l IH]; [done|]. apply (Hf a), IH. Qed.

Lemma leaves_with_client {R : Set} t (f : Client → R * Client) : leaves t (with_client f).
Proof.
  intros h (Hp & ms & Hms & Hown). cbn. rewrite Hp, Hms. destruct (f (ms_client ms)) as [r c].
  cbn. split; [|done]. split; [done|]. by eexists.
Qed.
(** A module that is up is not installed again. *)
Lemma leaves_install_with {E} t (f : prog (result ModuleState E)) : leaves t (install_with f).
Proof.
  intros h (Hp & ms & Hms & Hown). split; [split; [done|by exists ms]|]. cbn. by rewrite Hp, Hms.
Qed.

Lemma joins_shutdown t ms : owns t ms → joins t (shutdown ms).
Proof.
  unfold shutdown. intros Hown. apply joins_bind_r. intros _. destruct Hown as [->| ->].
  - apply joins_bind_l. by left.
  - apply joins_bind_r. intros _. apply joins_bind_r. intros _. apply joins_bind_l. by left.
Qed.

Lemma takes_take_state {A} t (k : result (option ModuleState) lock_poisoned → prog A) :
  (∀ ms, owns t ms → joins t (k (Ok (Some ms)))) → takes t (take_state ≫= k).
Proof. intros Hk h (Hp & ms & Hms & Hown). right. cbn. rewrite Hp, Hms. cbn. by apply Hk. Qed.
Lemma takes_api_shutdown t : takes t api_shutdown.
Proof. apply takes_take_state. intros ms Hown. by apply joins_bind_l, joins_shutdown. Qed.
Lemma takes_bind {A B} t (p : prog A) (f : A → prog B) : takes t p → takes t (p ≫= f).
Proof.
  induction p as [a|X g k IH|X g k IH|X g k IH|X g k IH|X g k IH|o k IH|c k IH|l k IH|l k IH|t' k IH];
    cbn; intros Hp; try done; try (by intros; apply IH). intros h Hh.
  destruct (Hp h Hh) as [[? ?]|?]; [left; split; [done|by apply IH]|right; by apply joins_bind_l].
Qed.

(** ** A [shutdown] among other threads *)

Definition shutting t i (c : config) : Prop :=
  worker_over c.2 t = true ∨
  (∃ th, c.2 !! i = Some th ∧ joins t (th_prog th)) ∨
  up t (w_module c.1) ∧ (∃ th, c.2 !! i = Some th ∧ takes t (th_prog th)) ∧
  ∀ j th, c.2 !! j = Some th → j ≠ i → leaves t (th_prog th).

(** What a step does to the module, and what is left, of a program of each kind. *)
Lemma exec_joins t ts w th w' held p :
  joins t (th_prog th) → exec ts w th = Some (w', held, p) →
  joins t p ∨ worker_over ts t = true.
Proof.
  unfold exec.
  destruct (th_prog th) as [a|X g k|X g k|X g k|X g k|X g k|o k|c k|l k|l k|t' k]; cbn; intros Hp He;
    try (repeat case_match; simplify_eq; by auto).
  unfold joinable in He. destruct (told _ _); [|done]. cbn in He.
  destruct (worker_over ts t') eqn:E; [|done]. simplify_eq. destruct Hp as [->|]; auto.
Qed.
Lemma exec_takes t ts w th w' held p :
  up t (w_module w) → takes t (th_prog th) → exec ts w th = Some (w', held, p) →
  up t (w_module w') ∧ takes t p ∨ joins t p.
Proof.
  unfold exec. intros Hup.
  destruct (th_prog th) as [a|X g k|X g k|X g k|X g k|X g k|o k|c k|l k|l k|t' k]; cbn; intros Hp He;
    try (repeat case_match; simplify_eq; by auto).
  specialize (Hp _ Hup). destruct (g (w_module w)) as [x h]. by simplify_eq.
Qed.
Lemma exec_leaves t ts w th w' held p :
  up t (w_module w) → leaves t (th_prog th) → exec ts w th = Some (w', held, p) →
  up t (w_module w') ∧ leaves t p.
Proof.
  unfold exec. intros Hup.
  destruct (th_prog th) as [a|X g k|X g k|X g k|X g k|X g k|o k|c k|l k|l k|t' k]; cbn; intros Hp He;
    try (repeat case_match; simplify_eq; by auto).
  specialize (Hp _ Hup). destruct (g (w_module w)) as [x h]. by simplify_eq.
Qed.

(** What has ended stays so. *)
Lemma worker_over_lookup ts t :
  worker_over ts t = true ↔
  ∀ i th, ts !! i = Some th → th_role th = Some t → finished th = true.
Proof.
  unfold worker_over. rewrite forallb_forall. split.
  - intros H i th Hi Hr. specialize (H th). rewrite <-list_elem_of_In in H.
    specialize (H (list_elem_of_lookup_2 _ _ _ Hi)). by rewrite bool_decide_eq_true_2 in H.
  - intros H th [i Hi]%list_elem_of_In%list_elem_of_lookup. specialize (H i th Hi).
    destruct (decide (th_role th = Some t)) as [Hr|Hr].
    + rewrite H by done. by rewrite orb_true_r.
    + by rewrite bool_decide_eq_false_2.
Qed.
Lemma worker_over_step t c c' :
  worker_over c.2 t = true → tstep c c' → worker_over c'.2 t = true.
Proof.
  rewrite !worker_over_lookup. intros Hover Hstep.
  inversion Hstep as [w ts i th w' held p Hi He]; subst. cbn in *. intros j th' Hj Hr.
  apply list_lookup_insert_Some in Hj as [(<- & <- & _)|[_ Hj]]; [|by eapply Hover].
  specialize (Hover i th Hi Hr). unfold finished in Hover. unfold exec in He.
  by destruct (th_prog th).
Qed.

Lemma tstep_shutting t i c c' : shutting t i c → tstep c c' → shutting t i c'.
Proof.
  intros Hs Hstep. destruct Hs as [Hover|Hs]; [left; by eapply worker_over_step|].
  assert (worker_over c.2 t = true → shutting t i c') as Hdone
    by (intros; left; by eapply worker_over_step).
  inversion Hstep as [w ts j th w' held p Hj He]; subst. cbn [fst snd] in *.
  destruct (decide (j = i)) as [->|Hne].
  - assert (<[i:=mk_thread (th_role th) held p]> ts !! i = Some (mk_thread (th_role th) held p)) as Hi.
    { apply list_lookup_insert_eq. by eapply lookup_lt_Some. }
    destruct Hs as [(th1 & Hth & Hp)|(Hup & (th1 & Hth & Hp) & Hothers)]; simplify_eq.
    + destruct (exec_joins _ _ _ _ _ _ _ Hp He) as [?|?]; [|by apply Hdone].
      right; left. by eexists.
    + destruct (exec_takes _ _ _ _ _ _ _ Hup Hp He) as [[? ?]|?]; [|right; left; by eexists].
      right; right. split; [done|]. split; [by eexists|]. intros j th' Hj' Hne.
      cbn in Hj'. rewrite list_lookup_insert_ne in Hj' by done. by eapply Hothers.
  - destruct Hs as [(th1 & Hth & Hp)|(Hup & (th1 & Hth & Hp) & Hothers)].
    + right; left. exists th1. split; [|done]. cbn. by rewrite list_lookup_insert_ne.
    + destruct (exec_leaves _ _ _ _ _ _ _ Hup (Hothers j th Hj Hne) He) as [Hup' Hleft].
      right; right. split; [done|]. split.
      { exists th1. split; [|done]. cbn. by rewrite list_lookup_insert_ne. }
      cbn. intros k th' [(<- & <- & _)|[_ Hk]]%list_lookup_insert_Some Hki; [done|by eapply Hothers].
Qed.
Lemma rtc_shutting t i c c' : shutting t i c → rtc tstep c c' → shutting t i c'.
Proof. intros Hc. induction 1; [done|]. eauto using tstep_shutting. Qed.
End waiting.

(** ** The operations *)

Create HintDb leaves discriminated.
#[local] Hint Resolve leaves_with_client leaves_install_with : leaves.

Ltac left_as_is :=
  repeat first
    [ progress intros
    | done
    | solve [auto with leaves]
    | apply leaves_bind
    | apply leaves_try
    | apply leaves_foldr
    | case_match ].

Section operations.
Context {EF : EnvFilterLib} {J : Json} {DB : Sqlite} {LC : Libchat} `{E : !InitEnv DB LC}.
Implicit Types (t : worker).

Lemma leaves_handle_event t clock e : leaves t (handle_event clock e).
Proof.
  destruct e; cbn [handle_event]; unfold record_conversation_started, observed_metadata,
    record_message_received, record_members_changed; left_as_is.
Qed.
Lemma leaves_bridge_round t n b r : leaves t (bridge_round n b r).
Proof.
  unfold bridge_round, finish_round, outputs, drain, handle_node_started,
    handle_connection_event, handle_connection_state, forward_subscriptions. left_as_is.
Qed.
Lemma leaves_run_bridge t n b rounds : leaves t (run_bridge n b rounds).
Proof.
  revert b. induction rounds as [|r rounds IH]; intros b; cbn [run_bridge]; [done|].
  apply leaves_bind; [apply leaves_bridge_round|]. by intros [b'|].
Qed.
Lemma leaves_answered t c res : leaves t (answered c res).
Proof.
  destruct c; cbn [answered]; unfold create_node_answered, node_info_answered, start_answered,
    send_answered, subscribe_answered, join_existing_node, set_delivery_error, start_node;
    left_as_is.
Qed.
#[local] Hint Resolve leaves_handle_event leaves_run_bridge leaves_answered : leaves.

Lemma leaves_entry t e : e ≠ EShutdown → leaves t (entry_prog e).
Proof.
  destruct e; intros He; try done; clear He;
    cbn [entry_prog]; unfold ignore, init, claim_delivery_retry, start_delivery_bootstrap,
    run_events, api_result, get_log_path, health, check_live, with_client_try,
    api_get_installation_name, get_installation_name, api_get_address, get_address,
    api_list_conversations, list_conversations, api_status, status, api_set_installation_name,
    set_installation_name, api_create_conversation, create_conversation,
    api_create_group_conversation, create_group_conversation, api_add_group_member,
    add_group_member, api_get_messages, get_messages, api_list_group_members,
    list_group_members, api_send_message, send_message, api_set_conversation_nickname,
    set_conversation_nickname, api_delete_conversation, delete_conversation, null_result,
    api_result, publish; left_as_is.
Qed.

(** C16. When the only [shutdown] running has returned, the workers of the session it ended
    are over, bridge and event consumer, whatever else ran meanwhile and in whatever
    interleaving, an [init] that brought the module up again included. *)
Theorem shutdown_outlives_workers (w : world) (es : list entry) w' ts' i th ms t :
  es !! i = Some EShutdown → (∀ j, es !! j = Some EShutdown → j = i) →
  mh_poisoned (w_module w) = false → mh_inner (w_module w) = Some ms → owns t ms →
  rtc tstep (launch w es) (w', ts') → ts' !! i = Some th → finished th = true →
  ∀ j th', ts' !! j = Some th' → th_role th' = Some t → finished th' = true.
Proof.
  intros Hi Honly Hp Hms Hown Hsteps Hth Hf.
  assert (shutting t i (launch w es)) as Hs.
  { right; right. split; [split; [done|by exists ms]|]. split.
    - exists (spawn EShutdown). split; [cbn; by rewrite list_lookup_fmap, Hi|].
      apply takes_bind, takes_api_shutdown.
    - cbn. intros j th0 Hj Hne. rewrite list_lookup_fmap in Hj.
      destruct (es !! j) as [e|] eqn:He; [|done]. injection Hj as <-.
      apply leaves_entry. intros ->. by apply Hne, Honly. }
  apply (rtc_shutting _ _ _ _ Hs) in Hsteps.
  destruct Hsteps as [Hover|[(th1 & Hth1 & Hj)|(_ & (th1 & Hth1 & Ht) & _)]]; cbn in *.
  - exact (proj1 (worker_over_lookup ts' t) Hover).
  - simplify_eq. unfold finished in Hf. by destruct (th_prog th1).
  - simplify_eq. unfold finished in Hf. by destruct (th_prog th1).
Qed.
End operations.

(** ** An instance: the workers record what they were handed, then the module goes down *)

Section instance.
#[local] Instance env5 : InitEnv (mem_sqlite sample_disk) sample_libchat :=
  sample_env sample_disk (Some "/data").

Definition ending0 : list entry :=
  [EShutdown;
   EBridge 0 (mk_bridge true true seen_default [] [])
     [mk_round Timeout ([], false) ([], false) []];
   EEvents 0 [(Some 9%Z, MessageReceived "convo-0" (as_bytes "bye") "saro" "phone")]].
(** The bridge begins a turn and the message arrives while [shutdown] is under way. *)
Definition ending_turns : list nat := [1; 0; 0; 0; 0; 1; 1; 1; 0; 0; 2; 2; 2; 0; 0; 0; 0].

(** The message was announced, and then the event consumer was over. *)
Lemma shutdown_outlives_workers_witness :
  ∃ w' ts' th, schedule ending_turns (launch up0 ending0) = Some (w', ts') ∧
    events_of (w_out w') = [message_received "convo-0" "bye" 9 "saro"] ∧
    ts' !! 2 = Some th ∧ finished th = true.
Proof.
  assert ((λ c, (events_of (w_out c.1), map (λ th, (th_role th, finished th)) (take 1 c.2),
      map th_role (drop 1 c.2))) <$> schedule ending_turns (launch up0 ending0) =
    Some ([message_received "convo-0" "bye" 9 "saro"], [(None, true)],
      [Some (BridgeThread 0); Some (EventThread 0)])) as H by (vm_compute; reflexivity).
  apply fmap_Some in H as ([w' ts'] & Hs & [[Hout Hfirst]%pair_equal_spec Hroles]%pair_equal_spec).
  destruct ts' as [|th0 [|th1 [|th2 [|th3 ts']]]];
    [discriminate Hfirst|discriminate Hroles|discriminate Hroles| |discriminate Hroles].
  injection Hfirst as _ Hf. injection Hroles as _ Hr.
  exists w', [th0; th1; th2], th2. split; [exact Hs|]. split; [exact (eq_sym Hout)|].
  split; [reflexivity|].
  refine (shutdown_outlives_workers up0 ending0 w' [th0; th1; th2] 0 th0 _ (EventThread 0)
    eq_refl _ eq_refl eq_refl _ (schedule_steps _ _ _ Hs) eq_refl (eq_sym Hf) 2 th2 eq_refl (eq_sym Hr)).
  - by intros [|[|[|j]]] Hj.
  - by right.
Defined.

(** A [shutdown] that has taken the state, an [init] that brings the next session up, and
    then the rest of the [shutdown]: it resets the display the [init] has seeded, and the
    module is up with nothing on display and no [chat.db]. *)
Definition undoing_turns : list nat := repeat 0 3 ++ repeat 1 11 ++ repeat 0 7.

Lemma shutdown_can_undo_init :
  ∃ w' ts', rtc tstep (launch up0 [EShutdown; EInit log_env0 (mk_chat_config None None)]) (w', ts') ∧
    forallb finished ts' = true ∧ bool_decide (is_Some (mh_inner (w_module w'))) = true ∧
    (run list_conversations w').1 = [] ∧ bool_decide (disk_of (L := mem_laws sample_disk) w' = None) = true.
Proof.
  assert ((λ c, (forallb finished c.2, bool_decide (is_Some (mh_inner (w_module c.1))),
      (run list_conversations c.1).1, bool_decide (disk_of (L := mem_laws sample_disk) c.1 = None))) <$>
    schedule undoing_turns (launch up0 [EShutdown; EInit log_env0 (mk_chat_config None None)]) =
    Some (true, true, [], true)) as H by (vm_compute; reflexivity).
  apply fmap_Some in H as ([w' ts'] & Hs & [[[Hf Hup]%pair_equal_spec Hl]%pair_equal_spec Hd]%pair_equal_spec).
  exists w', ts'. split; [by eapply schedule_steps|]. split; [exact (eq_sym Hf)|].
  split; [exact (eq_sym Hup)|]. split; [exact (eq_sym Hl)|exact (eq_sym Hd)].
Qed.
End instance.
