(* ===== verification/InboundFacts.v ===== *)
(** * What the bridge delivers

    The window of seen hashes, the stream of payloads the client is given, and the
    subscriptions that reach delivery_module. *)
From S2P Require Import Prelude Utf8 LogFiles Logging Delivery Persistence ModuleState Runtime.
From S2P Require Import Actions Lifecycle Inbound Transport Api SqliteMem Samples ActionsFacts.
From S2P Require Import History.
From Stdlib Require Import Ascii.

(** ** The window of hashes *)

(** [SEEN_CAPACITY] as a [nat]. *)
Definition capacity : nat := Z.to_nat SEEN_CAPACITY.

(** The set is the list's, without repeats, and the list is never over capacity. *)
Record seen_ok (s : SeenMessages) : Prop := {
  seen_set : seen_hashes s = list_to_set (seen_order s);
  seen_nodup : NoDup (seen_order s);
  seen_bound : length (seen_order s) ≤ capacity;
}.

Lemma seen_default_ok : seen_ok seen_default.
Proof. split; [done|constructor|cbn; lia]. Qed.

Lemma capacity_Z n : Z.of_nat n = SEEN_CAPACITY ↔ n = capacity.
Proof. unfold capacity, SEEN_CAPACITY. lia. Qed.

Lemma capacity_pos : 0 < capacity.
Proof. unfold capacity, SEEN_CAPACITY. lia. Qed.

Lemma seen_mem s h : seen_ok s → h ∈ seen_hashes s ↔ h ∈ seen_order s.
Proof. intros [-> _ _]. by rewrite elem_of_list_to_set. Qed.

(** A [first_sighting] is a hash outside the window, which then holds the newest
    [SEEN_CAPACITY] hashes sighted. *)
Lemma first_sighting_eq s h :
  seen_ok s →
  (first_sighting s h).1 = negb (bool_decide (h ∈ seen_order s)) ∧
  seen_ok (first_sighting s h).2 ∧
  seen_order (first_sighting s h).2 =
    if bool_decide (h ∈ seen_order s) then seen_order s
    else last_n capacity (seen_order s ++ [h]).
Proof.
  intros Hok. unfold first_sighting. destruct (decide (h ∈ seen_hashes s)) as [Hin|Hin].
  - rewrite (seen_mem _ _ Hok) in Hin. by rewrite bool_decide_eq_true_2.
  - rewrite (seen_mem _ _ Hok) in Hin. rewrite bool_decide_eq_false_2 by done.
    destruct Hok as [Hset Hnd Hle]. cbn [fst snd negb]. split; [done|].
    destruct (decide (Z.of_nat (length (seen_order s)) = SEEN_CAPACITY)) as [Hfull|Hroom].
    + apply capacity_Z in Hfull. destruct (seen_order s) as [|o rest] eqn:Eo.
      { pose proof capacity_pos. cbn in Hfull. lia. }
      cbn [seen_hashes seen_order length] in *.
      apply NoDup_cons in Hnd as [Hno Hnd]. rewrite not_elem_of_cons in Hin.
      destruct Hin as [Hho Hhr]. split; [split|].
      * cbn. rewrite Hset, list_to_set_app_L. cbn. set_solver.
      * apply NoDup_app. split_and!; [done| |apply NoDup_singleton]. set_solver.
      * cbn. rewrite length_app. cbn. lia.
      * unfold last_n. rewrite <-Hfull. cbn [length app].
        rewrite length_app. cbn [length].
        replace (S (length rest + 1) - S (length rest)) with 1 by lia. done.
    + rewrite capacity_Z in Hroom. cbn [seen_hashes seen_order]. split; [split|].
      * cbn. rewrite Hset, list_to_set_app_L. cbn. set_solver.
      * apply NoDup_app. split_and!; [done| |apply NoDup_singleton]. set_solver.
      * cbn. rewrite length_app. cbn. lia.
      * rewrite last_n_all; [done|]. rewrite length_app. cbn. lia.
Qed.

(** ** The stream of messages *)

(** A message of this application: its topics all begin so. *)
Definition chat_traffic (m : received) : bool := starts_with (rx_content_topic m) "/logos-chat/1/".

(** What a stream of [messageReceived] events puts on the client's channel. *)
Fixpoint forward_stream (evts : list (option received)) (seen : SeenMessages)
    : list (list ascii) * SeenMessages :=
  match evts with
  | [] => ([], seen)
  | evt :: evts =>
      let '(_, payloads, seen) := forward_message evt seen in
      let '(rest, seen) := forward_stream evts seen in
      (payloads ++ rest, seen)
  end.

(** The messages it is made of: this application's, each unless it is in the window. *)
Fixpoint accepted_messages (evts : list (option received)) (window : list string)
    : list received :=
  match evts with
  | [] => []
  | Some m :: evts =>
      if chat_traffic m && negb (bool_decide (rx_message_hash m ∈ window))
      then m :: accepted_messages evts (last_n capacity (window ++ [rx_message_hash m]))
      else accepted_messages evts window
  | None :: evts => accepted_messages evts window
  end.

Lemma forward_stream_app evts evts' seen :
  forward_stream (evts ++ evts') seen =
  ((forward_stream evts seen).1 ++ (forward_stream evts' (forward_stream evts seen).2).1,
   (forward_stream evts' (forward_stream evts seen).2).2).
Proof.
  revert seen. induction evts as [|evt evts IH]; intros seen; cbn [app forward_stream].
  - cbn. by destruct (forward_stream evts' seen).
  - destruct (forward_message evt seen) as [[os payloads] seen']. rewrite IH.
    destruct (forward_stream evts seen') as [rest s]. cbn. by rewrite app_assoc.
Qed.

Lemma forward_stream_accepted evts seen :
  seen_ok seen →
  (forward_stream evts seen).1 = map rx_payload (accepted_messages evts (seen_order seen)) ∧
  seen_ok (forward_stream evts seen).2.
Proof.
  revert seen. induction evts as [|[m|] evts IH]; intros seen Hok; cbn [forward_stream accepted_messages].
  - done.
  - unfold forward_message. change (starts_with _ TOPIC_PREFIX) with (chat_traffic m).
    destruct (chat_traffic m); cbn [negb andb].
    + pose proof (first_sighting_eq seen (rx_message_hash m) Hok) as (Hf & Hok' & Ho).
      destruct (first_sighting seen (rx_message_hash m)) as [f seen'] eqn:E. cbn [fst snd] in *.
      rewrite Hf. destruct (bool_decide _); cbn [negb].
      * specialize (IH seen' Hok'). destruct (forward_stream evts seen'). by rewrite Ho in IH.
      * specialize (IH seen' Hok'). rewrite Ho in IH.
        destruct (forward_stream evts seen') as [rest s]. cbn in *. destruct IH as [-> ?]. done.
    + specialize (IH seen Hok). by destruct (forward_stream evts seen).
  - unfold forward_message. specialize (IH seen Hok). by destruct (forward_stream evts seen).
Qed.

(** The window then holds the newest hashes accepted. *)
Lemma forward_stream_window evts seen :
  seen_ok seen →
  seen_order (forward_stream evts seen).2 =
    last_n capacity (seen_order seen ++
      map rx_message_hash (accepted_messages evts (seen_order seen))).
Proof.
  revert seen. induction evts as [|[m|] evts IH]; intros seen Hok; cbn [forward_stream accepted_messages].
  - by rewrite app_nil_r, last_n_all by apply Hok.
  - unfold forward_message. change (starts_with _ TOPIC_PREFIX) with (chat_traffic m).
    destruct (chat_traffic m); cbn [negb andb].
    + pose proof (first_sighting_eq seen (rx_message_hash m) Hok) as (Hf & Hok' & Ho).
      destruct (first_sighting seen (rx_message_hash m)) as [f seen'] eqn:E. cbn [fst snd] in *.
      rewrite Hf. specialize (IH seen' Hok'). rewrite Ho in IH.
      destruct (bool_decide _); cbn [negb]; destruct (forward_stream evts seen') as [rest s];
        cbn [snd map] in *; rewrite IH; [done|]. by rewrite last_n_idemp, <-app_assoc.
    + specialize (IH seen Hok). by destruct (forward_stream evts seen).
  - unfold forward_message. specialize (IH seen Hok). by destruct (forward_stream evts seen).
Qed.

(** The window a message is checked against is the newest of those accepted. *)
Lemma accepted_fresh evts window j m :
  length window ≤ capacity → accepted_messages evts window !! j = Some m →
  rx_message_hash m ∉
    last_n capacity (window ++ map rx_message_hash (take j (accepted_messages evts window))).
Proof.
  revert window j. induction evts as [|[m0|] evts IH]; intros window j Hw; cbn [accepted_messages];
    [done| |by apply IH].
  destruct (_ && _) eqn:E; [|by apply IH]. destruct j as [|j]; cbn [lookup list_lookup take map].
  - intros [= ->]. apply andb_true_iff in E as [_ E%negb_true_iff%bool_decide_eq_false].
    by rewrite app_nil_r, last_n_all.
  - intros Hj. apply IH in Hj; [|rewrite last_n_length; lia].
    rewrite last_n_idemp, <-app_assoc in Hj. done.
Qed.

Lemma last_n_sub {A} n (l : list A) x : x ∈ last_n n l → x ∈ l.
Proof. unfold last_n. intros Hx. rewrite <-(take_drop (length l - n) l). set_solver. Qed.

Lemma accepted_complete evts window m :
  Some m ∈ evts → chat_traffic m = true →
  rx_message_hash m ∈ window ∨
  ∃ m', m' ∈ accepted_messages evts window ∧ rx_message_hash m' = rx_message_hash m.
Proof.
  revert window. induction evts as [|e evts IH]; intros window; [by intros ?%not_elem_of_nil|].
  rewrite elem_of_cons. intros Hin Hm.
  assert (∀ m0, e = Some m0 → chat_traffic m0 && negb (bool_decide (rx_message_hash m0 ∈ window)) = true →
    Some m ∈ evts → rx_message_hash m ∈ window ∨ ∃ m',
      m' ∈ m0 :: accepted_messages evts (last_n capacity (window ++ [rx_message_hash m0])) ∧
      rx_message_hash m' = rx_message_hash m) as Hrest.
  { intros m0 -> _ Hin'. destruct (IH (last_n capacity (window ++ [rx_message_hash m0])) Hin' Hm)
      as [Hw%last_n_sub|(m' & ? & ?)].
    - apply elem_of_app in Hw as [|Hw%list_elem_of_singleton]; [by left|right].
      exists m0. split; [by left|done].
    - right. exists m'. split; [by right|done]. }
  destruct e as [m0|]; cbn [accepted_messages].
  - destruct (_ && _) eqn:E.
    + destruct Hin as [[= ->]|Hin]; [|by apply (Hrest m0)]. right. exists m0. split; [by left|done].
    + destruct Hin as [[= ->]|Hin]; [|by apply IH]. left. rewrite Hm in E.
      by apply negb_false_iff, bool_decide_eq_true in E.
  - destruct Hin as [|Hin]; [done|]. by apply IH.
Qed.

(** C28. The client is given the payload of each message of this application, in order,
    once: no message is dropped but as a repeat of one accepted, and a repeat passes
    only when at least [SEEN_CAPACITY] other messages were accepted in between. *)
Theorem messages_forwarded_once (evts : list (option received)) :
  let accepted := accepted_messages evts [] in
  (forward_stream evts seen_default).1 = map rx_payload accepted ∧
  accepted `sublist_of` omap id evts ∧ Forall (λ m, chat_traffic m = true) accepted ∧
  (∀ m, Some m ∈ evts → chat_traffic m = true →
    ∃ m', m' ∈ accepted ∧ rx_message_hash m' = rx_message_hash m) ∧
  (∀ i j m m', accepted !! i = Some m → accepted !! j = Some m' → i < j →
    rx_message_hash m = rx_message_hash m' → capacity < j - i).
Proof.
  cbn zeta. split_and!.
  - apply (forward_stream_accepted evts seen_default seen_default_ok).
  - generalize ([] : list string). induction evts as [|[m|] evts IH]; intros window; cbn; [done| |done].
    destruct (_ && _); [by apply sublist_skip|by apply sublist_cons].
  - generalize ([] : list string). induction evts as [|[m|] evts IH]; intros window; cbn; [done| |done].
    destruct (_ && _) eqn:E; [|done]. apply andb_true_iff in E as [E _]. by constructor.
  - intros m Hm Ht. destruct (accepted_complete evts [] m Hm Ht) as [H|H]; [|done].
    by apply not_elem_of_nil in H.
  - intros i j m m' Hi Hj Hij Heq. apply accepted_fresh in Hj; [|cbn; lia].
    destruct (decide (capacity < j - i)) as [|Hn]; [done|]. exfalso. apply Hj. rewrite <-Heq.
    cbn [app]. set (l := map rx_message_hash (take j (accepted_messages evts []))).
    assert (l !! i = Some (rx_message_hash m)) as Hl.
    { unfold l. change (map ?f ?x) with (f <$> x). rewrite list_lookup_fmap, lookup_take_lt by done.
      by rewrite Hi. }
    assert (length l ≤ j) as Hlen by (unfold l; rewrite length_map, length_take; lia).
    unfold last_n. apply (list_elem_of_lookup_2 _ (i - (length l - capacity))).
    rewrite lookup_drop. rewrite <-Hl. f_equal. apply lookup_lt_Some in Hl. lia.
Qed.

(** ** The bridge's loop *)

Section bridge.
Context {J : Json} {DB : Sqlite} {LC : Libchat}.
Implicit Types (w : world) (b : bridge).

(** The rounds before the message channel is found disconnected. *)
Fixpoint live_rounds (rounds : list round) : list round :=
  match rounds with
  | [] => []
  | r :: rounds =>
      match rd_message r with Disconnected => [] | _ => r :: live_rounds rounds end
  end.

Definition heard (rounds : list round) : list (option received) :=
  omap (λ r, match rd_message r with Received evt => Some evt | _ => None end) rounds.

(** The topics delivery_module was asked to subscribe to. *)
Definition subscribed (calls : list delivery_call) : list string :=
  omap (λ c, match c with Subscribe t => Some t | _ => None end) calls.

Definition display_only {A} (p : prog A) : Prop :=
  ∀ w, w_signals (run p w).2 = w_signals w ∧ w_pending (run p w).2 = w_pending w.

Lemma display_only_bind {A B} (p : prog A) (f : A → prog B) :
  display_only p → (∀ a, display_only (f a)) → display_only (p ≫= f).
Proof.
  intros Hp Hf w. change (mbind f p) with (bind p f). rewrite run_bind.
  destruct (Hp w) as [<- <-]. apply Hf.
Qed.
Lemma display_only_mut {R : Set} (f : Display → R * Display * list output) :
  display_only (with_display_mut f).
Proof. intros w. by rewrite run_with_display_mut. Qed.
Lemma display_only_ret {A} (a : A) : display_only (Ret a).
Proof. done. Qed.
Lemma display_only_foldr {X B} (f : X → prog B → prog B) (p : prog B) (l : list X) :
  display_only p → (∀ x q, display_only q → display_only (f x q)) → display_only (foldr f p l).
Proof. intros Hp Hf. induction l as [|x l IH]; [done|]. apply (Hf x), IH. Qed.

Lemma display_only_drain {X} (sub : option (list X * bool)) (h : X → prog unit) :
  (∀ e, display_only (h e)) → display_only (drain sub h).
Proof.
  intros Hh. destruct sub as [[l dis]|]; [|done]. apply display_only_foldr; [done|].
  intros e q Hq. by apply display_only_bind.
Qed.

Lemma display_only_handlers :
  (∀ evt, display_only (handle_node_started evt)) ∧
  (∀ evt, display_only (handle_connection_event evt)).
Proof.
  split; [intros [[ok m]|]|intros [s|]]; try apply display_only_ret; apply display_only_mut.
Qed.

Lemma subscribed_app cs cs' : subscribed (cs ++ cs') = subscribed cs ++ subscribed cs'.
Proof. apply omap_app. Qed.
Lemma subscribed_all topics : subscribed (map Subscribe topics) = topics.
Proof. induction topics as [|t topics IH]; [done|]. cbn. by f_equal. Qed.

Lemma run_finish_round b r seen inbound w :
  ∃ b1 w1, run (finish_round b r seen inbound) w = (Some b1, w1) ∧
    br_seen b1 = seen ∧ br_inbound b1 = inbound ∧ w_signals w1 = w_signals w ∧
    subscribed (w_pending w1) ++ br_queue b1 =
      subscribed (w_pending w) ++ br_queue b ++ rd_subscribe r.
Proof.
  destruct display_only_handlers as [Hns Hcn]. unfold finish_round.
  change (mbind ?f ?p) with (bind p f). rewrite run_bind.
  destruct (display_only_drain (polled (br_node_started b) (rd_node_started r)) _ Hns w) as [Hs1 Hp1].
  destruct (run (drain _ _) w) as [ns w1]. cbn [fst snd] in *.
  change (mbind ?f ?p) with (bind p f). rewrite run_bind.
  destruct (display_only_drain (polled (br_connection b) (rd_connection r)) _ Hcn w1) as [Hs2 Hp2].
  destruct (run (drain _ _) w1) as [cn w2]. cbn [fst snd] in *.
  change (mbind ?f ?p) with (bind p f). rewrite run_bind.
  rewrite run_forward_subscriptions, <-Hs1, <-Hp1, <-Hs2, <-Hp2.
  destruct (bool_decide _); cbn [fst snd]; eexists (mk_bridge _ _ _ _ _), _; split_and!; try done.
  cbn [w_pending br_queue]. by rewrite subscribed_app, subscribed_all, app_nil_r, app_assoc.
Qed.

(** Told to stop, a turn does nothing. *)
Lemma run_bridge_stopped n b rounds w :
  stop_flag (w_signals w) n = true → run (run_bridge n b rounds) w = (b, w).
Proof.
  intros H. destruct rounds as [|r rounds]; [done|]. cbn. rewrite H. destruct w. cbn in *.
  by subst.
Qed.

Lemma run_outputs os w :
  w_signals (run (outputs os) w).2 = w_signals w ∧ w_pending (run (outputs os) w).2 = w_pending w.
Proof.
  unfold outputs. revert w. induction os as [|o os IH]; intros w; [done|]. cbn.
  destruct (IH (put_output o w)) as [-> ->]. done.
Qed.

(** A turn of a bridge not told to stop: the message it heard is forwarded, the topics
    queued meanwhile are asked for or stay queued. *)
Lemma run_bridge_round n b r w :
  stop_flag (w_signals w) n = false →
  match run (bridge_round n b r) w with
  | (Some b1, w1) =>
      rd_message r ≠ Disconnected ∧ stop_flag (w_signals w1) n = false ∧
      br_inbound b1 = br_inbound b ++ (forward_stream (heard [r]) (br_seen b)).1 ∧
      br_seen b1 = (forward_stream (heard [r]) (br_seen b)).2 ∧
      subscribed (w_pending w1) ++ br_queue b1 =
        subscribed (w_pending w) ++ br_queue b ++ rd_subscribe r
  | (None, w1) => rd_message r = Disconnected ∧ w1 = w
  end.
Proof.
  intros Hstop. unfold bridge_round. change (mbind ?f ?p) with (bind p f). rewrite run_bind.
  change (run (load_stop n) w) with (stop_flag (w_signals w) n, put_signals (w_signals w) w). cbn [fst snd].
  assert (put_signals (w_signals w) w = w) as -> by by destruct w. rewrite Hstop.
  cbn [heard omap list_omap]. destruct (rd_message r) as [evt| |]; [| |done].
  - cbn [forward_stream]. destruct (forward_message evt (br_seen b)) as [[os payloads] seen].
    destruct (run_outputs os w) as [Hs Hp].
    change (mbind ?f ?p) with (bind p f). rewrite run_bind.
    destruct (run_finish_round b r seen (br_inbound b ++ payloads) (run (outputs os) w).2)
      as (b1 & w1 & -> & Hseen & Hin & Hs1 & Hq).
    rewrite Hs in Hs1. rewrite Hp in Hq. cbn. rewrite app_nil_r, Hs1. by split_and!.
  - destruct (run_finish_round b r (br_seen b) (br_inbound b) w)
      as (b1 & w1 & -> & Hseen & Hin & Hs1 & Hq).
    cbn. rewrite app_nil_r. split_and!; congruence.
Qed.

(** What a bridge not told to stop does, as a fold of [forward_message]. *)
Lemma run_bridge_live n b rounds w :
  stop_flag (w_signals w) n = false →
  let '(b', w') := run (run_bridge n b rounds) w in
  br_inbound b' = br_inbound b ++ (forward_stream (heard (live_rounds rounds)) (br_seen b)).1 ∧
  br_seen b' = (forward_stream (heard (live_rounds rounds)) (br_seen b)).2 ∧
  subscribed (w_pending w') ++ br_queue b' =
    subscribed (w_pending w) ++ br_queue b ++ concat (map rd_subscribe (live_rounds rounds)).
Proof.
  revert b w. induction rounds as [|r rounds IH]; intros b w Hstop.
  { cbn. by rewrite !app_nil_r. }
  pose proof (run_bridge_round n b r w Hstop) as Hr. cbn [run_bridge live_rounds].
  change (mbind ?f ?p) with (bind p f). rewrite run_bind.
  destruct (run (bridge_round n b r) w) as [[b1|] w1]; cbn [fst snd];
    [|destruct Hr as (Hd & ->); rewrite Hd; cbn; by rewrite !app_nil_r].
  destruct Hr as (Hlive & Hstop1 & Hin & Hseen & Hq). specialize (IH b1 w1 Hstop1).
  destruct (run (run_bridge n b1 rounds) w1) as [b' w']. destruct IH as (H1 & H2 & H3).
  replace (match rd_message r with Disconnected => _ | _ => _ end) with (r :: live_rounds rounds)
    by by destruct (rd_message r).
  change (heard (r :: ?l)) with (heard ([r] ++ l)).
  unfold heard in *. rewrite omap_app, forward_stream_app, H1, H2, H3, Hin, Hseen.
  cbn [fst snd map concat]. split_and!; [by rewrite app_assoc|done|].
  by rewrite app_assoc, Hq, !app_assoc.
Qed.

(** C27. A bridge that is not told to stop hands the client, in order, the payload of each
    message it hears whose topic is this application's and whose hash is not among the
    newest [SEEN_CAPACITY] it accepted, and of no other; its window of hashes, set and
    queue in agreement at the start, goes on being those. Every topic the core queued has been asked of delivery_module or is still
    queued, in order. It ends with the message channel; told to stop, it does nothing
    more. *)
Theorem bridge_delivers n b rounds w :
  seen_ok (br_seen b) →
  let '(b', w') := run (run_bridge n b rounds) w in
  if stop_flag (w_signals w) n then b' = b ∧ w' = w
  else
    let turns := live_rounds rounds in
    let accepted := accepted_messages (heard turns) (seen_order (br_seen b)) in
    br_inbound b' = br_inbound b ++ map rx_payload accepted ∧
    seen_ok (br_seen b') ∧
    seen_order (br_seen b') =
      last_n capacity (seen_order (br_seen b) ++ map rx_message_hash accepted) ∧
    subscribed (w_pending w') ++ br_queue b' =
      subscribed (w_pending w) ++ br_queue b ++ concat (map rd_subscribe turns).
Proof.
  intros Hseen. destruct (stop_flag (w_signals w) n) eqn:Hstop; [by rewrite run_bridge_stopped|].
  pose proof (run_bridge_live n b rounds w Hstop) as H.
  destruct (run (run_bridge n b rounds) w) as [b' w']. destruct H as (Hin & Hs & Hq).
  destruct (forward_stream_accepted (heard (live_rounds rounds)) (br_seen b) Hseen) as [Hf Hok].
  rewrite Hin, Hs, Hf. split_and!; [done|done|by apply forward_stream_window|done].
Qed.

(** Nothing is asked of delivery_module before the node is online; then the queue
    is handed over whole and in order. *)
Theorem subscriptions_wait_for_online queue w :
  let '(waiting, w') := run (forward_subscriptions queue) w in
  w_display w' = w_display w ∧
  if bool_decide (ds_state (d_delivery_state (w_display w)) = Online)
  then waiting = [] ∧ w_pending w' = w_pending w ++ map Subscribe queue
  else waiting = queue ∧ w_pending w' = w_pending w.
Proof. rewrite run_forward_subscriptions. by destruct (bool_decide _). Qed.
End bridge.

(** ** Routing *)

Section routing.
Context {DB : Sqlite} {LC : Libchat}.

Lemma subscribe_topic p cs a b :
  ch_closed cs (sp_subscribe_tx p) = None →
  ch_queued (subscribe p a cs).2 (sp_subscribe_tx p) =
    ch_queued cs (sp_subscribe_tx p) ++ [content_topic_for b] ↔ a = b.
Proof.
  intros Hopen. unfold subscribe, channel_send. rewrite Hopen. cbn. rewrite decide_True by done.
  split; [|by intros ->]. intros H%app_inv_head. apply content_topic_inj. congruence.
Qed.

(** An envelope goes out once, on its recipient's topic, through the client's transport
    or a publisher handed to another: the topic an address queues when it subscribes,
    the bridge's filter lets through, and no other address shares. *)
Theorem published_where_subscribed (s : SdkDelivery) (e : envelope) (cs : channels) (w : world)
    (m : received) :
  let tx := sp_subscribe_tx (publisher s) in
  let '(r, w') := run (sdk_publish s e) w in
  let topic := content_topic_for (env_delivery_address e) in
  r = Ok tt ∧ w_pending w' = w_pending w ++ [Send topic (env_data e)] ∧
  w_display w' = w_display w ∧ new_outputs w w' = [] ∧
  (ch_closed cs tx = None → ∀ address,
    ch_queued (sdk_subscribe s address cs).2 tx = ch_queued cs tx ++ [topic] ↔
    address = env_delivery_address e) ∧
  (rx_content_topic m = topic → chat_traffic m = true).
Proof.
  cbn. split_and!; try done.
  - apply drop_all.
  - intros Hopen address. by apply subscribe_topic.
  - unfold chat_traffic. intros ->. apply content_topic_prefix.
Qed.
End routing.

(** ** Instance: a message of ours, another application's, a repeat, then a topic to ask for *)

Definition sample_round (topic hash : string) (queued : list string) : round :=
  mk_round (Received (Some (mk_received hash topic (as_bytes hash) "relay"))) ([], false) ([], false)
    queued.

Lemma bridge_delivers_witness :
  let w := sample_world sample_disk [] in
  let rounds := [sample_round "/logos-chat/1/a/proto" "h1" []; sample_round "/waku/1/x" "h2" [];
                 sample_round "/logos-chat/1/b/proto" "h1" ["/logos-chat/1/c/proto"]] in
  br_inbound (run (run_bridge 0 (mk_bridge true true seen_default [] []) rounds) w).1 = [as_bytes "h1"].
Proof.
  intros w rounds.
  pose proof (bridge_delivers 0 (mk_bridge true true seen_default [] []) rounds w seen_default_ok) as H.
  destruct (run (run_bridge 0 _ rounds) w) as [b' w']. destruct (stop_flag (w_signals w) 0) eqn:E.
  - vm_compute in E. destruct (diff_false_true E).
  - destruct H as (H & _). cbn [fst]. rewrite H. vm_compute. reflexivity.
Defined.
