(* ===== verification/LogSpec.v ===== *)
(** * What the run's log promises

    Retention, rotation and start-up of the log files, and the once-only
    installation. *)
From S2P Require Import Prelude Utf8 LogFiles Logging SqliteMem Samples.
From Stdlib Require Import Ascii.

(** ** Retention *)

Section retention.
Context {inode : Type}.
Implicit Types (dir : gmap string inode) (entries : list string).

(** C34. A start-up deletes a file exactly when it belongs to a run of this module, told
    by its name, that has [KEEP_RUNS] newer ones in the listing, and the system
    lets it; a run's rotations go with it, and no other file is touched. *)
Theorem prune_removes_exactly entries ok dir f :
  (prune_runs (Some entries) ok dir !! f = None ↔
    dir !! f = None ∨
    f ∈ entries ∧ ok f = true ∧
    ∃ st suffix, is_str f = true ∧ is_stamp st ∧ run_suffix suffix ∧
      f = STEM +:+ "_" +:+ st +:+ suffix ∧ KEEP_RUNS ≤ size (newer_runs entries st)) ∧
  (∀ i, prune_runs (Some entries) ok dir !! f = Some i → dir !! f = Some i).
Proof.
  rewrite prune_runs_lookup. unfold run_stamp. destruct (is_str f) eqn:Hs.
  - destruct (stamp_of f) as [st|] eqn:Hst.
    + apply stamp_of_Some in Hst as Hst'. destruct Hst' as (Hok & suffix & Hf & Hsuf).
      destruct (decide _) as [(Hin & Hrm & Hn)|Hno].
      * split; [|done]. split; [|done]. intros _. right. split_and!; [done..|].
        by exists st, suffix.
      * split; [|done]. split; [by left|]. intros [?|(Hin & Hrm & st' & suf' & _ & Hst2 & Hsuf2 & Hf2 & Hn)];
          [done|]. destruct Hno. split_and!; [done..|].
        assert (stamp_of f = Some st') as E by (apply stamp_of_Some; eauto).
        rewrite Hst in E. by injection E as ->.
    + split; [|done]. split; [by left|].
      intros [?|(_ & _ & st' & suf' & _ & Hst2 & Hsuf2 & Hf2 & _)]; [done|].
      assert (stamp_of f = Some st') as E by (apply stamp_of_Some; eauto). by rewrite Hst in E.
  - split; [|done]. split; [by left|]. intros [?|(_ & _ & ? & ? & ? & _)]; done.
Qed.

Lemma few_newer_few (X : gset string) n :
  (∀ x, x ∈ X → size (filter (λ t, String.le x t ∧ x ≠ t) X) < n) → size X ≤ n.
Proof.
  intros H. destruct (decide (X = ∅)) as [->|Hne]; [rewrite size_empty; lia|].
  destruct (minimal_exists_elem_of_L String.le X Hne) as (x & Hx & Hmin).
  specialize (H x Hx).
  assert (filter (λ t, String.le x t ∧ x ≠ t) X = X ∖ {[x]}) as E.
  { apply set_eq. intros t. rewrite elem_of_filter, elem_of_difference, elem_of_singleton.
    split; [naive_solver|]. intros [Ht Hn]. split_and!; [|congruence|done].
    destruct (total String.le x t) as [|Hle]; [done|]. by apply Hmin. }
  rewrite E, size_difference, size_singleton in H by set_solver. lia.
Qed.

(** What is left of a directory whose files may be removed is [KEEP_RUNS] runs at
    most. *)
Theorem at_most_ten_runs_left dir :
  let entries := elements (dom dir) in
  let dir' := prune_runs (Some entries) (λ _, true) dir in
  size (run_stamps (elements (dom dir'))) ≤ KEEP_RUNS.
Proof.
  cbn zeta. set (entries := elements (dom dir)). set (dir' := prune_runs _ _ dir).
  apply few_newer_few. intros st Hst.
  assert (∀ t, t ∈ run_stamps (elements (dom dir')) → t ∈ run_stamps entries) as Hsub.
  { intros t. unfold run_stamps. rewrite !elem_of_list_to_set, !list_elem_of_omap.
    intros (f & Hf & Hr). exists f. split; [|done]. unfold entries.
    rewrite elem_of_elements, elem_of_dom in Hf |- *. destruct Hf as [i Hi].
    exists i. unfold dir' in Hi. rewrite prune_runs_lookup, Hr in Hi. by case_decide. }
  unfold run_stamps in Hst. rewrite elem_of_list_to_set, list_elem_of_omap in Hst.
  destruct Hst as (f & Hf & Hr). rewrite elem_of_elements, elem_of_dom in Hf.
  destruct Hf as [i Hi]. unfold dir' in Hi. rewrite prune_runs_lookup, Hr in Hi.
  destruct (decide _) as [|Hno]; [done|].
  assert (size (newer_runs entries st) < KEEP_RUNS) as Hlt.
  { apply Nat.nle_gt. intros Hle. apply Hno. split_and!; [|done..].
    apply elem_of_elements, elem_of_dom. by exists i. }
  eapply Nat.le_lt_trans; [|exact Hlt]. apply subseteq_size. intros t.
  unfold newer_runs. rewrite !elem_of_filter. intros [? Ht]. split; [done|]. by apply Hsub.
Qed.

(** A rotation past the 999th is never deleted: its name no longer has a run's
    shape. *)
Theorem rotation_past_999_never_pruned (listing : option (list string)) ok dir st n :
  is_stamp st → (1000 ≤ n)%Z →
  prune_runs listing ok dir !! aside_name st n = dir !! aside_name st n.
Proof.
  intros Hst Hn. destruct listing as [entries|]; [|done]. rewrite prune_runs_lookup.
  unfold run_stamp. rewrite aside_name_big by done. by destruct (is_str _).
Qed.
End retention.

Lemma sample_stamp : is_stamp "20260730_120000".
Proof. by exists "20260730", "120000". Qed.

Lemma rotation_past_999_never_pruned_witness :
  let name := aside_name "20260730_120000" 1000 in
  prune_runs (inode := unit) (Some [name]) (λ _, true) {[name := tt]} !! name = Some tt.
Proof.
  intros name. etrans; [|apply (lookup_singleton_eq (M := gmap string) name tt)].
  apply (rotation_past_999_never_pruned (inode := unit) (Some [name]) (λ _, true) _
    "20260730_120000" 1000); [apply sample_stamp|lia].
Defined.

(** ** Names *)

(** C35. The names that carry a stamp are exactly those of the grammar: the stem, a separator,
    eight digits, a separator, six digits, and [.log] or three digits between dots; the
    names this module gives a run's file and its first 999 rotations are among them, and
    carry the run's stamp. *)
Theorem stamp_of_grammar name st :
  (stamp_of name = Some st ↔
   is_stamp st ∧ ∃ suffix, name = STEM +:+ "_" +:+ st +:+ suffix ∧ run_suffix suffix) ∧
  (is_stamp st → stamp_of (log_name st) = Some st ∧
     ∀ n, (0 ≤ n < 1000)%Z → stamp_of (aside_name st n) = Some st).
Proof.
  split; [apply stamp_of_Some|]. intros Hst. split; [by apply log_name_run|].
  intros n Hn. destruct (pad3_small n Hn) as (Hl & Hd & _). by apply aside_name_run.
Qed.

Lemma stamp_of_grammar_witness :
  stamp_of "chat_module_20260730_120000.007.log" = Some "20260730_120000".
Proof.
  destruct (stamp_of_grammar "chat_module_20260730_120000.007.log" "20260730_120000") as [_ H].
  apply (proj2 (H sample_stamp) 7%Z). lia.
Defined.

(** ** The file being written *)

(** Writes the system allows. *)
Definition allowed (bufs : list (list ascii)) : list (io_answers * list ascii) :=
  map (pair io_all_ok) bufs.

(** While the system allows the writes, everything a run wrote is in its files, in
    order, whatever was rotated on the way, and the announced path stays the file
    being written. *)
Theorem rotation_loses_nothing s ol bufs :
  log_ok s ol → (ol_rotations ol + Z.of_nat (length bufs) < u32_max_plus_1)%Z →
  let '(ol', s') := append_all s ol (allowed bufs) in
  run_bytes s' ol' = run_bytes s ol ++ concat bufs ∧ log_ok s' ol' ∧ ol_path ol' = ol_path ol.
Proof.
  revert s ol. induction bufs as [|buf bufs IH]; intros s ol Hok Hroom.
  { cbn. by rewrite app_nil_r. }
  change (append_all s ol (allowed (buf :: bufs))) with
    (let '(_, ol, s) := append io_all_ok s ol buf in append_all s ol (allowed bufs)).
  pose proof (append_all_ok s ol buf Hok) as H.
  destruct (append io_all_ok s ol buf) as [[r ol1] s1]. cbn [length] in Hroom.
  destruct H as (_ & Hok1 & Hb1 & Hp1 & Hr1); [lia|].
  specialize (IH s1 ol1 Hok1). destruct (append_all s1 ol1 _) as [ol2 s2].
  destruct IH as (Hb & ? & Hp); [lia|]. split_and!; [|done|congruence].
  cbn [concat]. by rewrite Hb, Hb1, app_assoc.
Qed.

(** However the system answers, failed rotations included, the line count is below
    the budget after every write: a rotation that cannot happen is tried again a full
    budget later. *)
Theorem budget_never_exceeded s ol (writes : list (io_answers * list ascii)) :
  (ol_lines ol < ROTATE_AFTER_LINES)%Z →
  (ol_lines (append_all s ol writes).1 < ROTATE_AFTER_LINES)%Z.
Proof.
  revert s ol. induction writes as [|[io buf] writes IH]; intros s ol H; [done|]. cbn.
  pose proof (append_lines io s ol buf H) as H1.
  destruct (append io s ol buf) as [[r ol1] s1]. by apply IH.
Qed.

(** Two runs that share a stamp share their rotations' names: the first rotation of
    the later one replaces the earlier one's, whose lines no name reaches any more. *)
Theorem rotation_replaces_earlier_runs s ol earlier :
  ol_path ol = log_name (ol_stamp ol) → ol_rotations ol = 0%Z →
  fs_dir s !! ol_path ol = Some (ol_file ol) → ol_file ol ≠ earlier →
  new_inode s ≠ earlier →
  (∀ name, fs_dir s !! name = Some earlier ↔ name = aside_name (ol_stamp ol) 1) →
  let '(r, ol', s') := rotate io_all_ok s ol in
  r = Ok tt ∧ fs_dir s' !! aside_name (ol_stamp ol) 1 = Some (ol_file ol) ∧
  ∀ name, fs_dir s' !! name ≠ Some earlier.
Proof.
  intros Hp Hr Hf Hne Hnew Hearlier.
  assert (aside_name (ol_stamp ol) 1 ≠ ol_path ol) as Hap by (rewrite Hp; apply aside_name_not_log).
  unfold rotate, rename, create. cbn. rewrite Hr.
  change ((0 + 1) mod u32_max_plus_1)%Z with 1%Z. rewrite Hf. cbn.
  rewrite lookup_insert_ne, lookup_delete_eq by done. cbn. split_and!; [done| |].
  - by rewrite lookup_insert_ne, lookup_insert_eq.
  - intros name. rewrite !lookup_insert. repeat case_decide; try congruence.
    + unfold new_inode in *. cbn in *. congruence.
    + rewrite lookup_delete. case_decide; [done|]. rewrite Hearlier. congruence.
Qed.

(** *** Opening a run *)

(** On a directory that already holds [KEEP_RUNS] runs with later stamps, as when the
    local clock was set back, the file just opened is the one pruned: what the run
    writes is reachable under no announced name. *)
Theorem opened_run_can_be_pruned directory os stamp s entries :
  directory ≠ "" → oa_create_dir os = None → oa_open os = None →
  oa_read_dir os = Some entries → log_name stamp ∈ entries →
  oa_can_remove os (log_name stamp) = true → is_str (log_name stamp) = true → is_stamp stamp →
  KEEP_RUNS ≤ size (newer_runs entries stamp) →
  let '(r, s') := run_log_open (Some directory) os stamp s in
  is_ok r = true ∧ run_log_path directory (match r with Ok ol => Some ol | Err _ => None end)
    = path_join directory (log_name stamp) ∧
  fs_dir s' !! log_name stamp = None.
Proof.
  intros Hd Hc Ho Hr Hin Hrm Hstr Hst Hn. unfold run_log_open.
  destruct directory as [|a directory]; [done|]. rewrite Hc, Ho, Hr.
  destruct (match fs_dir s !! _ with Some _ => _ | None => _ end) as [file s1].
  cbn [is_ok fs_dir run_log_path ol_path]. split_and!; [done..|].
  rewrite prune_runs_lookup. unfold run_stamp. rewrite Hstr, log_name_run by done.
  by rewrite decide_True.
Qed.

(** ** The subscriber *)

Section install.
Context {EF : EnvFilterLib}.

(** The level, the file and its announced path are settled by the first [init]:
    whatever a later one finds or asks for, nothing changes and nothing is said. *)
Theorem installed_once env env' level level' st :
  let '(st1, _) := install_once env level st in
  install_once env' level' st1 = (st1, []) ∧ log_path (install_once env' level' st1).1 = log_path st1 ∧
  ls_installed st1 = true.
Proof.
  unfold install_once at 1. destruct (ls_installed st) eqn:H.
  - unfold install_once. rewrite H. done.
  - destruct (match run_log_open _ _ _ _ with (Ok _, _) => _ | (Err _, _) => _ end)
      as [[[rl op] wn] s]. unfold install_once. done.
Qed.
End install.

(** ** What reaches the file *)

(** An event, with what is decided outside the module: the filter's answer, the
    system's answers to its write, the time. *)
Record log_event := mk_log_event {
  le_enabled : bool;
  le_io : io_answers;
  le_time : string;
  le_level : Level;
  le_target : string;
  le_fields : string;
}.
Definition stderr_line (e : log_event) : string := host_line (le_level e) (le_target e) (le_fields e).
(** The bytes the file is handed for an event. *)
Definition file_line (e : log_event) : list ascii :=
  as_bytes (le_time e +:+ " ") ++ as_bytes (stderr_line e).
Definition file_write (e : log_event) : io_answers * list ascii := (le_io e, file_line e).

Fixpoint on_events (st : LogStatics) (events : list log_event) : LogStatics * list string :=
  match events with
  | [] => (st, [])
  | e :: events =>
      let '(st, out) :=
        on_event (le_enabled e) (le_io e) (le_time e) st (le_level e) (le_target e) (le_fields e) in
      let '(st, rest) := on_events st events in (st, out ++ rest)
  end.

Lemma on_events_writes st subscriber ol events :
  ls_subscriber st = Some subscriber → ls_run_log st = Some (Some ol) →
  let passed := filter le_enabled events in
  let '(st', out) := on_events st events in
  out = map stderr_line passed ∧
  ∃ ol', ls_run_log st' = Some (Some ol') ∧
    append_all (ls_fs st) ol (map file_write passed) = (ol', ls_fs st').
Proof.
  revert st ol. induction events as [|e events IH]; intros st ol Hsub Hlog; cbn [on_events].
  { split; [done|]. by exists ol. }
  unfold on_event. rewrite Hsub, Hlog. change (default None (Some (Some ol))) with (Some ol).
  rewrite filter_cons. destruct (le_enabled e).
  - rewrite decide_True by done. cbn [run_log_write map append_all file_write].
    unfold stamped_line. change (_ +:+ (" " +:+ ?l)) with (le_time e +:+ " " +:+ l).
    replace (file_line e) with (as_bytes (le_time e +:+ " " +:+ stderr_line e))
      by (unfold file_line; by rewrite !as_bytes_app, <-!app_assoc).
    unfold stderr_line at 1. destruct (append _ (ls_fs st) ol _) as [[r ol1] s1].
    cbn [fmap option_fmap option_map const]. cbv beta iota.
    match goal with |- context [on_events ?st1 events] =>
      specialize (IH st1 ol1 eq_refl eq_refl); destruct (on_events st1 events) as [st2 out] end.
    destruct IH as (-> & ol2 & Hlog2 & Happ). split; [done|]. by exists ol2.
  - rewrite decide_False by (cbn; tauto). specialize (IH st ol Hsub Hlog).
    destruct (on_events st events) as [st2 out]. exact IH.
Qed.

(** C32. While its subscriber is the process's, the module's events the filter lets through
    go to stderr as they are, whatever the system answers for the file, and no other event
    goes anywhere. The run's file is handed each of those lines in turn with its time and
    a space in front; where the system takes every write, the run's files hold exactly
    these, one after the other and across rotations. *)
Theorem file_is_stamped_stderr st subscriber ol events :
  ls_subscriber st = Some subscriber → ls_run_log st = Some (Some ol) → log_ok (ls_fs st) ol →
  let passed := filter le_enabled events in
  (ol_rotations ol + Z.of_nat (length passed) < u32_max_plus_1)%Z →
  let '(st', out) := on_events st events in
  out = map stderr_line passed ∧
  ∃ ol', ls_run_log st' = Some (Some ol') ∧
    append_all (ls_fs st) ol (map file_write passed) = (ol', ls_fs st') ∧
    (Forall (λ e, le_io e = io_all_ok) passed → log_ok (ls_fs st') ol' ∧
      run_bytes (ls_fs st') ol' = run_bytes (ls_fs st) ol ++ concat (map file_line passed)).
Proof.
  intros Hsub Hlog Hok passed Hroom. pose proof (on_events_writes st subscriber ol events Hsub Hlog) as H.
  destruct (on_events st events) as [st' out]. destruct H as (Ho & ol' & Hlog' & Happ).
  split; [exact Ho|]. exists ol'. split; [done|]. split; [done|]. intros Hall.
  assert (map file_write passed = allowed (map file_line passed)) as Hw.
  { unfold allowed. rewrite map_map. apply map_ext_Forall.
    apply (Forall_impl _ _ _ Hall). intros e He. unfold file_write. by rewrite He. }
  pose proof (rotation_loses_nothing (ls_fs st) ol (map file_line passed) Hok) as H.
  rewrite length_map, <-Hw in H. specialize (H Hroom). fold passed in Happ. rewrite Happ in H.
  by destruct H as (? & ? & _).
Qed.

(** C33. Installed any number of times, the hook reports a panic once on stderr, before what
    the hook that was there says, and writes it with its backtrace, stamped, at the end
    of the run's files; a file that is held costs the line and nothing else. *)
Theorem panic_recorded previous n info (busy : bool) now st ol :
  ls_run_log st = Some (Some ol) → log_ok (ls_fs st) ol →
  (ol_rotations ol + 1 < u32_max_plus_1)%Z →
  let hooks := Nat.iter (S n) hook_install_once
    (mk_panic_statics false (λ info _ _ _ st, (st, previous info))) in
  let what := "chat_module: panic at " +:+ panic_origin (pi_location info) +:+ ": "
    +:+ panic_msg (pi_payload info) in
  let '(st', out) := ps_hook hooks info io_all_ok busy now st in
  out = what :: previous info ∧
  if busy then ls_run_log st' = Some (Some ol) ∧ ls_fs st' = ls_fs st
  else ∃ ol', ls_run_log st' = Some (Some ol') ∧ log_ok (ls_fs st') ol' ∧
    run_bytes (ls_fs st') ol' = run_bytes (ls_fs st) ol ++
      as_bytes (now +:+ " CRITICAL: " +:+ what +:+ newline_str +:+ pi_backtrace info +:+ newline_str).
Proof.
  intros Hlog Hok Hroom hooks what.
  assert (hooks = hook_install_once
    (mk_panic_statics false (λ info _ _ _ st, (st, previous info)))) as ->.
  { subst hooks. induction n as [|n IH]; [done|]. by rewrite Nat.iter_succ, IH. }
  cbn [hook_install_once ps_installed ps_hook panic_hook]. split; [done|].
  unfold write_line. rewrite Hlog. unfold write_stamped. destruct busy; [done|].
  match goal with |- context [append io_all_ok _ ol ?buf] =>
    pose proof (append_all_ok (ls_fs st) ol buf Hok Hroom) as H;
    destruct (append io_all_ok (ls_fs st) ol buf) as [[r ol1] s1] end.
  destruct H as (_ & Hok1 & Hb1 & _). exists ol1. split_and!; [done..|]. cbn [ls_fs]. rewrite Hb1.
  f_equal. subst what. rewrite !as_bytes_app. by rewrite <-!app_assoc.
Qed.

(** ** Instances *)

Definition stamp0 : string := "20260730_120000".
Definition fs0 : fs := mk_fs {[log_name stamp0 := 1%N]} {[1%N := []]}.
Definition ol0 (lines : Z) : open_log := mk_open_log 1 (log_name stamp0) stamp0 lines 0.

Lemma fs0_ok lines : log_ok fs0 (ol0 lines).
Proof.
  split; cbn; try done.
  - intros name [-> _]%lookup_singleton_Some. done.
  - intros name i [<- <-]%lookup_singleton_Some. by eexists.
  - intros n _. apply lookup_singleton_ne. intros E. by apply (aside_name_not_log stamp0 n).
Qed.

(** The second line fills the file, which is rotated; the third starts a new one. *)
Lemma rotation_loses_nothing_witness :
  let '(ol, s) := append_all fs0 (ol0 9998)
    (allowed [as_bytes "one" ++ [newline]; as_bytes "two" ++ [newline];
              as_bytes "three" ++ [newline]]) in
  run_bytes s ol = as_bytes "one" ++ [newline] ++ as_bytes "two" ++ [newline] ++
                   as_bytes "three" ++ [newline].
Proof.
  pose proof (rotation_loses_nothing fs0 (ol0 9998)
    [as_bytes "one" ++ [newline]; as_bytes "two" ++ [newline]; as_bytes "three" ++ [newline]]
    (fs0_ok 9998) eq_refl) as H.
  destruct (append_all fs0 (ol0 9998) _) as [ol s]. destruct H as [H _]. by rewrite H.
Defined.

Lemma budget_never_exceeded_witness :
  (ol_lines (append_all fs0 (ol0 9999)
     [(mk_io None (Some NotFound) None, [newline])]).1 < ROTATE_AFTER_LINES)%Z.
Proof. apply budget_never_exceeded. done. Defined.

(** Two runs of the same second, the earlier one rotated once. *)
Definition shared_fs : fs :=
  mk_fs {[log_name stamp0 := 1%N; aside_name stamp0 1 := 2%N]}
    {[1%N := []; 2%N := as_bytes "earlier"]}.

Lemma rotation_replaces_earlier_runs_witness :
  let '(_, _, s') := rotate io_all_ok shared_fs (ol0 10000) in
  ∀ name, fs_dir s' !! name ≠ Some 2%N.
Proof.
  pose proof (rotation_replaces_earlier_runs shared_fs (ol0 10000) 2) as H.
  destruct (rotate io_all_ok shared_fs (ol0 10000)) as [[r ol'] s'].
  apply H; try done.
  intros name. cbn [fs_dir shared_fs]. rewrite lookup_insert_Some, lookup_singleton_Some. split.
  - intros [[_ ?]|[_ [<- _]]]; done.
  - intros ->. right. split; [|done]. intros E. by apply (aside_name_not_log stamp0 1).
Defined.

(** Ten later runs. *)
Definition later_runs : list string :=
  map (λ n, log_name ("20270101_00000" +:+ pretty n)) (seq 0 10).
Definition full_listing : list string := log_name stamp0 :: later_runs.

Lemma opened_run_can_be_pruned_witness :
  fs_dir (run_log_open (Some "/data")
    (mk_open_answers None None (Some full_listing) (λ _, true)) stamp0 (mk_fs ∅ ∅)).2
    !! log_name stamp0 = None.
Proof.
  pose proof (opened_run_can_be_pruned "/data"
    (mk_open_answers None None (Some full_listing) (λ _, true)) stamp0 (mk_fs ∅ ∅) full_listing) as H.
  destruct (run_log_open _ _ _ _) as [r s']. apply H; try done.
  - by left.
  - apply sample_stamp.
Defined.

Definition logging_statics (lines : Z) : LogStatics :=
  mk_log_statics true "/data/chat_module_20260730_120000.log" (Some (Some (ol0 lines)))
    (Some "warn") fs0.

(** The first line fills the file; the second event is not let through. *)
Definition sample_events : list log_event :=
  [mk_log_event true io_all_ok "12:00" INFO "chat_module::actions" "sent 2 bytes to convo-0";
   mk_log_event false io_all_ok "12:00" DEBUG "chat_module::inbound" "polling";
   mk_log_event true io_all_ok "12:01" WARN "libchat" "wakeup failed"].

Lemma file_is_stamped_stderr_witness :
  let '(st', out) := on_events (logging_statics 9999) sample_events in
  ∃ ol', ls_run_log st' = Some (Some ol') ∧
    run_bytes (ls_fs st') ol' =
    as_bytes ("12:00 INFO: chat_module::actions: sent 2 bytes to convo-0" +:+ newline_str +:+
              "12:01 WARNING: libchat: wakeup failed" +:+ newline_str).
Proof.
  pose proof (file_is_stamped_stderr (logging_statics 9999) "warn" (ol0 9999) sample_events
    eq_refl eq_refl (fs0_ok 9999) eq_refl) as H.
  destruct (on_events _ _) as [st' out]. destruct H as (_ & ol' & Hlog & _ & Hb).
  exists ol'. split; [done|]. destruct Hb as [_ ->]; [repeat constructor|]. vm_compute. reflexivity.
Defined.

Definition boom : panic_info :=
  mk_panic_info (PanicStr "boom") (Some ("group_v1.rs", 340%Z, 14%Z)) "0: rust_begin_unwind".

Lemma panic_recorded_witness :
  let hooks := Nat.iter 2 hook_install_once
    (mk_panic_statics false (λ info _ _ _ st, (st, ["thread panicked"]))) in
  let '(st', out) := ps_hook hooks boom io_all_ok false "12:02" (logging_statics 0) in
  out = ["chat_module: panic at group_v1.rs:340:14: boom"; "thread panicked"] ∧
  ∃ ol', ls_run_log st' = Some (Some ol') ∧
    run_bytes (ls_fs st') ol' =
    as_bytes ("12:02 CRITICAL: chat_module: panic at group_v1.rs:340:14: boom" +:+ newline_str +:+
              "0: rust_begin_unwind" +:+ newline_str).
Proof.
  intros hooks. destruct (ps_hook hooks _ _ _ _ _) as [st' out] eqn:E.
  pose proof (panic_recorded (λ _, ["thread panicked"]) 1 boom false "12:02"
    (logging_statics 0) (ol0 0) eq_refl (fs0_ok 0) eq_refl) as H.
  cbv beta zeta in H. fold hooks in H. rewrite E in H.
  destruct H as (Hout & ol' & Hlog & _ & Hb). split; [by rewrite Hout|].
  exists ol'. split; [done|]. rewrite Hb. vm_compute. reflexivity.
Defined.
