(* ===== verification/LogFaults.v ===== *)
(** * The log when the system refuses

    [LogSpec.v] says what rotation does while the system allows it. Here a write may
    stop short, and a rename or a create be refused, at any time. *)
From S2P Require Import Prelude Utf8 LogFiles LogSpec.
From Stdlib Require Import Ascii.

(** Where the file being written is: under the announced name, or, once a rotation
    moved it aside and could not open the next one, under its last ordinal, with
    nothing under the announced name. *)
Record log_fine (s : fs) (ol : open_log) (home : string) : Prop := {
  lf_path : ol_path ol = log_name (ol_stamp ol);
  lf_home : fs_dir s !! home = Some (ol_file ol);
  lf_own : ∀ name, fs_dir s !! name = Some (ol_file ol) → name = home;
  lf_data : ∀ name i, fs_dir s !! name = Some i → is_Some (fs_data s !! i);
  lf_rotations : (0 ≤ ol_rotations ol < u32_max_plus_1)%Z;
  lf_free : ∀ n, (ol_rotations ol < n)%Z → fs_dir s !! aside_name (ol_stamp ol) n = None;
  lf_where : home = ol_path ol ∨
    fs_dir s !! ol_path ol = None ∧
    ∃ k, (1 ≤ k ≤ ol_rotations ol)%Z ∧ home = aside_name (ol_stamp ol) k ∧
      ∀ n, (k < n)%Z → fs_dir s !! aside_name (ol_stamp ol) n = None;
}.

Lemma log_ok_fine s ol : log_ok s ol → log_fine s ol (ol_path ol).
Proof. intros []. split; try done. by left. Qed.

Lemma log_fine_ok s ol : log_fine s ol (ol_path ol) → log_ok s ol.
Proof. intros []. by split. Qed.

(** Nothing of [log_fine] is about the line count. *)
Definition with_lines (n : Z) (ol : open_log) : open_log :=
  mk_open_log (ol_file ol) (ol_path ol) (ol_stamp ol) n (ol_rotations ol).
Lemma log_fine_lines s ol home n : log_fine s ol home → log_fine s (with_lines n ol) home.
Proof. intros []. by split. Qed.

Lemma name_bytes_none s name : fs_dir s !! name = None → name_bytes s name = [].
Proof. unfold name_bytes. by intros ->. Qed.

(** Names past the last one in use hold nothing. *)
Lemma aside_bytes_none s stamp k n :
  (∀ m, (k < m)%Z → fs_dir s !! aside_name stamp m = None) →
  concat (map (name_bytes s) (map (aside_name stamp) (seqZ (k + 1) n))) = [].
Proof.
  intros H. apply concat_nil_Forall, Forall_forall. intros b Hb.
  rewrite map_map in Hb. apply list_elem_of_In, in_map_iff in Hb as (m & <- & Hm).
  apply list_elem_of_In, elem_of_seqZ in Hm. apply name_bytes_none, H. lia.
Qed.

(** What is written goes to the end of the run, wherever its file is. *)
Lemma put_bytes s ol home buf :
  log_fine s ol home →
  let s' := mk_fs (fs_dir s)
    (<[ol_file ol := inode_bytes (fs_data s) (ol_file ol) ++ buf]> (fs_data s)) in
  log_fine s' ol home ∧ run_bytes s' ol = run_bytes s ol ++ buf.
Proof.
  intros H s'. split.
  - destruct H. split; cbn; try done.
    intros name i Hi. destruct (decide (i = ol_file ol)) as [->|].
    + rewrite lookup_insert_eq. by eexists.
    + rewrite lookup_insert_ne by done. eauto.
  - assert (∀ name, name_bytes s' name =
      if decide (name = home) then name_bytes s name ++ buf else name_bytes s name) as Hname.
    { intros name. unfold s'. rewrite name_bytes_write. apply decide_ext.
      split; [apply (lf_own _ _ _ H)|intros ->; apply (lf_home _ _ _ H)]. }
    assert (∀ names, home ∉ names → map (name_bytes s') names = map (name_bytes s) names) as Hsame.
    { intros names Hn. apply map_ext_in. intros name Hin. rewrite Hname, decide_False; [done|].
      intros ->. by apply Hn, list_elem_of_In. }
    unfold run_bytes. destruct (lf_where _ _ _ H) as [->|(Hp & k & Hk & -> & Hlast)].
    + rewrite Hname, decide_True, app_assoc, Hsame; [done| |done].
      intros Hin. apply list_elem_of_In, in_map_iff in Hin as (n & E & _).
      rewrite (lf_path _ _ _ H) in E. by apply aside_name_not_log in E.
    + rewrite (name_bytes_none s (ol_path ol)) by done.
      rewrite (name_bytes_none s' (ol_path ol)) by done. rewrite !app_nil_r.
      unfold aside_names.
      assert (seqZ 1 (ol_rotations ol) = seqZ 1 (k - 1) ++ [k] ++ seqZ (k + 1) (ol_rotations ol - k))
        as ->.
      { replace (ol_rotations ol) with ((k - 1) + (1 + (ol_rotations ol - k)))%Z at 1 by lia.
        rewrite seqZ_app by lia. f_equal. rewrite seqZ_app by lia. f_equal; [|f_equal; lia].
        replace (1 + (k - 1))%Z with k by lia. reflexivity. }
      rewrite !map_app, !concat_app, !aside_bytes_none by done.
      rewrite !app_nil_r, Hsame.
      * cbn [map concat]. by rewrite !app_nil_r, Hname, decide_True, app_assoc.
      * intros Hin. apply list_elem_of_In, in_map_iff in Hin as (n & E & Hn).
        apply list_elem_of_In, elem_of_seqZ in Hn. apply aside_name_inj in E; lia.
Qed.

(** ** A rotation, whatever is refused *)

(** The ordinal is spent and nothing moved. *)
Definition spent (ol : open_log) : open_log :=
  mk_open_log (ol_file ol) (ol_path ol) (ol_stamp ol) 0 (ol_rotations ol + 1).

Lemma seqZ_last r : (0 ≤ r)%Z → seqZ 1 (r + 1) = seqZ 1 r ++ [(r + 1)%Z].
Proof.
  intros Hr. rewrite seqZ_app by lia. f_equal. replace (1 + r)%Z with (r + 1)%Z by lia. reflexivity.
Qed.

Lemma spent_fine s ol home :
  log_fine s ol home → (ol_rotations ol + 1 < u32_max_plus_1)%Z →
  log_fine s (spent ol) home ∧ run_bytes s (spent ol) = run_bytes s ol.
Proof.
  intros H Hroom. pose proof (lf_rotations _ _ _ H) as Hr. split.
  - destruct H as [? ? ? ? ? Hfree Hwhere]. split; cbn; try done; [lia| |].
    + intros n Hn. apply Hfree. lia.
    + destruct Hwhere as [?|(? & k & ? & ?)]; [by left|right]. split; [done|]. exists k.
      split; [lia|done].
  - unfold run_bytes, aside_names. cbn [spent ol_path ol_stamp ol_rotations].
    rewrite seqZ_last by lia. rewrite !map_app, concat_app. cbn [map concat].
    rewrite (name_bytes_none s (aside_name _ _)) by (apply (lf_free _ _ _ H); lia).
    by rewrite !app_nil_r.
Qed.

(** The file moved aside, and no next one opened. *)
Definition moved (s : fs) (ol : open_log) : fs :=
  mk_fs (<[aside_name (ol_stamp ol) (ol_rotations ol + 1) := ol_file ol]>
          (delete (ol_path ol) (fs_dir s))) (fs_data s).

Section moved.
Context (s : fs) (ol : open_log).
Hypothesis Hok : log_ok s ol.
Hypothesis Hroom : (ol_rotations ol + 1 < u32_max_plus_1)%Z.

Lemma moved_lookup name :
  fs_dir (moved s ol) !! name =
  if decide (name = aside_name (ol_stamp ol) (ol_rotations ol + 1)) then Some (ol_file ol)
  else if decide (name = ol_path ol) then None else fs_dir s !! name.
Proof. cbn. rewrite lookup_insert, lookup_delete. repeat case_decide; congruence. Qed.

Lemma moved_path : fs_dir (moved s ol) !! ol_path ol = None.
Proof.
  rewrite moved_lookup, decide_False, decide_True; [done..|].
  intros E. by apply (aside_not_path s ol Hok (ol_rotations ol + 1)).
Qed.

Lemma moved_fine :
  log_fine (moved s ol) (spent ol) (aside_name (ol_stamp ol) (ol_rotations ol + 1)) ∧
  run_bytes (moved s ol) (spent ol) = run_bytes s ol.
Proof.
  pose proof (lok_rotations _ _ Hok) as Hr. split.
  - split; try (cbn; lia).
    + apply Hok.
    + by rewrite moved_lookup, decide_True.
    + intros name. rewrite moved_lookup. case_decide; [done|]. case_decide; [done|].
      by intros Hn%(lok_own _ _ Hok).
    + intros name i. rewrite moved_lookup. case_decide.
      * intros [= <-]. apply (lok_data _ _ Hok (ol_path ol)), Hok.
      * case_decide; [done|]. apply (lok_data _ _ Hok).
    + cbn [spent ol_rotations ol_stamp]. intros n Hn. rewrite moved_lookup, decide_False.
      * case_decide; [done|]. apply (lok_free _ _ Hok). lia.
      * intros E. apply aside_name_inj in E; lia.
    + right. split; [apply moved_path|]. exists (ol_rotations ol + 1)%Z.
      cbn [spent ol_rotations ol_stamp]. split; [lia|]. split; [done|]. intros n Hn.
      rewrite moved_lookup, decide_False.
      * case_decide; [done|]. apply (lok_free _ _ Hok). lia.
      * intros E. apply aside_name_inj in E; lia.
  - unfold run_bytes, aside_names. cbn [spent ol_path ol_stamp ol_rotations].
    rewrite seqZ_last by lia. rewrite !map_app, concat_app. cbn [map concat].
    rewrite (name_bytes_none _ (ol_path ol)) by apply moved_path. rewrite !app_nil_r. f_equal.
    + f_equal. apply map_ext_in. intros name (n & <- & Hn)%in_map_iff.
      apply list_elem_of_In, elem_of_seqZ in Hn. unfold name_bytes. rewrite moved_lookup.
      rewrite decide_False by (intros E; apply aside_name_inj in E; lia).
      by rewrite decide_False by apply (aside_not_path s ol Hok).
    + unfold name_bytes. rewrite moved_lookup, decide_True by done.
      by rewrite (lok_file _ _ Hok).
Qed.
End moved.

(** A rotation keeps every byte, and leaves the announced name to a file unless it could
    not open one. *)
Lemma rotate_keeps io s ol home :
  log_fine s ol home → (ol_rotations ol + 1 < u32_max_plus_1)%Z →
  let '(_, ol', s') := rotate io s ol in
  ∃ home', log_fine s' ol' home' ∧ run_bytes s' ol' = run_bytes s ol ∧
    ol_path ol' = ol_path ol ∧ (ol_rotations ol' = ol_rotations ol + 1)%Z ∧
    (home = ol_path ol → io_create io = None → home' = ol_path ol) ∧
    (home ≠ ol_path ol → home' = home ∧ s' = s).
Proof.
  intros H Hroom. pose proof (lf_rotations _ _ _ H) as Hr.
  destruct (spent_fine s ol home H Hroom) as [Hspent Hbytes].
  unfold rotate. rewrite Z.mod_small by lia. fold (spent ol). unfold rename.
  cbn [spent ol_stamp ol_path ol_rotations].
  assert (∃ home', log_fine s (spent ol) home' ∧ run_bytes s (spent ol) = run_bytes s ol ∧
    ol_path ol = ol_path ol ∧ (ol_rotations ol + 1 = ol_rotations ol + 1)%Z ∧
    (home = ol_path ol → io_create io = None → home' = ol_path ol) ∧
    (home ≠ ol_path ol → home' = home ∧ s = s)) as Hstay.
  { exists home. by split_and!. }
  destruct (io_rename io) as [e|]; [exact Hstay|].
  destruct (lf_where _ _ _ H) as [->|(Hp & k & Hk & -> & _)]; [|by rewrite Hp].
  pose proof (log_fine_ok _ _ H) as Hok. rewrite (lok_file _ _ Hok). fold (moved s ol).
  destruct (moved_fine s ol Hok Hroom) as [Hmoved Hmbytes].
  unfold create. destruct (io_create io) as [e|] eqn:Hc.
  - eexists. split; [exact Hmoved|]. by split_and!.
  - rewrite moved_path by done. change (new_inode (moved s ol)) with (new_inode s).
    change (mk_fs _ _) with (rotated_fs s ol). change (mk_open_log _ _ _ _ _) with (rotated_log s ol).
    exists (ol_path ol). split; [by apply (log_ok_fine _ (rotated_log s ol)), rotated_log_ok|].
    split; [by apply rotated_run_bytes|]. by split_and!.
Qed.

(** ** Writes, whatever is refused *)

(** What the system took of a write. *)
Definition written (w : io_answers * list ascii) : list ascii :=
  match io_write w.1 with None => w.2 | Some (n, _) => take n w.2 end.

Lemma append_keeps io s ol home buf :
  log_fine s ol home → (ol_rotations ol + 1 < u32_max_plus_1)%Z →
  let '(_, ol', s') := append io s ol buf in
  ∃ home', log_fine s' ol' home' ∧ run_bytes s' ol' = run_bytes s ol ++ written (io, buf) ∧
    ol_path ol' = ol_path ol ∧ (ol_rotations ol' ≤ ol_rotations ol + 1)%Z ∧
    (home = ol_path ol → io_create io = None → home' = ol_path ol) ∧
    (home ≠ ol_path ol → home' = home ∧ fs_dir s' = fs_dir s ∧
       name_bytes s' home = name_bytes s home ++ written (io, buf)).
Proof.
  intros H Hroom.
  destruct (put_bytes s ol home (written (io, buf)) H) as [Hput Hbytes]. cbn zeta in *.
  set (s1 := mk_fs (fs_dir s) _) in *.
  assert (name_bytes s1 home = name_bytes s home ++ written (io, buf)) as Hname.
  { unfold s1. rewrite name_bytes_write, decide_True; [done|]. apply (lf_home _ _ _ H). }
  unfold append, write_all. unfold written in *. cbn [fst snd] in *.
  destruct (io_write io) as [[n e]|]; fold s1.
  - exists home. by split_and!; [..|lia| |].
  - pose proof (log_fine_lines _ _ _ (as_u64 (ol_lines ol + count_newlines buf)) Hput) as Hl.
    fold (with_lines (as_u64 (ol_lines ol + count_newlines buf)) ol).
    set (ol1 := with_lines _ ol) in *. destruct (ROTATE_AFTER_LINES <=? _)%Z.
    + pose proof (rotate_keeps io s1 ol1 home Hl Hroom) as Hrot.
      destruct (rotate io s1 ol1) as [[r ol2] s2].
      destruct Hrot as (home' & Hf & Hb & Hp & Hr & Hin & Hout). exists home'.
      split; [done|]. split; [by rewrite Hb|]. split; [done|]. split; [cbn in Hr; lia|].
      split; [done|]. intros Hne. by destruct (Hout Hne) as [-> ->].
    + exists home. by split_and!; [..|cbn; lia| |].
Qed.

Lemma append_all_keeps s ol home writes :
  log_fine s ol home → (ol_rotations ol + Z.of_nat (length writes) < u32_max_plus_1)%Z →
  let '(ol', s') := append_all s ol writes in
  ∃ home', log_fine s' ol' home' ∧
    run_bytes s' ol' = run_bytes s ol ++ concat (map written writes) ∧
    ol_path ol' = ol_path ol ∧
    (home = ol_path ol → Forall (λ w, io_create w.1 = None) writes → home' = ol_path ol) ∧
    (home ≠ ol_path ol → home' = home ∧ fs_dir s' = fs_dir s ∧
       name_bytes s' home = name_bytes s home ++ concat (map written writes)).
Proof.
  revert s ol home. induction writes as [|[io buf] writes IH]; intros s ol home H Hroom; cbn [append_all].
  { exists home. rewrite !app_nil_r. by split_and!. }
  cbn [length] in Hroom. pose proof (append_keeps io s ol home buf H) as Happ.
  destruct (append io s ol buf) as [[r ol1] s1].
  destruct Happ as (home1 & Hf & Hb & Hp & Hr & Hin & Hout); [lia|].
  specialize (IH s1 ol1 home1 Hf). destruct (append_all s1 ol1 writes) as [ol2 s2].
  destruct IH as (home2 & Hf2 & Hb2 & Hp2 & Hin2 & Hout2); [lia|].
  exists home2. split; [done|]. split; [cbn [map concat]; by rewrite Hb2, Hb, app_assoc|].
  split; [congruence|]. split.
  - intros Hh Hall. inversion Hall as [|? ? Hc Hcs]. cbn in Hc.
    rewrite <-Hp. apply Hin2; [|done]. rewrite Hp. by apply Hin.
  - intros Hh. destruct (Hout Hh) as (-> & Hd & Hn). rewrite <-Hp in Hh.
    destruct (Hout2 Hh) as (-> & Hd2 & Hn2). split; [done|]. split; [congruence|].
    cbn [map concat]. by rewrite Hn2, Hn, app_assoc.
Qed.

(** C31. Whatever the system refuses of a run's writes, renames and creates, and whenever: the
    run's files hold, in order, all it took of what was written; a rotation that does not
    come off costs nothing but its ordinal. As long as no create is refused the
    announced path is the file being written. *)
Theorem no_refusal_loses_lines s ol writes :
  log_ok s ol → (ol_rotations ol + Z.of_nat (length writes) < u32_max_plus_1)%Z →
  let '(ol', s') := append_all s ol writes in
  run_bytes s' ol' = run_bytes s ol ++ concat (map written writes) ∧ ol_path ol' = ol_path ol ∧
  (Forall (λ w, io_create w.1 = None) writes → fs_dir s' !! ol_path ol = Some (ol_file ol')).
Proof.
  intros Hok Hroom. pose proof (append_all_keeps s ol _ writes (log_ok_fine _ _ Hok) Hroom) as H.
  destruct (append_all s ol writes) as [ol' s']. destruct H as (home' & Hf & Hb & Hp & Hin & _).
  split; [done|]. split; [done|]. intros Hc. rewrite <-(Hin eq_refl Hc). apply (lf_home _ _ _ Hf).
Qed.

(** C38. A rotation that moved the full file aside and could not open the next one was the
    run's last: nothing is under the announced path any more, whatever the system would
    allow, and every further line goes to the file that was moved aside. *)
Theorem refused_create_ends_rotation e s ol buf writes :
  log_ok s ol →
  (ol_rotations ol + Z.of_nat (S (length writes)) < u32_max_plus_1)%Z →
  (ROTATE_AFTER_LINES ≤ as_u64 (ol_lines ol + count_newlines buf))%Z →
  let aside := aside_name (ol_stamp ol) (ol_rotations ol + 1) in
  let '(r, ol1, s1) := append (mk_io None None (Some e)) s ol buf in
  let '(ol2, s2) := append_all s1 ol1 writes in
  r = Err e ∧ ol_path ol2 = ol_path ol ∧ fs_dir s2 !! ol_path ol = None ∧
  name_bytes s2 aside = name_bytes s (ol_path ol) ++ buf ++ concat (map written writes).
Proof.
  intros Hok Hroom Hfull aside. pose proof (lok_rotations _ _ Hok) as Hr.
  destruct (write_all_log_ok s ol buf Hok) as [Hw _]. unfold append.
  pose proof (name_bytes_write s (ol_file ol) buf (ol_path ol)) as Hname.
  rewrite decide_True in Hname by apply Hok.
  change (write_all (mk_io None None (Some e)) s (ol_file ol) buf) with
    (write_all io_all_ok s (ol_file ol) buf).
  destruct (write_all io_all_ok s (ol_file ol) buf) as [w s0] eqn:E. injection E as <- E.
  rewrite E in Hname. cbn [snd] in Hw.
  set (ol0 := mk_open_log _ _ _ _ _). assert (log_ok s0 ol0) as Hok0 by by destruct Hw; split.
  rewrite (proj2 (Z.leb_le _ _)) by exact Hfull.
  assert (rotate (mk_io None None (Some e)) s0 ol0 = (Err e, spent ol0, moved s0 ol0)) as ->.
  { unfold rotate, rename, create. cbn [io_rename io_create ol_rotations ol_stamp ol_path ol_file ol0].
    rewrite Z.mod_small by lia. by rewrite (lok_file _ _ Hok0 : fs_dir s0 !! ol_path ol = _). }
  destruct (moved_fine s0 ol0 Hok0) as [Hf _]; [cbn; lia|].
  pose proof (append_all_keeps (moved s0 ol0) (spent ol0) _ writes Hf) as H.
  destruct (append_all (moved s0 ol0) (spent ol0) writes) as [ol2 s2].
  destruct H as (home & _ & _ & Hp & _ & Hout); [cbn; lia|].
  destruct Hout as (_ & Hd & Hn); [by apply (aside_not_path s0 ol0 Hok0)|].
  split; [done|]. split; [done|]. split; [rewrite Hd; by apply (moved_path s0 ol0)|].
  etrans; [exact Hn|]. rewrite (app_assoc (name_bytes s _)), <-Hname. f_equal.
  unfold name_bytes. rewrite moved_lookup, decide_True by done.
  by rewrite (lok_file _ _ Hok0 : fs_dir s0 !! ol_path ol = _).
Qed.

(** ** Instances: the file is full, its rotation half done, and a write cut short *)

Definition denied : io_answers := mk_io None None (Some (Os "denied")).
Definition full_disk : io_answers := mk_io (Some (2, Os "no space")) None None.
Definition line_of (s : string) : list ascii := as_bytes s ++ [newline].

Lemma no_refusal_loses_lines_witness :
  let '(ol, s) := append_all fs0 (ol0 9999)
    [(denied, line_of "one"); (full_disk, line_of "two"); (io_all_ok, line_of "three")] in
  run_bytes s ol = line_of "one" ++ as_bytes "tw" ++ line_of "three".
Proof.
  pose proof (no_refusal_loses_lines fs0 (ol0 9999)
    [(denied, line_of "one"); (full_disk, line_of "two"); (io_all_ok, line_of "three")]
    (fs0_ok 9999) eq_refl) as H.
  destruct (append_all fs0 (ol0 9999) _) as [ol s]. destruct H as [H _]. by rewrite H.
Defined.

Lemma refused_create_ends_rotation_witness :
  let '(_, ol1, s1) := append denied fs0 (ol0 9999) (line_of "one") in
  let '(ol2, s2) := append_all s1 ol1 (repeat (io_all_ok, line_of "more") 3) in
  fs_dir s2 !! log_name stamp0 = None ∧
  name_bytes s2 (aside_name stamp0 1) =
    line_of "one" ++ line_of "more" ++ line_of "more" ++ line_of "more".
Proof.
  pose proof (refused_create_ends_rotation (Os "denied") fs0 (ol0 9999) (line_of "one")
    (repeat (io_all_ok, line_of "more") 3) (fs0_ok 9999) eq_refl) as H.
  cbn zeta in H. fold denied in H.
  destruct (append denied fs0 (ol0 9999) (line_of "one")) as [[r ol1] s1].
  destruct (append_all s1 ol1 _) as [ol2 s2]. destruct H as (_ & _ & Hd & Hn).
  - by apply Z.leb_le.
  - by split.
Defined.
