(* ===== verification/TextSpec.v ===== *)
(** * What crosses the boundary as text

    Answers of delivery_module, messages read back as text, labels and previews,
    and what the log says of a message. *)
From S2P Require Import Prelude Utf8 LogFiles Logging Delivery Persistence ModuleState Runtime.
From S2P Require Import Actions Lifecycle Inbound SqliteMem Samples ActionsFacts History.
From S2P Require Import Outcomes.
From Stdlib Require Import Ascii.

(** C29. A call to delivery_module succeeded exactly when it was answered with an envelope
    that says so; every other answer is a failure with a reason: the transport's, the
    one delivery_module gave (never empty), or that the answer was no envelope. *)
Theorem delivery_outcome_spec {J : Json} (res : result Value LogosError) :
  match delivery_outcome res with
  | Ok v =>
      ∃ envelope, res = Ok envelope ∧ json_get envelope "success" ≫= as_bool = Some true ∧
        v = default Null (json_get envelope "value")
  | Err reason =>
      (∃ e, res = Err e ∧ reason = logos_error_display e) ∨
      (∃ envelope, res = Ok envelope ∧
        (json_get envelope "success" ≫= as_bool = Some false ∧ reason ≠ "" ∧
         (∀ r, json_get envelope "error" ≫= as_str = Some r → r ≠ "" → reason = r) ∨
         json_get envelope "success" ≫= as_bool = None ∧
         reason = "not a result envelope: " +:+ value_display envelope))
  end.
Proof.
  unfold delivery_outcome. destruct res as [envelope|e]; cbn; [|by left; exists e].
  destruct (json_get envelope "success" ≫= as_bool) as [[]|] eqn:Hs; cbn [and_then].
  - by exists envelope.
  - right. exists envelope. split; [done|]. left. split; [done|].
    destruct (json_get envelope "error" ≫= as_str) as [r|]; cbn; [|by split].
    unfold str_eqb. destruct (decide (r = "")) as [->|Hr].
    + split; [done|]. by intros r [= <-].
    + rewrite bool_decide_eq_false_2 by done. cbn. split; [done|]. by intros r' [= ->].
  - right. exists envelope. split; [done|]. by right.
Qed.

(** A stored message is shown as text whatever its bytes, as sent when they are text,
    and with the time it was given, although the store keeps a signed number. *)
Theorem stored_message_shown (id : string) dir clock (bytes : list ascii) :
  let m := display_message (chat_message id dir (now_ms clock) bytes) in
  is_str (content m) = true ∧
  (utf8_valid bytes = true → as_bytes (content m) = bytes) ∧
  timestamp_ms m = now_ms clock ∧ from_self m = bool_decide (dir = Sent).
Proof.
  cbn zeta. split_and!; [apply from_utf8_lossy_is_str| | |done].
  - intros Hv. change (content _) with (from_utf8_lossy bytes). unfold from_utf8_lossy.
    by rewrite as_bytes_of_list, lossy_bytes_valid.
  - apply as_u64_as_i64, now_ms_range.
Qed.

(** A short label is text: the first eight characters, never cut inside one. *)
Theorem short_label_spec id :
  is_str id = true →
  is_str (short_label id) = true ∧ as_bytes (short_label id) `prefix_of` as_bytes id ∧
  chars (short_label id) = take 8 (chars id) ∧
  (length (chars id) ≤ 8 → short_label id = id).
Proof.
  intros Hs. rewrite short_label_take_chars. split_and!.
  - by apply take_chars_is_str.
  - apply take_chars_prefix.
  - by apply chars_take_chars.
  - apply take_chars_all.
Qed.

Lemma short_label_spec_witness :
  short_label "grüße-an-alle" = "grüße-an" ∧ is_str (short_label "grüße-an-alle") = true.
Proof.
  split; [by vm_compute|]. apply (short_label_spec "grüße-an-alle"). by vm_compute.
Defined.

(** C39. What a conversation's row in the list says of its messages: the last one's time
    and its first 160 characters, and how many there are, those on disk included. *)
Theorem conversation_row_spec s :
  (0 ≤ older_messages s)%Z →
  (older_messages s + Z.of_nat (length (messages s)) < i64_max_plus_1)%Z →
  Forall (λ m, is_str (content m) = true ∧ (timestamp_ms m < i64_max_plus_1)%Z ∧
               (0 ≤ timestamp_ms m)%Z) (messages s) →
  let c := conversation_of s in
  c_message_count c = (older_messages s + Z.of_nat (length (messages s)))%Z ∧
  match last (messages s) with
  | None => c_preview c = None ∧ c_last_activity_ms c = 0%Z
  | Some m =>
      c_last_activity_ms c = timestamp_ms m ∧
      ∃ p, c_preview c = Some p ∧ is_str p = true ∧
        as_bytes p `prefix_of` as_bytes (content m) ∧ chars p = take 160 (chars (content m))
  end.
Proof.
  intros Ho Hcount Hm. cbn zeta. unfold conversation_of. cbn [c_message_count c_preview c_last_activity_ms].
  split.
  - unfold usize_add. rewrite as_u64_id.
    + apply as_i64_id. lia.
    + unfold in_u64, u64_max_plus_1, i64_max_plus_1 in *. lia.
  - destruct (last (messages s)) as [m|] eqn:Hl; [|done]. cbn.
    apply last_Some_elem_of in Hl. rewrite Forall_forall in Hm. destruct (Hm m Hl) as (Hs & Hlt & Hge).
    split; [apply as_i64_id; lia|]. exists (take_chars PREVIEW_MAX_CHARS (content m)).
    split_and!; [done|by apply take_chars_is_str|apply take_chars_prefix|by apply chars_take_chars].
Qed.

Lemma conversation_row_spec_witness :
  let s := push_message (display_message old_message) old_session in
  c_message_count (conversation_of s) = 1%Z ∧
  c_last_activity_ms (conversation_of s) = 1700000000000%Z.
Proof.
  intros s. destruct (conversation_row_spec s) as [H1 [H2 _]].
  - done.
  - done.
  - repeat constructor; done.
  - split; [exact H1|exact H2].
Defined.

(** ** What the log says of a message *)

Section privacy.
Context {J : Json} {DB : Sqlite} {LC : Libchat}.
Implicit Types (w : world).

Definition lines_of (os : list output) : list (level * string) :=
  omap (λ o, match o with Log l line => Some (l, line) | Emit _ => None end) os.

Lemma lines_of_app os os' : lines_of (os ++ os') = lines_of os ++ lines_of os'.
Proof. apply omap_app. Qed.

(** Everything [send_message] can log. *)
Lemma send_message_lines clock id content w :
  lines_of (new_outputs w (run (send_message clock id content) w).2) =
  match chats (d_state (w_display w)) !! id, mh_poisoned (w_module w), mh_inner (w_module w) with
  | Some s, false, Some ms =>
      if negb (history_only s) && is_ok (client_send (ms_client ms) id (as_bytes content)).1
      then lines_of [sent_line id content] else []
  | _, _, _ => []
  end.
Proof.
  assert (new_outputs w w = []) as Hnil by apply drop_all.
  unfold send_message. rewrite run_try_bind, run_check_live. cbn [fst snd].
  destruct (chats _ !! id) as [s|]; cbn [snd]; [|by rewrite Hnil].
  destruct (history_only s); cbn [negb andb snd];
    [rewrite Hnil; by destruct (mh_poisoned (w_module w)), (mh_inner (w_module w))|].
  rewrite run_try_bind. unfold with_client_try. rewrite run_try_bind, run_with_client.
  destruct (mh_poisoned _); [cbn [fst snd]; by rewrite Hnil|].
  destruct (mh_inner _) as [ms|]; [|cbn; by rewrite Hnil]. cbn [fst snd].
  destruct (client_send (ms_client ms) id (as_bytes content)) as [[u|e] c]; cbn [fst snd map_err is_ok run].
  2:{ unfold new_outputs. cbn. by rewrite drop_all. }
  change (mbind ?k ?p) with (bind p k). rewrite run_bind. cbn [run log fst snd].
  rewrite run_try_bind, run_with_display_mut. cbn [fst snd].
  destruct (record_message _ _ _) as [[u'|e] d]; cbn; unfold new_outputs; cbn;
    rewrite ?app_nil_r, <-?app_assoc, drop_app_length; done.
Qed.

(** How the message store answers a message that changes a row or not, whatever it
    writes. *)
Definition recording_answer (m : Message) (c : Connection) (row : option ChatSession)
    : result unit SqlError := (Persistence.record_message row m c).1.

(** Everything [record_message_received] can log: it depends on the content's length
    and on the message store's answer. *)
Lemma received_lines clock id content content' account installation w :
  length content = length content' →
  (∀ c row, recording_answer (inbound_message clock id content account installation) c row =
            recording_answer (inbound_message clock id content' account installation) c row) →
  let os b := new_outputs w (run (record_message_received clock id b account installation) w).2 in
  lines_of (os content) = lines_of (os content').
Proof.
  intros Hlen Hstore. cbn zeta. unfold record_message_received, new_outputs.
  rewrite !run_with_display_mut. cbn [snd]. destruct (decide _); [done|].
  destruct (receiving_session _ _ _) as [s b]. unfold record_message.
  cbn [msg_chat_id inbound_message set_chats set_app d_state chats d_chat_db].
  rewrite lookup_insert_eq, Hlen.
  destruct (d_chat_db (w_display w)) as [c|].
  2:{ cbn [fst snd put_display w_out]. by rewrite !drop_app_length. }
  specialize (Hstore c (if b then Some s else None)). unfold recording_answer in Hstore.
  destruct (Persistence.record_message _ (inbound_message _ _ content _ _) _) as [r c1],
    (Persistence.record_message _ (inbound_message _ _ content' _ _) _) as [r' c1'].
  cbn [fst snd put_display w_out] in *. subst r'. rewrite !drop_app_length. by destruct r.
Qed.

(** C30. Where the client takes, and the database stores, two messages of one length
    alike, they are logged alike, sent or received, down to the last line, the line of a
    failed write included: nothing else of what was said reaches the log. *)
Theorem log_hides_content clock id (text text' : string) (bytes bytes' : list ascii)
    account installation w :
  str_len text = str_len text' → length bytes = length bytes' →
  (∀ c, (client_send c id (as_bytes text)).1 = (client_send c id (as_bytes text')).1) →
  let inbound b := inbound_message clock id b account installation in
  (∀ c row, recording_answer (inbound bytes) c row = recording_answer (inbound bytes') c row) →
  let received b := new_outputs w
    (run (handle_event clock (MessageReceived id b account installation)) w).2 in
  lines_of (new_outputs w (run (send_message clock id text) w).2) =
  lines_of (new_outputs w (run (send_message clock id text') w).2) ∧
  lines_of (received bytes) = lines_of (received bytes').
Proof.
  intros Hlen Hlen' Hclient inbound Hstore. cbn zeta. split.
  - rewrite !send_message_lines. unfold sent_line. rewrite Hlen.
    destruct (chats _ !! id) as [s|]; [|done]. destruct (mh_poisoned _); [done|].
    destruct (mh_inner _) as [ms|]; [|done]. by rewrite Hclient.
  - by apply received_lines.
Qed.
End privacy.

(** The database in memory answers by its script alone. *)
Lemma mem_alike disk m m' c row :
  recording_answer (DB := mem_sqlite disk) m c row =
  recording_answer (DB := mem_sqlite disk) m' c row.
Proof.
  unfold recording_answer, Persistence.record_message, transaction, sql_then, sql_bind.
  destruct (sql_begin c) as [[u|e] tx]; [|done].
  destruct row as [s|]; [destruct (save_chat s tx) as [[u'|e] tx']; [|done]|];
    unfold sql_ret; cbn [store_record sql_commit mem_sqlite]; unfold mem_write; cbn [mem_script];
    (destruct (default false _); [done|]); cbn; by destruct (default false _).
Qed.

(** Two received messages, on a disk that takes no more writes, and two sent ones. *)
Lemma log_hides_content_witness :
  let w := sample_world sample_disk [true] in
  let received b := lines_of (new_outputs w
    (run (handle_event (Some 5%Z) (MessageReceived "convo-0" (as_bytes b) "saro" "phone")) w).2) in
  lines_of (new_outputs w (run (send_message (Some 5%Z) "convo-0" "yes") w).2) =
  lines_of (new_outputs w (run (send_message (Some 5%Z) "convo-0" "no!") w).2) ∧
  received "yes" = received "no!" ∧ length (received "no!") = 2.
Proof.
  intros w received. assert (length (received "no!") = 2) as Hn by (vm_compute; reflexivity).
  destruct (log_hides_content (Some 5%Z) "convo-0" "yes" "no!" (as_bytes "yes") (as_bytes "no!")
    "saro" "phone" w) as [Hs Hr]; [reflexivity|reflexivity| |intros c row; apply mem_alike|].
  - intros c. cbn. by case_bool_decide.
  - split; [exact Hs|]. split; [exact Hr|exact Hn].
Defined.
