(* ===== verification/Guarantee.v ===== *)
(** * One conversation among everything else that runs

    A thread relies on what the others leave alone. Here the conversation [id] is
    shared by any number of threads none of which deletes it or brings the module
    down: what each of them keeps of it holds at every point of every
    interleaving, and so do the accounts between what is announced and what is
    shown. *)
From stdpp Require Import relations.
From Stdlib Require Import Ascii.
From S2P Require Import Prelude Utf8 LogFiles Logging Delivery Persistence ModuleState Runtime.
From S2P Require Import Concurrency Actions Lifecycle Inbound Transport Api Threads SqliteMem.
From S2P Require Import Samples Interleaving ActionsFacts History Outcomes Replay.

(** ** What is announced, and what is shown *)

(** The messages of [id] an output announces. *)
Definition told_received (id : string) (o : output) : list ApiMessage :=
  match o with
  | Emit (message_received i text ts account) =>
      if decide (i = id) then [mk_api_message false text ts (Some account)] else []
  | _ => []
  end.
Definition told_sent (id : string) (o : output) : list ApiMessage :=
  match o with
  | Emit (message_sent i text ts) =>
      if decide (i = id) then [mk_api_message true text ts None] else []
  | _ => []
  end.

Definition mute (id : string) (o : output) : Prop :=
  told_received id o = [] ∧ told_sent id o = [].

Lemma mute_told id os :
  Forall (mute id) os → os ≫= told_received id = [] ∧ os ≫= told_sent id = [].
Proof.
  induction 1 as [|o os [H1 H2] _ [IH1 IH2]]; [done|].
  by rewrite !bind_cons, IH1, IH2, H1, H2.
Qed.

(** One thread's part of what is in hand, spent and renewed. *)
Lemma hand_over {A} (told new tok tok' before after more all : list A) :
  told ++ before ++ tok ++ after ⊆+ all → new ++ tok' ⊆+ tok ++ more →
  (told ++ new) ++ before ++ tok' ++ after ⊆+ all ++ more.
Proof.
  intros H Hnew. trans ((told ++ before ++ after) ++ (new ++ tok')).
  { apply Permutation_submseteq. solve_Permutation. }
  etrans; [by apply submseteq_skips_l|]. trans ((told ++ before ++ tok ++ after) ++ more).
  { apply Permutation_submseteq. solve_Permutation. }
  by apply submseteq_skips_r.
Qed.

Section rely.
Context {DB : Sqlite} {LC : Libchat}.
Variable id : string.
Implicit Types (d : Display) (os : list output) (tok : list ApiMessage).

(** The module handle and the display, the two things the locks guard here. *)
Definition guarded : Type := ModuleHandle * Display.
Implicit Types (s : guarded).

(** What [get_messages] answers for [id]. *)
Definition listed d : list ApiMessage :=
  map api_message (default [] (messages <$> chats (d_state d) !! id)).
(** What was added to the list since [d]. *)
Definition added d d' : list ApiMessage := drop (length (listed d)) (listed d').
Definition ours (l : list ApiMessage) : list ApiMessage := filter (λ m, m_from_self m = true) l.
Definition theirs (l : list ApiMessage) : list ApiMessage := filter (λ m, m_from_self m = false) l.

(** A module is installed and its database open. *)
Definition is_up s : Prop := is_Some (mh_inner s.1) ∧ is_Some (d_chat_db s.2).

(** What every step of every thread guarantees, and so what each thread may rely
    on: the module stays up, [id] stays, and its list only grows at its end. *)
Record rely s s' : Prop := {
  rely_up : is_up s → is_up s';
  rely_stays : is_Some (chats (d_state s.2) !! id) → is_Some (chats (d_state s'.2) !! id);
  rely_grows : listed s.2 `prefix_of` listed s'.2;
}.

#[global] Instance rely_preorder : PreOrder rely.
Proof.
  split.
  - by split.
  - intros s1 s2 s3 [] []. split; [by auto..|by etrans].
Qed.

Lemma added_trans d1 d2 d3 :
  listed d1 `prefix_of` listed d2 → listed d2 `prefix_of` listed d3 →
  added d1 d3 = added d1 d2 ++ added d2 d3.
Proof.
  unfold added. intros [l2 ->] [l3 ->].
  rewrite !drop_app_length. by rewrite <-app_assoc, drop_app_length.
Qed.

Lemma added_same d d' : listed d' = listed d → added d d' = [].
Proof. unfold added. intros ->. by rewrite drop_all. Qed.

(** The accounts of a step that puts out [os]: what it adds of others' it announces
    there and then, in order; of ours, what it announces was in hand or is new, and
    the rest stays in hand. *)
Definition accounts d d' os tok tok' : Prop :=
  os ≫= told_received id = theirs (added d d') ∧
  (os ≫= told_sent id) ++ tok' ⊆+ tok ++ ours (added d d').

Lemma accounts_quiet d d' os tok :
  listed d' = listed d → Forall (mute id) os → accounts d d' os tok tok.
Proof.
  intros Hl Ho. destruct (mute_told id os Ho) as [H1 H2].
  unfold accounts. rewrite H1, H2, (added_same _ _ Hl). by rewrite app_nil_r.
Qed.

(** [p], started by a thread that last saw [s] and has the messages [tok] left to
    announce, keeps the guarantee and the accounts whatever the others do between its
    steps, as long as they keep them too, and ends with [Q]. *)
Fixpoint grants {A} (Q : A → guarded → Prop) tok s (p : prog A) : Prop :=
  match p with
  | Ret a => ∀ s', rely s s' → Q a s'
  | OnModule f k => ∀ s1, rely s s1 →
      rely s1 ((f s1.1).2, s1.2) ∧ grants Q tok ((f s1.1).2, s1.2) (k (f s1.1).1)
  | OnDisplay f k => ∀ s1, rely s s1 →
      rely s1 (s1.1, (f s1.2).1.2) ∧
      ∃ tok', accounts s1.2 (f s1.2).1.2 (f s1.2).2 tok tok' ∧
        grants Q tok' (s1.1, (f s1.2).1.2) (k (f s1.2).1.1)
  | OnPreset _ k => ∀ x, grants Q tok s (k x)
  | OnLog _ k => ∀ x, grants Q tok s (k x)
  | OnSignals _ k => ∀ x, grants Q tok s (k x)
  | Output o k =>
      told_received id o = [] ∧ ∃ tok', told_sent id o ++ tok' ⊆+ tok ∧ grants Q tok' s k
  | Dispatch _ k | Acquire _ k | Release _ k | Join _ k => grants Q tok s k
  end.

(** A thread may have seen less, and have more in hand. *)
Lemma grants_mono {A} (Q : A → guarded → Prop) tok tok1 s s1 (p : prog A) :
  rely s s1 → tok ⊆+ tok1 → grants Q tok s p → grants Q tok1 s1 p.
Proof.
  revert tok tok1 s s1.
  induction p as [a|X g k IH|X g k IH|X g k IH|X g k IH|X g k IH|o k IH|c k IH|l k IH|l k IH|t k IH];
    intros tok tok1 s s1 Hs Ht; cbn [grants]; intros H; eauto.
  - intros s2 H2. apply H. by etrans.
  - intros s2 H2. destruct (H s2) as [Hr Hk]; [by etrans|]. split; [done|].
    by eapply IH; [reflexivity|exact Ht|exact Hk].
  - intros s2 H2. destruct (H s2) as (Hr & tok' & [Hth Ho] & Hk); [by etrans|].
    split; [done|]. exists tok'. split; [|done]. split; [done|]. rewrite Ho.
    by apply submseteq_skips_r.
  - destruct H as (Hr & tok' & Ho & Hk). split; [done|]. exists tok'.
    split; [by rewrite Ho|]. by eapply IH.
Qed.

Lemma grants_bind {A B} (Q : A → guarded → Prop) (R : B → guarded → Prop) tok s
    (p : prog A) (f : A → prog B) :
  grants Q tok s p → (∀ a s', rely s s' → Q a s' → grants R [] s' (f a)) →
  grants R tok s (bind p f).
Proof.
  revert tok s.
  induction p as [a|X g k IH|X g k IH|X g k IH|X g k IH|X g k IH|o k IH|c k IH|l k IH|l k IH|t k IH];
    intros tok s; cbn [grants bind]; intros H Hf; eauto.
  - eapply (grants_mono _ [] _ s s); [done|apply submseteq_nil_l|]. by apply Hf, H.
  - intros s1 H1. destruct (H s1 H1) as [Hr Hk]. split; [done|]. apply IH; [done|].
    intros a s' Hs'. apply Hf. etrans; [exact H1|]. by etrans.
  - intros s1 H1. destruct (H s1 H1) as (Hr & tok' & Ho & Hk). split; [done|].
    exists tok'. split; [done|]. apply IH; [done|].
    intros a s' Hs'. apply Hf. etrans; [exact H1|]. by etrans.
  - destruct H as (Hr & tok' & Ho & Hk). split; [done|]. exists tok'. split; [done|]. by apply IH.
Qed.

(** *** Programs that leave the conversation's list alone *)

Definition leaves d d' : Prop :=
  listed d' = listed d ∧ (is_Some (chats (d_state d) !! id) → is_Some (chats (d_state d') !! id)) ∧
  (is_Some (d_chat_db d) → is_Some (d_chat_db d')).

#[global] Instance leaves_preorder : PreOrder leaves.
Proof.
  split; [done|]. intros d1 d2 d3 (E & ? & ?) (E' & ? & ?). split; [by rewrite E'|]. split; auto.
Qed.

Fixpoint quiet {A} (p : prog A) : Prop :=
  match p with
  | Ret _ => True
  | OnModule f k => ∀ h, (is_Some (mh_inner h) → is_Some (mh_inner (f h).2)) ∧ quiet (k (f h).1)
  | OnDisplay f k => ∀ d, leaves d (f d).1.2 ∧ Forall (mute id) (f d).2 ∧ quiet (k (f d).1.1)
  | OnPreset _ k => ∀ x, quiet (k x)
  | OnLog _ k => ∀ x, quiet (k x)
  | OnSignals _ k => ∀ x, quiet (k x)
  | Output o k => mute id o ∧ quiet k
  | Dispatch _ k | Acquire _ k | Release _ k | Join _ k => quiet k
  end.

Lemma quiet_mbind {A B} (p : prog A) (f : A → prog B) :
  quiet p → (∀ a, quiet (f a)) → quiet (p ≫= f).
Proof. change (p ≫= f) with (bind p f). induction p; cbn; naive_solver. Qed.
Lemma quiet_try {A B E} (p : prog (result A E)) (f : A → prog (result B E)) :
  quiet p → (∀ a, quiet (f a)) → quiet (try_bind p f).
Proof. intros Hp Hf. apply quiet_mbind; [done|]. intros [a|e]; [apply Hf|done]. Qed.
Lemma quiet_foldr {A B} (f : A → prog B → prog B) (p : prog B) (l : list A) :
  quiet p → (∀ a q, quiet q → quiet (f a q)) → quiet (foldr f p l).
Proof. intros Hp Hf. induction l as [|a l IH]; [done|]. apply (Hf a), IH. Qed.

Lemma leaves_rely h d d' : leaves d d' → rely (h, d) (h, d').
Proof.
  intros (E & Hs & Hdb). split; cbn; [|done|by rewrite E]. intros [??]. split; auto.
Qed.

Lemma module_rely h h' d : (is_Some (mh_inner h) → is_Some (mh_inner h')) → rely (h, d) (h', d).
Proof. intros H. split; cbn; [|done..]. intros [??]. split; auto. Qed.

Lemma quiet_grants {A} tok s (p : prog A) : quiet p → grants (λ _ _, True) tok s p.
Proof.
  revert s.
  induction p as [a|X g k IH|X g k IH|X g k IH|X g k IH|X g k IH|o k IH|c k IH|l k IH|l k IH|t k IH];
    intros s; cbn [grants quiet]; intros H; eauto.
  - intros s1 _. destruct (H s1.1) as [Hup Hk]. split; [|by apply IH].
    destruct s1. by apply module_rely.
  - intros s1 _. destruct (H s1.2) as (Hl & Ho & Hk). split; [destruct s1; by apply leaves_rely|].
    exists tok. split; [|by apply IH]. apply accounts_quiet; [apply Hl|done].
  - destruct H as [[Hr Hs] Hk]. split; [done|]. exists tok. by rewrite Hs; split; [|apply IH].
Qed.

(** *** Any number of threads *)

Definition seen (w : world) : guarded := (w_module w, w_display w).
Abbreviation anything := (λ _ _, True).

(** Since [w0]: the guarantee holds, what was added of others' messages is what was
    announced of them, in order, and what was announced of ours and what the threads
    have left to announce are among what was added. *)
Definition granting (w0 : world) (c : config) : Prop :=
  rely (seen w0) (seen c.1) ∧
  ∃ os toks, w_out c.1 = w_out w0 ++ os ∧
    os ≫= told_received id = theirs (added (w_display w0) (w_display c.1)) ∧
    (os ≫= told_sent id) ++ mjoin toks ⊆+ ours (added (w_display w0) (w_display c.1)) ∧
    Forall2 (λ tok th, grants anything tok (seen c.1) (th_prog th)) toks c.2.

(** A step of a thread that has [tok] in hand. *)
Lemma exec_grants ts w th w' held p tok :
  grants anything tok (seen w) (th_prog th) → exec ts w th = Some (w', held, p) →
  rely (seen w) (seen w') ∧
  ∃ os tok', w_out w' = w_out w ++ os ∧ accounts (w_display w) (w_display w') os tok tok' ∧
    grants anything tok' (seen w') p.
Proof.
  assert (∀ w', w_display w' = w_display w → w_out w' = w_out w →
    rely (seen w) (seen w') → grants anything tok (seen w') p →
    rely (seen w) (seen w') ∧
    ∃ os tok', w_out w' = w_out w ++ os ∧ accounts (w_display w) (w_display w') os tok tok' ∧
      grants anything tok' (seen w') p) as Hsilent.
  { intros w1 Hd Ho Hr Hp. split; [done|]. exists [], tok. rewrite app_nil_r.
    split_and!; [done| |done]. rewrite Hd. by apply accounts_quiet. }
  unfold exec.
  destruct (th_prog th) as [a|X g k|X g k|X g k|X g k|X g k|o k|c k|l k|l k|t k];
    cbn [grants]; intros H Hexec.
  - done.
  - destruct (H (seen w) ltac:(done)) as [Hr Hk]. cbn [seen fst snd] in Hr, Hk.
    destruct (g (w_module w)) as [x h]. simplify_eq. by apply Hsilent.
  - destruct (H (seen w) ltac:(done)) as (Hr & tok' & Ho & Hk). cbn [seen fst snd] in Hr, Ho, Hk.
    destruct (g (w_display w)) as [[x d] os]. simplify_eq. split; [done|]. by exists os, tok'.
  - destruct (g (w_own_preset w)) as [x o]. simplify_eq. by apply Hsilent.
  - destruct (g (w_log w)) as [x st]. simplify_eq. by apply Hsilent.
  - destruct (g (w_signals w)) as [x b]. simplify_eq. by apply Hsilent.
  - simplify_eq. destruct H as (Hth & tok' & Ho & Hk). split; [done|]. exists [o], tok'.
    split; [done|]. split; [|done]. unfold accounts. cbn [mbind list_bind].
    rewrite !app_nil_r, Hth. rewrite (added_same (w_display w)), app_nil_r by done. done.
  - simplify_eq. by apply Hsilent.
  - destruct (lock_free ts l); simplify_eq. by apply Hsilent.
  - destruct (th_held th); [done|]. case_decide; simplify_eq. by apply Hsilent.
  - destruct (joinable ts _ t); simplify_eq. by apply Hsilent.
Qed.

Lemma tstep_granting w0 c c' :
  granting w0 c → tstep c c' → rely (seen c.1) (seen c'.1) ∧ granting w0 c'.
Proof.
  intros (Hr0 & os & toks & Hos & Htheirs & Hours & Hts) Hstep.
  inversion Hstep as [w ts i th w' held p Hi Hexec]; subst. cbn in *.
  destruct (Forall2_lookup_r _ _ _ _ _ Hts Hi) as (tok & Htok & Hth).
  destruct (exec_grants _ _ _ _ _ _ _ Hth Hexec) as (Hr & new & tok' & Hnew & [Ht Ho] & Hp).
  split; [done|]. split; [by etrans|]. cbn. exists (os ++ new), (<[i := tok']> toks).
  rewrite (added_trans _ (w_display w)) by (apply Hr0 || apply Hr).
  unfold ours, theirs in *. rewrite !bind_app, !filter_app. split_and!.
  - by rewrite Hnew, Hos, app_assoc.
  - by rewrite Htheirs, Ht.
  - pose proof (lookup_lt_Some _ _ _ Htok) as Hlt.
    rewrite (insert_take_drop toks i tok') by done. rewrite <-(take_drop_middle toks i tok Htok) in Hours.
    rewrite join_app in Hours |- *. cbn [mjoin list_join] in Hours |- *.
    by eapply hand_over.
  - apply Forall2_insert; [|done].
    eapply Forall2_impl; [exact Hts|]. intros t' th' H. by eapply grants_mono.
Qed.

Lemma rtc_granting w0 c c' :
  granting w0 c → rtc tstep c c' → rely (seen c.1) (seen c'.1) ∧ granting w0 c'.
Proof.
  intros Hc Hsteps. induction Hsteps as [c|c c1 c' Hs _ IH]; [done|].
  destruct (tstep_granting _ _ _ Hc Hs) as [Hr Hc1]. destruct (IH Hc1) as [Hr' ?].
  split; [by etrans|done].
Qed.
End rely.

(** ** What each operation does to the list *)

Section quiet.
Context {DB : Sqlite} {LC : Libchat}.
Variable id : string.
Implicit Types (d : Display).

Lemma quiet_mut {R : Set} (f : Display → R * Display * list output) :
  (∀ d, leaves id d (f d).1.2 ∧ Forall (mute id) (f d).2) → quiet id (with_display_mut f).
Proof. intros Hf d. destruct (Hf d). done. Qed.
Lemma quiet_read {R : Set} (f : Display → R) : quiet id (with_display f).
Proof. intros d. by split_and?. Qed.
Lemma quiet_with_client {R : Set} (f : Client → R * Client) : quiet id (with_client f).
Proof.
  intros h. cbn. destruct (mh_poisoned h); [done|]. destruct (mh_inner h) as [ms|] eqn:E; [|done].
  destruct (f (ms_client ms)). by split; [eexists|].
Qed.
Lemma quiet_with_client_try {R : Set} (f : Client → result R ClientError * Client) :
  quiet id (with_client_try f).
Proof. apply quiet_try; [apply quiet_with_client|done]. Qed.
Lemma quiet_check_live i : quiet id (check_live i).
Proof. by apply quiet_mbind; [apply quiet_read|]. Qed.

(** A chat put in another's place, or in its own with the same list. *)
Lemma leaves_put d i s :
  (i = id → messages s = default [] (messages <$> chats (d_state d) !! id)) →
  leaves id d (set_chats (<[i := s]> (chats (d_state d))) d).
Proof.
  intros Hs. split; [|split; [|done]]; unfold listed; cbn;
    (destruct (decide (i = id)) as [->|]; [rewrite lookup_insert_eq|by rewrite lookup_insert_ne]).
  - cbn. by rewrite Hs.
  - by eexists.
Qed.

Lemma persist_leaves d i : leaves id d (persist_chat d i).2.
Proof.
  unfold persist_chat. destruct (d_chat_db d) as [c|] eqn:Hc; [|done].
  destruct (chats _ !! i) as [s|]; [|done]. destruct (save_chat s c) as [r c'].
  split; [done|]. split; [done|]. by eexists.
Qed.

Lemma put_persist_leaves d i s j :
  (i = id → messages s = default [] (messages <$> chats (d_state d) !! id)) →
  leaves id d (persist_chat (set_chats (<[i := s]> (chats (d_state d))) d) j).2.
Proof. intros Hs. etrans; [by apply leaves_put|apply persist_leaves]. Qed.

Lemma set_delivery_leaves d0 d k detail :
  leaves id d0 d →
  leaves id d0 (set_delivery_state d k detail).1 ∧ Forall (mute id) (set_delivery_state d k detail).2.
Proof.
  intros Hd. unfold set_delivery_state. case_match; [done|]. split; [exact Hd|].
  constructor; [by destruct k, detail|]. by repeat constructor.
Qed.
End quiet.

Ltac quietly :=
  repeat first
    [ progress intros
    | done
    | apply quiet_with_client | apply quiet_with_client_try | apply quiet_check_live
    | apply quiet_read
    | apply quiet_mut
    | apply quiet_mbind
    | apply quiet_try
    | apply quiet_foldr
    | case_match ].

Section operations.
Context {EF : EnvFilterLib} {J : Json} {DB : Sqlite} {LC : Libchat} `{E : !InitEnv DB LC}.
Variable id : string.
Implicit Types (d : Display).

(** What is done with the answer of a client call may use what the client says of it. *)
Lemma quiet_client_then {R : Set} {B} (f : Client → result R ClientError * Client)
    (k : R → prog (result B CoreError)) :
  (∀ c a, (f c).1 = Ok a → quiet id (k a)) → quiet id (try_bind (with_client_try f) k).
Proof.
  intros Hk h. cbn. destruct (mh_poisoned h); [done|]. destruct (mh_inner h) as [ms|] eqn:Hms; [|done].
  pose proof (Hk (ms_client ms)) as Ha.
  destruct (f (ms_client ms)) as [[a|e] c]; (split; [by eexists|]); [by apply Ha|done].
Qed.

Lemma quiet_insert (s : ChatSession) :
  chat_id s ≠ id →
  quiet id (with_display_mut (λ d,
    let d := insert_session s d in (persist_chat d (chat_id s), []))).
Proof. intros Hs. apply quiet_mut. intros d. split; [by apply put_persist_leaves|constructor]. Qed.

Lemma quiet_create_conversation peer :
  (∀ c, (create_direct c peer).1 ≠ Ok id) → quiet id (create_conversation peer).
Proof.
  intros Hne. apply quiet_client_then. intros c i Hi.
  apply quiet_mbind; [done|]. intros _. apply quiet_try; [|done].
  apply (quiet_insert (new_session i Direct None None (Some peer))).
  cbn. intros ->. by apply (Hne c).
Qed.

Lemma quiet_create_group n desc :
  (∀ c, (create_group c [] (mk_group_metadata n desc)).1 ≠ Ok id) →
  quiet id (create_group_conversation n desc).
Proof.
  intros Hne. apply quiet_client_then. intros c i Hi.
  apply quiet_mbind; [done|]. intros _. apply quiet_try; [|done].
  apply (quiet_insert (new_session i Group (non_empty n) (non_empty desc) None)).
  cbn. intros ->. by apply (Hne c).
Qed.

Lemma quiet_set_installation_name n : quiet id (set_installation_name n).
Proof.
  apply quiet_mut. intros d. destruct (d_chat_db d) as [c|] eqn:Hc; [|by split_and?].
  cbn zeta. destruct (save_installation_name _ c) as [[u|e] c']; (split; [|constructor]);
    (split; [done|]); (split; [done|]); by eexists.
Qed.

Lemma quiet_set_nickname i nick : quiet id (set_conversation_nickname i nick).
Proof.
  unfold set_conversation_nickname. apply quiet_try; [|done]. apply quiet_mut. intros d.
  destruct (chats _ !! i) as [s|] eqn:Hs; [|by split_and?]. split; [|constructor].
  apply put_persist_leaves. intros ->. by rewrite Hs.
Qed.

Lemma quiet_delete i : i ≠ id → quiet id (delete_conversation i).
Proof.
  intros Hne. unfold delete_conversation. apply quiet_try; [|done]. apply quiet_mut. intros d.
  destruct (chats _ !! i) as [s|]; [|by split_and?].
  destruct (d_chat_db d) as [c|] eqn:Hc; [|by split_and?].
  destruct (delete_chat i c) as [[u|e] c']; (split; [|constructor]).
  - split; [|split; [|by eexists]]; unfold listed; cbn; by rewrite lookup_delete_ne.
  - split; [done|]. split; [done|]. by eexists.
Qed.

Lemma quiet_delivery (f : Display → Display * list output) :
  (∀ d, leaves id d (f d).1 ∧ Forall (mute id) (f d).2) →
  quiet id (with_display_mut (λ d, let '(d, os) := f d in (tt, d, os))).
Proof. intros Hf. apply quiet_mut. intros d. specialize (Hf d). by destruct (f d). Qed.

Lemma quiet_start_node : quiet id start_node.
Proof. unfold start_node. quietly. Qed.

Lemma quiet_answered c res : quiet id (answered c res).
Proof.
  destruct c; cbn [answered].
  - unfold create_node_answered. case_match; [|done].
    apply quiet_mbind; [by intros x|]. intros _. apply quiet_start_node.
  - unfold node_info_answered. case_match.
    + apply quiet_mbind; [by intros x|]. intros adopted.
      apply quiet_mbind; [by destruct adopted|]. intros _.
      apply quiet_mbind; [by apply quiet_mut|]. intros _. apply quiet_start_node.
    + apply (quiet_delivery (λ d, set_delivery_state d Error _)). intros d.
      by apply set_delivery_leaves.
  - unfold start_answered. case_match; [done|].
    apply (quiet_delivery (λ d,
      set_delivery_state (set_delivery (set_starting false (d_delivery_state d)) d) Error _)).
    intros d. by apply set_delivery_leaves.
  - unfold send_answered. by case_match.
  - unfold subscribe_answered. by case_match.
Qed.

Lemma quiet_handle_node_started evt : quiet id (handle_node_started evt).
Proof.
  destruct evt as [[ok m]|]; [|done]. apply (quiet_delivery (λ d, record_node_started d ok m)).
  intros d. unfold record_node_started. case_match; [done|].
  destruct ok; by apply set_delivery_leaves.
Qed.

Lemma quiet_handle_connection_event evt : quiet id (handle_connection_event evt).
Proof.
  destruct evt as [status|]; [|done]. apply quiet_mut. intros d.
  destruct (connection_transition _ _) as [k|]; [|done].
  pose proof (set_delivery_leaves id d d k "" ltac:(done)) as H. by destruct (set_delivery_state _ _ _).
Qed.

Lemma quiet_drain {X} (sub : option (list X * bool)) (h : X → prog unit) :
  (∀ e, quiet id (h e)) → quiet id (drain sub h).
Proof.
  intros Hh. destruct sub as [[l dis]|]; [|done]. apply quiet_foldr; [done|]. intros e q Hq.
  by apply quiet_mbind.
Qed.

Lemma quiet_finish_round b r seen inbound : quiet id (finish_round b r seen inbound).
Proof.
  apply quiet_mbind; [apply quiet_drain, quiet_handle_node_started|]. intros ns.
  apply quiet_mbind; [apply quiet_drain, quiet_handle_connection_event|]. intros cn.
  apply quiet_mbind; [|done]. apply quiet_mbind; [apply quiet_read|]. intros k. case_match; [done|].
  apply quiet_foldr; [done|]. by intros t q Hq.
Qed.

Lemma forward_message_mute evt seen : Forall (mute id) (forward_message evt seen).1.1.
Proof.
  destruct evt as [m|]; cbn; [|by repeat constructor]. case_match; [constructor|].
  destruct (first_sighting _ _) as [[] seen']; by repeat constructor.
Qed.

Lemma quiet_outputs os : Forall (mute id) os → quiet id (outputs os).
Proof. induction 1 as [|o l Ho _ IH]; [done|]. by split. Qed.

Lemma quiet_run_bridge n b rounds : quiet id (run_bridge n b rounds).
Proof.
  revert b. induction rounds as [|r rounds IH]; intros b; cbn [run_bridge]; [done|].
  apply quiet_mbind; [|by intros [b'|]].
  apply quiet_mbind; [done|]. intros [|]; [done|].
  destruct (rd_message r) as [evt| |]; [|apply quiet_finish_round|done].
  pose proof (forward_message_mute evt (br_seen b)) as Hos.
  destruct (forward_message evt (br_seen b)) as [[os payloads] seen'].
  apply quiet_mbind; [by apply quiet_outputs|intros; apply quiet_finish_round].
Qed.

Lemma quiet_conversation_started i k : quiet id (record_conversation_started i k).
Proof.
  apply quiet_mbind.
  { unfold observed_metadata. destruct k; [done|]. quietly. }
  intros [n desc]. apply quiet_mut. intros d. case_decide; [by split_and?|].
  destruct (chats _ !! i) as [s|] eqn:Hs.
  - destruct (history_only s); (split; [|by repeat constructor]); apply leaves_put;
      intros ->; by rewrite Hs.
  - pose proof (put_persist_leaves id d i (new_session i k n desc None) i) as Hp.
    cbn zeta. unfold insert_session. cbn [new_session chat_id].
    destruct (persist_chat _ _) as [[u|err] d']; (split; [|by repeat constructor]); apply Hp;
      intros ->; by rewrite Hs.
Qed.
End operations.

Section messages.
Context {EF : EnvFilterLib} {J : Json} {DB : Sqlite} {LC : Libchat} `{E : !InitEnv DB LC}.
Variable id : string.
Implicit Types (d : Display).

(** A message recorded under [s] goes at the end of [s]'s list, written or not. *)
Lemma record_message_puts d i s m b :
  is_Some (d_chat_db d) → msg_chat_id m = i →
  let d' := (record_message (set_chats (<[i := s]> (chats (d_state d))) d) m b).2 in
  chats (d_state d') = <[i := push_message (display_message m) s]> (chats (d_state d)) ∧
  is_Some (d_chat_db d').
Proof.
  intros [c Hc] <-. unfold record_message. cbn. rewrite Hc, lookup_insert_eq.
  destruct (Persistence.record_message _ _ c). cbn. split; [apply insert_insert_eq|by eexists].
Qed.

Lemma record_message_leaves d i s m b :
  i ≠ id → msg_chat_id m = i →
  leaves id d (record_message (set_chats (<[i := s]> (chats (d_state d))) d) m b).2.
Proof.
  intros Hne Hm. destruct (d_chat_db d) as [c|] eqn:Hc.
  - pose proof (record_message_puts d i s m b ltac:(by rewrite Hc) Hm) as [Hch Hdb]. cbn zeta in *.
    split; [|split; [|done]]; unfold listed; by rewrite Hch, lookup_insert_ne.
  - assert ((record_message (set_chats (<[i := s]> (chats (d_state d))) d) m b).2 =
      set_chats (<[i := s]> (chats (d_state d))) d) as ->.
    { unfold record_message. cbn. rewrite Hc. by case_match. }
    by apply leaves_put.
Qed.

(** Recorded in [id], it is what was added to its list. *)
Lemma record_message_grows h d s m b :
  is_Some (d_chat_db d) → msg_chat_id m = id →
  messages s = default [] (messages <$> chats (d_state d) !! id) →
  let d' := (record_message (set_chats (<[id := s]> (chats (d_state d))) d) m b).2 in
  rely id (h, d) (h, d') ∧ added id d d' = [api_message (display_message m)].
Proof.
  intros Hdb Hm Hs. destruct (record_message_puts d id s m b Hdb Hm) as [Hch Hdb'].
  intros d'. fold d' in Hch, Hdb'.
  assert (listed id d' = listed id d ++ [api_message (display_message m)]) as Hl.
  { unfold listed. rewrite Hch, lookup_insert_eq. cbn. by rewrite map_app, Hs. }
  split; [|by unfold added; rewrite Hl, drop_app_length]. split; cbn.
  - by intros [? _].
  - rewrite Hch, lookup_insert_eq. by eexists.
  - rewrite Hl. by eexists.
Qed.

Lemma receiving_session_messages d i account :
  messages (receiving_session d i account).1 = default [] (messages <$> chats (d_state d) !! i).
Proof.
  unfold receiving_session. destruct (chats (d_state d) !! i) as [s|]; by destruct (_ && _).
Qed.

Lemma grants_message_received s0 clock i content account signer :
  is_up s0 → grants id (λ _ _, True) [] s0 (record_message_received clock i content account signer).
Proof.
  intros Hup s1 H1. apply (rely_up _ _ _ H1) in Hup. destruct s1 as [h d]. cbn [fst snd].
  case_decide.
  { split; [done|]. exists []. split; [|by intros]. by apply accounts_quiet; [|constructor]. }
  pose proof (receiving_session_messages d i account) as Hs.
  destruct (receiving_session d i account) as [s b]. cbn [fst] in Hs. cbn zeta.
  set (m := inbound_message clock i content account signer).
  set (r := record_message _ m b).
  assert (∀ line, mute id (Log LInfo line)) as Hmute by done.
  assert (∀ (x : result unit CoreError) line, mute id (Log LInfo line) ∧
    Forall (mute id) match x with
      | Ok _ => []
      | Err e => [Log LError ("recording an inbound message failed: " +:+ core_error_display e)]
      end) as Hlogs by (intros [] ?; by repeat constructor).
  destruct (decide (i = id)) as [->|Hne].
  - destruct (record_message_grows h d s m b) as [Hr Ha]; [apply Hup|done..|]. fold r in Hr, Ha.
    destruct r as [x d']. cbn [fst snd] in *. split; [done|]. exists []. split; [|by intros].
    destruct (Hlogs x "") as [_ Hl]. apply mute_told in Hl as [Hl1 Hl2].
    split; rewrite bind_cons, bind_app; cbn [told_received told_sent]; rewrite ?Hl1, ?Hl2, ?Ha; cbn.
    + rewrite decide_True by done. unfold m. by rewrite display_received.
    + apply submseteq_nil_l.
  - pose proof (record_message_leaves d i s m b Hne eq_refl) as Hl. fold r in Hl.
    destruct r as [x d']. cbn [fst snd] in *. split; [by apply leaves_rely|]. exists [].
    split; [|by intros]. apply accounts_quiet; [apply Hl|]. constructor; [done|].
    apply Forall_app. split; [by apply Hlogs|]. constructor; [|constructor].
    split; cbn; by rewrite ?decide_False.
Qed.

(** A conversation found live is there. *)
Lemma grants_check_live s :
  grants id (λ r s', is_ok r = true → is_Some (chats (d_state s'.2) !! id)) [] s (check_live id).
Proof.
  intros s1 _. split; [by destruct s1|]. exists []. split; [by apply accounts_quiet; [|constructor]|].
  intros s' Hs'. cbn. destruct (chats (d_state s1.2) !! id) as [c|] eqn:Hc; [|done]. intros _.
  apply (rely_stays _ _ _ Hs'). by eexists.
Qed.

Lemma api_message_sent clock content :
  is_str content = true →
  api_message (display_message (chat_message id Sent (now_ms clock) (as_bytes content))) =
  mk_api_message true content (as_i64 (now_ms clock)) None.
Proof. intros Hc. by rewrite display_sent. Qed.

Lemma grants_send_message s clock i content :
  is_up s → is_str content = true → grants id (λ _ _, True) [] s (send_message clock i content).
Proof.
  intros Hup Hstr. unfold send_message. destruct (decide (i = id)) as [->|Hne].
  - eapply grants_bind; [apply grants_check_live|]. intros [u|e] s1 H1 Hlive; [|done].
    specialize (Hlive eq_refl). apply (rely_up _ _ _ H1) in Hup.
    apply (grants_bind _ (λ _ _, True)); [by apply quiet_grants, quiet_with_client_try|].
    intros [u'|e] s2 H2 _; [|done]. split; [done|]. exists []. split; [done|].
    intros s3 H3. assert (rely id s1 s3) as H13 by by etrans.
    apply (rely_up _ _ _ H13) in Hup. apply (rely_stays _ _ _ H13) in Hlive.
    destruct s3 as [h d]. destruct Hlive as [c Hc]. cbn [fst snd] in *.
    set (m := chat_message id Sent _ _).
    destruct (record_message_grows h d c m false) as [Hr Ha]; [apply Hup|done|by rewrite Hc|].
    assert (set_chats (<[id := c]> (chats (d_state d))) d = d) as Hid
      by by rewrite insert_id, set_chats_id.
    rewrite Hid in Hr, Ha. destruct (record_message d m false) as [r d']. cbn [fst snd] in *.
    split; [done|]. exists [api_message (display_message m)]. split.
    { unfold accounts. rewrite Ha. done. }
    destruct r as [u''|e]; [|by intros]. split; [done|]. exists []. split; [|by intros].
    cbn. unfold m. by rewrite decide_True, api_message_sent.
  - apply quiet_grants. apply quiet_try; [apply quiet_check_live|]. intros _.
    apply quiet_try; [apply quiet_with_client_try|]. intros _.
    apply quiet_mbind; [done|]. intros _. apply quiet_try.
    + apply quiet_mut. intros d. split; [|constructor].
      destruct (chats (d_state d) !! i) as [c|] eqn:Hc.
      * pose proof (record_message_leaves d i c (chat_message i Sent (now_ms clock)
          (as_bytes content)) false Hne eq_refl) as H.
        by rewrite insert_id, set_chats_id in H.
      * unfold record_message. cbn. by rewrite Hc.
    + intros _. split; [|done]. split; cbn; by rewrite ?decide_False.
Qed.

Lemma grants_run_events s events : is_up s → grants id (λ _ _, True) [] s (run_events events).
Proof.
  revert s. induction events as [|[clock e] events IH]; intros s Hup; [done|].
  apply (grants_bind _ (λ _ _, True)).
  - destruct e; cbn [handle_event].
    + apply quiet_grants, quiet_conversation_started.
    + by apply grants_message_received.
    + apply quiet_grants, quiet_mut. intros d. case_match; (split; [done|by repeat constructor]).
    + by apply quiet_grants.
    + done.
  - intros _ s' Hs' _. apply IH. by apply (rely_up _ _ _ Hs').
Qed.
End messages.

(** ** Everything that runs *)

Section entries.
Context {EF : EnvFilterLib} {J : Json} {DB : Sqlite} {LC : Libchat} `{E : !InitEnv DB LC}.

(** [e] neither deletes [id] nor brings the module down; libchat names no new
    conversation [id]; contents are Rust strings. *)
Definition spares (id : string) (e : entry) : Prop :=
  match e with
  | EShutdown => False
  | EDelete i => i ≠ id
  | ECreateConversation peer => ∀ c, (create_direct c peer).1 ≠ Ok id
  | ECreateGroup n desc => ∀ c, (create_group c [] (mk_group_metadata n desc)).1 ≠ Ok id
  | ESendMessage _ _ content => is_str content = true
  | _ => True
  end.

Lemma quiet_claim id : quiet id claim_delivery_retry.
Proof.
  apply quiet_mut. intros d. cbn zeta. destruct (_ || _); [by split_and?|].
  pose proof (set_delivery_leaves id d d Initialising "" ltac:(done)) as H.
  by destruct (set_delivery_state _ _ _).
Qed.

(** [init] on a module that is up finds it installed. *)
Lemma grants_init id s env config : is_up s → grants id (λ _ _, True) [] s (init env config).
Proof.
  intros Hup x s1 H1. apply (rely_up _ _ _ H1) in Hup. destruct s1 as [h d]. cbn [fst snd].
  split; [done|]. destruct Hup as [[ms Hms] _]. cbn in Hms. rewrite Hms.
  destruct (mh_poisoned h); [by intros|]. apply quiet_grants.
  refine (quiet_mbind id claim_delivery_retry (λ claimed : bool,
    (if claimed then log LInfo _ ;; start_delivery_bootstrap (preset_of config) else log LWarn _) ;;
    Ret (Ok VNull)) (quiet_claim id) _).
  intros []; by repeat split.
Qed.

Lemma quiet_ignore {A} id (p : prog A) : quiet id p → quiet id (ignore p).
Proof. intros Hp. by apply quiet_mbind. Qed.
Lemma quiet_api_result {A} id (f : A → ApiValue) (p : prog (result A CoreError)) :
  quiet id p → quiet id (api_result f p).
Proof. intros Hp. by apply quiet_mbind. Qed.

Lemma grants_entry id s e :
  is_up s → spares id e → grants id (λ _ _, True) [] s (entry_prog e).
Proof.
  intros Hup Hsp. destruct e; cbn [entry_prog spares] in *; try done;
    try (apply quiet_grants, quiet_ignore; try apply quiet_api_result;
         by first [apply quiet_read | quietly]).
  - apply (grants_bind _ (λ _ _, True)); [by apply grants_init|by intros].
  - by apply quiet_grants, quiet_ignore, quiet_api_result, quiet_set_installation_name.
  - by apply quiet_grants, quiet_ignore, quiet_api_result, quiet_create_conversation.
  - by apply quiet_grants, quiet_ignore, quiet_api_result, quiet_create_group.
  - apply (grants_bind _ (λ _ _, True)); [|by intros].
    apply (grants_bind _ (λ _ _, True)); [by apply grants_send_message|by intros].
  - apply quiet_grants, quiet_ignore, quiet_api_result, quiet_set_nickname.
  - by apply quiet_grants, quiet_ignore, quiet_api_result, quiet_delete.
  - apply quiet_grants, quiet_answered.
  - apply quiet_grants, quiet_ignore, quiet_run_bridge.
  - by apply grants_run_events.
Qed.

Lemma launch_granting id w es :
  is_up (seen w) → Forall (spares id) es → granting id w (launch w es).
Proof.
  intros Hup Hes. split; [done|]. exists [], (map (λ _, []) es).
  rewrite app_nil_r, (added_same id (w_display w)) by done. split_and!; [done..| |].
  - cbn. by induction es; [|apply IHes; inversion Hes].
  - cbn. apply Forall2_fmap. apply Forall_Forall2_diag. eapply Forall_impl; [exact Hes|].
    intros e. by apply grants_entry.
Qed.

Lemma listed_shown id w : listed id (w_display w) = shown w id.
Proof. by rewrite shown_eq. Qed.

(** C3. In a module that is up, whatever calls, callbacks and workers run in whatever
    interleaving, short of the conversation's deletion, of a shutdown and of libchat
    giving its id to a conversation being created (which can hide messages, C37), and
    with text sent: a conversation's messages are only added to, at the end; at
    every point the events announce exactly the received messages that were added, each
    once and in the order [get_messages] answers them; and of the sent ones each event
    announces one of its own that is there by then. *)
Theorem conversation_under_interference (id : string) (w : world) (es : list entry) w1 ts1 w2 ts2 :
  is_Some (mh_inner (w_module w)) → is_Some (d_chat_db (w_display w)) →
  Forall (spares id) es →
  rtc tstep (launch w es) (w1, ts1) → rtc tstep (w1, ts1) (w2, ts2) →
  shown w1 id `prefix_of` shown w2 id ∧
  ∃ new os, shown w2 id = shown w id ++ new ∧ w_out w2 = w_out w ++ os ∧
    os ≫= told_received id = theirs new ∧
    os ≫= told_sent id ⊆+ ours new.
Proof.
  intros Hms Hdb Hes H1 H2.
  pose proof (launch_granting id w es (conj Hms Hdb) Hes) as Hc.
  destruct (rtc_granting _ _ _ _ Hc H1) as [_ Hc1].
  destruct (rtc_granting _ _ _ _ Hc1 H2) as [Hr (Hr0 & os & toks & Ho & Hth & Hours & _)].
  split; [rewrite <-!listed_shown; apply Hr|].
  destruct (rely_grows _ _ _ Hr0) as [new Hnew]. cbn [seen fst snd] in Hnew, Ho, Hth, Hours.
  assert (added id (w_display w) (w_display w2) = new) as Ha
    by by unfold added; rewrite Hnew, drop_app_length.
  rewrite Ha in Hth, Hours. exists new, os. rewrite <-!listed_shown. split_and!; [done..|].
  etrans; [|exact Hours]. by apply submseteq_inserts_r.
Qed.
End entries.

(** ** An instance: a reply sent and a message arriving, at once *)

Section instance.
#[local] Instance env3 : InitEnv (mem_sqlite sample_disk) sample_libchat :=
  sample_env sample_disk (Some "/data").

Lemma conversation_under_interference_witness :
  ∃ c new os, schedule crossing_turns (launch (E := env3) up crossing) = Some c ∧
    new = [mk_api_message true "hi" 5 None; mk_api_message false "hey" 6 (Some "saro")] ∧
    w_out c.1 = os ∧
    os ≫= told_received "convo-0" = theirs new ∧ os ≫= told_sent "convo-0" ⊆+ ours new.
Proof.
  assert ((λ c, shown c.1 "convo-0") <$> schedule crossing_turns (launch (E := env3) up crossing) =
    Some [mk_api_message true "hi" 5 None; mk_api_message false "hey" 6 (Some "saro")]) as H
    by (vm_compute; reflexivity).
  apply fmap_Some in H as ([w ts] & Hs & Hshown).
  destruct (conversation_under_interference (E := env3) "convo-0" up crossing w ts w ts)
    as (_ & new & os & Hnew & Hos & Hr & Ho).
  - by eexists.
  - by eexists.
  - constructor; [reflexivity|]. constructor; [exact I|constructor].
  - by eapply schedule_steps.
  - done.
  - exists (w, ts), new, os. split; [done|].
    split; [|split; [exact Hos|split; [exact Hr|exact Ho]]].
    rewrite <-app_nil_l. rewrite Hshown. exact (eq_sym Hnew).
Defined.
End instance.
