(* ===== verification/Sessions.v ===== *)
(** * From the first start on, over any number of sessions

    The specification is the sequence of events the module has ever raised: a
    consumer that heard them all holds every conversation with its whole history.
    What a module shows, in whatever session, is the tail of that. *)
From stdpp Require Import relations.
From Stdlib Require Import Ascii.
From S2P Require Import Prelude Utf8 LogFiles Logging Delivery Persistence ModuleState Runtime.
From S2P Require Import Actions Lifecycle Inbound Api SqliteMem Samples ActionsFacts History.
From S2P Require Import Outcomes Restart Replay BringUp.

(** ** A display that shows the tail of a history *)

(** [u] is [v] without its first messages, which are counted, and with at least a page
    of its last ones. *)
Definition tail_of (v u : convo_view) : Prop :=
  v_kind u = v_kind v ∧ v_name u = v_name v ∧ v_description u = v_description v ∧
  ∃ older, v_messages v = older ++ v_messages u ∧
    v_older u = (v_older v + Z.of_nat (length older))%Z ∧
    (older = [] ∨ LOADED_PER_CHAT ≤ length (v_messages u)).

Definition tracks (history shown : views) : Prop := map_relation (λ _, tail_of)
  (λ _ _, False) (λ _ _, False) history shown.

Lemma tail_of_refl v : tail_of v v.
Proof. split_and!; [done..|]. exists []. split_and!; [done|cbn; lia|by left]. Qed.

Lemma tail_of_trans v1 v2 v3 : tail_of v1 v2 → tail_of v2 v3 → tail_of v1 v3.
Proof.
  intros (K & N & D & o & M & O & F) (K' & N' & D' & o' & M' & O' & F').
  split_and!; [congruence..|]. exists (o ++ o'). split_and!.
  - by rewrite M, M', app_assoc.
  - rewrite O', O, length_app. lia.
  - destruct F' as [->|]; [|by right]. rewrite app_nil_r, M' in *. exact F.
Qed.

Lemma tail_of_add v u m : tail_of v u → tail_of (add_to v m) (add_to u m).
Proof.
  intros (K & N & D & o & M & O & F). split_and!; [done..|]. exists o. cbn.
  rewrite M, app_assoc, length_app. split_and!; [done..|]. destruct F; [by left|right; lia].
Qed.

Lemma tracks_lookup h s id : tracks h s → option_relation tail_of (λ _, False) (λ _, False) (h !! id) (s !! id).
Proof. intros H. apply (H id). Qed.

(** The history and the display follow an event alike. *)
Lemma tracks_event h s e : tracks h s → tracks (follow_event h e) (follow_event s e).
Proof.
  intros H. assert (∀ id m, tracks (push_view id m h) (push_view id m s)) as Hpush.
  { intros id m i. unfold push_view. destruct (decide (id = i)) as [->|Hne].
    - rewrite !lookup_insert_eq. cbn. apply tail_of_add. pose proof (H i) as Hi.
      destruct (h !! i), (s !! i); try done. apply tail_of_refl.
    - rewrite !lookup_insert_ne by done. apply H. }
  destruct e as [id text ts account|id text ts|id out label kind name desc|id|id|id|st det ad];
    cbn [follow_event]; try apply Hpush; try done.
  - intros i. destruct (decide (id = i)) as [->|Hne].
    + rewrite !lookup_insert_eq. apply tail_of_refl.
    + rewrite !lookup_insert_ne by done. apply H.
  - intros i. rewrite !lookup_delete. case_decide; [done|apply H].
Qed.

Lemma tracks_events h s evs :
  tracks h s → tracks (foldl follow_event h evs) (foldl follow_event s evs).
Proof. revert h s. induction evs as [|e evs IH]; intros h s H; [done|]. by apply IH, tracks_event. Qed.

(** A restart shows the tail of what was shown. *)
Lemma tracks_reload h st live :
  tracks h (view_of st) → tracks h (view_of (reload_state live st)).
Proof.
  intros H i. pose proof (H i) as Hi. unfold view_of in *. cbn. rewrite !lookup_fmap in *.
  destruct (chats st !! i) as [s|]; [|done]. cbn in *. destruct (h !! i) as [v|]; [|done].
  eapply tail_of_trans; [exact Hi|]. split_and!; [done..|].
  exists (map api_message (take (length (messages s) - LOADED_PER_CHAT) (messages s))).
  cbn. split_and!.
  - rewrite <-map_app. unfold last_n. by rewrite take_drop.
  - rewrite length_map, length_take. lia.
  - rewrite length_map, last_n_length.
    destruct (decide (LOADED_PER_CHAT ≤ length (messages s))); [right; lia|left].
    by replace (length (messages s) - LOADED_PER_CHAT) with 0 by lia.
Qed.

(** ** Sessions *)

(** The module finds [chat.db] as [t]. *)
Definition opens_on {J : Json} {DB : Sqlite} {L : SqliteLaws DB} {LC : Libchat}
    `{E : !InitEnv DB LC} (t : tables) : Prop :=
  ∀ p c, env_context = Some p → open (p +:+ "/chat.db") (store_key p) = Ok c →
    base c = None ∧ view c = t.

(** A session on the disk [t]: [init] brings up a module that is down, to [w1], and
    requests that report no failed write follow. *)
Definition session {EF : EnvFilterLib} {J : Json} {DB : Sqlite} {L : SqliteLaws DB} {LC : Libchat}
    `{E : !InitEnv DB LC} (t : tables) (w1 w2 : world) : Prop :=
  opens_on t ∧ (∃ w0 env config, mh_inner (w_module w0) = None ∧ run (init env config) w0 = (Ok VNull, w1)) ∧
  rtc step w1 w2.

(** [lifetime t evs]: sessions one after the other, each with a host, a database
    library, a chat client and an environment of its own, left the disk [t] and raised
    the events [evs]. *)
Inductive lifetime : tables → list event → Prop :=
| no_session : lifetime tables_empty []
| next_session {EF : EnvFilterLib} {J : Json} {DB : Sqlite} {L : SqliteLaws DB} {LC : Libchat}
    {E : InitEnv DB LC} t t' evs (w1 w2 : world) :
    lifetime t evs → session t w1 w2 → disk_of w2 = Some t' →
    lifetime t' (evs ++ events_of (new_outputs w1 w2)).

(** The history a consumer has that heard every event. *)
Definition history (evs : list event) : views := foldl follow_event ∅ evs.

Section session.
Context {EF : EnvFilterLib} {J : Json} {DB : Sqlite} {L : SqliteLaws DB} {LC : Libchat} `{E : !InitEnv DB LC}.

Lemma session_tracks t st h w1 w2 :
  stored t st → tracks h (view_of st) → session t w1 w2 →
  synced (w_display w2) ∧
  tracks (foldl follow_event h (events_of (new_outputs w1 w2))) (answers w2).
Proof.
  intros Hst Hh (Hopen & (w0 & env & config & Hdown & Hrun) & Hsteps).
  destruct (init_initializes env config w0 w1 Hdown Hrun) as (ms & wi & Hinit & _ & Hd & _).
  destruct (initialize_reloads st (logged_init env config w0) ms wi) as (live & _ & Hstate & Hsync); [|done|].
  { intros p c Hp Hc. by destruct (Hopen p c Hp Hc) as [? ->]. }
  rewrite <-Hd in Hstate, Hsync.
  destruct (steps_replayed w1 w2 Hsync Hsteps) as (os & Ho & Hv).
  split; [by eapply steps_synced|]. rewrite Hv, (new_outputs_app _ _ _ Ho).
  apply tracks_events. unfold answers. rewrite Hstate. by apply tracks_reload.
Qed.
End session.

Lemma lifetime_stored t evs :
  lifetime t evs → ∃ st, stored t st ∧ tracks (history evs) (view_of st).
Proof.
  induction 1 as [|EF J DB L LC E t t' evs w1 w2 _ (st & Hst & Hh) Hs Hdisk].
  - exists app_state_default. split; [apply stored_empty|]. intros i. unfold view_of. cbn.
    by rewrite fmap_empty, lookup_empty.
  - destruct (session_tracks t st _ w1 w2 Hst Hh Hs) as [(c & Hc & _ & Hc') Ht].
    exists (d_state (w_display w2)). unfold disk_of in Hdisk. rewrite Hc in Hdisk.
    injection Hdisk as <-. split; [done|]. unfold history. by rewrite foldl_app.
Qed.

(** What [list_conversations] says of a conversation, but for what is of a session's
    own or of the last message. *)
Definition summary_row (c : Conversation) : string * (string * option string * option string * Z) :=
  (c_convo_id c, (c_kind c, c_name c, c_description c, c_message_count c)).
Definition summary (v : convo_view) : string * option string * option string * Z :=
  (v_kind v, v_name v, v_description v, as_i64 (Z.of_nat (length (v_messages v)))).

(** A history counts no message it does not hold. *)
Lemma history_whole evs : map_Forall (λ _ v, v_older v = 0%Z) (history evs).
Proof.
  assert (∀ h, map_Forall (λ _ v, v_older v = 0%Z) h →
    map_Forall (λ _ v, v_older v = 0%Z) (foldl follow_event h evs)) as Hall; [|by apply Hall].
  induction evs as [|e evs IH]; [done|]. intros h Hh. cbn. apply IH.
  assert (∀ id m, map_Forall (λ _ v, v_older v = 0%Z) (push_view id m h)) as Hpush.
  { intros id m. apply map_Forall_insert_2; [|done]. cbn.
    destruct (h !! id) as [v|] eqn:Hv; [by apply (Hh id)|done]. }
  destruct e; cbn; try done.
  - by apply map_Forall_insert_2.
  - by apply map_Forall_delete.
Qed.

Section listed.
Context {EF : EnvFilterLib} {J : Json} {DB : Sqlite} {L : SqliteLaws DB} {LC : Libchat} `{E : !InitEnv DB LC}.

Lemma summary_tracked v s :
  v_older v = 0%Z → tail_of v (view_session s) →
  summary v = (summary_row (conversation_of s)).2.
Proof.
  intros H0 (K & N & D & older & M & O & _). cbn in *. unfold summary.
  rewrite K, N, D, M, length_app, length_map, H0 in *. unfold usize_add.
  rewrite as_i64_as_u64, O. do 2 f_equal. lia.
Qed.

Lemma listed_tracked h (w : world) :
  map_Forall (λ _ v, v_older v = 0%Z) h → tracks h (answers w) → synced (w_display w) →
  map summary_row (run list_conversations w).1 ≡ₚ map_to_list (summary <$> h).
Proof.
  intros H0 Ht (c & _ & _ & Hst). unfold list_conversations. rewrite run_with_display. cbn [fst].
  assert (summary <$> h = (λ s, (summary_row (conversation_of s)).2) <$> chats (d_state (w_display w)))
    as ->.
  { apply map_eq. intros id. rewrite !lookup_fmap. pose proof (Ht id) as Hid.
    unfold answers, view_of in Hid. rewrite lookup_fmap in Hid.
    destruct (h !! id) as [v|] eqn:Hv, (chats _ !! id) as [s|]; try done. cbn in *. f_equal.
    apply summary_tracked; [by apply (H0 id)|done]. }
  rewrite map_to_list_fmap, <-list_fmap_compose, <-list_fmap_compose.
  apply reflexive_eq, list_fmap_ext. intros j [i s] Hj%list_elem_of_lookup_2%elem_of_map_to_list.
  unfold summary_row. cbn. by rewrite (stored_keys _ _ Hst i s Hj).
Qed.

(** C1. Over any number of sessions, each brought up on the disk the last one left, what
    the module shows is what all its events since the first start add up to. A session
    is requests made one after another, each whole before the next (calls, answers and the
    client's events alike), none reporting a failed write, and libchat names each new
    conversation apart from those on display. The module lists the conversations created
    and not deleted, of whatever session, each with the kind, name and description
    announced and with the number of messages ever announced in it; and shows of each the
    messages announced, in order, without a first part if at least a page follows. *)
Theorem shows_tail_of_all_events t evs (w1 w2 : world) :
  lifetime t evs → session t w1 w2 →
  let h := history (evs ++ events_of (new_outputs w1 w2)) in
  map summary_row (run list_conversations w2).1 ≡ₚ map_to_list (summary <$> h) ∧
  ∀ id, ∃ older, default [] (v_messages <$> h !! id) = older ++ shown w2 id ∧
    (older = [] ∨ LOADED_PER_CHAT ≤ length (shown w2 id)).
Proof.
  intros Hlife Hs. destruct (lifetime_stored t evs Hlife) as (st & Hst & Hh).
  destruct (session_tracks t st _ w1 w2 Hst Hh Hs) as [Hsync Ht]. cbn zeta.
  assert (history (evs ++ events_of (new_outputs w1 w2)) =
    foldl follow_event (history evs) (events_of (new_outputs w1 w2))) as E1
    by (unfold history; by rewrite foldl_app).
  split; [apply listed_tracked; [apply history_whole|by rewrite E1|done]|].
  rewrite E1. intros id. pose proof (Ht id) as Hid. rewrite shown_view.
  destruct (_ !! id) as [v|], (answers w2 !! id) as [u|]; try done; cbn in *.
  - destruct Hid as (_ & _ & _ & older & ? & _ & ?). by exists older.
  - exists []. by split; [|left].
Qed.
End listed.

(** ** An instance: a conversation opened in one session, read in the next *)

Section instance.
Definition bring_up (disk : tables) : @world (mem_sqlite disk) sample_libchat :=
  (run (DB := mem_sqlite disk)
    (init (InitEnv0 := sample_env disk (Some "/data")) log_env0 (mk_chat_config None None))
    (world0 disk)).2.
Lemma sample_opens_on t :
  opens_on (L := mem_laws t) (E := sample_env t (Some "/data")) t.
Proof. by intros p c [= <-] [= <-]. Qed.
Definition first_up := bring_up tables_empty.
Definition opened : @world (mem_sqlite tables_empty) sample_libchat :=
  (run (DB := mem_sqlite tables_empty) (perform (CreateConversation "raya")) first_up).2.
Definition greeted : @world (mem_sqlite tables_empty) sample_libchat :=
  (run (DB := mem_sqlite tables_empty)
    (perform (SendMessage (Some 5%Z) "convo-0" "hi")) opened).2.
Definition greeted_disk : tables := default tables_empty (disk_of (L := mem_laws _) greeted).
Definition second_up := bring_up greeted_disk.

Lemma first_session :
  session (L := mem_laws _) (E := sample_env tables_empty (Some "/data"))
    tables_empty first_up greeted.
Proof.
  split; [apply sample_opens_on|].
  split; [by exists (world0 tables_empty), log_env0, (mk_chat_config None None)|].
  apply (rtc_l _ _ opened); [|apply rtc_once].
  - exists (CreateConversation "raya"). split; [done|]. split; [|split; [reflexivity|by vm_compute]].
    intros ms i [= <-] [= <-]. by vm_compute.
  - exists (SendMessage (Some 5%Z) "convo-0" "hi"). split; [done|].
    split; [by intros ms i _ []|]. split; [reflexivity|by vm_compute].
Qed.

Lemma greeted_lifetime : lifetime greeted_disk (events_of (new_outputs first_up greeted)).
Proof.
  eapply (next_session tables_empty greeted_disk []); [constructor|exact first_session|].
  by vm_compute.
Qed.

Lemma second_session :
  session (L := mem_laws _) (E := sample_env greeted_disk (Some "/data"))
    greeted_disk second_up second_up.
Proof.
  split; [apply sample_opens_on|]. split; [|done].
  by exists (world0 greeted_disk), log_env0, (mk_chat_config None None).
Qed.

Lemma shows_tail_of_all_events_witness :
  shown second_up "convo-0" = [mk_api_message true "hi" 5 None] ∧
  map summary_row (run list_conversations second_up).1 ≡ₚ
    [("convo-0", ("direct", None, None, 1%Z))].
Proof.
  destruct (shows_tail_of_all_events _ _ _ _ greeted_lifetime second_session) as [Hlist Hshown]. split.
  - destruct (Hshown "convo-0") as (older & Heq & Hpage).
    change (default [] _) with [mk_api_message true "hi" 5 None] in Heq.
    destruct Hpage as [->|Hpage]; [exact (eq_sym Heq)|exfalso].
    apply (f_equal length) in Heq. rewrite length_app in Heq. unfold LOADED_PER_CHAT in Hpage.
    cbn [length] in Heq. lia.
  - rewrite Hlist. by vm_compute.
Defined.
End instance.
