(* ===== verification/Contract.v ===== *)
(** * What the contract says of an answer ([chat_module.lidl])

    The records of the contract with what its comments promise of their fields, as
    predicates; every getter's answer keeps to them at every point of every
    interleaving, in every session on a disk the module has written itself. *)
From stdpp Require Import relations.
From Stdlib Require Import Ascii.
From S2P Require Import Prelude Utf8 LogFiles Logging Delivery Persistence ModuleState Runtime.
From S2P Require Import Concurrency Actions Lifecycle Inbound Transport Api Threads SqliteMem.
From S2P Require Import Samples Interleaving DisplayInvariant ActionsFacts History Outcomes.
From S2P Require Import Replay BringUp Sessions.

(** ** The records *)

(** [Message]: text, a 64-bit time, and a sender exactly when it was received. *)
Definition message_conforms (m : ApiMessage) : Prop :=
  is_str (m_content m) = true ∧ in_i64 (m_timestamp_ms m) ∧
  m_from_self m = bool_decide (m_sender m = None).

(** [Conversation], whose messages are [ms]: "direct" or "group", shared metadata for a
    group alone, nothing optional empty, the time and the first 160 characters of the
    last message, zero and absent when there is none. *)
Definition conversation_conforms (c : Conversation) (ms : list ApiMessage) : Prop :=
  c_kind c ∈ ["direct"; "group"] ∧
  (c_kind c = "direct" → c_name c = None ∧ c_description c = None) ∧
  c_nickname c ≠ Some "" ∧ c_name c ≠ Some "" ∧ c_description c ≠ Some "" ∧
  in_i64 (c_message_count c) ∧ in_i64 (c_last_activity_ms c) ∧
  match last ms with
  | None => c_last_activity_ms c = 0%Z ∧ c_preview c = None
  | Some m =>
      c_last_activity_ms c = m_timestamp_ms m ∧
      ∃ p, c_preview c = Some p ∧ is_str p = true ∧ chars p = take 160 (chars (m_content m))
  end.

(** [Status], over [n] conversations. *)
Definition status_conforms (st : Status) (n : nat) : Prop :=
  st_convo_count st = as_i64 (Z.of_nat n) ∧
  st_delivery_state st ∈ ["initialising"; "online"; "error"; "stopped"] ∧
  (st_detail st ≠ "" → st_delivery_state st = "error").

(** ** Answers of a well-formed display *)

Section answers.
Context {EF : EnvFilterLib} {J : Json} {DB : Sqlite} {LC : Libchat}.
Implicit Types (w : world) (s : ChatSession).

Lemma api_message_conforms m : message_ok m → message_conforms (api_message m).
Proof. intros (Hs & _ & Hf). split_and!; [done|apply as_i64_range|done]. Qed.

Lemma session_conforms s :
  session_ok s → conversation_conforms (conversation_of s) (map api_message (messages s)).
Proof.
  intros (_ & Hk & Hni & Hn & Hd & Hm).
  assert (in_i64 (c_last_activity_ms (conversation_of s))) as Hlast.
  { cbn. destruct (last (messages s)); [apply as_i64_range|done]. }
  split_and!; cbn [conversation_of c_kind c_name c_description c_nickname]; try done.
  - destruct (kind s); set_solver.
  - destruct (kind s); [by intros _; apply Hk|done].
  - apply as_i64_range.
  - unfold conversation_of. cbn [c_last_activity_ms c_preview].
    change (last (map api_message (messages s))) with (last (api_message <$> messages s)).
    rewrite fmap_last. destruct (last (messages s)) as [m|] eqn:Hl; [|done]. cbn.
    apply last_Some_elem_of in Hl. rewrite Forall_forall in Hm. destruct (Hm m Hl) as [Hs _].
    split; [done|]. eexists. split; [done|].
    split; [by apply take_chars_is_str|by apply chars_take_chars].
Qed.

Lemma answers_of_ok w :
  display_ok (w_display w) →
  let convos := (run list_conversations w).1 in
  Forall (λ c, conversation_conforms c (shown w (c_convo_id c))) convos ∧
  NoDup (map c_convo_id convos) ∧
  (∀ id, Forall message_conforms (shown w id) ∧ (shown w id ≠ [] → id ∈ map c_convo_id convos)) ∧
  status_conforms (run status w).1 (length convos).
Proof.
  intros [[Hc Hn] [Hon Hdet]]. unfold list_conversations, status. rewrite !run_with_display.
  cbn zeta. cbn [fst].
  assert (map c_convo_id (map conversation_of (map_to_list (chats (d_state (w_display w)))).*2) =
    (map_to_list (chats (d_state (w_display w)))).*1) as Hids.
  { rewrite map_map, <-list_fmap_compose.
    apply list_fmap_ext. intros j [i s] Hj%list_elem_of_lookup_2%elem_of_map_to_list.
    by apply Hc in Hj as [? _]. }
  rewrite Hids. split_and!.
  - apply Forall_forall. intros c (s & -> & ([i s'] & -> & Hi)%list_elem_of_fmap)%list_elem_of_fmap.
    apply elem_of_map_to_list in Hi. cbn [snd]. destruct (Hc i s' Hi) as [E Hs].
    rewrite shown_eq. cbn [conversation_of c_convo_id]. rewrite E, Hi. by apply session_conforms.
  - apply NoDup_fst_map_to_list.
  - intros id. rewrite shown_eq. destruct (chats _ !! id) as [s|] eqn:Hi; cbn; [|done].
    destruct (Hc id s Hi) as (_ & _ & _ & _ & _ & _ & Hm). split.
    + apply Forall_fmap. eapply Forall_impl; [exact Hm|]. apply api_message_conforms.
    + intros _. apply list_elem_of_fmap. exists (id, s). split; [done|]. by apply elem_of_map_to_list.
  - split_and!; cbn.
    + by rewrite !length_map, length_map_to_list.
    + destruct (ds_state _); set_solver.
    + intros H. by rewrite (Hdet H).
Qed.
End answers.

(** ** On a disk the module has written *)

Section lifetimes.
Context {EF : EnvFilterLib} {J : Json} {DB : Sqlite} {LC : Libchat} `{E : !InitEnv DB LC}.
Implicit Types (w : world).

(** An invariant every access keeps holds after a program run alone. *)
Lemma keeps_run {A} (P : Display → Prop) (O : output → Prop) (Q : A → Prop) (p : prog A) w :
  keeps P O Q p → P (w_display w) → P (w_display (run p w).2).
Proof.
  revert w.
  induction p as [a|X g k IH|X g k IH|X g k IH|X g k IH|X g k IH|o k IH|c k IH|l k IH|l k IH|t k IH];
    intros w; cbn [keeps run]; intros H Hw; try (by apply IH).
  - done.
  - destruct (g (w_module w)) as [x h]. by apply IH.
  - specialize (H _ Hw). destruct (g (w_display w)) as [[x d] os]. destruct H as (? & _ & ?).
    by apply IH.
  - destruct (g (w_own_preset w)) as [x o]. by apply IH.
  - destruct (g (w_log w)) as [x st]. by apply IH.
  - destruct (g (w_signals w)) as [x b]. by apply IH.
  - apply IH; [apply H|done].
Qed.

Lemma keeps_perform rq : keeps display_ok output_ok (λ _, True) (perform rq).
Proof.
  destruct rq; cbn [perform]; unfold no_result; try (apply keeps_seq; [|by intros]).
  - apply keeps_create_conversation.
  - apply keeps_create_group.
  - unfold add_group_member. kept_display.
  - apply keeps_send_message.
  - apply keeps_set_nickname.
  - apply keeps_delete.
  - apply keeps_set_installation_name.
  - apply keeps_event.
  - apply keeps_answered.
  - apply keeps_handle_node_started.
  - apply keeps_handle_connection_event.
Qed.

Lemma steps_display_ok w w' :
  display_ok (w_display w) → rtc step w w' → display_ok (w_display w').
Proof.
  intros Hw Hs. induction Hs as [w|w w1 w' (rq & _ & _ & -> & _) _ IH]; [done|].
  apply IH. eapply keeps_run; [apply keeps_perform|done].
Qed.

(** A bring-up on a disk that holds a well-formed state loads one. *)
Lemma stored_loads_ok {L : SqliteLaws DB} t st :
  opens_on t → stored t st → chats_ok st → loads_ok.
Proof.
  intros Hopen Hst Hok client c st' (p & st0 & live & Hp & Hc & Hload & _ & ->)%local_setup_ok.
  destruct (Hopen p c Hp Hc) as [_ Hv]. subst t.
  apply (load_state_stored _ _ _ Hst) in Hload as ->. by apply reload_chats_ok.
Qed.

Lemma session_chats_ok {L : SqliteLaws DB} t st (w1 w2 : world) :
  stored t st → chats_ok st → session t w1 w2 → display_ok (w_display w2).
Proof.
  intros Hst Hok (Hopen & (w0 & env & config & Hdown & Hrun) & Hsteps).
  destruct (init_initializes env config w0 w1 Hdown Hrun) as (ms & wi & Hinit & _ & Hd & _).
  eapply steps_display_ok; [|exact Hsteps]. rewrite Hd.
  apply initialize_ok in Hinit as (p & c & st0 & live & Hp & Hc & Hload & _ & -> & _).
  destruct (Hopen p c Hp Hc) as [_ Hv]. subst t.
  apply (load_state_stored _ _ _ Hst) in Hload as ->.
  split; [by apply reload_chats_ok|by split].
Qed.
End lifetimes.

Lemma lifetime_chats_ok t evs :
  lifetime t evs → ∃ st, stored t st ∧ chats_ok st.
Proof.
  induction 1 as [|EF J DB L LC E t t' evs w1 w2 Hlife (st & Hst & Hok) Hs Hdisk].
  - exists app_state_default. split; [apply stored_empty|done].
  - exists (d_state (w_display w2)).
    destruct (session_tracks t st (view_of st) w1 w2 Hst) as [(c & Hc & _ & Hc') _];
      [intros i; by destruct (view_of st !! i) as [v|]; [apply tail_of_refl|]|exact Hs|].
    unfold disk_of in Hdisk. rewrite Hc in Hdisk. injection Hdisk as <-.
    split; [done|]. by apply (session_chats_ok t st w1 w2 Hst Hok Hs).
Qed.

Section theorem.
Context {EF : EnvFilterLib} {J : Json} {DB : Sqlite} {L : SqliteLaws DB} {LC : Libchat}
  `{E : !InitEnv DB LC}.


End theorem.

(** ** An instance: the next [init], listing what the first session left *)

Section instance.
#[local] Instance env4 : InitEnv (mem_sqlite greeted_disk) sample_libchat :=
  sample_env greeted_disk (Some "/data").

Definition back : entry := EInit log_env0 (mk_chat_config None None).

Lemma world0_known : session_known (world0 greeted_disk).
Proof. by intros ms. Qed.


End instance.
