(* ===== verification/Crash.v ===== *)
(** * A crash at any point of any interleaving

    [Failures.v] lets any write fail, one request after the other. Here the requests,
    the callbacks and the workers run at once and the process is lost at any point:
    the disk it leaves still only lacks what could not be written. *)
From stdpp Require Import relations.
From Stdlib Require Import Ascii.
From S2P Require Import Prelude Utf8 LogFiles Logging Delivery Persistence ModuleState Runtime.
From S2P Require Import Concurrency Actions Lifecycle Inbound Transport Api Threads SqliteMem.
From S2P Require Import Samples Interleaving DisplayInvariant ActionsFacts History Outcomes Failures.
From S2P Require Import Replay BringUp Sessions Contract.

Section guarded.
Context {DB : Sqlite} {LC : Libchat}.
Implicit Types (d : Display) (w : world).
Variables (R : Display → Display → Prop) (P : Display → Prop).

(** [p] keeps [P] with every access to the display that is an [R]. *)
Fixpoint keeps_if {A} (p : prog A) : Prop :=
  match p with
  | Ret _ => True
  | OnModule _ k => ∀ x, keeps_if (k x)
  | OnDisplay f k => ∀ d, P d → R d (f d).1.2 → P (f d).1.2 ∧ keeps_if (k (f d).1.1)
  | OnPreset _ k => ∀ x, keeps_if (k x)
  | OnLog _ k => ∀ x, keeps_if (k x)
  | OnSignals _ k => ∀ x, keeps_if (k x)
  | Output _ k | Dispatch _ k | Acquire _ k | Release _ k | Join _ k => keeps_if k
  end.

Lemma keeps_if_mbind {A B} (p : prog A) (f : A → prog B) :
  keeps_if p → (∀ a, keeps_if (f a)) → keeps_if (p ≫= f).
Proof. change (p ≫= f) with (bind p f). induction p; cbn; naive_solver. Qed.
Lemma keeps_if_try {A B E} (p : prog (result A E)) (f : A → prog (result B E)) :
  keeps_if p → (∀ a, keeps_if (f a)) → keeps_if (try_bind p f).
Proof. intros Hp Hf. apply keeps_if_mbind; [done|]. intros [a|e]; [apply Hf|done]. Qed.
Lemma keeps_if_foldr {A B} (f : A → prog B → prog B) (p : prog B) (l : list A) :
  keeps_if p → (∀ a q, keeps_if q → keeps_if (f a q)) → keeps_if (foldr f p l).
Proof. intros Hp Hf. induction l as [|a l IH]; [done|]. apply (Hf a), IH. Qed.

Lemma keeps_if_mut {X : Set} (f : Display → X * Display * list output) :
  (∀ d, P d → R d (f d).1.2 → P (f d).1.2) → keeps_if (with_display_mut f).
Proof. intros Hf d Hd Hr. by split; [apply Hf|]. Qed.
Lemma keeps_if_read {X : Set} (f : Display → X) : keeps_if (with_display f).
Proof. by intros d Hd _. Qed.

(** An interleaving whose every step is an [R] on the display. *)
Definition rstep (c c' : config) : Prop := tstep c c' ∧ R (w_display c.1) (w_display c'.1).

Lemma rstep_keeps c c' :
  P (w_display c.1) → Forall (λ th, keeps_if (th_prog th)) c.2 → rstep c c' →
  P (w_display c'.1) ∧ Forall (λ th, keeps_if (th_prog th)) c'.2.
Proof.
  intros Hd Hts [Hstep Hr].
  inversion Hstep as [w ts i th w' held p Hi Hexec]; subst. cbn in *.
  pose proof Hts as Hth. rewrite Forall_lookup in Hth. specialize (Hth i th Hi). clear Hstep.
  assert (P (w_display w') ∧ keeps_if p) as [Hd' Hp]; [|split; [done|by apply Forall_insert]].
  unfold exec in Hexec.
  destruct (th_prog th) as [a|X g k|X g k|X g k|X g k|X g k|o k|c k|l k|l k|t k]; cbn in Hth.
  - done.
  - destruct (g _) as [x h]. by simplify_eq.
  - specialize (Hth _ Hd). destruct (g _) as [[x d] os]. simplify_eq. by apply Hth.
  - destruct (g _) as [x o]. by simplify_eq.
  - destruct (g _) as [x st]. by simplify_eq.
  - destruct (g _) as [x b]. by simplify_eq.
  - by simplify_eq.
  - by simplify_eq.
  - destruct (lock_free ts l); by simplify_eq.
  - destruct (th_held th); [done|]. case_decide; by simplify_eq.
  - destruct (joinable ts _ t); by simplify_eq.
Qed.

(** The threads scheduled in the given order, as long as each step passes [check]. *)
Fixpoint schedule_if (check : Display → Display → bool) (turns : list nat) (c : config)
    : option config :=
  match turns with
  | [] => Some c
  | i :: turns =>
      th ← c.2 !! i;
      r ← exec c.2 c.1 th;
      if check (w_display c.1) (w_display r.1.1)
      then schedule_if check turns (r.1.1, <[i := mk_thread (th_role th) r.1.2 r.2]> c.2)
      else None
  end.

Lemma schedule_if_steps check turns c c' :
  (∀ d d', check d d' = true → R d d') → schedule_if check turns c = Some c' → rtc rstep c c'.
Proof.
  intros Hcheck. revert c.
  induction turns as [|i turns IH]; intros [w ts]; cbn [schedule_if fst snd]; [by intros [= <-]|].
  destruct (ts !! i) as [th|] eqn:Hi; [|done]. cbn.
  destruct (exec ts w th) as [[[w1 held] p]|] eqn:He; [|done]. cbn.
  destruct (check _ _) eqn:Hc; [|done]. intros H.
  eapply rtc_l; [split; [by econstructor|by apply Hcheck]|]. by apply IH.
Qed.

Lemma rsteps_keep c c' :
  P (w_display c.1) → Forall (λ th, keeps_if (th_prog th)) c.2 → rtc rstep c c' →
  P (w_display c'.1).
Proof.
  intros Hd Hts Hsteps. induction Hsteps as [c|c c1 c' Hs _ IH]; [done|].
  destruct (rstep_keeps _ _ Hd Hts Hs) as [Hd1 Hts1]. by apply IH.
Qed.
End guarded.

(** ** What each operation does to a disk that lags *)

Section disk.
Context {EF : EnvFilterLib} {J : Json} {DB : Sqlite} {L : SqliteLaws DB} {LC : Libchat}
  `{E : !InitEnv DB LC}.
Implicit Types (d : Display).

(** No chat that stays loses a message or becomes another: no conversation is created
    over one that is there. *)
Definition intact d d' : Prop :=
  ∀ id s s', chats (d_state d) !! id = Some s → chats (d_state d') !! id = Some s' →
    kind s' = kind s ∧ name s' = name s ∧ description s' = description s ∧
    older_messages s' = older_messages s ∧ messages s `prefix_of` messages s'.

Definition intactb d d' : bool :=
  forallb (λ '(id, s), match chats (d_state d') !! id with
    | Some s' =>
        bool_decide (kind s' = kind s) && bool_decide (name s' = name s) &&
        bool_decide (description s' = description s) &&
        bool_decide (older_messages s' = older_messages s) &&
        bool_decide (take (length (messages s)) (messages s') = messages s)
    | None => true
    end) (map_to_list (chats (d_state d))).

Lemma intactb_sound d d' : intactb d d' = true → intact d d'.
Proof.
  unfold intactb. rewrite forallb_forall. intros H id s s' Hs Hs'.
  specialize (H (id, s)). rewrite <-list_elem_of_In, elem_of_map_to_list in H. specialize (H Hs).
  cbn in H. rewrite Hs', !andb_true_iff, !bool_decide_eq_true in H.
  destruct H as [[[[? ?] ?] ?] Hm]. split_and!; [done..|].
  rewrite <-Hm. apply prefix_take.
Qed.

(** [chat.db], if it is open, is outside a transaction and only lags. *)
Definition disk_lags d : Prop := d_chat_db d = None ∨ behind d.

Abbreviation keeps_disk := (keeps_if intact disk_lags).

Lemma lags_same d d' : same_chats d d' → disk_lags d → disk_lags d'.
Proof.
  intros Hs [Hn|Hd]; [left; destruct Hs as [_ Hc]; by rewrite Hc|right]. by eapply same_chats_behind.
Qed.

Lemma keeps_disk_same {X : Set} (f : Display → X * Display * list output) :
  (∀ d, same_chats d (f d).1.2) → keeps_disk (with_display_mut f).
Proof. intros Hf. apply keeps_if_mut. intros d Hd _. by apply (lags_same d). Qed.

(** A chat saved in its place. *)
Lemma persist_lags d i s :
  (behind d → same_chat (d_state d) i s) → disk_lags d →
  disk_lags (persist_chat (set_chats (<[i := s]> (chats (d_state d))) d) i).2.
Proof.
  intros Hs [Hn|Hd].
  - left. unfold persist_chat. cbn. by rewrite Hn.
  - right. destruct (persist_chat _ _) as [r d'] eqn:E'.
    apply persist_wrote in E'; [|by apply behind_connected]. by eapply upsert_behind; [|apply Hs|].
Qed.

(** A chat put in its place and not saved. *)
Lemma put_lags d i s :
  (behind d → same_chat (d_state d) i s) → disk_lags d →
  disk_lags (set_chats (<[i := s]> (chats (d_state d))) d).
Proof.
  intros Hs [Hn|Hd]; [by left|right]. specialize (Hs Hd). destruct Hd as (c & Hc & Hb & Hst).
  exists c. split_and!; [done..|]. by apply lags_put.
Qed.

(** A message recorded in its chat. *)
Lemma record_lags d i s m b :
  msg_chat_id m = i → (behind d → same_chat (d_state d) i s) →
  (b = false → chats (d_state d) !! i = Some s) → disk_lags d →
  disk_lags (record_message (set_chats (<[i := s]> (chats (d_state d))) d) m b).2.
Proof.
  intros Hm Hs Hb [Hn|Hd].
  - left. unfold record_message. cbn. rewrite Hn. by destruct (_ !! msg_chat_id m).
  - right. destruct (record_message _ _ _) as [r d'] eqn:Er.
    apply (record_wrote _ i s) in Er; [|by apply behind_connected|done..].
    eapply (wrote_behind _ _ _ _ _ Hd Er). intros t Ht. apply lags_record; auto.
Qed.


(** A chat changed in its place, but for its list and what its row shares with the disk. *)
Lemma same_chat_behind d i s s' :
  chats (d_state d) !! i = Some s →
  chat_id s' = chat_id s → messages s' = messages s → older_messages s' = older_messages s →
  kind s' = kind s → name s' = name s → description s' = description s →
  behind d → same_chat (d_state d) i s'.
Proof. intros Hs ?????? (c & _ & _ & Hst). by eapply same_chat_kept. Qed.

(** A new chat where there is none, or in place of an empty one like it. *)
Lemma same_chat_created d i k n desc p d' :
  chats (d_state d') = <[i := new_session i k n desc p]> (chats (d_state d)) → intact d d' →
  same_chat (d_state d) i (new_session i k n desc p).
Proof.
  intros Hch Hint. destruct (chats (d_state d) !! i) as [s|] eqn:Hs; [|by apply same_chat_fresh].
  destruct (Hint i s (new_session i k n desc p) Hs) as (Hk & Hn & Hd & Ho & Hm);
    [by rewrite Hch, lookup_insert_eq|].
  apply prefix_nil_inv in Hm. split; [split; [done|]; by rewrite Hs|]. by rewrite Hs; intros s0 [= <-].
Qed.

Lemma persist_chats d j : chats (d_state (persist_chat d j).2) = chats (d_state d).
Proof.
  unfold persist_chat. destruct (d_chat_db d) as [c|]; [|done].
  destruct (_ !! j) as [s|]; [|done]. by destruct (save_chat s c).
Qed.

Lemma keeps_disk_insert i k n desc p :
  keeps_disk (with_display_mut (λ d,
    let d := insert_session (new_session i k n desc p) d in (persist_chat d i, []))).
Proof.
  apply keeps_if_mut. intros d Hd Hint. apply persist_lags; [|done]. intros _.
  eapply same_chat_created; [|exact Hint]. cbn. by rewrite persist_chats.
Qed.

Lemma keeps_disk_client {X : Set} (f : Client → X * Client) : keeps_disk (with_client f).
Proof. by intros x. Qed.
Lemma keeps_disk_client_try {X : Set} (f : Client → result X ClientError * Client) :
  keeps_disk (with_client_try f).
Proof. by apply keeps_if_try; [apply keeps_disk_client|]. Qed.
Lemma keeps_disk_check_live i : keeps_disk (check_live i).
Proof. apply keeps_if_mbind; [apply keeps_if_read|]. by intros [[]|]. Qed.

Lemma keeps_disk_create peer : keeps_disk (create_conversation peer).
Proof.
  apply keeps_if_try; [apply keeps_disk_client_try|]. intros id.
  apply keeps_if_mbind; [done|]. intros _. apply keeps_if_try; [apply keeps_disk_insert|done].
Qed.

Lemma keeps_disk_create_group n desc : keeps_disk (create_group_conversation n desc).
Proof.
  apply keeps_if_try; [apply keeps_disk_client_try|]. intros id.
  apply keeps_if_mbind; [done|]. intros _. apply keeps_if_try; [apply keeps_disk_insert|done].
Qed.

Lemma keeps_disk_set_name n : keeps_disk (set_installation_name n).
Proof.
  apply keeps_if_mut. intros d Hd _. destruct Hd as [Hn|(c & Hc & Hb & Hst)].
  - left. cbn zeta. by rewrite Hn.
  - right. cbn zeta. rewrite Hc. destruct (save_installation_name _ c) as [r c'] eqn:Es.
    apply save_installation_name_atomic in Es as [Hb' Hv]; [|done].
    destruct r as [u|e]; exists c'; (split; [done|]); (split; [done|]); cbn; rewrite Hv; [|done].
    by apply lags_set_name.
Qed.

Lemma keeps_disk_nickname i nick : keeps_disk (set_conversation_nickname i nick).
Proof.
  unfold set_conversation_nickname. apply keeps_if_try; [|done].
  apply keeps_if_mut. intros d Hd _. destruct (chats _ !! i) as [s|] eqn:Hs; [|done].
  apply persist_lags; [|done]. by apply (same_chat_behind d i s).
Qed.

Lemma keeps_disk_delete i : keeps_disk (delete_conversation i).
Proof.
  unfold delete_conversation. apply keeps_if_try; [|done].
  apply keeps_if_mut. intros d Hd _. destruct (chats _ !! i) as [s|]; [|done].
  destruct Hd as [Hn|(c & Hc & Hb & Hst)]; [left; by rewrite Hn|right]. rewrite Hc.
  destruct (delete_chat i c) as [r c'] eqn:Es. apply delete_chat_atomic in Es as [Hb' Hv]; [|done].
  destruct r as [u|e]; exists c'; (split; [done|]); (split; [done|]); cbn; rewrite Hv; [|done].
  by apply lags_delete.
Qed.

Lemma keeps_disk_send clock i content : keeps_disk (send_message clock i content).
Proof.
  unfold send_message. apply keeps_if_try; [apply keeps_disk_check_live|]. intros _.
  apply keeps_if_try; [apply keeps_disk_client_try|]. intros _.
  apply keeps_if_mbind; [done|]. intros _. apply keeps_if_try; [|done].
  apply keeps_if_mut. intros d Hd _.
  destruct (chats (d_state d) !! i) as [s|] eqn:Hs.
  - pose proof (record_lags d i s (chat_message i Sent (now_ms clock) (as_bytes content)) false
      eq_refl) as H.
    rewrite insert_id, set_chats_id in H by done. apply H; [|done..].
    by apply (same_chat_behind d i s).
  - cbn. unfold record_message. cbn. by rewrite Hs.
Qed.

Lemma keeps_disk_event clock e : keeps_disk (handle_event clock e).
Proof.
  destruct e as [i class|i content account signer|i|line|]; cbn [handle_event]; try done.
  - apply keeps_if_mbind.
    { unfold observed_metadata. destruct (kind_for_class class); [done|].
      apply keeps_if_mbind; [apply keeps_disk_client|]. by intros [[meta|err]|err]. }
    intros [n desc]. apply keeps_if_mut. intros d Hd _. case_decide; [done|].
    destruct (chats _ !! i) as [s|] eqn:Hs.
    + destruct (history_only s); (apply put_lags; [by apply (same_chat_behind d i s)|done]).
    + pose proof (persist_lags d i (new_session i (kind_for_class class) n desc None)) as Hp.
      cbn zeta. unfold insert_session. cbn [new_session chat_id].
      destruct (persist_chat _ _) as [[u|err] d']; apply Hp; (done || (intros _; by apply same_chat_fresh)).
  - apply keeps_if_mut. intros d Hd _. case_decide; [done|].
    pose proof (receiving_session_known d i account) as Hknown.
    assert (behind d → same_chat (d_state d) i (receiving_session d i account).1) as Hs.
    { unfold receiving_session. destruct (chats (d_state d) !! i) as [s0|] eqn:Hs0.
      - destruct (_ && _); by apply (same_chat_behind d i s0).
      - intros _. cbn. by apply same_chat_fresh. }
    destruct (receiving_session d i account) as [s b]. cbn [fst snd] in *. cbn zeta.
    pose proof (record_lags d i s (inbound_message clock i content account signer) b
      eq_refl Hs Hknown Hd) as Hr. by destruct (record_message _ _ _).
  - apply keeps_disk_same. intros d. by destruct (_ || _).
Qed.
End disk.

Section entries.
Context {EF : EnvFilterLib} {J : Json} {DB : Sqlite} {L : SqliteLaws DB} {LC : Libchat}
  `{E : !InitEnv DB LC}.
Implicit Types (d : Display).

Abbreviation keeps_disk := (keeps_if intact disk_lags).

Lemma keeps_disk_delivery (f : Display → Display * list output) :
  (∀ d, same_chats d (f d).1) →
  keeps_disk (with_display_mut (λ d, let '(d, os) := f d in (tt, d, os))).
Proof. intros Hf. apply keeps_disk_same. intros d. specialize (Hf d). by destruct (f d). Qed.

Lemma keeps_disk_start_node : keeps_disk start_node.
Proof. by apply keeps_if_mbind; [apply keeps_disk_same|]. Qed.

Lemma keeps_disk_answered c res : keeps_disk (answered c res).
Proof.
  destruct c; cbn [answered].
  - unfold create_node_answered. case_match; [|done].
    apply keeps_if_mbind; [by intros x|]. intros _. apply keeps_disk_start_node.
  - unfold node_info_answered. case_match.
    + apply keeps_if_mbind; [by intros x|]. intros adopted.
      apply keeps_if_mbind; [by destruct adopted|]. intros _.
      apply keeps_if_mbind; [by apply keeps_disk_same|]. intros _. apply keeps_disk_start_node.
    + apply (keeps_disk_delivery (λ d, set_delivery_state d Error _)). intros d.
      apply set_delivery_state_chats.
  - unfold start_answered. case_match; [done|].
    apply (keeps_disk_delivery (λ d,
      set_delivery_state (set_delivery (set_starting false (d_delivery_state d)) d) Error _)).
    intros d. by rewrite <-set_delivery_state_chats.
  - unfold send_answered. by case_match.
  - unfold subscribe_answered. by case_match.
Qed.

Lemma keeps_disk_drain {X} (sub : option (list X * bool)) (h : X → prog unit) :
  (∀ e, keeps_disk (h e)) → keeps_disk (drain sub h).
Proof.
  intros Hh. destruct sub as [[l dis]|]; [|done]. apply keeps_if_foldr; [done|]. intros e q Hq.
  by apply keeps_if_mbind.
Qed.

Lemma keeps_disk_node_started evt : keeps_disk (handle_node_started evt).
Proof.
  destruct evt as [[ok m]|]; [|done].
  apply (keeps_disk_delivery (λ d, record_node_started d ok m)).
  intros d. apply record_node_started_chats.
Qed.

Lemma keeps_disk_connection_event evt : keeps_disk (handle_connection_event evt).
Proof.
  destruct evt as [status|]; [|done]. apply keeps_disk_same. intros d.
  destruct (connection_transition _ _) as [k|]; [|done].
  pose proof (set_delivery_state_chats d k "") as H. by destruct (set_delivery_state _ _ _).
Qed.

Lemma keeps_disk_finish_round b r seen inbound : keeps_disk (finish_round b r seen inbound).
Proof.
  apply keeps_if_mbind; [apply keeps_disk_drain, keeps_disk_node_started|]. intros ns.
  apply keeps_if_mbind; [apply keeps_disk_drain, keeps_disk_connection_event|]. intros cn.
  apply keeps_if_mbind; [|done]. apply keeps_if_mbind; [apply keeps_if_read|]. intros k.
  case_match; [done|]. apply keeps_if_foldr; [done|]. by intros t q Hq.
Qed.

Lemma keeps_disk_outputs os : keeps_disk (outputs os).
Proof. induction os as [|o os IH]; [done|]. exact IH. Qed.

Lemma keeps_disk_run_bridge n b rounds : keeps_disk (run_bridge n b rounds).
Proof.
  revert b. induction rounds as [|r rounds IH]; intros b; cbn [run_bridge]; [done|].
  apply keeps_if_mbind; [|by intros [b'|]].
  apply keeps_if_mbind; [done|]. intros [|]; [done|].
  destruct (rd_message r) as [evt| |]; [|apply keeps_disk_finish_round|done].
  destruct (forward_message evt (br_seen b)) as [[os payloads] seen'].
  apply keeps_if_mbind; [apply keeps_disk_outputs|intros; apply keeps_disk_finish_round].
Qed.

(** What [initialize] would open only lags what it would show. *)
Definition loads_lagging : Prop :=
  ∀ client c st, local_setup = Ok (client, c, st) → base c = None ∧ lags (view c) st.

Lemma keeps_disk_initialize : loads_lagging → keeps_disk initialize.
Proof.
  intros Hload. unfold initialize, try_bind. cbn [bind].
  destruct local_setup as [[[client c] st]|e] eqn:Hs; [|done].
  destruct env_on_message_received; [|done]. cbn [map_err bind].
  destruct env_on_node_started; [|done]. cbn [map_err bind].
  apply keeps_if_mbind; [by destruct env_on_connection_state_changed|]. intros _.
  apply keeps_if_mbind; [done|]. intros n. apply keeps_if_mbind; [|done].
  apply keeps_if_mut. intros d _ _. right. exists c. split; [done|]. by apply (Hload client).
Qed.

Lemma keeps_disk_init env config : loads_lagging → keeps_disk (init env config).
Proof.
  intros Hload. apply keeps_if_mbind; [by intros x|]. intros _.
  apply keeps_if_mbind.
  - cbn. intros [[] [ms|]]; try done.
    apply keeps_if_mbind; [by apply keeps_disk_initialize|]. by intros [ms|e].
  - intros [[[]|e]|[]]; try done. apply keeps_if_mbind; [|by intros []].
    apply keeps_disk_same. intros d. cbn zeta. destruct (_ || _); [done|].
    pose proof (set_delivery_state_chats d Initialising "") as H.
    by destruct (set_delivery_state _ _ _).
Qed.

(** The module is not brought down. *)
Definition stays (e : entry) : Prop := e ≠ EShutdown.

Lemma keeps_disk_entry e : loads_lagging → stays e → keeps_disk (entry_prog e).
Proof.
  intros Hload Hst.
  destruct e; cbn [entry_prog]; try (by destruct Hst); try (apply keeps_if_mbind; [|by intros]);
    try (apply keeps_if_mbind; [|by intros]); try (by apply keeps_if_read); try done.
  - by apply keeps_disk_init.
  - apply keeps_disk_set_name.
  - apply keeps_disk_create.
  - apply keeps_disk_create_group.
  - apply keeps_if_try; [apply keeps_disk_check_live|]. intros _.
    by apply keeps_if_try; [apply keeps_disk_client_try|].
  - apply keeps_if_mbind; [apply keeps_disk_check_live|]. intros [[]|]; cbn [is_ok]; [|done].
    apply keeps_if_mbind; [apply keeps_disk_client|]. by intros [[[]|]|].
  - apply keeps_disk_send.
  - apply keeps_disk_nickname.
  - apply keeps_disk_delete.
  - apply keeps_disk_answered.
  - apply keeps_disk_run_bridge.
  - apply keeps_if_foldr; [done|]. intros [clock e] q Hq.
    apply keeps_if_mbind; [apply keeps_disk_event|done].
Qed.
End entries.

Lemma stored_loads_lagging {J : Json} {DB : Sqlite} {L : SqliteLaws DB} {LC : Libchat}
    `{E : !InitEnv DB LC} t st : opens_on t → stored t st → loads_lagging.
Proof.
  intros Hopen Hst client c st' (p & st0 & live & Hp & Hc & Hload & _ & ->)%local_setup_ok.
  destruct (Hopen p c Hp Hc) as [Hb Hv]. split; [done|]. subst t.
  apply (load_state_stored _ _ _ Hst) in Hload as ->.
  by apply stored_lags, stored_mark, reload_stored.
Qed.

(** ** The next session *)

Section crash.
Context {EF : EnvFilterLib}.
Context {J : Json} {DB : Sqlite} {L : SqliteLaws DB} {LC : Libchat} {E : InitEnv DB LC}.
Context {J' : Json} {DB' : Sqlite} {L' : SqliteLaws DB'} {LC' : Libchat} {E' : InitEnv DB' LC'}.

End crash.

(** ** An instance: a reply whose write fails, and a crash before it is answered *)

Section instance.
#[local] Instance env5 : InitEnv (mem_sqlite tables_empty) sample_libchat :=
  sample_env tables_empty (Some "/data").

(** ["convo-0"] is open; the next write fails. *)
Definition failing : @world (mem_sqlite tables_empty) sample_libchat :=
  put_display (set_db (DB := mem_sqlite tables_empty)
    (mk_mem (default tables_empty (disk_of (L := mem_laws _) opened)) None [true])
    (w_display opened)) [] opened.
Definition replying : list entry := [ESendMessage (Some 5%Z) "convo-0" "hi"; EListConversations].
(** Up to the display access that records the reply. *)
Definition crash_turns : list nat := repeat 1 3 ++ repeat 0 9.
Definition crashed : option config := schedule_if intactb crash_turns (launch failing replying).
Definition crashed_disk : tables :=
  default tables_empty (crashed ≫= λ c, disk_of (L := mem_laws _) c.1).

Lemma failing_lags : disk_lags (L := mem_laws _) (w_display failing).
Proof.
  right. destruct (steps_synced (J := sample_json) (L := mem_laws _) first_up opened)
    as (c & Hc & _ & Hst).
  - destruct first_session as (_ & _ & _). exists (mk_mem tables_empty None []).
    split; [done|]. split; [done|]. apply stored_empty.
  - apply rtc_once. exists (CreateConversation "raya"). split; [done|].
    split; [|split; [reflexivity|by vm_compute]]. intros ms i [= <-] [= <-]. by vm_compute.
  - eexists. split; [reflexivity|]. split; [done|]. cbn [mem_laws view mem_view].
    unfold disk_of. rewrite Hc. cbn. by apply stored_lags.
Qed.

End instance.
