(* ===== verification/Race.v ===== *)
(** * A conversation being created, and a message arriving in it

    [create_conversation] lets go of the client before it takes the display, and puts its
    new conversation over one that an arriving message has opened in between. *)
From stdpp Require Import relations.
From S2P Require Import Prelude Utf8 LogFiles Logging Delivery Persistence ModuleState Runtime.
From S2P Require Import Concurrency Actions Lifecycle Inbound Transport Api Threads Signals.
From S2P Require Import SqliteMem Samples Interleaving ActionsFacts History Outcomes Restart.
From S2P Require Import BringUp Guarantee Sessions.
From Stdlib Require Import Ascii.

Lemma schedule_app {DB : Sqlite} {LC : Libchat} turns turns' c c1 c2 :
  schedule turns c = Some c1 → schedule turns' c1 = Some c2 → schedule (turns ++ turns') c = Some c2.
Proof.
  revert c. induction turns as [|i turns IH]; intros c; cbn [app schedule]; [by intros [= ->]|].
  destruct (c.2 !! i) as [th|]; [|done]. cbn. destruct (exec _ _ _) as [[[w held] p]|]; [|done].
  apply IH.
Qed.

(** ** Two threads, one of which holds no lock *)

(** Nobody holds a lock. *)
Ltac take_locks :=
  repeat (cbn; rewrite ?bool_decide_eq_true_2 by apply not_elem_of_nil); cbn.

Section two.
Context {DB : Sqlite} {LC : Libchat}.
Implicit Types (w : world).

Lemma first_mut {R : Set} r1 r2 (f : Display → R * Display * list output) k q w :
  let res := run (with_display_mut f) w in
  schedule [0; 0; 0] (w, [mk_thread r1 [] (with_display_mut f ≫= k); mk_thread r2 [] q]) =
    Some (res.2, [mk_thread r1 [] (k res.1); mk_thread r2 [] q]).
Proof.
  cbn zeta. rewrite run_with_display_mut. take_locks. by destruct (f (w_display w)) as [[x d] os].
Qed.
Lemma second_mut {R : Set} r1 r2 (f : Display → R * Display * list output) k q w :
  let res := run (with_display_mut f) w in
  schedule [1; 1; 1] (w, [mk_thread r1 [] q; mk_thread r2 [] (with_display_mut f ≫= k)]) =
    Some (res.2, [mk_thread r1 [] q; mk_thread r2 [] (k res.1)]).
Proof.
  cbn zeta. rewrite run_with_display_mut. take_locks. by destruct (f (w_display w)) as [[x d] os].
Qed.
End two.

(** ** The schedule *)

Section race.
Context {EF : EnvFilterLib} {J : Json} {DB : Sqlite} {L : SqliteLaws DB} {LC : Libchat}
  `{E : !InitEnv DB LC}.
Implicit Types (w : world) (d : Display).

Definition race (peer id : string) (clock : option Z) (content : list ascii)
    (account installation : string) (n : nat) : list entry :=
  [ECreateConversation peer; EEvents n [(clock, MessageReceived id content account installation)]].

(** [create_conversation] once the client has answered: what it does to the display,
    and what it does then. *)
Definition put_new (peer id : string) d : result unit CoreError * Display * list output :=
  (persist_chat (insert_session (new_session id Direct None None (Some peer)) d) id, []).
Definition announce_new (id : string) (r : result unit CoreError) : prog unit :=
  ignore (api_result VString (match r with
    | Ok _ => emit (conversation_created id true (short_label id) "direct" "" "") ;; Ret (Ok id)
    | Err e => Ret (Err e)
    end)).
(** The world once it has logged the new conversation. *)
Definition named w (ms : ModuleState) (peer id : string) : world :=
  put_output (Log LInfo ("created direct conversation " +:+ id))
    (put_module (mk_module_handle false (Some (mk_module_state (create_direct (ms_client ms) peer).2
       (ms_inbound_stop ms) (ms_inbound_thread ms) (ms_event_thread ms)))) w).

Lemma create_named w ms peer id r2 q :
  mh_poisoned (w_module w) = false → mh_inner (w_module w) = Some ms →
  (create_direct (ms_client ms) peer).1 = Ok id →
  schedule [0; 0; 0; 0] (w, [spawn (ECreateConversation peer); mk_thread r2 [] q]) =
    Some (named w ms peer id,
          [mk_thread None [] (with_display_mut (put_new peer id) ≫= announce_new id); mk_thread r2 [] q]).
Proof.
  intros Hp Hms Hid. unfold named. take_locks. rewrite Hp, Hms. cbn.
  destruct (create_direct (ms_client ms) peer) as [[i|e] c]; cbn in *; [|done]. injection Hid as ->.
  rewrite decide_True by done. reflexivity.
Qed.

(** The new conversation announced, once its row is written. *)
Definition announced_new (id : string) (r : result unit CoreError) w : world :=
  (run (announce_new id r) w).2.

Lemma announce_schedule id r r2 q w :
  ∃ turns, schedule turns (w, [mk_thread None [] (announce_new id r); mk_thread r2 [] q]) =
    Some (announced_new id r w, [mk_thread None [] (Ret tt); mk_thread r2 [] q]).
Proof. destruct r as [u|e]; [exists [0]|exists []]; reflexivity. Qed.

(** The client names the conversation, the message arrives, the conversation is put. *)
Lemma race_schedule w ms peer id clock content account installation n :
  mh_poisoned (w_module w) = false → mh_inner (w_module w) = Some ms →
  (create_direct (ms_client ms) peer).1 = Ok id →
  let w2 := (run (record_message_received clock id content account installation) (named w ms peer id)).2 in
  let put := run (with_display_mut (put_new peer id)) w2 in
  ∃ turns, schedule turns (launch w (race peer id clock content account installation n)) =
    Some (announced_new id put.1 put.2,
          [mk_thread None [] (Ret tt); mk_thread (Some (EventThread n)) [] (Ret tt)]).
Proof.
  intros Hp Hms Hid w2 put.
  destruct (announce_schedule id put.1 (Some (EventThread n)) (Ret tt) put.2) as [turns Ha].
  exists (([0; 0; 0; 0] ++ [1; 1; 1]) ++ [0; 0; 0] ++ turns).
  eapply schedule_app; [eapply schedule_app|].
  - exact (create_named w ms peer id _ _ Hp Hms Hid).
  - unfold record_message_received in w2. cbn [entry_prog run_events foldr].
    refine (second_mut None _ _ (λ _, Ret tt) _ (named w ms peer id)).
  - eapply schedule_app; [|exact Ha]. refine (first_mut None _ (put_new peer id) (announce_new id) _ w2).
Qed.
End race.

(** ** What it leaves *)

Section restarted.
Context {EF : EnvFilterLib} {J : Json} {DB : Sqlite} {L : SqliteLaws DB} {LC : Libchat}
  `{E : !InitEnv DB LC}.
Implicit Types (w : world) (d : Display) (t : tables).

(** A bring-up on a disk that holds a conversation of one message shows it. *)
Lemma init_shows_message st s m id env config w w' :
  chats st !! id = Some s → messages s = [m] →
  (∃ t, opens_on t ∧ stored t st) →
  mh_inner (w_module w) = None → run (init env config) w = (Ok VNull, w') →
  shown w' id = [api_message m].
Proof.
  intros Hs Hm (t & Hopen & Hst) Hdown Hrun.
  destruct (init_initializes env config w w' Hdown Hrun) as (ms & wi & Hinit & _ & Hd & _).
  destruct (initialize_reloads st (logged_init env config w) ms wi) as (live & _ & Hstate & _); [|done|].
  { intros p c Hp Hc. by destruct (Hopen p c Hp Hc) as [? ->]. }
  rewrite shown_eq, Hd, Hstate. cbn. rewrite !lookup_fmap, Hs. cbn. by rewrite Hm.
Qed.

End restarted.

Section hidden.
Context {EF : EnvFilterLib} {J : Json} {DB : Sqlite} {L : SqliteLaws DB} {LC : Libchat}
  `{E : !InitEnv DB LC}.
Implicit Types (w : world) (d : Display) (t : tables).

(** The message in, and then the new conversation over it. *)
Lemma race_states w w2 w3 peer id clock content account installation r :
  synced (w_display w) →
  chats (d_state (w_display w)) !! id = None → id ∉ deleted (d_state (w_display w)) →
  w2 = (run (record_message_received clock id content account installation) w).2 →
  run (with_display_mut (put_new peer id)) w2 = (r, w3) →
  let m := received_message clock content account in
  let new := new_session id Direct None None (Some peer) in
  w_out w3 = w_out w2 ∧
  d_state (w_display w3) = put_chat id new (d_state (w_display w2)) ∧
  ∃ rm, w_out w2 = w_out w ++ received_line id account content ::
      store_failure_line "recording an inbound message failed: " rm ++
      [Emit (message_received id (from_utf8_lossy content) (as_i64 (now_ms clock)) account)] ∧
    (is_ok rm = true → ∃ t st, disk_of w3 = Some t ∧ stored t st ∧
      messages_of t id = [inbound_message clock id content account installation] ∧
      messages <$> chats st !! id = Some [m]).
Proof.
  intros Hsync Hnew Hdel -> Hput m new.
  pose proof Hsync as (c & Hc & Hb & Hst). pose proof (synced_connected _ Hsync) as Hcon.
  pose proof (record_message_received_cases clock id content account installation w Hcon) as H.
  cbn zeta in H. rewrite decide_False in H by done. destruct H as [rm H].
  assert (receiving_session (w_display w) id account =
    (set_peer (Some account) (new_session id default_kind None None None), true)) as Hrs
    by by unfold receiving_session; rewrite Hnew.
  rewrite Hrs in H. destruct H as [Hw Ho]. set (w2 := (run _ w).2) in *.
  destruct (wrote_observed _ _ _ _ _ Hw) as (Hst2 & Hdisk2 & _).
  rewrite run_with_display_mut in Hput. unfold put_new in Hput. cbn [fst snd] in Hput.
  destruct (persist_chat _ id) as [r' d'] eqn:Ep. cbn [fst snd] in Hput.
  injection Hput as <- <-. apply persist_wrote in Ep; [|by eapply wrote_connected].
  destruct (wrote_observed _ _ w2 _ (put_display d' [] w2) Ep) as (Hst3 & Hdisk3 & _).
  split; [by cbn; rewrite app_nil_r|]. split; [exact Hst3|]. exists rm. split; [exact Ho|].
  intros Hok. rewrite Hok in Hdisk2. unfold disk_of in Hdisk2 at 2. rewrite Hc in Hdisk2. cbn in Hdisk2.
  set (s1 := set_peer _ _) in *. set (msg := inbound_message _ _ _ _ _) in *.
  set (t1 := record_tables (Some s1) msg (view c)) in *.
  assert (stored t1 (d_state (w_display w2))) as Hst1.
  { rewrite Hst2, <-(display_received clock id content account installation).
    apply (stored_record _ _ id s1 msg true); [done| |done..]. split; [done|]. by rewrite Hnew. }
  assert (messages_of t1 id = [msg]) as Hm1.
  { subst t1. unfold record_tables. rewrite messages_of_add, decide_True by done.
    change (messages_of _ id) with (messages_of (view c) id). by rewrite (stored_orphans _ _ Hst id Hnew). }
  assert (chats (d_state (w_display w2)) !! id = Some (push_message m s1)) as Hs1
    by by rewrite Hst2; apply lookup_insert_eq.
  rewrite Hdisk2 in Hdisk3. destruct (is_ok r').
  - exists (stmt_apply (UpsertChat (row_of_session new)) t1),
      (put_chat id (push_message m new) (d_state (w_display w2))).
    split; [exact Hdisk3|]. split_and!; [|exact Hm1|cbn; by rewrite lookup_insert_eq].
    apply (stored_put t1 _ id (push_message m new) Hst1). split; [done|]. by rewrite Hs1.
  - exists t1, (d_state (w_display w2)). split; [exact Hdisk3|]. split_and!; [done..|]. by rewrite Hs1.
Qed.

(** C37. That libchat's new id is not on display is not enough: [create_conversation]
    lets go of the client before it takes the display. In any module that is up, with its
    display and disk agreeing, if the first message of the conversation it is told of
    arrives in between, there is a schedule of the two that ends with the message
    announced and neither shown nor counted; and if no write of it failed it is in
    [chat.db], where the next bring-up, on whatever host, finds and shows it. *)
Theorem create_can_hide_message w ms peer id clock content account installation n :
  mh_poisoned (w_module w) = false → mh_inner (w_module w) = Some ms → synced (w_display w) →
  (create_direct (ms_client ms) peer).1 = Ok id →
  chats (d_state (w_display w)) !! id = None → id ∉ deleted (d_state (w_display w)) →
  let message := mk_api_message false (from_utf8_lossy content) (as_i64 (now_ms clock)) (Some account) in
  ∃ w' ts',
    rtc tstep (launch w (race peer id clock content account installation n)) (w', ts') ∧
    forallb finished ts' = true ∧
    new_outputs w w' ≫= told_received id = [message] ∧ shown w' id = [] ∧
    (∃ c, c ∈ (run list_conversations w').1 ∧ c_convo_id c = id ∧ c_message_count c = 0%Z) ∧
    (existsb store_failure (new_outputs w w') = false →
     ∃ t, disk_of w' = Some t ∧
       messages_of t id = [inbound_message clock id content account installation] ∧
       ∀ (EF' : EnvFilterLib) (J' : Json) (DB' : Sqlite) (L' : SqliteLaws DB') (LC' : Libchat)
         (E' : InitEnv DB' LC') (w3 w4 : @world DB' LC') env config,
         opens_on (E := E') t → mh_inner (w_module w3) = None →
         run (init env config) w3 = (Ok VNull, w4) → shown w4 id = [message]).
Proof.
  intros Hp Hms Hsync Hid Hnew Hdel message.
  destruct (race_schedule w ms peer id clock content account installation n Hp Hms Hid) as [turns Hs].
  set (w2 := (run _ (named w ms peer id)).2) in *.
  destruct (run (with_display_mut (put_new peer id)) w2) as [r w3] eqn:Hput. cbn [fst snd] in Hs.
  destruct (race_states (named w ms peer id) w2 w3 peer id clock content account installation r
    Hsync Hnew Hdel eq_refl Hput) as (Ho3 & Hst3 & rm & Ho2 & Hdisk).
  assert (w_display (announced_new id r w3) = w_display w3) as Hd4 by by destruct r.
  assert (∃ os, w_out (announced_new id r w3) = w_out w3 ++ os ∧ existsb store_failure os = false ∧
    os ≫= told_received id = []) as (os & Ho4 & Hf4 & Ht4).
  { destruct r; [eexists [_]|exists []]; (split; [cbn; by rewrite ?app_nil_r|]); done. }
  exists (announced_new id r w3), [mk_thread None [] (Ret tt); mk_thread (Some (EventThread n)) [] (Ret tt)].
  split; [by eapply schedule_steps|]. split; [done|].
  rewrite Ho3, Ho2 in Ho4. unfold named in Ho4. cbn [w_out put_output put_module] in Ho4.
  rewrite <-!app_assoc in Ho4. rewrite (new_outputs_app _ _ _ Ho4).
  split_and!.
  - assert (told_received id (Emit (message_received id (from_utf8_lossy content)
      (as_i64 (now_ms clock)) account)) = [message]) as Ht by (cbn; by rewrite decide_True).
    rewrite !bind_app, Ht4. cbn [mbind list_bind app]. rewrite !bind_app.
    cbn [mbind list_bind]. rewrite Ht. by destruct rm.
  - rewrite shown_eq, Hd4, Hst3. cbn. by rewrite lookup_insert_eq.
  - exists (conversation_of (new_session id Direct None None (Some peer))). split; [|done].
    unfold list_conversations. rewrite run_with_display, Hd4, Hst3. cbn.
    apply list_elem_of_fmap. eexists. split; [done|]. apply list_elem_of_fmap.
    exists (id, new_session id Direct None None (Some peer)). split; [done|].
    apply elem_of_map_to_list, lookup_insert_eq.
  - intros Hf. assert (is_ok rm = true) as Hok.
    { destruct rm as [u|e]; [done|]. exfalso. revert Hf. cbn [existsb app store_failure_line store_failure].
      by rewrite starts_with_app. }
    destruct (Hdisk Hok) as (t & st & Hdt & Hst & Hmsg & Hm). exists t.
    split; [unfold disk_of in *; by rewrite Hd4|]. split; [done|].
    intros EF' J' DB' L' LC' E' w5 w6 env config Hopen Hdown Hrun.
    destruct (chats st !! id) as [s|] eqn:Hs4; [|done]. injection Hm as Hm.
    apply (init_shows_message (E := E') st s (received_message clock content account) id env config w5 w6);
      [done|done| |done|done]. by exists t.
Qed.
End hidden.

(** ** An instance *)

Section instance.
#[local] Instance env7 : InitEnv (mem_sqlite sample_disk) sample_libchat :=
  sample_env sample_disk (Some "/data").

Lemma create_can_hide_message_witness :
  ∃ w' ts', rtc tstep (launch (E := env7) up
      (race "saro" "convo-1" (Some 6%Z) (as_bytes "hey") "saro" "phone" 0)) (w', ts') ∧
    new_outputs up w' ≫= told_received "convo-1" = [mk_api_message false "hey" 6 (Some "saro")] ∧
    shown w' "convo-1" = [].
Proof.
  destruct (create_can_hide_message (L := mem_laws sample_disk) (E := env7) up
    (mk_module_state (LC := sample_libchat) (mk_sample_client 1 ["convo-0"] []) 0
       (Some (BridgeThread 0)) (Some (EventThread 0)))
    "saro" "convo-1" (Some 6%Z) (as_bytes "hey") "saro" "phone" 0) as (w' & ts' & Hsteps & _ & Hr & Hs & _).
  - reflexivity.
  - reflexivity.
  - exact up_synced.
  - vm_compute. reflexivity.
  - vm_compute. reflexivity.
  - apply up_not_deleted.
  - exists w', ts'. split; [exact Hsteps|]. split; [exact Hr|exact Hs].
Defined.
End instance.
