(* ===== verification/SourceTests.v ===== *)
(** * The crate's unit tests, on the model

    Each [#[test]] of the sources, run on the definitions: a test is the conjunction of
    its assertions, over an in-memory [chat.db] and the sample JSON, client and file
    system of [Samples.v]. Left out are the tests of what is not in the repository: the
    migrations, the encryption of the file, and how [EnvFilter] reads a directive. *)
From stdpp Require Import sorting.
From Stdlib Require Import Ascii.
From S2P Require Import Prelude Utf8 LogFiles Logging Delivery Persistence ModuleState Runtime.
From S2P Require Import Actions Lifecycle Inbound SqliteMem Samples InboundFacts LogSpec.

Definition KEY : string := "rust-chat-test".

(** A [chat.db] that holds [disk], opened; and what a later [open] of it loads. *)
Definition opened (disk : tables) : result mem string := open (DB := mem_sqlite disk) "chat.db" KEY.
Definition reopened (disk : tables) : result AppState string :=
  conn ←? opened disk; load_state (DB := mem_sqlite disk) conn.
#[local] Instance db : Sqlite := mem_sqlite tables_empty.

(** ** [actions.rs] *)

Module ActionsTests.

Definition direct_chat (chat_id : string) : ChatSession :=
  mk_chat_session chat_id None Direct None None None [] 0 false.

Definition read_back (m : DisplayMessage) : bool * string * Z * option string :=
  (from_self m, content m, timestamp_ms m, sender m).

Definition recorded_messages_read_back_after_a_restart : Prop :=
  match opened tables_empty with Err _ => False | Ok conn =>
  let d := set_db conn display_default in
  let d := set_chats (<["convo-1" := direct_chat "convo-1"]> (chats (d_state d))) d in
  let '(first, d) :=
    record_message d (chat_message "convo-1" Sent 1 (as_bytes "hi raya")) true in
  let received := mk_message "convo-1" "convo-1" Persistence.Received (Some "raya-account")
    (Some "raya-device") 2 (as_bytes "hi saro") in
  let '(second, d) := record_message d received false in
  is_ok first = true ∧ is_ok second = true ∧
  match reopened (default tables_empty (mem_view <$> d_chat_db d)) with Err _ => False | Ok state =>
    map read_back <$> (messages <$> chats state !! "convo-1") =
    Some [(true, "hi raya", 1%Z, None); (false, "hi saro", 2%Z, Some "raya-account")]
  end end.

Definition a_history_only_group_invited_back_is_live : Prop :=
  let CONVO := "history-only-group" in
  let w := (run (with_display_mut (λ d,
    (tt, set_chats (<[CONVO := mk_chat_session CONVO None Group None None None [] 0 true]>
                      (chats (d_state d))) d, []))) (world0 tables_empty)).2 in
  let w := (run (record_conversation_started CONVO Group) w).2 in
  (run (with_display (R := option bool) (λ d, history_only <$> chats (d_state d) !! CONVO)) w).1 =
  Some false.

Definition only_a_delivery_that_never_started_is_retried : Prop :=
  let set_up (s : DeliveryState) (detail : string) :=
    with_display_mut (λ d, let '(d, os) := set_delivery_state (set_delivery s d) Error detail in
                           (tt, d, os)) in
  let w := (run (set_up initialising "createNode failed") (world0 tables_empty)).2 in
  let '(claimed, w) := run claim_delivery_retry w in
  let state := (run (with_display (λ d, ds_state (d_delivery_state d))) w).1 in
  let '(again, w) := run claim_delivery_retry w in
  let w := (run (set_up (set_started true (d_delivery_state (w_display w))) "connection lost") w).2 in
  let '(started, _) := run claim_delivery_retry w in
  claimed = true ∧ state = Initialising ∧ again = false ∧ started = false.

Definition display_starting : Display := set_delivery (set_starting true initialising) display_default.

Definition online_comes_with_the_node_started : Prop :=
  let '(d, _) := record_node_started display_starting true "" in
  ds_state (d_delivery_state d) = Online ∧ ds_started (d_delivery_state d) = true ∧
  ds_starting (d_delivery_state d) = false.

Definition a_failed_start_is_an_error_before_the_node_started : Prop :=
  let '(d, _) := record_node_started display_starting false "relay unavailable" in
  ds_state (d_delivery_state d) = Error ∧
  ds_detail (d_delivery_state d) = "delivery_module.start failed: relay unavailable" ∧
  ds_started (d_delivery_state d) = false.

Definition a_start_this_init_does_not_wait_for_is_ignored : Prop :=
  let d := set_delivery initialising display_default in
  let '(d, _) := record_node_started d true "" in
  let before := ds_state (d_delivery_state d) in
  let d := set_delivery (set_starting true (d_delivery_state d)) d in
  let '(d, _) := record_node_started d true "" in
  let '(d, _) := record_node_started d false "another consumer's start failed" in
  before = Initialising ∧ ds_state (d_delivery_state d) = Online.

Definition actions_tests : Prop :=
  recorded_messages_read_back_after_a_restart ∧ a_history_only_group_invited_back_is_live ∧
  only_a_delivery_that_never_started_is_retried ∧ online_comes_with_the_node_started ∧
  a_failed_start_is_an_error_before_the_node_started ∧
  a_start_this_init_does_not_wait_for_is_ignored.
Lemma actions_tests_pass : actions_tests.
Proof.
  split_and!; by vm_compute.
Qed.
End ActionsTests.

(** ** [delivery.rs] *)

Module DeliveryTests.

Definition answer (success : bool) (value error : json) : result Value LogosError :=
  Ok (JObject [("success", JBool success); ("value", value); ("error", error)]).

Definition a_successful_result_yields_its_value : Prop :=
  delivery_outcome (answer true (JString "enr:-abc") JNull) = Ok (JString "enr:-abc").

Definition a_refused_call_fails_with_delivery_modules_reason : Prop :=
  delivery_outcome (answer false JNull (JString "Context not initialized")) =
  Err "Context not initialized".

Definition a_refusal_without_a_reason_still_fails : Prop :=
  map (λ error, delivery_outcome (answer false JNull error)) [JNull; JString ""] =
  replicate 2 (Err "no reason given").

(** [LogosError]'s text is the sample's. *)
Definition a_call_that_never_arrived_keeps_its_error : Prop :=
  delivery_outcome (Err "no such module" : result Value LogosError) = Err "no such module".

Definition a_value_with_no_envelope_fails : Prop :=
  is_ok (delivery_outcome (Ok (JBool true) : result Value LogosError)) = false.

Definition delivery_tests : Prop :=
  a_successful_result_yields_its_value ∧ a_refused_call_fails_with_delivery_modules_reason ∧
  a_refusal_without_a_reason_still_fails ∧ a_call_that_never_arrived_keeps_its_error ∧
  a_value_with_no_envelope_fails.
Lemma delivery_tests_pass : delivery_tests.
Proof. unfold delivery_tests. by split_and?. Qed.
End DeliveryTests.

(** ** [module.rs] *)

Module ModuleTests.

Definition delivery_state_kind_is_lowercase_on_the_wire : Prop :=
  map state_as_str [Initialising; Online; Error; Stopped] =
  ["initialising"; "online"; "error"; "stopped"].

Definition module_tests : Prop := delivery_state_kind_is_lowercase_on_the_wire.
Lemma module_tests_pass : module_tests.
Proof. done. Qed.
End ModuleTests.

(** ** [persistence.rs] *)

Module PersistenceTests.

Definition chat (chat_id : string) (kind : ConversationKind) : ChatSession :=
  mk_chat_session chat_id None kind None None None [] 0 false.

Definition message (chat_id content : string) : Message :=
  mk_message chat_id chat_id Persistence.Received (Some "raya-account") (Some "raya-device") 42
    (as_bytes content).

Definition read_back_of (m : DisplayMessage) : bool * string * option string :=
  (from_self m, content m, sender m).

Definition state_reads_back_after_a_restart : Prop :=
  match opened tables_empty with Err _ => False | Ok conn =>
  let group := mk_chat_session "group" (Some "club") Group (Some "Book Club")
    (Some "Weekly reads") None [] 0 false in
  let '(saved, conn) := save_chat group conn in
  let direct := set_peer (Some "raya-account") (chat "direct" Direct) in
  let '(recorded, conn) :=
    Persistence.record_message (Some direct) (message "direct" "hi saro") conn in
  let '(named, conn) := save_installation_name (Some "saro-laptop") conn in
  is_ok saved = true ∧ is_ok recorded = true ∧ is_ok named = true ∧
  match reopened (mem_view conn) with Err _ => False | Ok state =>
    installation_name state = Some "saro-laptop" ∧
    match chats state !! "group" with None => False | Some group =>
      kind group = Group ∧ nickname group = Some "club" ∧ name group = Some "Book Club" ∧
      description group = Some "Weekly reads" ∧ messages group = []
    end ∧
    match chats state !! "direct" with None => False | Some direct =>
      kind direct = Direct ∧ peer direct = Some "raya-account" ∧
      map read_back_of (messages direct) = [(false, "hi saro", Some "raya-account")]
    end
  end end.

Definition a_long_chat_loads_its_newest_page_and_counts_the_rest : Prop :=
  match opened tables_empty with Err _ => False | Ok conn =>
  let '(stored, conn) := transaction
    (foldl (λ tx i, sql_then tx
         (λ c, store_record c (message "direct" ("m" +:+ pretty i))))
      (save_chat (chat "direct" Direct)) (seqZ 0 (Z.of_nat LOADED_PER_CHAT + 1))) conn in
  is_ok stored = true ∧
  match load_state conn with Err _ => False | Ok state =>
    match chats state !! "direct" with None => False | Some direct =>
      length (messages direct) = LOADED_PER_CHAT ∧
      content <$> head (messages direct) = Some "m1" ∧ older_messages direct = 1%Z
    end
  end end.

Definition a_deleted_chat_leaves_only_its_tombstone : Prop :=
  match opened tables_empty with Err _ => False | Ok conn =>
  let '(recorded, conn) :=
    Persistence.record_message (Some (chat "direct" Direct)) (message "direct" "hi saro") conn in
  let '(erased, conn) := delete_chat "direct" conn in
  is_ok recorded = true ∧ is_ok erased = true ∧
  match load_state conn with Err _ => False | Ok state =>
    map_to_list (chats state) = [] ∧ bool_decide ("direct" ∈ deleted state) = true ∧
    store_messages conn "direct" 10 = Ok []
  end end.

Definition a_cleared_installation_name_falls_back : Prop :=
  match opened tables_empty with Err _ => False | Ok conn =>
  let '(named, conn) := save_installation_name (Some "saro-laptop") conn in
  let '(cleared, conn) := save_installation_name None conn in
  is_ok named = true ∧ is_ok cleared = true ∧
  match load_state conn with Err _ => False | Ok state => installation_name state = None end
  end.

Definition conversation_kind_uses_contract_strings : Prop :=
  kind_as_str Direct = "direct" ∧ kind_as_str Group = "group".

Definition persistence_tests : Prop :=
  state_reads_back_after_a_restart ∧ a_long_chat_loads_its_newest_page_and_counts_the_rest ∧
  a_deleted_chat_leaves_only_its_tombstone ∧ a_cleared_installation_name_falls_back ∧
  conversation_kind_uses_contract_strings.
Lemma persistence_tests_pass : persistence_tests.
Proof. split_and!; vm_compute; by split_and!. Qed.
End PersistenceTests.

(** ** [inbound.rs] *)

Module InboundTests.

(** The event, decoded: its payload is base64 on the wire. *)
Definition forwards_delivery_message_with_source_field : Prop :=
  let payload := as_bytes "chat invite" in
  let event := mk_received "hash" "/logos-chat/1/alice/proto" payload "live" in
  (forward_message (Some event) seen_default).1.2 = [payload].

(** The [first_sighting]s of a list of hashes, one after the other. *)
Fixpoint sight_all (seen : SeenMessages) (hashes : list string) : list bool * SeenMessages :=
  match hashes with
  | [] => ([], seen)
  | h :: hashes =>
      let '(first, seen) := first_sighting seen h in
      let '(rest, seen) := sight_all seen hashes in (first :: rest, seen)
  end.

Definition a_message_is_forwarded_once : Prop :=
  (sight_all seen_default ["0xa"; "0xb"; "0xa"]).1 = [true; true; false].

Definition the_oldest_hash_is_forgotten_at_capacity : Prop :=
  let '(first, seen) := sight_all seen_default (map pretty (seqZ 0 SEEN_CAPACITY)) in
  let '(more, seen) := first_sighting seen "one more" in
  let '(zero, seen) := first_sighting seen "0" in
  let '(newest, _) := first_sighting seen (pretty (SEEN_CAPACITY - 1)%Z) in
  Forall (eq true) first ∧ more = true ∧ zero = true ∧ newest = false.

Definition connection_status_maps_each_upstream_variant : Prop :=
  map map_connection_status ["Connected"; "PartiallyConnected"; "Disconnected"] =
  [Online; Online; Error].
Definition connection_status_unknown_maps_to_error : Prop :=
  map map_connection_status [""; "Reconnecting"] = [Error; Error].
Definition connectivity_ignored_until_started : Prop :=
  connection_transition false "Connected" = None ∧
  connection_transition false "Disconnected" = None.
Definition connectivity_drives_state_once_started : Prop :=
  connection_transition true "Disconnected" = Some Error ∧
  connection_transition true "Connected" = Some Online.
Definition class_maps_to_contract_kind : Prop :=
  kind_for_class Dm = Direct ∧ kind_for_class GroupClass = Group.

(** *** Filling the window *)

(** A hash the window does not hold is added at its end. *)
Lemma sight_new s h :
  seen_ok s → h ∉ seen_order s →
  (first_sighting s h).1 = true ∧ seen_ok (first_sighting s h).2 ∧
  seen_order (first_sighting s h).2 = last_n capacity (seen_order s ++ [h]).
Proof. intros Hs Hh. pose proof (first_sighting_eq s h Hs) as H. by rewrite bool_decide_eq_false_2 in H. Qed.

Lemma sight_all_new s hashes :
  seen_ok s → NoDup (seen_order s ++ hashes) → length (seen_order s ++ hashes) ≤ capacity →
  Forall (eq true) (sight_all s hashes).1 ∧ seen_ok (sight_all s hashes).2 ∧
  seen_order (sight_all s hashes).2 = seen_order s ++ hashes.
Proof.
  revert s. induction hashes as [|h hashes IH]; intros s Hs Hnd Hlen; cbn [sight_all].
  { by rewrite app_nil_r. }
  assert (seen_order s ++ h :: hashes = (seen_order s ++ [h]) ++ hashes) as E
    by by rewrite <-app_assoc.
  destruct (sight_new s h Hs) as (Hf & Hs1 & Ho).
  { apply NoDup_app in Hnd as (_ & Hno & _). intros Hin. apply (Hno h Hin). by left. }
  rewrite last_n_all in Ho by (rewrite E, length_app in Hlen; lia).
  destruct (first_sighting s h) as [f s1]. cbn [fst snd] in *.
  specialize (IH s1 Hs1). rewrite Ho, <-E in IH.
  destruct (sight_all s1 hashes) as [fs s2]. destruct (IH Hnd Hlen) as (? & ? & ?).
  cbn [fst snd]. split_and!; [by constructor|done..].
Qed.

Lemma pretty_digits i : (0 ≤ i)%Z → all_digits (pretty i) = true.
Proof.
  assert (∀ x s, all_digits s = true → all_digits (pretty_N_go x s) = true) as Hgo.
  { intros x. induction (N.lt_wf_0 x) as [x _ IH]. intros s Hs.
    destruct (decide (x = 0)%N) as [->|]; [done|]. rewrite pretty_N_go_step by lia.
    apply IH; [apply N.div_lt; lia|]. unfold all_digits. cbn.
    apply andb_true_iff. split; [unfold pretty_N_char; by repeat case_match|done]. }
  intros Hi. destruct i as [|p|p]; [done| |lia]. change (pretty (Z.pos p)) with (pretty (N.pos p)).
  unfold pretty, pretty_N. rewrite decide_False by done. by apply Hgo.
Qed.

(** The window's first and last hash, once it is full. *)
Lemma hashes_ends :
  ∃ mid, map pretty (seqZ 0 SEEN_CAPACITY) = "0" :: mid ++ [pretty (SEEN_CAPACITY - 1)%Z].
Proof.
  exists (map pretty (seqZ 1 (SEEN_CAPACITY - 2))).
  change ("0" :: ?l ++ ?l') with (map (pretty (A := Z)) [0%Z] ++ l ++ l').
  change [pretty (SEEN_CAPACITY - 1)%Z] with (map (pretty (A := Z)) [(SEEN_CAPACITY - 1)%Z]).
  rewrite <-!map_app. change [(SEEN_CAPACITY - 1)%Z] with (seqZ (1 + (SEEN_CAPACITY - 2)) 1).
  rewrite <-seqZ_app by (unfold SEEN_CAPACITY; lia). change [0%Z] with (seqZ 0 1).
  change (seqZ 1 ?n) with (seqZ (0 + 1) n).
  rewrite <-seqZ_app by (unfold SEEN_CAPACITY; lia). f_equal.
Qed.

Lemma one_more_new : "one more" ∉ map pretty (seqZ 0 SEEN_CAPACITY).
Proof.
  intros (i & Ei & Hi%elem_of_seqZ)%list_elem_of_fmap.
  pose proof (pretty_digits i) as Hd. rewrite <-Ei in Hd. discriminate Hd. lia.
Qed.

Lemma window_full : the_oldest_hash_is_forgotten_at_capacity.
Proof.
  unfold the_oldest_hash_is_forgotten_at_capacity.
  assert (NoDup (map pretty (seqZ 0 SEEN_CAPACITY))) as Hnd
    by (apply NoDup_fmap_2; [apply _|apply NoDup_seqZ]).
  assert (length (map pretty (seqZ 0 SEEN_CAPACITY)) = capacity) as Hlen
    by (by rewrite length_map, length_seqZ).
  pose proof one_more_new as Hmore. destruct hashes_ends as [mid Emid].
  change ("0" :: ?l ++ ?l') with (("0" :: l) ++ l') in Emid. rewrite Emid in *. set (last := pretty _) in *. clearbody last.
  pose proof (sight_all_new seen_default _ seen_default_ok Hnd (Nat.eq_le_incl _ _ Hlen)) as H.
  destruct (sight_all _ _) as [first s]. destruct H as (Hfirst & Hs & Ho).
  cbn [fst snd] in *. change (seen_order seen_default) with (@nil string) in Ho. cbn [app] in Ho.
  destruct (sight_new s "one more" Hs) as (Hf1 & Hs1 & Ho1); [by rewrite Ho|].
  destruct (first_sighting s "one more") as [f1 s1]. cbn [fst snd] in *.
  assert (seen_order s1 = mid ++ [last; "one more"]) as Ho1'.
  { rewrite Ho1, Ho. unfold last_n. cbn [app]. rewrite <-Hlen. cbn [length app].
    rewrite !length_app. cbn [length].
    replace (S (length mid + 1 + 1) - S (length mid + 1)) with 1 by lia.
    cbn [drop]. by rewrite <-app_assoc. }
  cbn [app] in Hnd, Hmore. apply NoDup_cons in Hnd as [H0 Hnd].
  destruct (sight_new s1 "0" Hs1) as (Hf2 & Hs2 & Ho2).
  { rewrite Ho1'. rewrite !elem_of_app, !elem_of_cons in *. clear -H0.
    intros [?|[?|[?|?]]]; [apply H0; by left|apply H0; right; by left|done|].
    by apply not_elem_of_nil in H. }
  destruct (first_sighting s1 "0") as [f2 s2]. cbn [fst snd] in *.
  pose proof (first_sighting_eq s2 last Hs2) as (Hf3 & _).
  destruct (first_sighting s2 last) as [f3 s3]. cbn [fst snd] in *.
  split_and!; [done..|]. rewrite Hf3, bool_decide_eq_true_2; [done|].
  rewrite Ho2, Ho1'. unfold last_n. rewrite <-Hlen. cbn [length app]. rewrite !length_app.
  destruct mid as [|x mid]; [unfold capacity, SEEN_CAPACITY in Hlen; cbn in Hlen; lia|].
  cbn [length]. replace (S (length mid) + 2 + 1 - S (S (length mid) + 1)) with 1 by lia.
  cbn [app drop]. rewrite drop_0, !elem_of_app. left. right. by left.
Qed.

Definition inbound_tests : Prop :=
  forwards_delivery_message_with_source_field ∧ a_message_is_forwarded_once ∧
  the_oldest_hash_is_forgotten_at_capacity ∧ connection_status_maps_each_upstream_variant ∧
  connection_status_unknown_maps_to_error ∧ connectivity_ignored_until_started ∧
  connectivity_drives_state_once_started ∧ class_maps_to_contract_kind.
Lemma inbound_tests_pass : inbound_tests.
Proof. unfold inbound_tests. split_and?; [done|done|exact window_full|done..]. Qed.
End InboundTests.

(** ** [logging.rs] *)

Module LoggingTests.

(** A log open under a fixed stamp, and [count] lines written to it. *)
Definition log_at (stamp : string) : fs * run_log :=
  (mk_fs {[log_name stamp := 1%N]} {[1%N := []]},
   Some (mk_open_log 1 (log_name stamp) stamp 0 0)).

Fixpoint write_lines (count : nat) (s : fs) (log : run_log) : bool * run_log * fs :=
  match count with
  | 0 => (true, log, s)
  | S count =>
      let '(r, log, s) := run_log_write io_all_ok s log
        (as_bytes ("INFO: libchat: something happened" +:+ newline_str)) in
      let '(ok, log, s) := write_lines count s log in
      (is_ok r && ok, log, s)
  end.

Definition file_names (dir : gmap string N) : list string :=
  merge_sort String.le (map_to_list dir).*1.

Fixpoint split_at (sep : ascii) (l acc : list ascii) : list string :=
  match l with
  | [] => [String.string_of_list_ascii acc]
  | a :: l =>
      if bool_decide (a = sep) then String.string_of_list_ascii acc :: split_at sep l []
      else split_at sep l (acc ++ [a])
  end.
(** [str::trim]. *)
Fixpoint trim_start (cs : list (list ascii)) : list (list ascii) :=
  match cs with
  | c :: rest => if is_whitespace c then trim_start rest else cs
  | [] => []
  end.
Definition trim (s : string) : string :=
  String.string_of_list_ascii (concat (rev (trim_start (rev (trim_start (chars s)))))).
(** The sample's filter is the text it was made from. *)
Definition directives (filter : string) : list string :=
  merge_sort String.le (map trim (split_at ","%char (as_bytes filter) [])).

(** What the default directives are; that they parse is [EnvFilter]'s affair. *)
Definition every_default_directive_parses : Prop :=
  directives (filter_new (filter_for DEFAULT_LEVEL)) =
  ["chat_module=info"; "libchat=info"; "logos_generic_chat=info"; "warn"].

Definition every_level_applies_to_the_chat_core_and_nothing_else : Prop :=
  let levels := ["error"; "warn"; "info"; "debug"; "trace"] in
  map (λ level, directives (filter_from None (level_or_default level))) levels =
  map (λ level,
      ["chat_module=" +:+ level; "libchat=" +:+ level; "logos_generic_chat=" +:+ level; "warn"])
    levels.

Definition an_unusable_level_is_the_default_one : Prop :=
  map level_or_default [""; "verbose"; "INFO"; "9"] = replicate 4 DEFAULT_LEVEL.

Definition rust_log_wins_over_the_clients_level : Prop :=
  directives (filter_from (Some "libchat=trace") "error") = ["libchat=trace"].

Definition an_empty_or_unusable_rust_log_is_no_choice_at_all : Prop :=
  map (λ env, directives (filter_from (Some env) "debug")) [""; "   "; "libchat=nonsense"] =
  replicate 3 (directives (filter_new (filter_for "debug"))).

Definition every_level_names_itself_the_way_a_host_reads_it : Prop :=
  map severity [ERROR; WARN; INFO; DEBUG; TRACE] = ["ERROR"; "WARNING"; "INFO"; "DEBUG"; "TRACE"].

(** The time as the local clock gave it. *)
Definition line_time : string := "2026-07-30T12:00:00.000".

(** The sink a subscriber writes its lines to, and its [io::Write]: it takes all it is
    given, so a line is one [write]. *)
Record Captured := mk_captured { captured : list ascii }.
Definition captured_write (sink : Captured) (buf : list ascii) : Z * Captured :=
  (Z.of_nat (length buf), mk_captured (captured sink ++ buf)).

(** What the sink holds once the events of [emit] (level, target, formatted fields) went
    through a subscriber that formats them with [format_event]. *)
Definition captured_line (format_event : Level → string → string → string)
    (emit : list (Level * string * string)) : string :=
  let sink := foldl (λ sink '(level, target, fields),
    (captured_write sink (as_bytes (format_event level target fields))).2)
    (mk_captured []) emit in
  String.string_of_list_ascii (captured sink).
Definition line_for : list (Level * string * string) → string := captured_line host_line.
Definition stamped_line_for : list (Level * string * string) → string :=
  captured_line (stamped_line line_time).

Definition a_line_leads_with_its_severity_then_its_target : Prop :=
  line_for [(WARN, "chat_module::logging::tests", "wakeup failed convo=3f2a")] =
  "WARNING: chat_module::logging::tests: wakeup failed convo=3f2a" +:+ newline_str.

Definition a_file_line_leads_with_the_time : Prop :=
  split_once " "%char
    (stamped_line_for [(WARN, "chat_module::logging::tests", "wakeup failed")]) =
  Some (line_time, "WARNING: chat_module::logging::tests: wakeup failed" +:+ newline_str).

Definition a_line_written_outside_tracing_is_stamped_like_the_rest : Prop :=
  let '(s, log) := log_at "20260730_120000" in
  let '(_, s) := write_stamped io_all_ok false line_time s log
    "CRITICAL: chat_module: panic at group_v1.rs:340:14: boom" in
  split_once " "%char (String.string_of_list_ascii
    (name_bytes s "chat_module_20260730_120000.log")) =
  Some (line_time, "CRITICAL: chat_module: panic at group_v1.rs:340:14: boom" +:+ newline_str).

Definition a_busy_file_costs_the_line_and_not_the_process : Prop :=
  let '(s, log) := log_at "20260730_120000" in
  let '(_, s) := write_stamped io_all_ok true line_time s log
    "CRITICAL: chat_module: panic while holding the file" in
  name_bytes s "chat_module_20260730_120000.log" = [].

Definition a_log_with_nowhere_to_write_swallows_its_lines : Prop :=
  let '(ok, log, _) := write_lines 3 (mk_fs ∅ ∅) inert in
  ok = true ∧ run_log_path "/data" log = "".

Definition a_full_file_is_moved_aside_and_the_announced_path_reopened : Prop :=
  let '(s, log) := log_at "20260730_142811" in
  let '(ok, log', s) := write_lines (Z.to_nat ROTATE_AFTER_LINES) s log in
  ok = true ∧ run_log_path "/data" log' = run_log_path "/data" log ∧
  file_names (fs_dir s) =
    ["chat_module_20260730_142811.001.log"; "chat_module_20260730_142811.log"] ∧
  name_bytes s "chat_module_20260730_142811.log" = [].

(** [format!("202607{day:02}_120000")]. *)
Definition july (day : Z) : string :=
  "202607" +:+ (if (day <? 10)%Z then "0" else "") +:+ pretty day +:+ "_120000".
Definition july_files : list string :=
  concat (map (λ day, [log_name (july day); aside_name (july day) 1]) (seqZ 1 12)).
Definition strangers : list string :=
  ["chat_ui_20260701_120000.log"; "chat_module_notastamp.log"].

(** [Vec::dedup] on a sorted list. *)
Fixpoint dedup (l : list string) : list string :=
  match l with
  | x :: ((y :: _) as l) => if str_eqb x y then dedup l else x :: dedup l
  | l => l
  end.

Definition pruning_keeps_ten_runs_and_counts_a_runs_rotations_as_one : Prop :=
  let names := july_files ++ strangers in
  let dir := list_to_map (map (λ name, (name, 1%N)) names) in
  let kept := file_names (prune_runs (Some names) (λ _, true) dir) in
  let stamps := dedup (omap stamp_of kept) in
  length kept = 10 * 2 + 2 ∧ forallb (λ name, bool_decide (name ∈ kept)) strangers = true ∧
  length stamps = KEEP_RUNS ∧ head stamps = Some "20260703_120000".

Definition only_this_modules_run_files_carry_a_stamp : Prop :=
  map stamp_of ["chat_module_20260730_142811.log"; "chat_module_20260730_142811.007.log"] =
    [Some "20260730_142811"; Some "20260730_142811"] ∧
  map stamp_of
    ["chat_ui_20260730_142811.log"; "chat_module_20260730_142811.log.bak";
     "chat_module_2026073_142811.log"; "chat_module_20260730_14281x.log";
     "chat_module_20260730_142811.7.log"; "chat_module.log"] = replicate 6 None.

(** *** Filling the file *)

Lemma first_rotation s ol :
  ol_path ol = log_name (ol_stamp ol) → ol_rotations ol = 0%Z →
  fs_dir s !! ol_path ol = Some (ol_file ol) →
  rotate io_all_ok s ol =
  (Ok tt, mk_open_log (new_inode s) (ol_path ol) (ol_stamp ol) 0 1,
   mk_fs (<[ol_path ol := new_inode s]> (<[aside_name (ol_stamp ol) 1 := ol_file ol]>
            (delete (ol_path ol) (fs_dir s)))) (<[new_inode s := []]> (fs_data s))).
Proof.
  intros Hp Hr Hf.
  assert (aside_name (ol_stamp ol) 1 ≠ ol_path ol) as Hap by (rewrite Hp; apply aside_name_not_log).
  unfold rotate, rename, create. cbn. rewrite Hr.
  change ((0 + 1) mod u32_max_plus_1)%Z with 1%Z. rewrite Hf. cbn.
  by rewrite lookup_insert_ne, lookup_delete_eq.
Qed.

Lemma write_lines_S count s log :
  write_lines (S count) s log =
  (let '(r, log, s) := run_log_write io_all_ok s log
     (as_bytes ("INFO: libchat: something happened" +:+ newline_str)) in
   let '(ok, log, s) := write_lines count s log in (is_ok r && ok, log, s)).
Proof. done. Qed.

(** The line that spends the budget moves the file aside; those before it do not. *)
Lemma write_lines_full n s ol :
  ol_path ol = log_name (ol_stamp ol) → ol_rotations ol = 0%Z → (0 ≤ ol_lines ol)%Z →
  (ol_lines ol + Z.of_nat (S n) = ROTATE_AFTER_LINES)%Z →
  fs_dir s !! ol_path ol = Some (ol_file ol) →
  ∃ i d, write_lines (S n) s (Some ol) =
    (true, Some (mk_open_log i (ol_path ol) (ol_stamp ol) 0 1),
     mk_fs (<[ol_path ol := i]> (<[aside_name (ol_stamp ol) 1 := ol_file ol]>
              (delete (ol_path ol) (fs_dir s)))) (<[i := []]> d)).
Proof.
  revert s ol. induction n as [|n IH]; intros s ol Hp Hr H0 Hn Hf; rewrite write_lines_S;
    cbn [run_log_write]; unfold append, write_all; cbn [io_write io_all_ok fst snd];
    change (count_newlines _) with 1%Z; cbn [ol_lines];
    rewrite as_u64_id by (unfold in_u64, u64_max_plus_1, ROTATE_AFTER_LINES in *; lia).
  - rewrite (proj2 (Z.leb_le _ _)) by lia. rewrite first_rotation by done.
    by eexists _, _.
  - rewrite (proj2 (Z.leb_gt _ _)) by lia.
    match goal with |- context [write_lines _ ?s1 (Some ?ol1)] =>
      destruct (IH s1 ol1) as (i & d & E); [done|done|cbn; lia|cbn; lia|done|rewrite E] end.
    by exists i, d.
Qed.

Lemma file_filled : a_full_file_is_moved_aside_and_the_announced_path_reopened.
Proof.
  unfold a_full_file_is_moved_aside_and_the_announced_path_reopened, log_at.
  replace (Z.to_nat ROTATE_AFTER_LINES) with (S (Z.to_nat (ROTATE_AFTER_LINES - 1)))
    by (unfold ROTATE_AFTER_LINES; lia).
  match goal with |- context [write_lines (S ?n) ?s (Some ?ol)] =>
    destruct (write_lines_full n s ol) as (i & d & E); [done|done|done| |done|rewrite E] end.
  { unfold ROTATE_AFTER_LINES. cbn [ol_lines]. lia. }
  split_and!; [done..|by vm_compute|].
  unfold name_bytes, inode_bytes. cbn [fs_dir fs_data ol_path].
  by rewrite lookup_insert_eq, lookup_insert_eq.
Qed.

Definition logging_tests : Prop :=
  every_default_directive_parses ∧
  every_level_applies_to_the_chat_core_and_nothing_else ∧
  an_unusable_level_is_the_default_one ∧ rust_log_wins_over_the_clients_level ∧
  an_empty_or_unusable_rust_log_is_no_choice_at_all ∧
  every_level_names_itself_the_way_a_host_reads_it ∧
  a_line_leads_with_its_severity_then_its_target ∧ a_file_line_leads_with_the_time ∧
  a_line_written_outside_tracing_is_stamped_like_the_rest ∧
  a_busy_file_costs_the_line_and_not_the_process ∧
  a_log_with_nowhere_to_write_swallows_its_lines ∧
  a_full_file_is_moved_aside_and_the_announced_path_reopened ∧
  pruning_keeps_ten_runs_and_counts_a_runs_rotations_as_one ∧
  only_this_modules_run_files_carry_a_stamp.
Lemma logging_tests_pass : logging_tests.
Proof.
  unfold logging_tests. split_and?; [| | | | | | | | | | |exact file_filled| |]; vm_compute; by split_and?.
Qed.
End LoggingTests.

(** The crate's tests hold of the model: the restart and deletion round trips of
    [chat.db], the delivery state's transitions, the readings of delivery_module's
    answers, the window of seen hashes at its capacity, the lines, levels and names of
    the log, and its rotation and pruning. *)
Theorem source_tests_pass :
  ActionsTests.actions_tests ∧ DeliveryTests.delivery_tests ∧ ModuleTests.module_tests ∧ PersistenceTests.persistence_tests ∧
  InboundTests.inbound_tests ∧ LoggingTests.logging_tests.
Proof.
  split; [exact ActionsTests.actions_tests_pass|]. split; [exact DeliveryTests.delivery_tests_pass|].
  split; [exact ModuleTests.module_tests_pass|]. split; [exact PersistenceTests.persistence_tests_pass|].
  split; [exact InboundTests.inbound_tests_pass|exact LoggingTests.logging_tests_pass].
Qed.
